(* ===== verification/_CoqProject ===== *)
-Q . S2P
Prelude.v
GoLib.v
Types.v
Amount.v
LeaseMath.v
Encoding.v
EncodingFacts.v
Crypto.v
Multisig.v
Attestation.v
Genesis.v
Reputation.v
Store.v
Ledger.v
Rollback.v
Handlers.v
Restart.v
AddBlock.v
Swap.v
Quorum.v
Vote.v
LedgerSpec.v
LedgerCommit.v
LedgerRules.v
LedgerCalls.v
LedgerUndo.v
LedgerHistory.v
LedgerPlan.v
VoteFacts.v
LedgerRestart.v
LedgerRefine.v
LedgerTrace.v
VoteFrame.v
VoteLock.v
LedgerSwap.v
LedgerReorg.v
LedgerSafety.v
LedgerAuth.v
Scenario.v
LedgerTheorems.v
ReorgTheorems.v
VoteTheorems.v
Supply.v
SupplyInv.v
SupplyFacts.v
SupplyAudit.v
SupplyTheorems.v
Wallet.v
WalletFacts.v
WalletSend.v
WalletTheorems.v
LeaseTheorems.v
MemStore.v
MemFacts.v
Json.v
StateKV.v
StateChain.v
StateFacts.v
StateTheorems.v
