(* ===== verification/Prelude.v ===== *)
(** * The XE ledger: a verification development

    XE is a block-lattice ledger in Go: every account owns a hash chain of
    signed blocks, a send puts its amount in flight until the destination
    receives it, compute leases escrow XUSD and mint XE when they are settled,
    and the XE an account holds is the voting weight of its representative.
    This library translates the deterministic part of that program into
    executable definitions and proves what makes it correct.

    ** The parts and where they are modelled

    - [Prelude], [GoLib]: machine integers with explicit wrap-around, errors,
      the state-and-error monad in which stateful code is written, the logic of
      what an operation leaves alone ([keeps]); the Go standard library the
      sources use (strings, strconv, hex, binary, UTF-8).
    - [Types] ([core/types.go], [core/store.go]): blocks, leases, commits.
    - [Amount] ([core/amount.go]): decimal amounts.
    - [LeaseMath] ([core/ledger.go]): prices, emission and lease timing.
    - [Encoding], [EncodingFacts] ([core/encoding.go], [core/memo.go]): the
      bytes a hash covers, the binary block and vote formats.
    - [Crypto] ([core/crypto.go], [core/pow.go], [core/address.go]): hashing,
      signing and addresses over the class [Crypto] of primitives, whose
      documented behaviour is the class [CryptoLaws]; [Crypto.Toy] is an
      instance, used to evaluate examples.
    - [Multisig], [Attestation], [Genesis], [Reputation]: the files of [core/]
      with those names.
    - [Store] ([core/store.go]): what a store promises, as finite maps with
      atomic writes.
    - [Ledger], [Rollback], [Handlers], [AddBlock] ([core/ledger.go],
      [core/cascade_commit.go], [core/repeligibility.go], [core/rollback.go],
      [core/mint.go], [core/lease_renew.go], [core/conflict.go],
      [core/activations.go], [core/retryable.go]): the state of a node's ledger
      and everything [AddBlock] does, one definition per Go function, checks in
      the order of the source.
    - [Restart] ([core/ledger.go]): the constructor [NewLedger], which writes the
      genesis block into an empty store or rebuilds the caches from a full one.
    - [Swap] ([core/rollback.go], [core/ledger.go]): planning which blocks a
      promotion undoes, building the overlay, and the swap itself.
    - [Quorum] ([core/quorum.go]): the tally of final votes, the confirmation of
      a winner and the sweep over stale conflicts, on the record [Node]: the
      ledger with the state of the quorum and vote managers and what they send.
    - [Vote] ([core/vote.go], [core/finalization.go]): validation and intake of
      votes, the node's own preference, its lock and its final votes.
    - [Json] (what the sources use of [encoding/json]), [StateKV]
      ([statechain/kvstore.go], [statechain/activations.go]) and [StateChain]
      ([statechain/chain.go], [statechain/genesis.go], [statechain/encoding.go],
      [statechain/crypto.go]): the governance chain, its settings and its store.
    - [Supply] ([core/supply.go], [core/spendable.go]): the supply auditor with
      its cache, and spendable balances.
    - [Wallet] ([node/node.go], [node/lease_renew.go], [node/policy.go]): what a
      node does with its own account: transfers, lease offers and renewals, the
      loop that settles, force-settles and archives leases.
    - [MemStore] ([store/mem_store.go]): the store in memory, with its index of
      pending sends behind pointers and its joined keys.

    The Go struct [Ledger] is the record [Ledger.Ledger]; its configuration, the
    clock, the callbacks and the faults of the store are the record [Env].  A
    method is a function [Ledger -> result A * Ledger]: an error keeps the state
    reached, as in Go.  Locks are not state: calls on one account are serialised
    by them, and a run of the model is one order in which calls finish.  The
    callbacks of the ledger and the timers of the vote manager are calls of their
    own ([VoteLock.input]); the order in which Go iterates over a map is an
    argument ([ve_order], [ve_conflicts]).

    ** What is proved

    - Arithmetic: parsing and printing amounts are exact and inverse; prices and
      emissions are the exact rounded values or an error; no overflow is silent.
    - Formats: the hash input determines every signed field; block and vote
      encodings round-trip, except for what the binary block format drops (certificate
      and attestations, the nonce of multisig blocks); memos and assets are bounded.
    - Credentials: signed blocks verify, multisig acceptance is exactly the
      threshold rule, attested times are backed by a majority, the settlement
      windows of a valid genesis never overlap.
    - [LedgerSpec] states the abstract rules of the protocol ([accepts], one
      rule per block type) and the invariant [ledger_inv]; [LedgerCommit] and
      [LedgerRules] prove that a rule preserves the invariant and moves supply
      as it should; [LedgerCalls], [LedgerUndo] and [LedgerRefine] prove that
      the handlers implement the rules; [LedgerRestart] that a restart rebuilds
      what it should; [LedgerTrace], [LedgerSafety] and [LedgerAuth] lift this to
      sequences of calls to [addBlock], restarts and confirmations.
      [LedgerTheorems] collects the results: conservation of XE and XUSD, voting
      weight, chain structure, single spending, the life of a lease, finality,
      restarts, authenticity, atomic refusal, exact transfers that are received at most
      once.  [Scenario] is a concrete network on which the theorems are instantiated.
    - Promotions: [LedgerHistory] states what the chains remember of every
      transfer, [LedgerPlan] that a plan stops, stays above the final heights and
      undoes a receive before its send, [LedgerSwap] that the overlay stands for
      the ledger the undos lead to and that the one atomic write is the winner's
      write on it; [LedgerReorg] adds promotions to the sequences of actions and
      [ReorgTheorems] collects the results and runs a concrete fork.  They are about
      promotions as [promotable] describes them: the winner was never stored and is not
      a lease cancellation, the replaced block is a send, a receive, a burn or a mint,
      and the store can read blocks.
    - Votes: [VoteFacts] shows what a tally returns and that two quorums of one
      snapshot share an honest representative; [VoteFrame] that the ledger never
      touches votes or locks; [VoteLock] that every call of a node, the restart
      included, keeps its locks and signs final votes for them only, or for what
      is final.  [VoteTheorems] collects the results, runs an election, and shows
      a run in which moving stake votes twice.
    - Supply audit: [SupplyInv] adds to the invariant what the auditor relies on,
      [SupplyFacts] and [SupplyAudit] show what a walk counts, and
      [SupplyTheorems] that a report passes exactly when the balances add up to
      the chains, whatever they are (a sum that overflows is noticed), as long as no
      lease is renewed; a run with a renewal shows the
      false alarm.  What is spendable is bounded by what is final.
    - A node at work: [WalletFacts] shows that every operation of a node keeps the
      ledger well formed and what has ended, ended; [WalletSend] that a covered
      send is accepted.  [WalletTheorems] collects this for any interleaving with
      calls by others, shows that a lease is archived only when no gossiped block can
      be accepted for it (for a timing whose archive gap exceeds the attestation skew),
      and that the loop does not refund a renewed lease.
    - The end of a lease: [LeaseTheorems] shows that a lease that was settled,
      cancelled, unfulfilled or archived is never touched again, also not by the
      settlement that a node which archived too early learns by syncing; that a
      cancellation gives back the price of the lease block and destroys what renewals
      added; and that a cancellation refused for its balance has unwound the
      acceptance.
    - Storage: [MemFacts] shows that any sequence of the writes in [store_write] to the
      store in memory is answered, and read back, as the interface says; these are all
      writes of the interfaces in [core/store.go] and [core/types.go] but
      [PutPendingSend], which shares a pointer between two maps, and the certificates.
    - Governance: [StateFacts] and [StateTheorems] show that every block of the
      governance chain is signed by the authority in force, that its one-way
      settings only move forward and that a restart rebuilds the state, and a run
      in which an accepted block keeps the node from starting.

    ** Bounds and fuel

    The proof-of-work search takes fuel, and [ComputePoW_terminates] shows that
    [2^64] steps are enough.  The recursion that plans a rollback takes fuel too;
    [swap_plan_terminates] shows that no call is nested deeper than the number of blocks
    on the chains plus one, whatever stands in for deeper calls.  Amounts and
    timestamps are unbounded integers whose wrap-around is written out wherever
    the source can wrap.  Theorems on sequences of calls ask that the amounts in
    blocks are 64-bit numbers, which the Go types ensure, and that the amounts of all
    mint blocks offered to the node, refused and repeated ones included, add up to
    less than [2^64].

    ** What is not modelled

    - The badger store ([store/badger_store.go]): transactions of a third-party
      database over keys and values it encodes.  Its contract is [Store];
      [MemStore] is the store that is checked against it.
    - The network ([net/]): streams, gossip and peer management over a third-party
      library.  What reaches the ledger through it are the calls of [action] and
      [VoteLock.input].
    - The rest of the node ([node/]): the market for leases and the acceptance
      loop, which wait for peers and start machines, health reports, certificate
      sets and gateways.  What the node's operations ask of peers (attestations,
      certificates, publishing) is an argument ([Wallet]).
    - The HTTP interface, the client and the command line ([api/], [client/],
      [cmd/]): parsing of requests and flags around calls that are modelled.
    - Virtual machines, chat, directory and performance certificates ([vm/],
      [chat/], [directory/], [perf/]): processes, files and services that do not
      change the ledger.
    - Recovery phrases ([core/recovery_phrase.go]): an embedded word list, Unicode
      normalisation and key derivation by libraries, without ledger state.
    - Goroutines and locks, as said above, and what is only logged or counted. *)
From stdpp Require Export base gmap strings list fin_maps sorting.
From Stdlib Require Export ZArith Lia.
From Stdlib Require Import ZifyBool.

#[global] Open Scope Z_scope.

(** ** Machine integers

    Go's [uint64] and [int64] are kept as [Z]; every arithmetic operation of
    the source that can wrap is written with one of the functions below. *)

Definition two64 : Z := 18446744073709551616.
Definition two63 : Z := 9223372036854775808.
Definition max_u64 : Z := 18446744073709551615.
Definition max_i64 : Z := 9223372036854775807.
Definition min_i64 : Z := -9223372036854775808.

Definition u64 (z : Z) : Z := z mod two64.
Definition i64 (z : Z) : Z := (z + two63) mod two64 - two63.

Definition u64_add (a b : Z) : Z := u64 (a + b).
Definition u64_sub (a b : Z) : Z := u64 (a - b).
Definition u64_mul (a b : Z) : Z := u64 (a * b).
Definition i64_add (a b : Z) : Z := i64 (a + b).
Definition i64_sub (a b : Z) : Z := i64 (a - b).
Definition i64_mul (a b : Z) : Z := i64 (a * b).

Definition is_u64 (z : Z) : Prop := 0 <= z < two64.
Definition is_i64 (z : Z) : Prop := - two63 <= z < two63.

Lemma u64_small z : is_u64 z → u64 z = z.
Proof. intros H. apply Z.mod_small, H. Qed.

Lemma u64_range z : is_u64 (u64 z).
Proof. apply Z.mod_pos_bound. reflexivity. Qed.

Lemma i64_small z : is_i64 z → i64 z = z.
Proof. unfold is_i64, i64, two63, two64. intros H. rewrite Z.mod_small; lia. Qed.

Lemma i64_range z : is_i64 (i64 z).
Proof.
  unfold is_i64, i64. pose proof (Z.mod_pos_bound (z + two63) two64).
  unfold two63, two64 in *. lia.
Qed.

(** The overflow test of the source, [a + b < a], detects exactly the sums
    that do not fit. *)
Lemma u64_add_overflow a b :
  is_u64 a → is_u64 b → u64_add a b < a ↔ two64 <= a + b.
Proof.
  unfold is_u64, u64_add, u64. intros Ha Hb. split.
  - intros H. destruct (Z_lt_le_dec (a + b) two64); [|done].
    rewrite Z.mod_small in H by lia. lia.
  - intros H. replace ((a + b) mod two64) with (a + b - two64).
    + unfold two64 in *. lia.
    + apply (Z.mod_unique _ _ 1); unfold two64 in *; lia.
Qed.

Lemma u64_add_exact a b :
  is_u64 a → is_u64 b → ¬ (u64_add a b < a) → u64_add a b = a + b.
Proof.
  intros Ha Hb H. rewrite u64_add_overflow in H by done.
  apply u64_small. unfold is_u64 in *. lia.
Qed.

Lemma u64_sub_exact a b : is_u64 a → is_u64 b → b <= a → u64_sub a b = a - b.
Proof. intros ???. apply u64_small. unfold is_u64 in *. lia. Qed.

(** ** Errors and the result of a call

    A Go [error] is its message together with the sentinel errors it is or
    wraps ([errors.Is]). *)
Record error := mkError { err_msg : string; err_is : list string }.

Definition errorf (m : string) : error := mkError m [].
Definition sentinel (name m : string) : error := mkError m [name].
(** [fmt.Errorf("prefix%w", err)] *)
Definition wrapf (prefix : string) (e : error) : error :=
  mkError (prefix +:+ err_msg e) (err_is e).

(** A run-time panic, kept as an error value that no other error equals. *)
Definition panic (m : string) : error := mkError ("panic: " +:+ m) ["runtime.Error"].

#[global] Instance error_eq_dec : EqDecision error.
Proof. solve_decision. Defined.

Definition errors_Is (e : error) (name : string) : bool :=
  bool_decide (name ∈ err_is e).

Inductive result (A : Type) : Type :=
| Ok (a : A)
| Err (e : error).
Arguments Ok {A} _.
Arguments Err {A} _.

Definition is_ok {A} (r : result A) : bool := match r with Ok _ => true | Err _ => false end.

Definition result_map_err {A} (f : error → error) (r : result A) : result A :=
  match r with Ok a => Ok a | Err e => Err (f e) end.

(** *** The error monad, for code that does not touch shared state *)
Definition rbind {A B} (r : result A) (k : A → result B) : result B :=
  match r with Ok a => k a | Err e => Err e end.

Definition rfail_if (c : bool) (e : error) : result unit :=
  if c then Err e else Ok ().

(** *** The state-and-error monad

    A failed call keeps the state it reached: Go does not roll back. *)
Definition M (S A : Type) : Type := S → result A * S.

Definition mret_ {S A} (a : A) : M S A := λ s, (Ok a, s).
Definition mfail {S A} (e : error) : M S A := λ s, (Err e, s).
Definition mbind_ {S A B} (m : M S A) (k : A → M S B) : M S B :=
  λ s, match m s with
       | (Ok a, s1) => k a s1
       | (Err e, s1) => (Err e, s1)
       end.
Definition mget {S} : M S S := λ s, (Ok s, s).
Definition mgets {S A} (f : S → A) : M S A := λ s, (Ok (f s), s).
Definition mmodify {S} (f : S → S) : M S unit := λ s, (Ok (), f s).
Definition mlift {S A} (r : result A) : M S A := λ s, (r, s).
(** [if c { return err }] *)
Definition mfail_if {S} (c : bool) (e : error) : M S unit := mlift (rfail_if c e).
(** [if err != nil { return fmt.Errorf("...%w", err) }] *)
Definition mwrap {S A} (f : error → error) (m : M S A) : M S A :=
  λ s, let '(r, s1) := m s in (result_map_err f r, s1).
(** Run [m] and hand its result, error or not, to the continuation. *)
Definition mtry {S A B} (m : M S A) (k : result A → M S B) : M S B :=
  λ s, let '(r, s1) := m s in k r s1.

Declare Scope go_scope.
Delimit Scope go_scope with go.
Notation "'let!' x := m 'in' k" := (mbind_ m (λ x, k))
  (at level 10, x pattern, m at level 100, k at level 200) : go_scope.
Notation "m ;! k" := (mbind_ m (λ _, k)) (at level 199, right associativity) : go_scope.
Notation "'let?' x := m 'in' k" := (rbind m (λ x, k))
  (at level 10, x pattern, m at level 100, k at level 200) : go_scope.
Notation "m ;? k" := (rbind m (λ _, k)) (at level 199, right associativity) : go_scope.
Notation "a =?s b" := (bool_decide (a = b)) (at level 70) : go_scope.
#[global] Open Scope go_scope.

(** [for _, x := range l { f(x) }], an error in the body ending the loop *)
Fixpoint mfor {S A} (f : A → M S unit) (l : list A) : M S unit :=
  match l with
  | [] => mret_ ()
  | x :: l => f x ;! mfor f l
  end.

Lemma ok_inj {A} (a b : A) : Ok a = Ok b → a = b.
Proof. by intros [= ->]. Qed.

Lemma pair_ok_inj {A S} (a b : A) (s t : S) : (Ok a, s) = (Ok b, t) → a = b ∧ s = t.
Proof. by intros [= -> ->]. Qed.

Lemma rbind_ok {A B} (m : result A) (k : A → result B) r :
  rbind m k = Ok r ↔ ∃ x, m = Ok x ∧ k x = Ok r.
Proof. destruct m; naive_solver. Qed.

Lemma rfail_if_ok c e : rfail_if c e = Ok () ↔ c = false.
Proof. destruct c; naive_solver. Qed.

Lemma mbind_ok {S A B} (m : M S A) (k : A → M S B) s r s' :
  mbind_ m k s = (Ok r, s') ↔ ∃ x s1, m s = (Ok x, s1) ∧ k x s1 = (Ok r, s').
Proof. unfold mbind_. destruct (m s) as [[x|e] s1]; naive_solver. Qed.

Lemma mbind_err {S A B} (m : M S A) (k : A → M S B) s err s' :
  mbind_ m k s = (Err err, s') →
  m s = (Err err, s') ∨ ∃ x s1, m s = (Ok x, s1) ∧ k x s1 = (Err err, s').
Proof. unfold mbind_. destruct (m s) as [[x|x] s1]; naive_solver. Qed.

Lemma mfail_if_ok {S} c e (s s' : S) :
  mfail_if c e s = (Ok (), s') ↔ c = false ∧ s' = s.
Proof. unfold mfail_if, mlift. destruct c; naive_solver. Qed.

Lemma mwrap_ok {S A} f (m : M S A) s a s' :
  mwrap f m s = (Ok a, s') ↔ m s = (Ok a, s').
Proof. unfold mwrap. destruct (m s) as [[x|e] s1]; naive_solver. Qed.

(** ** What a run leaves unchanged

    [keeps R m]: every run of [m] ends in a state related to the one it started
    from; [err_keeps R m]: every failing run does. *)
Definition keeps {S A} (R : S → S → Prop) (m : M S A) : Prop :=
  ∀ s r s', m s = (r, s') → R s s'.
Definition err_keeps {S A} (R : S → S → Prop) (m : M S A) : Prop :=
  ∀ s err s', m s = (Err err, s') → R s s'.

Section keeps.
Context {S : Type} (R : S → S → Prop) `{!PreOrder R}.
Implicit Types s : S.

Lemma keeps_ret {A} (a : A) : keeps R (mret_ a).
Proof. by intros s r s' [= _ <-]. Qed.
Lemma keeps_fail {A} err : keeps R (@mfail S A err).
Proof. by intros s r s' [= _ <-]. Qed.
Lemma keeps_lift {A} (r : result A) : keeps R (mlift r).
Proof. by intros s r' s' [= _ <-]. Qed.
Lemma keeps_fail_if c err : keeps R (@mfail_if S c err).
Proof. apply keeps_lift. Qed.
Lemma keeps_gets {A} (f : S → A) : keeps R (mgets f).
Proof. by intros s r s' [= _ <-]. Qed.
Lemma keeps_modify f : (∀ s, R s (f s)) → keeps R (mmodify f).
Proof. by intros H s r s' [= _ <-]. Qed.

Lemma keeps_bind {A B} (m : M S A) (k : A → M S B) :
  keeps R m → (∀ a, keeps R (k a)) → keeps R (mbind_ m k).
Proof.
  intros Hm Hk s r s'. unfold mbind_. destruct (m s) as [[a|err] s1] eqn:E.
  - intros H. etrans; [by eapply Hm|by eapply Hk].
  - intros [= _ <-]. by eapply Hm.
Qed.

Lemma keeps_wrap {A} f (m : M S A) : keeps R m → keeps R (mwrap f m).
Proof.
  intros Hm s r s'. unfold mwrap. destruct (m s) as [x s1] eqn:E. intros [= _ <-]. by eapply Hm.
Qed.

Lemma keeps_try {A B} (m : M S A) (k : result A → M S B) :
  keeps R m → (∀ r, keeps R (k r)) → keeps R (mtry m k).
Proof.
  intros Hm Hk s r s'. unfold mtry. destruct (m s) as [x s1] eqn:E. intros H.
  etrans; [by eapply Hm|by eapply Hk].
Qed.

Lemma keeps_for {A} (f : A → M S unit) l : (∀ x, keeps R (f x)) → keeps R (mfor f l).
Proof.
  intros Hf. induction l as [|x l IH]; [apply keeps_ret|]. by apply keeps_bind.
Qed.

Lemma err_keeps_of {A} (m : M S A) : keeps R m → err_keeps R m.
Proof. intros Hm s err s' H. by eapply Hm. Qed.

Lemma err_keeps_bind {A B} (m : M S A) (k : A → M S B) :
  keeps R m → (∀ a, err_keeps R (k a)) → err_keeps R (mbind_ m k).
Proof.
  intros Hm Hk s err s'. unfold mbind_. destruct (m s) as [[a|x] s1] eqn:E.
  - intros H. etrans; [by eapply Hm|by eapply Hk].
  - intros [= _ <-]. by eapply Hm.
Qed.

(** An update that cannot fail adds no failing runs. *)
Lemma err_keeps_modify {A} (m : M S A) f : err_keeps R m → err_keeps R (m ;! mmodify f).
Proof.
  intros Hm s err s'. unfold mbind_. destruct (m s) as [[a|x] s1] eqn:E; [done|].
  intros [= _ <-]. by eapply Hm.
Qed.
End keeps.

(** A failing run whose first step only reads fails there or goes on from the
    same state. *)
Lemma read_err {S A B} (m : M S A) (k : A → M S B) s err s' :
  keeps eq m → mbind_ m k s = (Err err, s') →
  s' = s ∨ ∃ x, m s = (Ok x, s) ∧ k x s = (Err err, s').
Proof.
  intros Hm [H|(x & s1 & H & Hk)]%mbind_err; [left; symmetry; by eapply Hm|].
  right. pose proof (Hm _ _ _ H) as <-. eauto.
Qed.

Create HintDb keeps.
#[export] Hint Resolve keeps_ret keeps_fail keeps_lift keeps_fail_if keeps_gets : keeps.

(** Follow the structure of a computation. *)
Ltac keep_step :=
  match goal with
  | |- ∀ _, _ => intros ?
  | |- keeps _ (mbind_ _ _) => apply (keeps_bind _)
  | |- keeps _ (mtry _ _) => apply (keeps_try _)
  | |- keeps _ (mwrap _ _) => apply keeps_wrap
  | |- keeps _ (mfor _ _) => apply (keeps_for _)
  | |- err_keeps _ (_ ;! mmodify _) => apply err_keeps_modify
  | |- err_keeps _ (mbind_ _ _) => apply (err_keeps_bind _)
  | |- keeps _ (if _ then _ else _) => case_match
  | |- keeps _ (match _ with _ => _ end) => case_match
  | |- err_keeps _ (if _ then _ else _) => case_match
  | |- err_keeps _ (match _ with _ => _ end) => case_match
  | |- keeps _ _ => solve [auto 4 with keeps typeclass_instances]
  | |- err_keeps _ _ => solve [auto 4 with keeps typeclass_instances
                              | apply err_keeps_of; auto 4 with keeps typeclass_instances]
  end.
Ltac keep := repeat keep_step.

(** ** Runs that cannot fail *)
Definition total {S A} (m : M S A) : Prop := ∀ s, ∃ a s', m s = (Ok a, s').

Section total.
Context {S : Type}.

Lemma total_ret {A} (a : A) : total (@mret_ S A a).
Proof. intros s. by eexists _, _. Qed.
Lemma total_gets {A} (f : S → A) : total (mgets f).
Proof. intros s. by eexists _, _. Qed.
Lemma total_modify (f : S → S) : total (mmodify f).
Proof. intros s. by eexists _, _. Qed.
Lemma total_bind {A B} (m : M S A) (k : A → M S B) : total m → (∀ a, total (k a)) → total (mbind_ m k).
Proof. intros Hm Hk s. unfold mbind_. destruct (Hm s) as (a & s1 & ->). apply Hk. Qed.
Lemma total_wrap {A} f (m : M S A) : total m → total (mwrap f m).
Proof. intros Hm s. unfold mwrap. destruct (Hm s) as (a & s1 & ->). by eexists _, _. Qed.
Lemma total_try {A B} (m : M S A) (k : result A → M S B) : (∀ r, total (k r)) → total (mtry m k).
Proof. intros Hk s. unfold mtry. destruct (m s) as [r s1]. apply Hk. Qed.
Lemma total_for {A} (f : A → M S unit) l : (∀ x, total (f x)) → total (mfor f l).
Proof. intros Hf. induction l as [|x l IH]; [apply total_ret|]. by apply total_bind. Qed.
End total.

#[export] Hint Resolve total_ret total_gets total_modify : keeps.

Ltac total_step :=
  match goal with
  | |- ∀ _, _ => intros ?
  | |- total (mbind_ _ _) => apply total_bind
  | |- total (mtry _ _) => apply total_try
  | |- total (mwrap _ _) => apply total_wrap
  | |- total (mfor _ _) => apply total_for
  | |- total (if _ then _ else _) => case_match
  | |- total (match _ with _ => _ end) => case_match
  | |- total _ => solve [auto 4 with keeps]
  end.
Ltac total_run := repeat total_step.

(** ** Automation *)

(** Turn boolean facts into propositions. *)
Ltac bool_hyps :=
  repeat match goal with
  | H : negb _ = true |- _ => apply negb_true_iff in H
  | H : negb _ = false |- _ => apply negb_false_iff in H
  | H : _ && _ = true |- _ => apply andb_true_iff in H; destruct H
  | H : _ || _ = false |- _ => apply orb_false_iff in H; destruct H
  | H : bool_decide _ = true |- _ => apply bool_decide_eq_true_1 in H
  | H : bool_decide _ = false |- _ => apply bool_decide_eq_false_1 in H
  | H : (_ =? _) = true |- _ => apply Z.eqb_eq in H
  | H : (_ =? _) = false |- _ => apply Z.eqb_neq in H
  | H : (_ <? _) = true |- _ => apply Z.ltb_lt in H
  | H : (_ <? _) = false |- _ => apply Z.ltb_ge in H
  | H : (_ <=? _) = true |- _ => apply Z.leb_le in H
  | H : (_ <=? _) = false |- _ => apply Z.leb_gt in H
  | H : ¬ (_ ≠ _) |- _ => apply dec_stable in H
  end.

(** Step through a successful run of a monadic function. *)
Ltac run_step :=
  match goal with
  | H : mbind_ _ _ _ = (Ok _, _) |- _ =>
      apply mbind_ok in H; destruct H as (? & ? & ? & H)
  | H : mwrap _ _ _ = (Ok _, _) |- _ => apply mwrap_ok in H
  | H : mfail_if _ _ _ = (Ok ?u, _) |- _ =>
      destruct u; apply mfail_if_ok in H; destruct H as [? ->]
  | H : mlift (Ok _) _ = (Ok _, _) |- _ => unfold mlift in H
  | H : mlift (Err _) _ = (Ok _, _) |- _ => discriminate H
  | H : mret_ _ _ = (Ok _, _) |- _ => unfold mret_ in H
  | H : mgets _ _ = (Ok _, _) |- _ => unfold mgets in H
  | H : mget _ = (Ok _, _) |- _ => unfold mget in H
  | H : mmodify _ _ = (Ok _, _) |- _ => unfold mmodify in H
  | H : mfail _ _ = (Ok _, _) |- _ => discriminate H
  | H : (Ok _, _) = (Ok _, _) |- _ => apply pair_ok_inj in H; destruct H; subst
  | H : (Err _, _) = (Ok _, _) |- _ => discriminate H
  | H : rbind _ _ = Ok _ |- _ => apply rbind_ok in H; destruct H as (? & ? & H)
  | H : rfail_if _ _ = Ok ?u |- _ => destruct u; apply rfail_if_ok in H
  | H : Ok _ = Ok _ |- _ => apply ok_inj in H; subst
  | H : Err _ = Ok _ |- _ => discriminate H
  | H : mlift (rfail_if _ _) _ = (Ok ?u, _) |- _ =>
      destruct u; apply mfail_if_ok in H; destruct H as [? ->]
  end.
Ltac run := repeat run_step.

(** ** Sums over finite maps *)
Section map_sum.
Context {K V : Type} `{Countable K}.
Implicit Types (f : K → V → Z) (m : gmap K V).

Definition map_sum f m : Z := map_fold (λ k v acc, f k v + acc) 0 m.

Lemma map_sum_empty f : map_sum f ∅ = 0.
Proof. apply map_fold_empty. Qed.

Lemma map_sum_insert_fresh f m k v :
  m !! k = None → map_sum f (<[k := v]> m) = f k v + map_sum f m.
Proof.
  intros Hk. unfold map_sum.
  rewrite (map_fold_insert_L (λ k v acc, f k v + acc)); [done| |done].
  intros; lia.
Qed.

Lemma map_sum_delete f m k v :
  m !! k = Some v → map_sum f m = f k v + map_sum f (delete k m).
Proof.
  intros Hk. rewrite <- (map_sum_insert_fresh f (delete k m) k v).
  - by rewrite insert_delete_id.
  - apply lookup_delete_eq.
Qed.

Lemma map_sum_delete_default f m k :
  map_sum f (delete k m) = map_sum f m - from_option (f k) 0 (m !! k).
Proof.
  destruct (m !! k) as [v|] eqn:E; simpl.
  - rewrite (map_sum_delete f m k v) by done. lia.
  - rewrite delete_id by done. lia.
Qed.

Lemma map_sum_insert f m k v :
  map_sum f (<[k := v]> m) = f k v - from_option (f k) 0 (m !! k) + map_sum f m.
Proof.
  rewrite <- insert_delete_eq, map_sum_insert_fresh by apply lookup_delete_eq.
  rewrite map_sum_delete_default. lia.
Qed.

Lemma map_sum_nonneg f m :
  (∀ k v, m !! k = Some v → 0 <= f k v) → 0 <= map_sum f m.
Proof.
  induction m as [|k v m Hk IH] using map_ind; intros Hf.
  - by rewrite map_sum_empty.
  - rewrite map_sum_insert_fresh by done.
    pose proof (Hf k v (lookup_insert_eq _ _ _)).
    enough (0 <= map_sum f m) by lia. apply IH. intros k' v' Hk'.
    apply Hf. rewrite lookup_insert_ne; [done|congruence].
Qed.

Lemma map_sum_ext f g m :
  (∀ k v, m !! k = Some v → f k v = g k v) → map_sum f m = map_sum g m.
Proof.
  induction m as [|k v m Hk IH] using map_ind; intros Hfg.
  - by rewrite !map_sum_empty.
  - rewrite !map_sum_insert_fresh by done.
    rewrite (Hfg k v) by apply lookup_insert_eq. f_equal. apply IH.
    intros k' v' Hk'. apply Hfg. rewrite lookup_insert_ne; [done|congruence].
Qed.

Lemma map_sum_lookup_le f m k v :
  (∀ k v, m !! k = Some v → 0 <= f k v) →
  m !! k = Some v → f k v <= map_sum f m.
Proof.
  intros Hf Hk. rewrite (map_sum_delete f m k v) by done.
  enough (0 <= map_sum f (delete k m)) by lia.
  apply map_sum_nonneg. intros k' v' [_ Hk']%lookup_delete_Some. eauto.
Qed.

Lemma map_sum_0 f m : (∀ k v, m !! k = Some v → f k v = 0) → map_sum f m = 0.
Proof.
  intros Hf. rewrite (map_sum_ext f (λ _ _, 0)) by done.
  induction m as [|k v m Hk IH] using map_ind; [apply map_sum_empty|].
  rewrite map_sum_insert_fresh by done. rewrite IH; [lia|].
  intros k' v' Hk'. apply (Hf k'). rewrite lookup_insert_ne; congruence.
Qed.

Lemma map_sum_add f g m : map_sum (λ k v, f k v + g k v) m = map_sum f m + map_sum g m.
Proof.
  induction m as [|k v m Hk IH] using map_ind; [by rewrite !map_sum_empty|]. rewrite !map_sum_insert_fresh, IH by done. lia.
Qed.
End map_sum.
Arguments map_sum : simpl never.
