(* ===== verification/GoLib.v ===== *)
(** * The parts of Go's standard library the sources use

    Byte strings, [encoding/hex], [encoding/binary], [strconv], [strings],
    [sort.Strings] and [unicode/utf8].  A Go [string] is a [string]; a
    [[]byte] is a [list Z] whose elements are in [[0, 256)]. *)
From S2P Require Import Prelude.
From Stdlib Require Import Ascii String.

Definition is_byte (z : Z) : Prop := 0 <= z < 256.

Definition byte_of_ascii (a : ascii) : Z := Z.of_N (N_of_ascii a).
Definition ascii_of_byte (z : Z) : ascii := ascii_of_N (Z.to_N z).

(** [[]byte(s)] and [string(b)] *)
Fixpoint bytes (s : string) : list Z :=
  match s with
  | EmptyString => []
  | String a s => byte_of_ascii a :: bytes s
  end.
Fixpoint str (l : list Z) : string :=
  match l with
  | [] => EmptyString
  | z :: l => String (ascii_of_byte z) (str l)
  end.

(** [len(s)], of a slice and of a string *)
Definition zlen {A} (l : list A) : Z := Z.of_nat (List.length l).
Definition slen (s : string) : Z := Z.of_nat (String.length s).

Lemma ascii_of_byte_of_ascii a : ascii_of_byte (byte_of_ascii a) = a.
Proof. unfold ascii_of_byte, byte_of_ascii. by rewrite N2Z.id, ascii_N_embedding. Qed.

Lemma byte_of_ascii_of_byte z : is_byte z → byte_of_ascii (ascii_of_byte z) = z.
Proof.
  intros [H1 H2]. unfold ascii_of_byte, byte_of_ascii.
  rewrite N_ascii_embedding by lia. lia.
Qed.

Lemma byte_of_ascii_range a : is_byte (byte_of_ascii a).
Proof. unfold is_byte, byte_of_ascii. pose proof (N_ascii_bounded a). lia. Qed.

Lemma str_bytes s : str (bytes s) = s.
Proof. induction s; simpl; [done|]. by rewrite ascii_of_byte_of_ascii, IHs. Qed.

Lemma bytes_str l : Forall is_byte l → bytes (str l) = l.
Proof. induction 1; simpl; [done|]. rewrite byte_of_ascii_of_byte by done. congruence. Qed.

Lemma bytes_range s : Forall is_byte (bytes s).
Proof. induction s; simpl; constructor; [apply byte_of_ascii_range|done]. Qed.

Lemma bytes_inj s1 s2 : bytes s1 = bytes s2 → s1 = s2.
Proof. intros H. by rewrite <- (str_bytes s1), H, str_bytes. Qed.

Lemma length_bytes s : List.length (bytes s) = String.length s.
Proof. induction s; simpl; congruence. Qed.

Lemma bytes_app (s1 s2 : string) : bytes (s1 +:+ s2) = bytes s1 ++ bytes s2.
Proof. induction s1 as [|a s1 IH]; [done|]. simpl. f_equal. apply IH. Qed.

Lemma slen_0 s : slen s = 0 ↔ s = EmptyString.
Proof. unfold slen. destruct s; simpl; split; intros; try done; lia. Qed.

(** ** [strings] *)

(** [strings.ToLower] on the ASCII range; bytes above 127 are left alone.  The
    strings it is applied to are hex identifiers, and no other code point
    lower-cases to a hex digit. *)
Definition lower_byte (c : Z) : Z := if (65 <=? c) && (c <=? 90) then c + 32 else c.
Definition ToLower (s : string) : string := str (lower_byte <$> bytes s).
(** [strings.EqualFold], for the same reason on the ASCII range. *)
Definition EqualFold (s t : string) : bool := bool_decide (ToLower s = ToLower t).

Definition HasPrefix (s p : string) : bool := String.prefix p s.

Fixpoint Contains (s p : string) : bool :=
  String.prefix p s ||
  match s with EmptyString => false | String _ s => Contains s p end.

(** [strings.IndexByte]: the prefix before the first [c] and the rest after it *)
Fixpoint cut_byte (c : Z) (l : list Z) : option (list Z * list Z) :=
  match l with
  | [] => None
  | x :: l => if x =? c then Some ([], l)
              else match cut_byte c l with
                   | Some (a, b) => Some (x :: a, b)
                   | None => None
                   end
  end.

(** [bytes.TrimRight(l, c)] for a single-byte cutset *)
Fixpoint trim_right (c : Z) (l : list Z) : list Z :=
  match l with
  | [] => []
  | x :: l => match trim_right c l with
              | [] => if x =? c then [] else [x]
              | l' => x :: l'
              end
  end.

(** [a < b] on strings *)
Definition str_ltb (a b : string) : bool := String.ltb a b.
Fixpoint insert_string (x : string) (l : list string) : list string :=
  match l with
  | [] => [x]
  | y :: l => if str_ltb y x then y :: insert_string x l else x :: y :: l
  end.
(** [sort.Strings] *)
Definition sort_strings (l : list string) : list string := foldr insert_string [] l.

Lemma insert_string_perm x l : insert_string x l ≡ₚ x :: l.
Proof.
  induction l as [|y l IH]; simpl; [done|]. destruct (str_ltb y x); [|done].
  rewrite IH. constructor.
Qed.

Lemma sort_strings_perm l : sort_strings l ≡ₚ l.
Proof. induction l as [|x l IH]; simpl; [done|]. by rewrite insert_string_perm, IH. Qed.

(** The byte order on strings is total, so sorting has a unique result. *)
Lemma string_compare_trans a b c :
  String.compare a b = Lt → String.compare b c = Lt → String.compare a c = Lt.
Proof.
  revert b c. induction a as [|x a IH]; intros [|y b] [|z c]; cbn; try done.
  unfold Ascii.compare. intros H1 H2.
  destruct (N.compare_spec (N_of_ascii x) (N_of_ascii y)) as [E1|E1|E1]; try done;
  destruct (N.compare_spec (N_of_ascii y) (N_of_ascii z)) as [E2|E2|E2]; try done.
  - rewrite E1, E2, N.compare_refl. eauto.
  - by rewrite E1, (proj2 (N.compare_lt_iff _ _)).
  - by rewrite <- E2, (proj2 (N.compare_lt_iff _ _)).
  - rewrite (proj2 (N.compare_lt_iff _ _)); [done|lia].
Qed.

Definition str_le (a b : string) : Prop := str_ltb b a = false.

Lemma str_ltb_compare a b : str_ltb a b = true ↔ String.compare a b = Lt.
Proof. unfold str_ltb, String.ltb. by destruct (String.compare a b). Qed.

Lemma str_ltb_le a b : str_ltb a b = true → str_le a b.
Proof.
  intros H%str_ltb_compare. unfold str_le, str_ltb, String.ltb.
  by rewrite String.compare_antisym, H.
Qed.

#[global] Instance str_le_antisymm : AntiSymm (=) str_le.
Proof.
  intros a b Ha Hb. unfold str_le, str_ltb, String.ltb in *.
  rewrite String.compare_antisym in Ha.
  destruct (String.compare a b) eqn:E; [by apply String.compare_eq_iff|done..].
Qed.

#[global] Instance str_le_trans : Transitive str_le.
Proof.
  intros a b c Ha Hb. unfold str_le in *. destruct (str_ltb c a) eqn:E; [|done]. exfalso.
  apply str_ltb_compare in E. unfold str_ltb, String.ltb in Ha, Hb.
  rewrite String.compare_antisym in Ha, Hb.
  destruct (String.compare a b) eqn:E1; cbn in Ha; try done.
  - apply String.compare_eq_iff in E1 as ->. rewrite String.compare_antisym, E in Hb. done.
  - pose proof (string_compare_trans _ _ _ E E1) as E2. rewrite String.compare_antisym, E2 in Hb.
    done.
Qed.

Lemma insert_string_sorted x l : StronglySorted str_le l → StronglySorted str_le (insert_string x l).
Proof.
  induction 1 as [|y l Hl IH Hy]; cbn; [by repeat constructor|].
  destruct (str_ltb y x) eqn:E.
  - constructor; [done|]. rewrite insert_string_perm. constructor; [|done]. by apply str_ltb_le.
  - constructor; [by constructor|]. constructor; [done|].
    eapply Forall_impl; [exact Hy|]. intros z Hz. by transitivity y.
Qed.

Lemma sort_strings_sorted l : StronglySorted str_le (sort_strings l).
Proof. induction l as [|x l IH]; cbn; [constructor|by apply insert_string_sorted]. Qed.

Lemma sort_strings_canonical l1 l2 : l1 ≡ₚ l2 → sort_strings l1 = sort_strings l2.
Proof.
  intros H. eapply StronglySorted_unique; [apply _|apply sort_strings_sorted..|].
  by rewrite !sort_strings_perm.
Qed.

(** The double quote that [%q] prints around a plain string. *)
Definition dq : string := String "034" EmptyString.
Definition quote (s : string) : string := dq +:+ s +:+ dq.

(** ** [strconv] *)

(** The decimal digits of [n], most significant first, for [n < 10 ^ fuel]. *)
Fixpoint udigits (fuel : nat) (n : Z) : list Z :=
  match fuel with
  | O => []
  | S fuel => if n <? 10 then [n] else udigits fuel (n / 10) ++ [n mod 10]
  end.
Definition digit_byte (d : Z) : Z := d + 48.
(** A [uint64] has at most 20 digits. *)
Definition format_uint_bytes (n : Z) : list Z := digit_byte <$> udigits 20 n.
Definition FormatUint (n : Z) : string := str (format_uint_bytes n).
Definition FormatInt (n : Z) : string :=
  if n <? 0 then "-"%string +:+ FormatUint (- n) else FormatUint n.

Definition is_digit (c : Z) : bool := (48 <=? c) && (c <=? 57).
Definition dec_value (l : list Z) : Z := fold_left (λ acc c, acc * 10 + (c - 48)) l 0.

Definition ErrSyntax : error := sentinel "strconv.ErrSyntax" "invalid syntax".
Definition ErrRange : error := sentinel "strconv.ErrRange" "value out of range".

(** [strconv.ParseUint(s, 10, 64)] *)
Definition ParseUint (l : list Z) : result Z :=
  if bool_decide (l = []) then Err ErrSyntax
  else if negb (forallb is_digit l) then Err ErrSyntax
  else if two64 <=? dec_value l then Err ErrRange
  else Ok (dec_value l).

Lemma dec_value_app l1 l2 :
  dec_value (l1 ++ l2) =
  fold_left (λ acc c, acc * 10 + (c - 48)) l2 (dec_value l1).
Proof. apply fold_left_app. Qed.

Lemma dec_value_snoc l c : dec_value (l ++ [c]) = dec_value l * 10 + (c - 48).
Proof. by rewrite dec_value_app. Qed.

Lemma dec_value_udigits fuel n :
  0 <= n < 10 ^ Z.of_nat fuel → dec_value (digit_byte <$> udigits fuel n) = n.
Proof.
  revert n. induction fuel as [|fuel IH]; intros n Hn.
  { change (10 ^ Z.of_nat 0) with 1 in Hn. cbn. lia. }
  cbn [udigits]. destruct (Z.ltb_spec n 10).
  - cbn. unfold digit_byte. lia.
  - rewrite fmap_app. cbn [fmap list_fmap]. rewrite dec_value_snoc, IH.
    + unfold digit_byte. pose proof (Z.div_mod n 10). lia.
    + rewrite Nat2Z.inj_succ, Z.pow_succ_r in Hn by lia.
      split; [apply Z.div_pos; lia|apply Z.div_lt_upper_bound; lia].
Qed.

Lemma udigits_range fuel n : 0 <= n → Forall (λ d, 0 <= d < 10) (udigits fuel n).
Proof.
  revert n. induction fuel as [|fuel IH]; intros n Hn; cbn; [done|].
  destruct (Z.ltb_spec n 10); [repeat constructor; lia|].
  apply Forall_app. split; [apply IH, Z.div_pos; lia|].
  repeat constructor; pose proof (Z.mod_pos_bound n 10); lia.
Qed.

Lemma udigits_nonempty fuel n : (0 < fuel)%nat → udigits fuel n ≠ [].
Proof.
  destruct fuel; [lia|]. intros _. cbn. destruct (n <? 10); [done|].
  intros [_ ?]%app_nil. done.
Qed.

Lemma format_uint_digits n : 0 <= n → forallb is_digit (format_uint_bytes n) = true.
Proof.
  intros Hn. apply forallb_forall. intros c Hc.
  apply list_elem_of_In, list_elem_of_fmap in Hc as (d & -> & Hd).
  pose proof (udigits_range 20 n Hn) as HF. rewrite Forall_forall in HF.
  specialize (HF _ Hd). unfold is_digit, digit_byte. lia.
Qed.

Lemma digit_is_byte c : is_digit c = true → is_byte c.
Proof. unfold is_digit, is_byte. lia. Qed.

Lemma format_uint_value n : is_u64 n → dec_value (format_uint_bytes n) = n.
Proof.
  intros Hn. apply dec_value_udigits. unfold is_u64, two64 in Hn.
  change (10 ^ Z.of_nat 20) with 100000000000000000000. lia.
Qed.

(** [ParseUint] undoes [FormatUint]. *)
Lemma ParseUint_FormatUint n : is_u64 n → ParseUint (format_uint_bytes n) = Ok n.
Proof.
  intros Hn. unfold ParseUint.
  rewrite bool_decide_eq_false_2.
  2:{ intros E%fmap_nil_inv. by apply udigits_nonempty in E; [|lia]. }
  rewrite format_uint_digits by (unfold is_u64 in Hn; lia).
  rewrite format_uint_value by done. cbn [negb].
  destruct (Z.leb_spec two64 n); [unfold is_u64 in Hn; lia|done].
Qed.

(** *** [time.Duration.String]

    The fraction [v / 10 ^ prec] without trailing zeros, then the unit. *)
Definition fmt_frac (v : Z) (prec : Z) : string :=
  let f := v mod 10 ^ prec in
  if f =? 0 then "" else
    let ds := format_uint_bytes f in
    "."%string +:+ str (trim_right 48 (replicate (Z.to_nat prec - List.length ds) 48 ++ ds)).

Definition Duration_String (d : Z) : string :=
  let u := Z.abs d in
  let body :=
    if u =? 0 then "0s"%string
    else if u <? 1000 then FormatUint u +:+ "ns"
    else if u <? 1000000 then FormatUint (u / 1000) +:+ fmt_frac u 3 +:+ "µs"
    else if u <? 1000000000 then FormatUint (u / 1000000) +:+ fmt_frac u 6 +:+ "ms"
    else
      let secs := u / 1000000000 in
      let mins := secs / 60 in
      let hours := mins / 60 in
      (if 0 <? hours then FormatUint hours +:+ "h" else "") +:+
      (if 0 <? mins then FormatUint (mins mod 60) +:+ "m" else "") +:+
      FormatUint (secs mod 60) +:+ fmt_frac u 9 +:+ "s" in
  if d <? 0 then "-"%string +:+ body else body.

(** ** [encoding/hex] *)

Definition hex_digit (v : Z) : Z := if v <? 10 then v + 48 else v + 87.
Definition hex_value (c : Z) : option Z :=
  if (48 <=? c) && (c <=? 57) then Some (c - 48)
  else if (97 <=? c) && (c <=? 102) then Some (c - 87)
  else if (65 <=? c) && (c <=? 70) then Some (c - 55)
  else None.

Definition errHexByte : error := errorf "encoding/hex: invalid byte".
Definition errHexLength : error :=
  sentinel "hex.ErrLength" "encoding/hex: odd length hex string".

Fixpoint hex_decode (l : list Z) : result (list Z) :=
  match l with
  | [] => Ok []
  | [c] => match hex_value c with None => Err errHexByte | Some _ => Err errHexLength end
  | c1 :: c2 :: l =>
      match hex_value c1, hex_value c2 with
      | Some v1, Some v2 =>
          match hex_decode l with
          | Ok bs => Ok (16 * v1 + v2 :: bs)
          | Err e => Err e
          end
      | _, _ => Err errHexByte
      end
  end.
Definition DecodeString (s : string) : result (list Z) := hex_decode (bytes s).

Fixpoint hex_encode (l : list Z) : list Z :=
  match l with
  | [] => []
  | b :: l => hex_digit (b / 16) :: hex_digit (b mod 16) :: hex_encode l
  end.
Definition EncodeToString (l : list Z) : string := str (hex_encode l).

Lemma hex_value_digit v : 0 <= v < 16 → hex_value (hex_digit v) = Some v.
Proof.
  intros Hv. unfold hex_value, hex_digit. destruct (Z.ltb_spec v 10).
  - replace ((48 <=? v + 48) && (v + 48 <=? 57)) with true by lia. f_equal; lia.
  - replace ((48 <=? v + 87) && (v + 87 <=? 57)) with false by lia.
    replace ((97 <=? v + 87) && (v + 87 <=? 102)) with true by lia. f_equal; lia.
Qed.

Lemma hex_digit_byte v : 0 <= v < 16 → is_byte (hex_digit v).
Proof. unfold hex_digit, is_byte. destruct (Z.ltb_spec v 10); lia. Qed.

Lemma nibbles b : is_byte b → 0 <= b / 16 < 16 ∧ 0 <= b mod 16 < 16.
Proof.
  intros Hb. unfold is_byte in Hb. split.
  - split; [apply Z.div_pos; lia|apply Z.div_lt_upper_bound; lia].
  - apply Z.mod_pos_bound. lia.
Qed.

Lemma hex_encode_bytes l : Forall is_byte l → Forall is_byte (hex_encode l).
Proof.
  induction 1 as [|b l Hb _ IH]; cbn; [done|].
  destruct (nibbles b Hb). repeat constructor; auto using hex_digit_byte;
  apply hex_digit_byte; lia.
Qed.

Lemma hex_decode_encode l : Forall is_byte l → hex_decode (hex_encode l) = Ok l.
Proof.
  induction 1 as [|b l Hb _ IH]; cbn; [done|].
  destruct (nibbles b Hb). rewrite !hex_value_digit by done. rewrite IH.
  do 2 f_equal. pose proof (Z.div_mod b 16). lia.
Qed.

(** [hex.DecodeString] undoes [hex.EncodeToString]. *)
Lemma DecodeString_EncodeToString l :
  Forall is_byte l → DecodeString (EncodeToString l) = Ok l.
Proof.
  intros Hl. unfold DecodeString, EncodeToString.
  rewrite bytes_str by by apply hex_encode_bytes. by apply hex_decode_encode.
Qed.

Lemma hex_value_range c v : hex_value c = Some v → 0 <= v < 16.
Proof.
  unfold hex_value. intros H.
  repeat match type of H with (if ?b then _ else _) = _ => destruct b eqn:? end;
  simplify_eq; lia.
Qed.

Lemma hex_decode_bytes_len n l bs :
  (List.length l <= n)%nat → hex_decode l = Ok bs →
  Forall is_byte bs ∧ List.length l = (2 * List.length bs)%nat.
Proof.
  revert l bs. induction n as [|n IH]; intros l bs Hn H.
  { destruct l; [|cbn in Hn; lia]. cbn in H. by simplify_eq. }
  destruct l as [|c1 [|c2 l]]; cbn in H; [by simplify_eq| |].
  { destruct (hex_value c1); done. }
  destruct (hex_value c1) as [v1|] eqn:E1; [|done].
  destruct (hex_value c2) as [v2|] eqn:E2; [|done].
  destruct (hex_decode l) as [bs'|e] eqn:E; [|done]. injection H as <-.
  apply hex_value_range in E1, E2. cbn in Hn.
  destruct (IH l bs' ltac:(lia) E) as [HF HL]. split; [|cbn; lia].
  constructor; [unfold is_byte; lia|done].
Qed.

Lemma DecodeString_ok s bs :
  DecodeString s = Ok bs →
  Forall is_byte bs ∧ String.length s = (2 * List.length bs)%nat.
Proof.
  intros H. unfold DecodeString in H.
  apply (hex_decode_bytes_len (List.length (bytes s))) in H; [|done].
  by rewrite length_bytes in H.
Qed.

Lemma hex_digit_value c v : is_byte c → hex_value c = Some v → hex_digit v = lower_byte c.
Proof.
  unfold hex_value, hex_digit, lower_byte. intros Hc H.
  repeat match type of H with (if ?b then _ else _) = _ => destruct b eqn:? end; simplify_eq;
  repeat match goal with |- context [if ?b then _ else _] => destruct b eqn:? end; lia.
Qed.

Lemma hex_encode_decode n l bs :
  (List.length l <= n)%nat → Forall is_byte l → hex_decode l = Ok bs →
  hex_encode bs = lower_byte <$> l.
Proof.
  revert l bs. induction n as [|n IH]; intros l bs Hn Hl H.
  { destruct l; [|cbn in Hn; lia]. cbn in H. by simplify_eq. }
  destruct l as [|c1 [|c2 l]]; cbn in H; [by simplify_eq| |].
  { destruct (hex_value c1); done. }
  destruct (hex_value c1) as [v1|] eqn:E1; [|done].
  destruct (hex_value c2) as [v2|] eqn:E2; [|done].
  destruct (hex_decode l) as [bs'|e] eqn:E; [|done]. injection H as <-.
  apply Forall_cons in Hl as [H1 Hl]. apply Forall_cons in Hl as [H2 Hl]. cbn in Hn.
  pose proof (hex_value_range _ _ E1). pose proof (hex_value_range _ _ E2). cbn.
  replace ((16 * v1 + v2) / 16) with v1 by (apply (Z.div_unique _ _ _ v2); lia).
  replace ((16 * v1 + v2) mod 16) with v2 by (apply (Z.mod_unique _ _ v1); lia).
  rewrite (hex_digit_value c1 v1), (hex_digit_value c2 v2) by done.
  do 2 f_equal. apply IH; [lia|done..].
Qed.

(** Encoding what was decoded lower-cases the string. *)
Lemma EncodeToString_DecodeString s bs :
  DecodeString s = Ok bs → EncodeToString bs = ToLower s.
Proof.
  intros H. unfold EncodeToString, ToLower. f_equal.
  by apply (hex_encode_decode (List.length (bytes s))); [|apply bytes_range|].
Qed.

(** ** [encoding/binary] *)

Fixpoint le_bytes (n : nat) (z : Z) : list Z :=
  match n with
  | O => []
  | S n => z mod 256 :: le_bytes n (z / 256)
  end.
Fixpoint le_value (l : list Z) : Z :=
  match l with
  | [] => 0
  | b :: l => b + 256 * le_value l
  end.
Definition be_bytes (n : nat) (z : Z) : list Z := rev (le_bytes n z).
Definition be_value (l : list Z) : Z := le_value (rev l).

(** [binary.BigEndian.PutUint64], [PutUint32], [PutUint16] and their readers *)
Definition PutUint64 (z : Z) : list Z := be_bytes 8 z.
Definition PutUint32 (z : Z) : list Z := be_bytes 4 z.
Definition PutUint16 (z : Z) : list Z := be_bytes 2 z.
Definition LePutUint64 (z : Z) : list Z := le_bytes 8 z.

Lemma length_le_bytes n z : List.length (le_bytes n z) = n.
Proof. revert z. induction n; intros; cbn; congruence. Qed.
Lemma length_be_bytes n z : List.length (be_bytes n z) = n.
Proof. unfold be_bytes. by rewrite length_rev, length_le_bytes. Qed.

Lemma le_bytes_range n z : Forall is_byte (le_bytes n z).
Proof.
  revert z. induction n; intros; cbn; constructor; [|done].
  apply Z.mod_pos_bound. lia.
Qed.
Lemma be_bytes_range n z : Forall is_byte (be_bytes n z).
Proof. apply Forall_rev, le_bytes_range. Qed.

Lemma le_value_bytes n z : le_value (le_bytes n z) = z mod 256 ^ Z.of_nat n.
Proof.
  revert z. induction n as [|n IH]; intros z; cbn [le_bytes le_value].
  { by rewrite Z.mod_1_r. }
  rewrite IH, Nat2Z.inj_succ, Z.pow_succ_r by lia.
  rewrite Z.rem_mul_r; [lia|lia|].
  pose proof (Z.pow_pos_nonneg 256 (Z.of_nat n)). lia.
Qed.

Lemma be_value_bytes n z : be_value (be_bytes n z) = z mod 256 ^ Z.of_nat n.
Proof. unfold be_value, be_bytes. by rewrite rev_involutive, le_value_bytes. Qed.

Lemma PutUint64_value z : be_value (PutUint64 z) = u64 z.
Proof. unfold PutUint64. by rewrite be_value_bytes. Qed.
Lemma LePutUint64_value z : le_value (LePutUint64 z) = u64 z.
Proof. unfold LePutUint64. by rewrite le_value_bytes. Qed.

Lemma PutUint64_inj x y : is_u64 x → is_u64 y → PutUint64 x = PutUint64 y → x = y.
Proof.
  intros Hx Hy E. apply (f_equal be_value) in E.
  by rewrite !PutUint64_value, !u64_small in E.
Qed.

(** [int64(uint64(z))] recovers a signed value. *)
Lemma i64_u64 z : is_i64 z → i64 (u64 z) = z.
Proof.
  intros Hz. unfold i64, u64. rewrite Z.add_mod_idemp_l by done.
  by apply (i64_small z).
Qed.

(** ** [unicode/utf8] *)

Definition cont (c : Z) : bool := (128 <=? c) && (c <=? 191).
Definition in_range (lo hi c : Z) : bool := (lo <=? c) && (c <=? hi).

(** [utf8.ValidString], by the table of accepted byte sequences. *)
Fixpoint utf8_valid (fuel : nat) (l : list Z) : bool :=
  match fuel with
  | O => bool_decide (l = [])
  | S fuel =>
    match l with
    | [] => true
    | c :: l =>
      if c <? 128 then utf8_valid fuel l
      else if in_range 194 223 c then
        match l with
        | c1 :: l => cont c1 && utf8_valid fuel l
        | _ => false
        end
      else if in_range 224 239 c then
        match l with
        | c1 :: c2 :: l =>
            in_range (if c =? 224 then 160 else 128) (if c =? 237 then 159 else 191) c1
            && cont c2 && utf8_valid fuel l
        | _ => false
        end
      else if in_range 240 244 c then
        match l with
        | c1 :: c2 :: c3 :: l =>
            in_range (if c =? 240 then 144 else 128) (if c =? 244 then 143 else 191) c1
            && cont c2 && cont c3 && utf8_valid fuel l
        | _ => false
        end
      else false
    end
  end.
Definition ValidString (s : string) : bool :=
  utf8_valid (String.length s) (bytes s).
