(* ===== verification/Types.v ===== *)
(** * The data of the ledger: [core/types.go] and [core/store.go]

    Every struct of the two files is a record with the same fields (prefixed
    with the initials of the struct), every string enumeration an inductive
    type.  [uint64], [int64] and [int] fields are [Z]. *)
From S2P Require Import Prelude GoLib.

(** [type BlockType string]; a block read from the network may carry any other
    string, kept in [BlockOther]. *)
Inductive BlockType :=
| BlockSend | BlockReceive | BlockMint | BlockGenesis | BlockBurn
| BlockLease | BlockLeaseAccept | BlockLeaseSettle | BlockLeaseCancel
| BlockLeaseForceSettle | BlockLeaseRenew | BlockMultisigOpen | BlockMultisigUpdate
| BlockOther (name : string).

#[global] Instance BlockType_eq_dec : EqDecision BlockType.
Proof. solve_decision. Defined.

Definition BlockType_string (t : BlockType) : string :=
  match t with
  | BlockSend => "send"
  | BlockReceive => "receive"
  | BlockMint => "mint"
  | BlockGenesis => "genesis"
  | BlockBurn => "burn"
  | BlockLease => "lease"
  | BlockLeaseAccept => "lease_accept"
  | BlockLeaseSettle => "lease_settle"
  | BlockLeaseCancel => "lease_cancel"
  | BlockLeaseForceSettle => "lease_force_settle"
  | BlockLeaseRenew => "lease_renew"
  | BlockMultisigOpen => "multisig_open"
  | BlockMultisigUpdate => "multisig_update"
  | BlockOther s => s
  end.

Definition IsValidAsset (asset : string) : bool :=
  (asset =?s "XE"%string) || (asset =?s "XUSD"%string).

Record Keyset := mkKeyset { ks_Keys : list string; ks_Threshold : Z }.

Record BlockSignature := mkBlockSignature { bs_PublicKey : string; bs_Sig : string }.

Record TimekeeperAttestation := mkAttestation {
  ta_PublicKey : string;
  ta_Timestamp : Z;
  ta_Signature : string }.

Record TimekeeperConfig := mkTimekeeperConfig { tk_Keys : list string; tk_Threshold : Z }.

Record Block := mkBlock {
  b_Type : BlockType;
  b_Account : string;
  b_Previous : string;
  b_Balance : Z;
  b_Timestamp : Z;
  b_Asset : string;
  b_Representative : string;
  b_Destination : string;
  b_Amount : Z;
  b_Source : string;
  b_VCPUs : Z;
  b_MemoryMB : Z;
  b_DiskGB : Z;
  b_Duration : Z;
  b_AccessPubKey : string;
  b_LeaseMinDurationSecs : Z;
  b_LeaseSettleGraceNs : Z;
  b_LeaseForceSettleGapNs : Z;
  b_LeaseEscrowExpiryNs : Z;
  b_LeaseArchiveGapNs : Z;
  b_MaxAttestationSkewNs : Z;
  b_Memo : string;
  b_MSKeyset : option Keyset;
  b_Signatures : list BlockSignature;
  b_PubKey : string;
  b_Signature : string;
  b_Hash : string;
  b_PoWNonce : Z;
  b_Attestations : list TimekeeperAttestation;
  b_CertificateHash : string;
  b_LockedR : Z;
  b_LockedPayoutCap : Z;
  b_LockedTWAP : Z }.

(** [*AccountChain]: [None] is the nil pointer. *)
Notation AccountChain := (list Block).

Definition Frontier (c : AccountChain) : string :=
  match last c with None => "0" | Some b => b_Hash b end.

Definition LatestBalance (c : AccountChain) : Z :=
  match last c with None => 0 | Some b => b_Balance b end.

Record PendingSend := mkPendingSend {
  ps_SendHash : string;
  ps_Source : string;
  ps_Destination : string;
  ps_Amount : Z;
  ps_Asset : string }.

Record Conflict := mkConflict {
  c_AccountAddress : string;
  c_PreviousHash : string;
  c_BlockHashes : list string;
  c_DetectedAt : Z;
  c_WeightSnapshot : option (gmap string Z);
  c_TotalWeight : Z }.

Record Vote := mkVote {
  v_RepPubKey : string;
  v_BlockHash : string;
  v_ConflictAccount : string;
  v_ConflictPrev : string;
  v_Timestamp : Z;
  v_Final : bool;
  v_Signature : list Z;
  v_Weight : Z }.

(** [type LeaseState string]; [LeaseStateEmpty] is the empty string that records
    written before the field existed carry. *)
Inductive LeaseState :=
| LeaseCreated | LeaseAccepted | LeaseSettled | LeaseCancelled
| LeaseUnfulfilled | LeaseExpired | LeaseStateEmpty.

#[global] Instance LeaseState_eq_dec : EqDecision LeaseState.
Proof. solve_decision. Defined.

Definition LeaseState_string (s : LeaseState) : string :=
  match s with
  | LeaseCreated => "created"
  | LeaseAccepted => "accepted"
  | LeaseSettled => "settled"
  | LeaseCancelled => "cancelled"
  | LeaseUnfulfilled => "unfulfilled"
  | LeaseExpired => "expired"
  | LeaseStateEmpty => ""
  end.

Definition Terminal (s : LeaseState) : bool :=
  match s with
  | LeaseSettled | LeaseCancelled | LeaseUnfulfilled | LeaseExpired => true
  | _ => false
  end.

Record LeaseSegment := mkLeaseSegment {
  seg_RenewHash : string;
  seg_Duration : Z;
  seg_Cost : Z;
  seg_StartTime : Z;
  seg_CertificateHash : string;
  seg_LockedR : Z;
  seg_LockedPayoutCap : Z;
  seg_LockedTWAP : Z }.

Record Lease := mkLease {
  l_LeaseHash : string;
  l_State : LeaseState;
  l_Consumer : string;
  l_Provider : string;
  l_VCPUs : Z;
  l_MemoryMB : Z;
  l_DiskGB : Z;
  l_Duration : Z;
  l_AccessPubKey : string;
  l_Cost : Z;
  l_Stake : Z;
  l_StartTime : Z;
  l_CertificateHash : string;
  l_Settled : bool;
  l_LockedR : Z;
  l_LockedPayoutCap : Z;
  l_LockedTWAP : Z;
  l_Renewals : list LeaseSegment }.

Definition EffectiveDurationSecs (l : Lease) : Z :=
  fold_left (λ total seg, u64_add total (seg_Duration seg)) (l_Renewals l) (l_Duration l).

Definition time_Second : Z := 1000000000.
Definition time_Minute : Z := 60 * time_Second.
Definition time_Hour : Z := 60 * time_Minute.

Definition EffectiveExpiry (l : Lease) : Z :=
  i64_add (l_StartTime l) (i64_mul (i64 (EffectiveDurationSecs l)) time_Second).

(** A lease with its state (and settled flag) replaced. *)
Definition lease_with_state (st : LeaseState) (settled : bool) (l : Lease) : Lease :=
  mkLease (l_LeaseHash l) st (l_Consumer l) (l_Provider l) (l_VCPUs l) (l_MemoryMB l)
    (l_DiskGB l) (l_Duration l) (l_AccessPubKey l) (l_Cost l) (l_Stake l) (l_StartTime l)
    (l_CertificateHash l) settled (l_LockedR l) (l_LockedPayoutCap l) (l_LockedTWAP l)
    (l_Renewals l).

(** A lease with its renewals replaced. *)
Definition lease_with_renewals (rs : list LeaseSegment) (l : Lease) : Lease :=
  mkLease (l_LeaseHash l) (l_State l) (l_Consumer l) (l_Provider l) (l_VCPUs l) (l_MemoryMB l)
    (l_DiskGB l) (l_Duration l) (l_AccessPubKey l) (l_Cost l) (l_Stake l) (l_StartTime l)
    (l_CertificateHash l) (l_Settled l) (l_LockedR l) (l_LockedPayoutCap l) (l_LockedTWAP l)
    rs.

Definition BackfillState (l : Lease) : Lease :=
  match l_State l with
  | LeaseStateEmpty =>
      if l_Settled l then lease_with_state LeaseSettled (l_Settled l) l
      else lease_with_state LeaseAccepted (l_Settled l) l
  | _ => l
  end.

Record CertificateInfo := mkCertificateInfo {
  ci_Provider : string;
  ci_ExpiresAt : Z;
  ci_PriceMultiplierMilli : Z }.

(** ** What the ledger asks of the store ([core/store.go]) *)

Inductive BlockStatus := StatusPending | StatusFinalized | StatusRejected.

#[global] Instance BlockStatus_eq_dec : EqDecision BlockStatus.
Proof. solve_decision. Defined.

Record AssetDelta := mkAssetDelta {
  ad_Account : string;
  ad_Asset : string;
  ad_Amount : Z }.

(** [BlockCommit]; pointer fields are options, [string] fields whose empty
    value means absent stay strings. *)
Record BlockCommit := mkBlockCommit {
  bc_Block : Block;
  bc_Account : string;
  bc_Chain : AccountChain;
  bc_FrontierHash : string;
  bc_AddPending : option PendingSend;
  bc_DeletePendingID : string;
  bc_PutLease : option Lease;
  bc_SettleLeaseHash : string;
  bc_CancelLeaseHash : string;
  bc_UnfulfillLeaseHash : string;
  bc_DelegationRep : string;
  bc_DeleteDelegation : bool;
  bc_PutKeyset : option Keyset;
  bc_PutAccountKey : string;
  bc_ExpectLeaseHash : string;
  bc_ExpectLeaseState : LeaseState;
  bc_AssetCredit : option AssetDelta;
  bc_TopUpPendingID : string;
  bc_TopUpPendingAmount : Z;
  bc_ExpectLeaseEffectiveDurationSecs : Z }.

Record BlockUndo := mkBlockUndo {
  bu_Account : string;
  bu_Chain : AccountChain;
  bu_FrontierHash : string;
  bu_AddPending : option PendingSend;
  bu_DeletePendingID : string;
  bu_RejectHash : string;
  bu_DeleteAccount : bool;
  bu_RestoreDelegation : bool;
  bu_PrevRep : string;
  bu_RestoreLease : option Lease;
  bu_DeleteLeaseHash : string;
  bu_DeleteKeysetAccount : string;
  bu_DeleteAccountKeyAccount : string;
  bu_AssetDebit : option AssetDelta;
  bu_ReducePendingID : string;
  bu_ReducePendingAmount : Z }.

Definition ErrLeaseStateConflict : error :=
  sentinel "ErrLeaseStateConflict" "lease state conflict".

(** [shortHash] / [shortAddr] of [ledger.go]: display form of an identifier *)
Definition shortHash (h : string) : string :=
  if 12 <? slen h then String.substring 0 12 h +:+ "..." else h.
Definition shortAddr (a : string) : string := shortHash a.
