(* ===== verification/Amount.v ===== *)
(** * Amounts: [core/amount.go]

    Decimal amounts to micro-units and back, with the 64x64 to 128 bit product
    the parser uses to detect overflow. *)
From S2P Require Import Prelude GoLib.

Record AssetConfig := mkAssetConfig {
  ac_Symbol : string;
  ac_Decimals : Z;
  ac_UnitsPerToken : Z }.

Definition AssetXE : AssetConfig := mkAssetConfig "XE" 6 1000000.
Definition AssetXUSD : AssetConfig := mkAssetConfig "XUSD" 6 1000000.

Definition AssetByName (symbol : string) : AssetConfig * bool :=
  if symbol =?s ac_Symbol AssetXE then (AssetXE, true)
  else if symbol =?s ac_Symbol AssetXUSD then (AssetXUSD, true)
  else (mkAssetConfig "" 0 0, false).

Definition ErrAmountNegative : error :=
  sentinel "ErrAmountNegative" "amount must be non-negative".
Definition ErrAmountFormat : error :=
  sentinel "ErrAmountFormat" "amount must be a non-negative decimal".
Definition ErrAmountPrecision : error :=
  sentinel "ErrAmountPrecision" "amount exceeds asset decimal precision".
Definition ErrAmountOverflow : error :=
  sentinel "ErrAmountOverflow" "amount overflows uint64 micro-units".

Definition allDigits (l : list Z) : bool := forallb is_digit l.

Definition mul64 (a b : Z) : Z * Z :=
  let mask32 := 4294967295 in
  let aLo := Z.land a mask32 in let aHi := Z.shiftr a 32 in
  let bLo := Z.land b mask32 in let bHi := Z.shiftr b 32 in
  let w0 := u64_mul aLo bLo in
  let t := u64_add (u64_mul aHi bLo) (Z.shiftr w0 32) in
  let w1 := Z.land t mask32 in
  let w2 := Z.shiftr t 32 in
  let w1 := u64_add w1 (u64_mul aLo bHi) in
  let hi := u64_add (u64_add (u64_mul aHi bHi) w2) (Z.shiftr w1 32) in
  let lo := u64_mul a b in
  (hi, lo).

Definition addOverflow64 (a b : Z) : Z * bool :=
  let sum := u64_add a b in (sum, sum <? a).

Definition pad_right (decimals : Z) (frac : list Z) : list Z :=
  if zlen frac <? decimals
  then frac ++ replicate (Z.to_nat (decimals - zlen frac)) 48 else frac.

(** The second half of [ParseAmount], once the numeral is split at the dot. *)
Definition parse_parts (whole frac : list Z) (asset : AssetConfig) : result Z :=
  let decimals := ac_Decimals asset in
  let? wholeVal := result_map_err (λ _, ErrAmountOverflow) (ParseUint whole) in
  let frac := pad_right decimals frac in
  let? fracVal := (if frac =?s [] then Ok 0
                   else result_map_err (λ _, ErrAmountFormat) (ParseUint frac)) in
  let '(hi, lo) := mul64 wholeVal (ac_UnitsPerToken asset) in
  rfail_if (negb (hi =? 0)) ErrAmountOverflow ;?
  let '(total, carry) := addOverflow64 lo fracVal in
  rfail_if carry ErrAmountOverflow ;?
  Ok total.

Definition ParseAmount (s : string) (asset : AssetConfig) : result Z :=
  let l := bytes s in
  match l with
  | [] => Err ErrAmountFormat
  | c :: _ =>
    rfail_if (c =? 45) ErrAmountNegative ;?
    rfail_if (c =? 43) ErrAmountFormat ;?
    let decimals := ac_Decimals asset in
    let '(whole, frac, hasDot) :=
      match cut_byte 46 l with
      | Some (w, f) => (w, f, true)
      | None => (l, [], false)
      end in
    rfail_if (hasDot && (whole =?s [])) ErrAmountFormat ;?
    rfail_if (hasDot && (frac =?s [])) ErrAmountFormat ;?
    rfail_if (decimals <? zlen frac)
      (mkError (err_msg ErrAmountPrecision +:+ ": " +:+ ac_Symbol asset +:+ " allows "
                +:+ FormatUint decimals +:+ ", got " +:+ FormatUint (zlen frac))
               (err_is ErrAmountPrecision)) ;?
    rfail_if (negb (allDigits whole) || negb (allDigits frac)) ErrAmountFormat ;?
    parse_parts whole frac asset
  end.

Definition pad_left (decimals : Z) (l : list Z) : list Z :=
  if zlen l <? decimals then replicate (Z.to_nat (decimals - zlen l)) 48 ++ l else l.

Definition FormatAmount (micro : Z) (asset : AssetConfig) : string :=
  let decimals := ac_Decimals asset in
  let whole := micro / ac_UnitsPerToken asset in
  let frac := micro mod ac_UnitsPerToken asset in
  if frac =? 0 then FormatUint whole
  else
    let fracStr := trim_right 48 (pad_left decimals (format_uint_bytes frac)) in
    str (format_uint_bytes whole ++ [46] ++ fracStr).

Definition FormatAmountFixed (micro : Z) (asset : AssetConfig) : string :=
  let decimals := ac_Decimals asset in
  let whole := micro / ac_UnitsPerToken asset in
  let frac := micro mod ac_UnitsPerToken asset in
  let fracStr := pad_left decimals (format_uint_bytes frac) in
  str (format_uint_bytes whole ++ [46] ++ fracStr).

(** ** The product *)

Lemma land_mask32 a : 0 <= a → Z.land a 4294967295 = a mod 2 ^ 32.
Proof. intros. change 4294967295 with (Z.ones 32). by rewrite Z.land_ones. Qed.

Lemma split32 a :
  is_u64 a →
  ∃ hi lo, a = hi * 2 ^ 32 + lo ∧ 0 <= hi < 2 ^ 32 ∧ 0 <= lo < 2 ^ 32 ∧
           Z.land a 4294967295 = lo ∧ Z.shiftr a 32 = hi.
Proof.
  intros Ha. unfold is_u64, two64 in Ha.
  exists (a / 2 ^ 32), (a mod 2 ^ 32).
  rewrite land_mask32, Z.shiftr_div_pow2 by lia.
  pose proof (Z.div_mod a (2 ^ 32)). pose proof (Z.mod_pos_bound a (2 ^ 32)).
  repeat split; lia.
Qed.

Lemma mul64_eq a b :
  is_u64 a → is_u64 b → mul64 a b = (a * b / two64, a * b mod two64).
Proof.
  intros Ha Hb. unfold mul64.
  destruct (split32 a Ha) as (ah & al & Ea & Hah & Hal & -> & ->).
  destruct (split32 b Hb) as (bh & bl & Eb & Hbh & Hbl & -> & ->).
  assert (H32 : 2 ^ 32 = 4294967296) by done. rewrite H32 in *.
  assert (B1 : ∀ x y, 0 <= x < 4294967296 → 0 <= y < 4294967296 →
               0 <= x * y <= 18446744065119617025) by (intros; nia).
  pose proof (B1 al bl Hal Hbl). pose proof (B1 ah bl Hah Hbl).
  pose proof (B1 al bh Hal Hbh). pose proof (B1 ah bh Hah Hbh).
  unfold u64_mul. rewrite !(u64_small (_ * _)) by (unfold is_u64, two64; lia).
  set (w0 := al * bl) in *.
  destruct (split32 w0) as (w0h & w0l & Ew0 & Hw0h & Hw0l & _ & ->);
    [unfold is_u64, two64; lia|]. rewrite H32 in *.
  unfold u64_add. rewrite (u64_small (ah * bl + w0h)) by (unfold is_u64, two64; lia).
  destruct (split32 (ah * bl + w0h)) as (th & tl & Et & Hth & Htl & -> & ->);
    [unfold is_u64, two64; lia|]. rewrite H32 in *.
  rewrite (u64_small (tl + al * bh)) by (unfold is_u64, two64; lia).
  destruct (split32 (tl + al * bh)) as (uh & ul & Eu & Huh & Hul & _ & ->);
    [unfold is_u64, two64; lia|]. rewrite H32 in *.
  rewrite (u64_small (ah * bh + th)) by (unfold is_u64, two64; lia).
  assert (Eab : a * b = (ah * bh + th + uh) * two64 + (ul * 4294967296 + w0l)).
  { subst a b. unfold two64, w0 in *. nia. }
  assert (Hq : a * b / two64 = ah * bh + th + uh).
  { rewrite Eab, Z.div_add_l by done. rewrite Z.div_small; unfold two64; lia. }
  rewrite Hq. f_equal. apply u64_small. unfold is_u64, two64 in *.
  split; [lia|]. rewrite <- Hq. apply Z.div_lt_upper_bound; nia.
Qed.

(** [mul64] computes the full 128-bit product of two [uint64] values: the
    high and low words it returns recompose to the exact product. *)
Theorem mul64_full_product a b :
  is_u64 a → is_u64 b →
  let '(hi, lo) := mul64 a b in
  hi * two64 + lo = a * b ∧ is_u64 hi ∧ is_u64 lo.
Proof.
  intros Ha Hb. rewrite mul64_eq by done.
  pose proof (Z.div_mod (a * b) two64). pose proof (Z.mod_pos_bound (a * b) two64).
  unfold is_u64, two64 in *. split_and!; try lia.
  apply Z.div_lt_upper_bound; nia.
Qed.
Lemma mul64_full_product_witness :
  let '(hi, lo) := mul64 max_u64 max_u64 in hi * two64 + lo = max_u64 * max_u64.
Proof. apply (mul64_full_product max_u64 max_u64); done. Defined.

(** ** Parsing *)

(** The assets the parser is meant for: a token has [10 ^ Decimals] units and
    they fit a [uint64]. *)
Definition asset_ok (a : AssetConfig) : Prop :=
  0 <= ac_Decimals a <= 19 ∧ ac_UnitsPerToken a = 10 ^ ac_Decimals a.

(** The mathematical reading of a decimal numeral [whole] or [whole.frac]. *)
Definition decimal (l whole frac : list Z) : Prop :=
  whole ≠ [] ∧ allDigits whole = true ∧ allDigits frac = true ∧
  (l = whole ∧ frac = [] ∨ l = whole ++ [46] ++ frac ∧ frac ≠ []).

Definition amount_value (decimals : Z) (whole frac : list Z) : Z :=
  dec_value whole * 10 ^ decimals + dec_value frac * 10 ^ (decimals - zlen frac).

Lemma fold_dec l acc :
  fold_left (λ acc c, acc * 10 + (c - 48)) l acc = acc * 10 ^ zlen l + dec_value l.
Proof.
  revert acc. induction l as [|c l IH] using rev_ind; intros acc.
  { unfold dec_value, zlen. cbn. lia. }
  rewrite fold_left_app. cbn. rewrite IH, dec_value_snoc. unfold zlen.
  rewrite length_app. cbn. rewrite Nat2Z.inj_add, Z.pow_add_r by lia. lia.
Qed.

Lemma dec_value_concat l1 l2 :
  dec_value (l1 ++ l2) = dec_value l1 * 10 ^ zlen l2 + dec_value l2.
Proof. by rewrite dec_value_app, fold_dec. Qed.

Lemma dec_value_zeros n : dec_value (replicate n 48) = 0.
Proof.
  induction n; [done|]. change (replicate (S n) 48) with ([48] ++ replicate n 48).
  rewrite dec_value_concat, IHn. done.
Qed.

Lemma dec_value_bound l : allDigits l = true → 0 <= dec_value l < 10 ^ zlen l.
Proof.
  induction l as [|c l IH] using rev_ind; intros H; [done|].
  unfold allDigits in H. rewrite forallb_app in H. cbn in H. bool_hyps.
  specialize (IH H). rewrite dec_value_snoc. unfold zlen in *.
  rewrite length_app. cbn. rewrite Nat2Z.inj_add, Z.pow_add_r by lia.
  unfold is_digit in *. lia.
Qed.

Lemma pad_right_value decimals frac :
  zlen frac <= decimals →
  dec_value (pad_right decimals frac) = dec_value frac * 10 ^ (decimals - zlen frac)
  ∧ zlen (pad_right decimals frac) = decimals
  ∧ (allDigits frac = true → allDigits (pad_right decimals frac) = true).
Proof.
  intros H. unfold pad_right. destruct (Z.ltb_spec (zlen frac) decimals).
  - rewrite dec_value_concat, dec_value_zeros. unfold zlen in *.
    rewrite length_app, length_replicate. split_and!.
    + rewrite Z2Nat.id by lia. lia.
    + lia.
    + intros Hf. unfold allDigits in *. rewrite forallb_app, Hf. cbn.
      clear. induction (Z.to_nat _); [done|cbn; done].
  - replace (decimals - zlen frac) with 0 by lia. rewrite Z.pow_0_r. split_and!; [lia|lia|done].
Qed.

Lemma digits_no_dot l1 l2 :
  allDigits l1 = true → cut_byte 46 (l1 ++ 46 :: l2) = Some (l1, l2).
Proof.
  induction l1 as [|c l1 IH]; intros H; [done|]. cbn in *. bool_hyps.
  unfold is_digit in *. destruct (Z.eqb_spec c 46); [lia|]. by rewrite IH.
Qed.

Lemma digits_no_dot_none l : allDigits l = true → cut_byte 46 l = None.
Proof.
  induction l as [|c l IH]; intros H; [done|]. cbn in *. bool_hyps.
  unfold is_digit in *. destruct (Z.eqb_spec c 46); [lia|]. by rewrite IH.
Qed.

Lemma cut_byte_some c l a b : cut_byte c l = Some (a, b) → l = a ++ c :: b.
Proof.
  revert a. induction l as [|x l IH]; intros a H; cbn in H; [done|].
  destruct (Z.eqb_spec x c); [naive_solver|].
  destruct (cut_byte c l) as [[a' b']|]; [|done]. simplify_eq.
  by rewrite (IH a' eq_refl).
Qed.

Lemma ParseUint_digits l :
  l ≠ [] → allDigits l = true →
  ParseUint l = if two64 <=? dec_value l then Err ErrRange else Ok (dec_value l).
Proof.
  intros Hne Hd. unfold ParseUint. rewrite bool_decide_eq_false_2 by done.
  unfold allDigits in Hd. by rewrite Hd.
Qed.

Lemma parse_parts_spec asset whole frac :
  asset_ok asset → whole ≠ [] → allDigits whole = true → allDigits frac = true →
  zlen frac <= ac_Decimals asset →
  let v := amount_value (ac_Decimals asset) whole frac in
  parse_parts whole frac asset = if two64 <=? v then Err ErrAmountOverflow else Ok v.
Proof.
  intros [Hd Hu] Hne Hw Hf Hlen v. unfold parse_parts.
  destruct (pad_right_value (ac_Decimals asset) frac Hlen) as (Vf & Lf & Df).
  specialize (Df Hf). set (f := pad_right _ frac) in *.
  pose proof (dec_value_bound whole Hw) as [Bw _].
  pose proof (dec_value_bound f Df) as [Bf1 Bf2]. rewrite Lf in Bf2.
  assert (P : 10 ^ ac_Decimals asset <= 10 ^ 19) by (apply Z.pow_le_mono_r; lia).
  change (10 ^ 19) with 10000000000000000000 in P.
  assert (0 < 10 ^ ac_Decimals asset) by (apply Z.pow_pos_nonneg; lia).
  assert (Hv : v = dec_value whole * 10 ^ ac_Decimals asset + dec_value f)
    by (unfold v, amount_value; lia).
  rewrite ParseUint_digits by done.
  destruct (Z.leb_spec two64 (dec_value whole)) as [Ho|Ho]; cbn [result_map_err rbind].
  { destruct (Z.leb_spec two64 v); [done|nia]. }
  assert (HF : (if f =?s [] then Ok 0
                else result_map_err (λ _, ErrAmountFormat) (ParseUint f)) = Ok (dec_value f)).
  { case_bool_decide as E; [by rewrite E|]. rewrite ParseUint_digits by done.
    destruct (Z.leb_spec two64 (dec_value f)); [unfold two64 in *; lia|done]. }
  rewrite HF. cbn [rbind]. rewrite Hu, mul64_eq by (unfold is_u64, two64 in *; lia).
  set (p := dec_value whole * 10 ^ ac_Decimals asset) in *.
  destruct (Z.eqb_spec (p / two64) 0) as [E|E]; cbn [negb rfail_if rbind].
  - assert (Hp : 0 <= p < two64).
    { split; [unfold p; nia|]. apply Z.div_small_iff in E; unfold two64 in *; lia. }
    rewrite Z.mod_small by done. unfold addOverflow64. cbn [rbind].
    assert (is_u64 p) by done. assert (is_u64 (dec_value f)) by (unfold is_u64, two64; lia).
    destruct (Z.ltb_spec (u64_add p (dec_value f)) p) as [C|C]; cbn [rfail_if rbind].
    + apply u64_add_overflow in C; [|done..].
      destruct (Z.leb_spec two64 v); [done|lia].
    + rewrite u64_add_exact by (try done; lia). rewrite Hv.
      destruct (Z.leb_spec two64 (p + dec_value f)) as [C'|]; [|done].
      apply u64_add_overflow in C'; [lia|done..].
  - destruct (Z.leb_spec two64 v) as [|C]; [done|].
    rewrite Z.div_small in E; [done|]. unfold p in *. nia.
Qed.

Lemma ParseAmount_iff asset s v :
  asset_ok asset →
  ParseAmount s asset = Ok v ↔
  ∃ whole frac, decimal (bytes s) whole frac ∧ zlen frac <= ac_Decimals asset ∧
    v = amount_value (ac_Decimals asset) whole frac ∧ v < two64.
Proof.
  intros Ha. unfold ParseAmount. split.
  - destruct (bytes s) as [|c l] eqn:El; [done|]. intros H. do 2 (run_step; run_step).
    destruct (cut_byte 46 (c :: l)) as [[w f]|] eqn:Ec; run; cbn [andb] in *; bool_hyps.
    + apply cut_byte_some in Ec.
      rewrite parse_parts_spec in H by done.
      destruct (Z.leb_spec two64 (amount_value (ac_Decimals asset) w f)); [done|].
      simplify_eq. exists w, f. unfold decimal. rewrite Ec. naive_solver.
    + rewrite parse_parts_spec in H by done.
      destruct (Z.leb_spec two64 (amount_value (ac_Decimals asset) (c :: l) [])); [done|].
      simplify_eq. exists (c :: l), []. unfold decimal. naive_solver.
  - intros (w & f & (Hw & Dw & Df & Hs) & Hlen & -> & Hv).
    assert (HP : parse_parts w f asset = Ok (amount_value (ac_Decimals asset) w f)).
    { rewrite parse_parts_spec by done.
      destruct (Z.leb_spec two64 (amount_value (ac_Decimals asset) w f)); [lia|done]. }
    destruct w as [|c w]; [done|]. pose proof Dw as Dw'. cbn in Dw'. bool_hyps.
    assert ((c =? 45) = false ∧ (c =? 43) = false) as [E1 E2] by (unfold is_digit in *; lia).
    destruct Hs as [[-> ->]|[-> Hf]].
    + rewrite E1, E2. cbn [rfail_if rbind]. rewrite digits_no_dot_none by done.
      cbn [andb rfail_if rbind]. destruct (Z.ltb_spec (ac_Decimals asset) (zlen ([] : list Z))); [lia|].
      cbn [rfail_if rbind]. by rewrite Dw.
    + cbn [app]. rewrite E1, E2. cbn [rfail_if rbind].
      change (c :: w ++ 46 :: f) with ((c :: w) ++ 46 :: f). rewrite digits_no_dot by done.
      rewrite (bool_decide_eq_false_2 (c :: w = [])), (bool_decide_eq_false_2 (f = [])) by done.
      cbn [andb rfail_if rbind]. destruct (Z.ltb_spec (ac_Decimals asset) (zlen f)); [lia|].
      cbn [rfail_if rbind]. by rewrite Dw, Df.
Qed.

(** [ParseAmount] accepts exactly the decimal numerals [whole] and
    [whole.frac] with at most [Decimals] fractional digits whose value in
    micro-units fits a [uint64], and returns exactly that value: it neither
    loses precision nor wraps. *)
Theorem ParseAmount_exact asset s v :
  asset_ok asset →
  ParseAmount s asset = Ok v ↔
  ∃ whole frac, decimal (bytes s) whole frac ∧ zlen frac <= ac_Decimals asset ∧
    v = amount_value (ac_Decimals asset) whole frac ∧ v < two64.
Proof. apply ParseAmount_iff. Qed.
Lemma ParseAmount_exact_witness :
  ParseAmount "12.5" AssetXE = Ok 12500000 ∧
  ∃ whole frac, decimal (bytes "12.5") whole frac ∧ zlen frac <= 6 ∧
    12500000 = amount_value 6 whole frac ∧ 12500000 < two64.
Proof.
  assert (H : ParseAmount "12.5" AssetXE = Ok 12500000) by reflexivity.
  split; [exact H|]. apply (ParseAmount_exact AssetXE "12.5" 12500000); [|exact H].
  split; cbn; lia.
Defined.

(** ** Printing *)

Lemma length_udigits fuel n k :
  (0 < k)%nat → 0 <= n < 10 ^ Z.of_nat k → (length (udigits fuel n) <= k)%nat.
Proof.
  revert n k. induction fuel as [|fuel IH]; intros n k Hk Hn; cbn; [lia|].
  destruct (Z.ltb_spec n 10); [cbn; lia|]. rewrite length_app. cbn.
  destruct k as [|[|k]]; [lia|change (10 ^ Z.of_nat 1) with 10 in Hn; lia|].
  enough (length (udigits fuel (n / 10)) <= S k)%nat by lia.
  apply IH; [lia|]. rewrite Nat2Z.inj_succ, Z.pow_succ_r in Hn by lia.
  split; [apply Z.div_pos; lia|apply Z.div_lt_upper_bound; lia].
Qed.

Lemma allDigits_zeros n : allDigits (replicate n 48) = true.
Proof. induction n; done. Qed.

Lemma allDigits_app l1 l2 : allDigits (l1 ++ l2) = allDigits l1 && allDigits l2.
Proof. apply forallb_app. Qed.

Lemma trim_right_split c l : ∃ k, l = trim_right c l ++ replicate k c.
Proof.
  induction l as [|x l [k IH]]; [by exists O|]. cbn.
  destruct (trim_right c l) as [|y l'] eqn:E.
  - destruct (Z.eqb_spec x c) as [->|].
    + exists (S k). cbn. by f_equal.
    + exists k. cbn. by f_equal.
  - exists k. cbn in *. by f_equal.
Qed.

(** The fractional digits both printers build: [Decimals] digits whose value is
    the fraction. *)
Lemma frac_digits asset frac :
  asset_ok asset → 0 < ac_Decimals asset → 0 <= frac < ac_UnitsPerToken asset →
  let f := pad_left (ac_Decimals asset) (format_uint_bytes frac) in
  allDigits f = true ∧ zlen f = ac_Decimals asset ∧ dec_value f = frac.
Proof.
  intros [Hd Hu] Hpos Hf f. rewrite Hu in Hf.
  assert (10 ^ ac_Decimals asset <= 10 ^ 19) by (apply Z.pow_le_mono_r; lia).
  change (10 ^ 19) with 10000000000000000000 in *.
  assert (Hlen : zlen (format_uint_bytes frac) <= ac_Decimals asset).
  { unfold zlen, format_uint_bytes. rewrite length_fmap.
    pose proof (length_udigits 20 frac (Z.to_nat (ac_Decimals asset))).
    rewrite Z2Nat.id in * by lia. lia. }
  assert (Hdig : allDigits (format_uint_bytes frac) = true)
    by (apply format_uint_digits; lia).
  assert (Hval : dec_value (format_uint_bytes frac) = frac)
    by (apply format_uint_value; unfold is_u64, two64; lia).
  unfold f, pad_left. destruct (Z.ltb_spec (zlen (format_uint_bytes frac)) (ac_Decimals asset)).
  - rewrite allDigits_app, allDigits_zeros, Hdig, dec_value_concat, dec_value_zeros, Hval.
    split_and!; [done| |lia]. unfold zlen in *. rewrite length_app, length_replicate. lia.
  - split_and!; [done|lia|done].
Qed.

Lemma whole_digits asset micro :
  asset_ok asset → is_u64 micro →
  let w := format_uint_bytes (micro / ac_UnitsPerToken asset) in
  w ≠ [] ∧ allDigits w = true ∧ dec_value w = micro / ac_UnitsPerToken asset.
Proof.
  intros [Hd Hu] Hm w.
  assert (1 <= 10 ^ ac_Decimals asset) by (pose proof (Z.pow_pos_nonneg 10 (ac_Decimals asset)); lia).
  assert (is_u64 (micro / ac_UnitsPerToken asset)).
  { unfold is_u64 in *. rewrite Hu. split; [apply Z.div_pos; lia|].
    apply Z.div_lt_upper_bound; nia. }
  split_and!.
  - intros E%fmap_nil_inv. by apply udigits_nonempty in E; [|lia].
  - apply format_uint_digits. unfold is_u64 in *. lia.
  - by apply format_uint_value.
Qed.

Lemma digits_bytes l : allDigits l = true → Forall is_byte l.
Proof.
  intros H. apply Forall_forall. intros c Hc. apply digit_is_byte.
  unfold allDigits in H. rewrite forallb_forall in H. by apply H, list_elem_of_In.
Qed.

Lemma amount_split asset micro :
  asset_ok asset → is_u64 micro →
  micro = micro / ac_UnitsPerToken asset * 10 ^ ac_Decimals asset
          + micro mod ac_UnitsPerToken asset
  ∧ 0 <= micro mod ac_UnitsPerToken asset < ac_UnitsPerToken asset.
Proof.
  intros [Hd Hu] Hm. assert (0 < ac_UnitsPerToken asset).
  { rewrite Hu. apply Z.pow_pos_nonneg; lia. }
  rewrite <- Hu. pose proof (Z.div_mod micro (ac_UnitsPerToken asset)).
  pose proof (Z.mod_pos_bound micro (ac_UnitsPerToken asset)). lia.
Qed.

Lemma parse_dotted asset micro f :
  asset_ok asset → is_u64 micro → f ≠ [] → allDigits f = true →
  zlen f <= ac_Decimals asset →
  dec_value f * 10 ^ (ac_Decimals asset - zlen f) = micro mod ac_UnitsPerToken asset →
  ParseAmount (str (format_uint_bytes (micro / ac_UnitsPerToken asset) ++ [46] ++ f)) asset
  = Ok micro.
Proof.
  intros Ha Hm Hne Hf Hlen Hv.
  destruct (whole_digits asset micro Ha Hm) as (Hw1 & Hw2 & Hw3).
  destruct (amount_split asset micro Ha Hm) as [Hs _].
  apply ParseAmount_iff; [done|]. eexists _, f. rewrite bytes_str.
  - split_and!; [|done| |apply Hm].
    + unfold decimal. split_and!; [done..|by right].
    + unfold amount_value. rewrite Hw3, Hv. exact Hs.
  - rewrite !Forall_app. split_and!; [by apply digits_bytes| |by apply digits_bytes].
    repeat constructor; lia.
Qed.

(** printing a micro-unit amount with [FormatAmount] and parsing it back
    with [ParseAmount] gives the amount, for every [uint64]. *)
Theorem FormatAmount_roundtrip asset micro :
  asset_ok asset → is_u64 micro →
  ParseAmount (FormatAmount micro asset) asset = Ok micro.
Proof.
  intros Ha Hm. unfold FormatAmount.
  destruct (amount_split asset micro Ha Hm) as [Hs Hr].
  destruct (Z.eqb_spec (micro mod ac_UnitsPerToken asset) 0) as [E|E].
  - destruct (whole_digits asset micro Ha Hm) as (Hw1 & Hw2 & Hw3).
    apply ParseAmount_iff; [done|]. eexists _, []. unfold FormatUint.
    rewrite bytes_str by by apply digits_bytes.
    split_and!; [|unfold zlen; cbn; destruct Ha; lia| |apply Hm].
    + unfold decimal. split_and!; [done..|by left].
    + unfold amount_value. rewrite Hw3. change (dec_value []) with 0. lia.
  - assert (0 < ac_Decimals asset).
    { destruct Ha as [Hd Hu]. destruct (Z.eq_dec (ac_Decimals asset) 0) as [Z0|]; [|lia].
      rewrite Z0 in Hu. change (10 ^ 0) with 1 in Hu. rewrite Hu, Z.mod_1_r in E. done. }
    destruct (frac_digits asset _ Ha H Hr) as (F1 & F2 & F3). set (f := pad_left _ _) in *.
    destruct (trim_right_split 48 f) as [k Hk].
    assert (Hd : allDigits (trim_right 48 f) = true).
    { rewrite Hk, allDigits_app in F1. by apply andb_true_iff in F1 as [? _]. }
    assert (Hz : zlen f = zlen (trim_right 48 f) + Z.of_nat k).
    { rewrite Hk at 1. unfold zlen. rewrite length_app, length_replicate. lia. }
    assert (Hv : dec_value (trim_right 48 f) * 10 ^ Z.of_nat k = micro mod ac_UnitsPerToken asset).
    { rewrite <- F3. rewrite Hk at 2. rewrite dec_value_concat, dec_value_zeros.
      unfold zlen. rewrite length_replicate. lia. }
    apply parse_dotted; try done.
    + intros E'. rewrite E' in Hv. change (dec_value []) with 0 in Hv. lia.
    + lia.
    + rewrite <- Hv. do 2 f_equal. lia.
Qed.
Lemma FormatAmount_roundtrip_witness :
  ParseAmount (FormatAmount 1500001 AssetXE) AssetXE = Ok 1500001.
Proof. apply (FormatAmount_roundtrip AssetXE 1500001); [split; cbn; lia|done]. Defined.

(** The fixed-width printer round-trips as well. *)
Lemma FormatAmountFixed_roundtrip asset micro :
  asset_ok asset → 0 < ac_Decimals asset → is_u64 micro →
  ParseAmount (FormatAmountFixed micro asset) asset = Ok micro.
Proof.
  intros Ha Hd Hm. destruct (amount_split asset micro Ha Hm) as [Hs Hr].
  destruct (frac_digits asset _ Ha Hd Hr) as (F1 & F2 & F3). unfold FormatAmountFixed.
  apply parse_dotted; try done.
  - intros E. rewrite E in F2. unfold zlen in F2. cbn in F2. lia.
  - lia.
  - rewrite F2, F3, Z.sub_diag. lia.
Qed.
