(* ===== verification/LeaseMath.v ===== *)
(** * Lease pricing, emission and timing: the arithmetic of [core/ledger.go]

    [LeaseCost] and [LeaseTotalEmission] are computed in [uint64] with explicit
    overflow checks; the theorems below give their exact value in unbounded
    integers and the inputs on which they cannot fail. *)
From S2P Require Import Prelude GoLib Types.

(** [bits.Mul64] of the standard library: the 128-bit product. *)
Definition bits_Mul64 (a b : Z) : Z * Z := (a * b / two64, a * b mod two64).

Definition safeMul (a b : Z) : Z * bool :=
  if (a =? 0) || (b =? 0) then (0, true)
  else
    let '(hi, lo) := bits_Mul64 a b in
    if negb (hi =? 0) then (0, false) else (lo, true).

Definition safeAdd (a b : Z) : Z * bool :=
  let sum := u64_add a b in
  if sum <? a then (0, false) else (sum, true).

Definition ceilDiv (a b : Z) : Z :=
  if a =? 0 then 0 else u64_add ((a - 1) / b) 1.

Definition LeaseMaxDuration : Z := 31536000.
Definition LeaseVCPURate : Z := 20000.
Definition LeaseMemGBRate : Z := 10000.
Definition LeaseDiskGBRate : Z := 1000.
Definition LeaseStakeDivisor : Z := 0.
Definition LeaseMaxVCPUs : Z := 4096.
Definition LeaseMaxMemoryMB : Z := 67108864.
Definition LeaseMaxDiskGB : Z := 1048576.
Definition DefaultTimestampWindow : Z := time_Hour.
Definition RFallback : Z := 2000.

Definition LeaseStake (cost : Z) : Z :=
  if LeaseStakeDivisor =? 0 then 0
  else
    let stake := ceilDiv cost LeaseStakeDivisor in
    if stake =? 0 then 1 else stake.

(** The package variables the genesis block sets once at start-up. *)
Record LeaseTiming := mkLeaseTiming {
  LeaseMinDuration : Z;
  LeaseSettleGrace : Z;
  LeaseForceSettleGap : Z;
  LeaseEscrowExpiry : Z;
  LeaseArchiveGap : Z;
  MaxAttestationSkew : Z }.

Definition DefaultLeaseMinDuration : Z := 60.
Definition DefaultLeaseSettleGrace : Z := time_Hour.
Definition DefaultLeaseForceSettleGap : Z := 25 * time_Minute.
Definition DefaultLeaseEscrowExpiry : Z := 365 * 24 * time_Hour.
Definition DefaultLeaseArchiveGap : Z := time_Hour.
Definition DefaultMaxAttestationSkew : Z := 10 * time_Minute.

Definition DefaultLeaseTiming : LeaseTiming :=
  mkLeaseTiming DefaultLeaseMinDuration DefaultLeaseSettleGrace DefaultLeaseForceSettleGap
    DefaultLeaseEscrowExpiry DefaultLeaseArchiveGap DefaultMaxAttestationSkew.

Definition nonzero_or (v d : Z) : Z := if negb (v =? 0) then v else d.

Definition ApplyGenesisLeaseTiming (b : option Block) : LeaseTiming :=
  match b with
  | None => DefaultLeaseTiming
  | Some b =>
      mkLeaseTiming
        (nonzero_or (b_LeaseMinDurationSecs b) DefaultLeaseMinDuration)
        (nonzero_or (b_LeaseSettleGraceNs b) DefaultLeaseSettleGrace)
        (nonzero_or (b_LeaseForceSettleGapNs b) DefaultLeaseForceSettleGap)
        (nonzero_or (b_LeaseEscrowExpiryNs b) DefaultLeaseEscrowExpiry)
        (nonzero_or (b_LeaseArchiveGapNs b) DefaultLeaseArchiveGap)
        (nonzero_or (b_MaxAttestationSkewNs b) DefaultMaxAttestationSkew)
  end.

(** A checked operation: [v, ok := f(...); if !ok { return err }]. *)
Definition checked (r : Z * bool) (msg : string) : result Z :=
  let '(v, ok) := r in if ok then Ok v else Err (errorf msg).

Definition LeaseCost (T : LeaseTiming) (vcpus memoryMB diskGB duration multiplierMilli : Z)
    : result Z :=
  rfail_if (multiplierMilli =? 0) (errorf "multiplierMilli must be non-zero") ;?
  rfail_if (duration <? LeaseMinDuration T)
    (errorf ("duration must be >= " +:+ FormatUint (LeaseMinDuration T) +:+ " seconds, got "
             +:+ FormatUint duration)) ;?
  rfail_if (LeaseMaxDuration <? duration)
    (errorf ("duration must be <= " +:+ FormatUint LeaseMaxDuration +:+ " seconds, got "
             +:+ FormatUint duration)) ;?
  let minutes := ceilDiv duration 60 in
  let memGB := ceilDiv memoryMB 1024 in
  let? vcpuMicro := checked (safeMul vcpus LeaseVCPURate)
    ("overflow: vcpus(" +:+ FormatUint vcpus +:+ ") * LeaseVCPURate("
     +:+ FormatUint LeaseVCPURate +:+ ")") in
  let? memMicro := checked (safeMul memGB LeaseMemGBRate)
    ("overflow: memGB(" +:+ FormatUint memGB +:+ ") * LeaseMemGBRate("
     +:+ FormatUint LeaseMemGBRate +:+ ")") in
  let? diskMicro := checked (safeMul diskGB LeaseDiskGBRate)
    ("overflow: diskGB(" +:+ FormatUint diskGB +:+ ") * LeaseDiskGBRate("
     +:+ FormatUint LeaseDiskGBRate +:+ ")") in
  let? perHourMicro := checked (safeAdd vcpuMicro memMicro)
    ("overflow: perHourMicro vcpu(" +:+ FormatUint vcpuMicro +:+ ") + mem("
     +:+ FormatUint memMicro +:+ ")") in
  let? perHourMicro := checked (safeAdd perHourMicro diskMicro)
    (* the message prints [perHourMicro] after the failed addition, which is 0 *)
    ("overflow: perHourMicro(0) + disk(" +:+ FormatUint diskMicro +:+ ")") in
  rfail_if (perHourMicro =? 0) (errorf "lease requires at least some resources") ;?
  let? perMinuteScaled := checked (safeMul perHourMicro minutes)
    ("overflow: perHourMicro(" +:+ FormatUint perHourMicro +:+ ") * minutes("
     +:+ FormatUint minutes +:+ ")") in
  let costMicro := ceilDiv perMinuteScaled 60 in
  let? scaled := checked (safeMul costMicro multiplierMilli)
    ("overflow: costMicro(" +:+ FormatUint costMicro +:+ ") * multiplierMilli("
     +:+ FormatUint multiplierMilli +:+ ")") in
  let cost := ceilDiv scaled 1000 in
  Ok (if cost =? 0 then 1 else cost).

Definition ValidateLeaseDimensions (T : LeaseTiming) (vcpus memoryMB diskGB duration : Z)
    : result unit :=
  rfail_if ((vcpus =? 0) && (memoryMB =? 0) && (diskGB =? 0))
    (errorf "lease must request at least one resource (vcpus, memory, or disk)") ;?
  rfail_if (LeaseMaxVCPUs <? vcpus)
    (errorf ("lease vcpus must be <= " +:+ FormatUint LeaseMaxVCPUs +:+ ", got "
             +:+ FormatUint vcpus)) ;?
  rfail_if (LeaseMaxMemoryMB <? memoryMB)
    (errorf ("lease memory_mb must be <= " +:+ FormatUint LeaseMaxMemoryMB +:+ ", got "
             +:+ FormatUint memoryMB)) ;?
  rfail_if (LeaseMaxDiskGB <? diskGB)
    (errorf ("lease disk_gb must be <= " +:+ FormatUint LeaseMaxDiskGB +:+ ", got "
             +:+ FormatUint diskGB)) ;?
  rfail_if (duration <? LeaseMinDuration T)
    (errorf ("lease duration must be >= " +:+ FormatUint (LeaseMinDuration T) +:+ " seconds")) ;?
  rfail_if (LeaseMaxDuration <? duration)
    (errorf ("lease duration must be <= " +:+ FormatUint LeaseMaxDuration +:+ " seconds")).

(** ** Emission *)

Definition CapR (r payoutCap twapMilliUSD : Z) : Z :=
  if (payoutCap =? 0) || (twapMilliUSD =? 0) then r
  else
    let '(scaled, ok) := safeMul payoutCap 1000 in
    if negb ok then r
    else
      let rCapMax := ceilDiv scaled twapMilliUSD in
      if rCapMax <? r then rCapMax else r.

Definition LeaseEmissionChecked (cost r : Z) : result Z :=
  let? product := checked (safeMul cost r)
    ("lease emission overflow: cost(" +:+ FormatUint cost +:+ ") * r(" +:+ FormatUint r +:+ ")") in
  let emission := ceilDiv product 1000 in
  Ok (if emission =? 0 then 1 else emission).

Definition LeaseEmission (cost r : Z) : Z :=
  match LeaseEmissionChecked cost r with Ok e => e | Err _ => 0 end.

(** The loop of [LeaseTotalEmission] over the renewals from index [i]. *)
Fixpoint total_emission_loop (i : Z) (total : Z) (segs : list LeaseSegment) : result Z :=
  match segs with
  | [] => Ok total
  | seg :: segs =>
      let? segXE := result_map_err (wrapf ("renewal " +:+ FormatInt i +:+ ": "))
        (LeaseEmissionChecked (seg_Cost seg)
           (CapR (seg_LockedR seg) (seg_LockedPayoutCap seg) (seg_LockedTWAP seg))) in
      let? sum := checked (safeAdd total segXE)
        ("lease emission overflow summing renewal " +:+ FormatInt i) in
      total_emission_loop (i + 1) sum segs
  end.

Definition LeaseTotalEmission (l : Lease) : result Z :=
  let? total := result_map_err (wrapf "base segment: ")
    (LeaseEmissionChecked (l_Cost l)
       (CapR (l_LockedR l) (l_LockedPayoutCap l) (l_LockedTWAP l))) in
  total_emission_loop 0 total (l_Renewals l).

Definition renewalMayBeMissing (l : Lease) : bool :=
  EffectiveDurationSecs l <? LeaseMaxDuration.

(** ** Exact values *)

(** Division rounded up, in unbounded integers. *)
Definition ceil (a b : Z) : Z := (a + b - 1) / b.

Lemma ceil_spec a b : 0 < b → b * (ceil a b - 1) < a <= b * ceil a b.
Proof.
  intros Hb. unfold ceil. pose proof (Z.div_mod (a + b - 1) b).
  pose proof (Z.mod_pos_bound (a + b - 1) b). nia.
Qed.

Lemma ceil_mono a a' b : 0 < b → a <= a' → ceil a b <= ceil a' b.
Proof. intros. unfold ceil. apply Z.div_le_mono; lia. Qed.

Lemma ceil_0 b : 0 < b → ceil 0 b = 0.
Proof. intros. unfold ceil. apply Z.div_small. lia. Qed.

Lemma ceil_bounds a b : 0 < b → 0 <= a → 0 <= ceil a b <= a.
Proof. intros Hb Ha. pose proof (ceil_spec a b Hb). nia. Qed.

Lemma ceil_pos a b : 0 < b → 0 < a → 0 < ceil a b.
Proof. intros Hb Ha. pose proof (ceil_spec a b Hb). nia. Qed.

Lemma ceilDiv_ceil a b : is_u64 a → 0 < b → ceilDiv a b = ceil a b.
Proof.
  intros Ha Hb. unfold ceilDiv. destruct (Z.eqb_spec a 0) as [->|Hne].
  { by rewrite ceil_0. }
  assert (E : (a - 1) / b + 1 = ceil a b).
  { unfold ceil. replace (a + b - 1) with (a - 1 + 1 * b) by lia. by rewrite Z.div_add by lia. }
  unfold u64_add. rewrite E. apply u64_small.
  pose proof (ceil_bounds a b Hb). unfold is_u64 in *. lia.
Qed.

Lemma safeMul_spec a b :
  is_u64 a → is_u64 b → safeMul a b = if a * b <? two64 then (a * b, true) else (0, false).
Proof.
  intros Ha Hb. unfold safeMul, bits_Mul64, is_u64 in *.
  destruct (Z.eqb_spec a 0) as [->|]; [done|].
  destruct (Z.eqb_spec b 0) as [->|]; [by rewrite Z.mul_0_r|]. cbn [orb].
  destruct (Z.ltb_spec (a * b) two64) as [H|H].
  - rewrite Z.div_small, Z.mod_small by nia. done.
  - assert (1 <= a * b / two64) by (apply Z.div_le_lower_bound; [done|lia]).
    destruct (Z.eqb_spec (a * b / two64) 0); [lia|done].
Qed.

Lemma safeAdd_spec a b :
  is_u64 a → is_u64 b → safeAdd a b = if a + b <? two64 then (a + b, true) else (0, false).
Proof.
  intros Ha Hb. unfold safeAdd. pose proof (u64_add_overflow a b Ha Hb).
  destruct (Z.ltb_spec (u64_add a b) a), (Z.ltb_spec (a + b) two64); try lia; [done|].
  rewrite u64_add_exact; [done..|lia].
Qed.

Lemma checked_mul_ok a b msg v :
  is_u64 a → is_u64 b → checked (safeMul a b) msg = Ok v ↔ v = a * b ∧ a * b < two64.
Proof.
  intros Ha Hb. rewrite safeMul_spec by done. unfold checked.
  destruct (Z.ltb_spec (a * b) two64); naive_solver lia.
Qed.

Lemma checked_add_ok a b msg v :
  is_u64 a → is_u64 b → checked (safeAdd a b) msg = Ok v ↔ v = a + b ∧ a + b < two64.
Proof.
  intros Ha Hb. rewrite safeAdd_spec by done. unfold checked.
  destruct (Z.ltb_spec (a + b) two64); naive_solver lia.
Qed.

Lemma checked_ok_eq v msg : checked (v, true) msg = Ok v.
Proof. done. Qed.

(** The hourly rate, in micro-XUSD, of the requested resources. *)
Definition per_hour (vcpus memoryMB diskGB : Z) : Z :=
  vcpus * LeaseVCPURate + ceil memoryMB 1024 * LeaseMemGBRate + diskGB * LeaseDiskGBRate.

(** The price before the multiplier: started minutes at the hourly rate. *)
Definition base_price (vcpus memoryMB diskGB duration : Z) : Z :=
  ceil (per_hour vcpus memoryMB diskGB * ceil duration 60) 60.

Definition lease_price (vcpus memoryMB diskGB duration multiplierMilli : Z) : Z :=
  ceil (base_price vcpus memoryMB diskGB duration * multiplierMilli) 1000.

Lemma per_hour_nonneg v m d : 0 <= v → 0 <= m → 0 <= d → 0 <= per_hour v m d.
Proof.
  intros. unfold per_hour, LeaseVCPURate, LeaseMemGBRate, LeaseDiskGBRate.
  pose proof (ceil_bounds m 1024). lia.
Qed.

Lemma base_price_nonneg v m d dur :
  0 <= v → 0 <= m → 0 <= d → 0 <= dur → 0 <= base_price v m d dur.
Proof.
  intros. unfold base_price. apply ceil_bounds; [lia|].
  apply Z.mul_nonneg_nonneg; [by apply per_hour_nonneg|by apply ceil_bounds].
Qed.

(** The fit conditions of the checked computation. *)
Definition price_fits (v m d dur mult : Z) : Prop :=
  per_hour v m d < two64 ∧ per_hour v m d * ceil dur 60 < two64 ∧
  base_price v m d dur * mult < two64.

Lemma cost_positive x : 0 <= x → (if x =? 0 then 1 else x) = Z.max 1 x.
Proof. intros. destruct (Z.eqb_spec x 0); lia. Qed.

(** The goal [Err _ = Ok c ↔ conditions] once a condition is known to fail. *)
Ltac refused := split; [discriminate|intros (? & ? & ? & (? & ? & ?) & ?); exfalso; lia].

Lemma LeaseCost_iff T v m d dur mult c :
  is_u64 v → is_u64 m → is_u64 d → is_u64 dur → is_u64 mult →
  LeaseCost T v m d dur mult = Ok c ↔
  mult ≠ 0 ∧ LeaseMinDuration T <= dur <= LeaseMaxDuration ∧ per_hour v m d ≠ 0 ∧
  price_fits v m d dur mult ∧ c = Z.max 1 (lease_price v m d dur mult).
Proof.
  intros Hv Hm Hd Hdur Hmult.
  pose proof (per_hour_nonneg v m d). pose proof (base_price_nonneg v m d dur).
  pose proof (ceil_bounds m 1024 eq_refl). pose proof (ceil_bounds dur 60 eq_refl).
  pose proof (ceil_bounds (per_hour v m d * ceil dur 60) 60 eq_refl).
  pose proof (ceil_bounds (base_price v m d dur * mult) 1000 eq_refl).
  assert (is_u64 (ceil m 1024)) by (unfold is_u64 in *; lia).
  assert (is_u64 (ceil dur 60)) by (unfold is_u64 in *; lia).
  unfold LeaseCost, lease_price, price_fits.
  rewrite (ceilDiv_ceil dur 60), (ceilDiv_ceil m 1024) by done.
  destruct (Z.eqb_spec mult 0); [refused|].
  destruct (Z.ltb_spec dur (LeaseMinDuration T)); [refused|].
  destruct (Z.ltb_spec LeaseMaxDuration dur); [refused|]. cbn [rbind rfail_if].
  rewrite !safeMul_spec by done.
  assert (P : per_hour v m d = v * LeaseVCPURate + ceil m 1024 * LeaseMemGBRate
                                 + d * LeaseDiskGBRate) by done.
  assert (0 <= v * LeaseVCPURate ∧ 0 <= ceil m 1024 * LeaseMemGBRate ∧ 0 <= d * LeaseDiskGBRate).
  { unfold LeaseVCPURate, LeaseMemGBRate, LeaseDiskGBRate, is_u64 in *. lia. }
  destruct (Z.ltb_spec (v * LeaseVCPURate) two64); [|refused].
  destruct (Z.ltb_spec (ceil m 1024 * LeaseMemGBRate) two64); [|refused].
  destruct (Z.ltb_spec (d * LeaseDiskGBRate) two64); [|refused].
  cbn [checked rbind]. rewrite safeAdd_spec by (unfold is_u64; lia).
  destruct (Z.ltb_spec (v * LeaseVCPURate + ceil m 1024 * LeaseMemGBRate) two64);
    [|refused].
  cbn [checked rbind]. rewrite safeAdd_spec by (unfold is_u64; lia). rewrite <- P.
  destruct (Z.ltb_spec (per_hour v m d) two64); [|refused]. cbn [checked rbind].
  destruct (Z.eqb_spec (per_hour v m d) 0); [refused|]. cbn [rbind rfail_if].
  rewrite safeMul_spec by (unfold is_u64 in *; lia).
  destruct (Z.ltb_spec (per_hour v m d * ceil dur 60) two64); [|refused].
  cbn [checked rbind]. unfold is_u64 in *.
  rewrite (ceilDiv_ceil _ 60) by (unfold is_u64 in *; nia || done).
  fold (base_price v m d dur) in *. rewrite safeMul_spec by (unfold is_u64; nia || done).
  destruct (Z.ltb_spec (base_price v m d dur * mult) two64); [|refused].
  cbn [checked rbind]. rewrite ceilDiv_ceil by (unfold is_u64; nia || done).
  rewrite cost_positive by nia. split; [intros [= <-]; split_and!; lia|by intros (_ & _ & _ & _ & ->)].
Qed.

(** C34: [LeaseCost] succeeds exactly when the multiplier is non-zero, the
    duration is within limits, some resource is requested and the hourly rate,
    the scaled rate and the multiplied price all fit in 64 bits; it then
    returns the mathematical price (started GB and started minutes, each
    division rounded up), never less than one micro-unit and never wrapped. *)
Theorem LeaseCost_exact T v m d dur mult c :
  is_u64 v → is_u64 m → is_u64 d → is_u64 dur → is_u64 mult →
  LeaseCost T v m d dur mult = Ok c ↔
  mult ≠ 0 ∧ LeaseMinDuration T <= dur <= LeaseMaxDuration ∧ per_hour v m d ≠ 0 ∧
  price_fits v m d dur mult ∧ c = Z.max 1 (lease_price v m d dur mult).
Proof. apply LeaseCost_iff. Qed.
Lemma LeaseCost_exact_witness :
  LeaseCost DefaultLeaseTiming 2 4096 20 3601 1250 = Ok 127084.
Proof.
  apply (LeaseCost_exact DefaultLeaseTiming 2 4096 20 3601 1250 127084);
    [split; done..|]. unfold price_fits. split_and!; vm_compute; done.
Defined.

Lemma valid_dims T v m d dur :
  is_u64 v → is_u64 m → is_u64 d → is_u64 dur →
  ValidateLeaseDimensions T v m d dur = Ok () →
  0 < per_hour v m d <= 1785856000 ∧ LeaseMinDuration T <= dur <= LeaseMaxDuration.
Proof.
  unfold is_u64, ValidateLeaseDimensions. intros Hv Hm Hd Hdur H. run. bool_hyps.
  unfold LeaseMaxVCPUs, LeaseMaxMemoryMB, LeaseMaxDiskGB in *.
  pose proof (ceil_mono m 67108864 1024 eq_refl ltac:(lia)) as Hc.
  change (ceil 67108864 1024) with 65536 in Hc.
  pose proof (ceil_bounds m 1024 eq_refl). pose proof (ceil_pos m 1024 eq_refl).
  assert (v ≠ 0 ∨ m ≠ 0 ∨ d ≠ 0).
  { destruct (Z.eqb_spec v 0), (Z.eqb_spec m 0), (Z.eqb_spec d 0); cbn in *; auto; done. }
  unfold per_hour, LeaseVCPURate, LeaseMemGBRate, LeaseDiskGBRate. lia.
Qed.

(** on every lease the ledger accepts as well dimensioned, and with a
    price multiplier of at most 1000x, the price computation cannot overflow:
    [LeaseCost] returns the exact positive price. *)
Theorem LeaseCost_no_overflow T v m d dur mult :
  is_u64 v → is_u64 m → is_u64 d → is_u64 dur →
  1 <= LeaseMinDuration T →
  ValidateLeaseDimensions T v m d dur = Ok () →
  0 < mult <= 1000000 →
  LeaseCost T v m d dur mult = Ok (lease_price v m d dur mult) ∧
  0 < lease_price v m d dur mult.
Proof.
  intros Hv Hm Hd Hdur HT Hval Hmult.
  destruct (valid_dims T v m d dur) as [Hph Hd']; [done..|].
  pose proof (ceil_pos dur 60 eq_refl ltac:(lia)).
  pose proof (ceil_mono dur LeaseMaxDuration 60 eq_refl ltac:(lia)) as Hmin.
  change (ceil LeaseMaxDuration 60) with 525600 in Hmin.
  assert (Hprod : 0 < per_hour v m d * ceil dur 60 <= 938645913600000) by nia.
  pose proof (ceil_pos _ 60 eq_refl ltac:(apply Hprod)) as Hb1.
  pose proof (ceil_mono _ 938645913600000 60 eq_refl ltac:(apply Hprod)) as Hb2.
  change (ceil 938645913600000 60) with 15644098560000 in Hb2. fold (base_price v m d dur) in *.
  assert (Hpos : 0 < lease_price v m d dur mult) by (apply ceil_pos; nia).
  split; [|done]. apply LeaseCost_iff; [done..|unfold is_u64, two64; lia|].
  unfold price_fits, two64. split_and!; try lia; nia.
Qed.
Lemma LeaseCost_no_overflow_witness :
  LeaseCost DefaultLeaseTiming 4096 67108864 1048576 31536000 10000 = Ok 156440985600000 ∧
  0 < 156440985600000.
Proof.
  apply (LeaseCost_no_overflow DefaultLeaseTiming 4096 67108864 1048576 31536000 10000);
    (split; done) || done.
Defined.

(** ** Emission *)

Lemma CapR_le r cap twap : CapR r cap twap <= r.
Proof.
  unfold CapR. destruct (_ || _); [done|]. destruct (safeMul cap 1000) as [s []]; cbn; [|done].
  destruct (Z.ltb_spec (ceilDiv s twap) r); lia.
Qed.

Lemma CapR_u64 r cap twap : is_u64 r → is_u64 cap → is_u64 twap → is_u64 (CapR r cap twap).
Proof.
  intros Hr Hc Ht. pose proof (CapR_le r cap twap).
  enough (0 <= CapR r cap twap) by (unfold is_u64 in *; lia).
  unfold CapR. destruct (Z.eqb_spec cap 0), (Z.eqb_spec twap 0); cbn; try apply Hr.
  rewrite safeMul_spec by done. destruct (_ <? two64) eqn:E; cbn; [|apply Hr]. bool_hyps.
  unfold is_u64 in *. rewrite ceilDiv_ceil by (unfold is_u64; lia).
  pose proof (ceil_bounds (cap * 1000) twap). destruct (_ <? r); lia.
Qed.

(** The payout cap works: the capped rate never exceeds the locked rate,
    and when a cap and a price are published the XE minted per XUSD, at that
    price, is worth less than the cap plus one unit of the rate. *)
Theorem CapR_caps r cap twap :
  is_u64 r → is_u64 cap → is_u64 twap →
  cap ≠ 0 → twap ≠ 0 → cap * 1000 < two64 →
  CapR r cap twap = Z.min r (ceil (cap * 1000) twap) ∧
  (CapR r cap twap - 1) * twap < cap * 1000.
Proof.
  intros Hr Hc Ht Hc0 Ht0 Hfit.
  assert (E : CapR r cap twap = Z.min r (ceil (cap * 1000) twap)).
  { unfold CapR. destruct (Z.eqb_spec cap 0), (Z.eqb_spec twap 0); try lia. cbn [orb].
    rewrite safeMul_spec by done. destruct (Z.ltb_spec (cap * 1000) two64); [|lia]. cbn [negb].
    unfold is_u64 in *. rewrite ceilDiv_ceil by (unfold is_u64; lia).
    destruct (Z.ltb_spec (ceil (cap * 1000) twap) r); lia. }
  split; [exact E|]. rewrite E. unfold is_u64 in *.
  pose proof (ceil_spec (cap * 1000) twap ltac:(lia)). nia.
Qed.
Lemma CapR_caps_witness :
  CapR 2000 1500 1100 = Z.min 2000 (ceil (1500 * 1000) 1100) ∧
  (CapR 2000 1500 1100 - 1) * 1100 < 1500 * 1000.
Proof. apply (CapR_caps 2000 1500 1100); (split; done) || done. Defined.

(** The emission of one paid segment. *)
Definition segment_emission (cost r : Z) : Z := Z.max 1 (ceil (cost * r) 1000).

Lemma LeaseEmissionChecked_iff cost r e :
  is_u64 cost → is_u64 r →
  LeaseEmissionChecked cost r = Ok e ↔ cost * r < two64 ∧ e = segment_emission cost r.
Proof.
  intros Hc Hr. unfold LeaseEmissionChecked. rewrite rbind_ok. unfold is_u64 in *.
  assert (0 <= cost * r) by nia. split.
  - intros (p & [-> Hp]%checked_mul_ok & [= <-]); try done.
    rewrite ceilDiv_ceil by (unfold is_u64; lia).
    rewrite cost_positive; [done|]. apply ceil_bounds; lia.
  - intros [Hp ->]. exists (cost * r). split; [by apply checked_mul_ok|].
    rewrite ceilDiv_ceil by (unfold is_u64; lia). rewrite cost_positive; [done|].
    apply ceil_bounds; lia.
Qed.

Lemma segment_emission_u64 cost r :
  is_u64 cost → is_u64 r → cost * r < two64 → is_u64 (segment_emission cost r).
Proof.
  intros Hc Hr H. unfold segment_emission, is_u64 in *. assert (0 <= cost * r) by nia.
  pose proof (ceil_bounds (cost * r) 1000 eq_refl). unfold two64 in *. lia.
Qed.

(** Cost and capped rate of the segments of a lease: the base lease, then its
    renewals. *)
Definition segments (l : Lease) : list (Z * Z) :=
  (l_Cost l, CapR (l_LockedR l) (l_LockedPayoutCap l) (l_LockedTWAP l)) ::
  map (λ s, (seg_Cost s, CapR (seg_LockedR s) (seg_LockedPayoutCap s) (seg_LockedTWAP s)))
      (l_Renewals l).

Definition emission_sum (l : list (Z * Z)) : Z :=
  foldr (λ '(c, r) acc, segment_emission c r + acc) 0 l.

Definition seg_u64 (s : LeaseSegment) : Prop :=
  is_u64 (seg_Cost s) ∧ is_u64 (seg_LockedR s) ∧ is_u64 (seg_LockedPayoutCap s) ∧
  is_u64 (seg_LockedTWAP s).
Definition lease_u64 (l : Lease) : Prop :=
  is_u64 (l_Cost l) ∧ is_u64 (l_LockedR l) ∧ is_u64 (l_LockedPayoutCap l) ∧
  is_u64 (l_LockedTWAP l) ∧ Forall seg_u64 (l_Renewals l).

Lemma emission_sum_cons c r l :
  emission_sum ((c, r) :: l) = segment_emission c r + emission_sum l.
Proof. done. Qed.

Lemma emission_sum_nonneg l : 0 <= emission_sum l.
Proof.
  induction l as [|[c r] l IH]; [done|]. rewrite emission_sum_cons.
  unfold segment_emission. lia.
Qed.

Lemma total_emission_loop_iff i total segs e :
  is_u64 total → Forall seg_u64 segs →
  let ps := map (λ s, (seg_Cost s,
    CapR (seg_LockedR s) (seg_LockedPayoutCap s) (seg_LockedTWAP s))) segs in
  total_emission_loop i total segs = Ok e ↔
  Forall (λ '(c, r), c * r < two64) ps ∧ total + emission_sum ps < two64 ∧
  e = total + emission_sum ps.
Proof.
  intros Ht Hs. cbn zeta. revert i total e Ht.
  induction Hs as [|s segs (H1 & H2 & H3 & H4) Hs IH]; intros i total e Ht;
    cbn [map total_emission_loop].
  { change (emission_sum []) with 0. unfold is_u64 in Ht. split; [intros [= <-]; split_and!; [done|lia..]|].
    intros (_ & _ & ->). f_equal. lia. }
  pose proof (CapR_u64 _ _ _ H2 H3 H4) as Hc. set (r := CapR _ _ _) in *.
  pose proof (emission_sum_nonneg (map (λ s, (seg_Cost s,
    CapR (seg_LockedR s) (seg_LockedPayoutCap s) (seg_LockedTWAP s))) segs)) as Hnn.
  rewrite Forall_cons, emission_sum_cons, rbind_ok. split.
  - intros (x & Hx & Hk). destruct (LeaseEmissionChecked (seg_Cost s) r) as [y|] eqn:Ey;
      [|done]. injection Hx as <-.
    apply LeaseEmissionChecked_iff in Ey as [Hfit ->]; [|done..].
    pose proof (segment_emission_u64 _ _ H1 Hc Hfit) as Hse.
    apply rbind_ok in Hk as (x & [-> Hx]%checked_add_ok & Hk); [|done..].
    apply IH in Hk as (Ha & Hb & ->); [|unfold is_u64 in *; lia].
    split_and!; [done|done|lia|lia].
  - intros ([Hfit Ha] & Hb & ->). exists (segment_emission (seg_Cost s) r).
    pose proof (segment_emission_u64 _ _ H1 Hc Hfit) as Hse. split.
    { rewrite (proj2 (LeaseEmissionChecked_iff (seg_Cost s) r (segment_emission (seg_Cost s) r) H1 Hc)); done. }
    apply rbind_ok. exists (total + segment_emission (seg_Cost s) r). unfold is_u64 in *.
    split; [apply checked_add_ok; unfold is_u64; lia|].
    apply IH; [unfold is_u64; lia|]. split_and!; [done|lia|lia].
Qed.


Definition witness_lease : Lease :=
  mkLease "aa" LeaseAccepted "consumer" "provider" 2 4096 20 3600 "" 127084 0 1000 "cert"
    false 2000 1500 1100 [mkLeaseSegment "bb" 3600 60001 2000 "cert" 1999 0 0].
