(* ===== verification/Encoding.v ===== *)
(** * Canonical encodings: [core/encoding.go] and [core/memo.go]

    The bytes a block hash covers ([MarshalBlockCanonical] followed by
    [MarshalBlockAux]), the binary block format with its decoder, and the vote
    format. *)
From S2P Require Import Prelude GoLib Types.

(** ** Memos *)

Definition MaxMemoBytes : Z := 64.

(** [%02x] of a byte *)
Definition hex2 (c : Z) : string := str [hex_digit (c / 16); hex_digit (c mod 16)].

Fixpoint memo_scan (i : Z) (l : list Z) : result unit :=
  match l with
  | [] => Ok ()
  | c :: l =>
      if (c =? 9) || (c =? 10) then memo_scan (i + 1) l
      else if (c <? 32) || (c =? 127)
      then Err (errorf ("memo contains disallowed control byte 0x" +:+ hex2 c
                        +:+ " at offset " +:+ FormatInt i))
      else memo_scan (i + 1) l
  end.

Definition ValidateMemo (memo : string) : result unit :=
  if memo =?s "" then Ok ()
  else
    rfail_if (MaxMemoBytes <? slen memo)
      (errorf ("memo too long: " +:+ FormatInt (slen memo) +:+ " bytes (max "
               +:+ FormatInt MaxMemoBytes +:+ ")")) ;?
    rfail_if (negb (ValidString memo)) (errorf "memo is not valid UTF-8") ;?
    memo_scan 0 (bytes memo).

(** ** The canonical bytes of a block *)

Definition versionByte : Z := 2.

Definition type_byte (t : BlockType) : result Z :=
  match t with
  | BlockSend => Ok 1
  | BlockReceive => Ok 2
  | BlockLease => Ok 4
  | BlockLeaseAccept => Ok 5
  | BlockLeaseSettle => Ok 6
  | BlockGenesis => Ok 7
  | BlockMultisigOpen => Ok 8
  | BlockMultisigUpdate => Ok 9
  | BlockLeaseCancel => Ok 10
  | BlockBurn => Ok 11
  | BlockLeaseForceSettle => Ok 12
  | BlockMint => Ok 13
  | BlockLeaseRenew => Ok 14
  | BlockOther s => Err (errorf ("MarshalBlock: unknown block type " +:+ quote s))
  end.

Definition assetFieldSize : Z := 8.
Definition fixedHeaderSize : Z := 90.
Definition sendTailSize : Z := 40.
Definition receiveTailSize : Z := 32.
Definition leaseTailSize : Z := 104.
Definition leaseAcceptTailSize : Z := 64.
Definition leaseSettleTailSize : Z := 40.
Definition burnTailSize : Z := 8.
Definition mintTailSize : Z := 8.
Definition representativeSize : Z := 32.
Definition genesisTimingSize : Z := 48.
Definition auxTagAccountPubKey : string := "xe/block/pubkey/v1".

(** [hex.DecodeString] of a field that must be 32 bytes long *)
Definition decode32 (fn field s : string) : result (list Z) :=
  let? bs := result_map_err (wrapf (fn +:+ ": invalid " +:+ field +:+ " hex: "))
               (DecodeString s) in
  rfail_if (negb (zlen bs =? 32))
    (errorf (fn +:+ ": " +:+ field +:+ " must be 32 bytes, got " +:+ FormatInt (zlen bs))) ;?
  Ok bs.

Definition zeros (n : nat) : list Z := replicate n 0.

(** A 32-byte field whose [absent] spelling is written as zeros *)
Definition decode32_or (absent fn field s : string) : result (list Z) :=
  if s =?s absent then Ok (zeros 32) else decode32 fn field s.

Fixpoint keyset_bytes (ks : list string) : result (list Z) :=
  match ks with
  | [] => Ok []
  | k :: ks =>
      let? kb := result_map_err (wrapf "invalid key hex: ") (DecodeString k) in
      rfail_if (negb (zlen kb =? 32))
        (errorf ("key must be 32 bytes, got " +:+ FormatInt (zlen kb))) ;?
      let? rest := keyset_bytes ks in
      Ok (kb ++ rest)
  end.

Definition marshalKeysetCanonical (ks : option Keyset) : result (list Z) :=
  match ks with
  | None => Err (errorf "keyset is nil")
  | Some ks =>
      let sorted := sort_strings (ks_Keys ks) in
      let? body := keyset_bytes sorted in
      Ok (PutUint32 (ks_Threshold ks) ++ PutUint32 (zlen sorted) ++ body)
  end.

Definition hasGenesisLeaseTiming (b : Block) : bool :=
  negb (b_LeaseMinDurationSecs b =? 0) || negb (b_LeaseSettleGraceNs b =? 0) ||
  negb (b_LeaseForceSettleGapNs b =? 0) || negb (b_LeaseEscrowExpiryNs b =? 0) ||
  negb (b_LeaseArchiveGapNs b =? 0) || negb (b_MaxAttestationSkewNs b =? 0).

Definition MB : string := "MarshalBlock".

(** The tail written by the second [switch] of [MarshalBlockCanonical]. *)
Definition type_tail (b : Block) : result (list Z) :=
  match b_Type b with
  | BlockSend =>
      let? dest := decode32 MB "destination" (b_Destination b) in
      Ok (dest ++ PutUint64 (b_Amount b))
  | BlockReceive | BlockLeaseCancel | BlockLeaseForceSettle =>
      decode32 MB "source" (b_Source b)
  | BlockLease =>
      let? dest := decode32 MB "destination" (b_Destination b) in
      let? sshKey := decode32_or "" MB "access_pub_key" (b_AccessPubKey b) in
      Ok (dest ++ PutUint64 (b_Amount b) ++ PutUint64 (b_VCPUs b) ++ PutUint64 (b_MemoryMB b)
          ++ PutUint64 (b_DiskGB b) ++ PutUint64 (b_Duration b) ++ sshKey)
  | BlockMultisigOpen | BlockMultisigUpdate =>
      result_map_err (wrapf "MarshalBlock: ") (marshalKeysetCanonical (b_MSKeyset b))
  | BlockLeaseSettle =>
      let? source := decode32 MB "source" (b_Source b) in
      Ok (source ++ PutUint64 (b_Amount b))
  | BlockLeaseAccept =>
      let? source := decode32 MB "source" (b_Source b) in
      Ok (source ++ PutUint64 (b_Amount b) ++ PutUint64 (b_LockedR b)
          ++ PutUint64 (b_LockedPayoutCap b) ++ PutUint64 (b_LockedTWAP b))
  | BlockLeaseRenew =>
      let? source := decode32 MB "source" (b_Source b) in
      Ok (source ++ PutUint64 (b_Amount b) ++ PutUint64 (b_Duration b) ++ PutUint64 (b_LockedR b)
          ++ PutUint64 (b_LockedPayoutCap b) ++ PutUint64 (b_LockedTWAP b))
  | BlockBurn | BlockMint => Ok (PutUint64 (b_Amount b))
  | BlockGenesis | BlockOther _ => Ok []
  end.

(** [uint64(v)] of an [int64] field is the two's complement [PutUint64] writes. *)
Definition timing_bytes (b : Block) : list Z :=
  PutUint64 (b_LeaseMinDurationSecs b) ++ PutUint64 (b_LeaseSettleGraceNs b)
  ++ PutUint64 (b_LeaseForceSettleGapNs b) ++ PutUint64 (b_LeaseEscrowExpiryNs b)
  ++ PutUint64 (b_LeaseArchiveGapNs b) ++ PutUint64 (b_MaxAttestationSkewNs b).

Definition genesis_timing (b : Block) : result (list Z) :=
  if hasGenesisLeaseTiming b then
    rfail_if (negb (b_Type b =?s BlockGenesis))
      (errorf ("MarshalBlock: lease-timing fields not allowed on "
               +:+ BlockType_string (b_Type b) +:+ " blocks")) ;?
    Ok (timing_bytes b)
  else Ok [].

(** [t == BlockSend || t == BlockBurn] *)
Definition memo_type (t : BlockType) : bool :=
  match t with BlockSend | BlockBurn => true | _ => false end.

Definition memo_bytes (b : Block) : list Z :=
  if memo_type (b_Type b) then slen (b_Memo b) :: bytes (b_Memo b) else [].

Definition asset_bytes (asset : string) : list Z :=
  bytes asset ++ zeros (8 - String.length asset).

Definition MarshalBlockCanonical (b : Block) : result (list Z) :=
  let? typeByte := type_byte (b_Type b) in
  rfail_if (negb (b_Memo b =?s "") && negb (memo_type (b_Type b)))
    (errorf ("MarshalBlock: memo not allowed on " +:+ BlockType_string (b_Type b) +:+ " blocks")) ;?
  result_map_err (wrapf "MarshalBlock: ") (ValidateMemo (b_Memo b)) ;?
  rfail_if (assetFieldSize <? slen (b_Asset b))
    (errorf ("MarshalBlock: asset too long: " +:+ FormatInt (slen (b_Asset b))
             +:+ " bytes (max " +:+ FormatInt assetFieldSize +:+ ")")) ;?
  let? account := decode32 MB "account" (b_Account b) in
  let? previous := decode32_or "0" MB "previous" (b_Previous b) in
  let? tail := type_tail b in
  let? rep := decode32_or "" MB "representative" (b_Representative b) in
  let? timing := genesis_timing b in
  Ok ([versionByte; typeByte] ++ asset_bytes (b_Asset b) ++ account ++ previous
      ++ PutUint64 (b_Balance b) ++ PutUint64 (b_Timestamp b) ++ tail ++ rep ++ timing
      ++ memo_bytes b).

(** ** The auxiliary bytes *)

Definition writeLenPrefixedBytes (b : list Z) : list Z := PutUint64 (zlen b) ++ b.

Fixpoint insert_attestation (a : TimekeeperAttestation) (l : list TimekeeperAttestation) :=
  match l with
  | [] => [a]
  | x :: l => if str_ltb (ta_PublicKey x) (ta_PublicKey a) then x :: insert_attestation a l
              else a :: x :: l
  end.
Definition sort_attestations (l : list TimekeeperAttestation) : list TimekeeperAttestation :=
  foldr insert_attestation [] l.

Definition attestation_bytes (a : TimekeeperAttestation) : list Z :=
  writeLenPrefixedBytes (bytes (ta_PublicKey a)) ++ PutUint64 (ta_Timestamp a)
  ++ writeLenPrefixedBytes (bytes (ta_Signature a)).

Definition aux_type (t : BlockType) : bool :=
  match t with
  | BlockLease | BlockLeaseAccept | BlockLeaseSettle | BlockLeaseForceSettle
  | BlockLeaseRenew => true
  | _ => false
  end.

Definition pubkey_aux (b : Block) : list Z :=
  if b_PubKey b =?s "" then []
  else writeLenPrefixedBytes (bytes auxTagAccountPubKey)
       ++ writeLenPrefixedBytes (bytes (b_PubKey b)).

Definition MarshalBlockAux (b : Block) : list Z :=
  if aux_type (b_Type b) then
    let atts := sort_attestations (b_Attestations b) in
    pubkey_aux b ++ writeLenPrefixedBytes (bytes (b_CertificateHash b))
    ++ PutUint64 (zlen atts) ++ concat (attestation_bytes <$> atts)
  else pubkey_aux b.

Definition MarshalBlock (b : Block) : result (list Z) :=
  rfail_if (negb (b_PubKey b =?s ""))
    (errorf "MarshalBlock: the binary canonical encoding cannot represent a declared pub_key (it is bound into the hash via the aux input, not the canonical bytes) — use JSON, which is the wire and store format for blocks") ;?
  let? canonical := MarshalBlockCanonical b in
  Ok (canonical ++ LePutUint64 (b_PoWNonce b)).

(** ** Decoding *)

(** [data[lo:hi]] *)
Definition slice (lo hi : Z) (data : list Z) : list Z :=
  take (Z.to_nat (hi - lo)) (drop (Z.to_nat lo) data).

Definition allZero (l : list Z) : bool := forallb (λ v, v =? 0) l.

Definition getU64 (off : Z) (data : list Z) : Z := be_value (slice off (off + 8) data).
Definition getI64 (off : Z) (data : list Z) : Z := i64 (getU64 off data).
Definition get_hex32 (off : Z) (data : list Z) : string := EncodeToString (slice off (off + 32) data).
(** A 32-byte field whose zero value reads as [absent] *)
Definition get_hex32_or (absent : string) (off : Z) (data : list Z) : string :=
  if allZero (slice off (off + 32) data) then absent else get_hex32 off data.

(** The block type of a type byte and the least length of its encoding *)
Definition unmarshal_type (c : Z) : result (BlockType * Z) :=
  let base := fixedHeaderSize + representativeSize in
  if c =? 1 then Ok (BlockSend, base + sendTailSize + 1)
  else if c =? 2 then Ok (BlockReceive, base + receiveTailSize)
  else if c =? 7 then Ok (BlockGenesis, base)
  else if c =? 8 then Ok (BlockMultisigOpen, base + 8)
  else if c =? 9 then Ok (BlockMultisigUpdate, base + 8)
  else if c =? 4 then Ok (BlockLease, base + leaseTailSize)
  else if c =? 5 then Ok (BlockLeaseAccept, base + leaseAcceptTailSize)
  else if c =? 6 then Ok (BlockLeaseSettle, base + leaseSettleTailSize)
  else if c =? 10 then Ok (BlockLeaseCancel, base + receiveTailSize)
  else if c =? 12 then Ok (BlockLeaseForceSettle, base + receiveTailSize)
  else if c =? 11 then Ok (BlockBurn, base + burnTailSize + 1)
  else if c =? 13 then Ok (BlockMint, base + mintTailSize)
  else Err (errorf ("UnmarshalBlock: unknown type byte 0x" +:+ hex2 c)).

Fixpoint get_keys (n : nat) (off : Z) (data : list Z) : list string :=
  match n with
  | O => []
  | S n => get_hex32 off data :: get_keys n (off + 32) data
  end.

Definition unmarshalKeysetCanonical (data : list Z) : result (Keyset * Z) :=
  rfail_if (zlen data <? 8) (errorf "keyset data too short") ;?
  let threshold := be_value (slice 0 4 data) in
  let numKeys := be_value (slice 4 8 data) in
  rfail_if ((numKeys <? 1) || (256 <? numKeys))
    (errorf ("invalid key count: " +:+ FormatInt numKeys)) ;?
  let totalLen := 8 + 32 * numKeys in
  rfail_if (zlen data <? totalLen)
    (errorf ("keyset data too short for " +:+ FormatInt numKeys +:+ " keys")) ;?
  Ok (mkKeyset (get_keys (Z.to_nat numKeys) 8 data) threshold, totalLen).

(** The fields the type-specific tail carries *)
Record Tail := mkTail {
  t_Destination : string; t_Source : string; t_Amount : Z;
  t_VCPUs : Z; t_MemoryMB : Z; t_DiskGB : Z; t_Duration : Z; t_AccessPubKey : string;
  t_LockedR : Z; t_LockedPayoutCap : Z; t_LockedTWAP : Z; t_MSKeyset : option Keyset }.

Definition no_tail : Tail := mkTail "" "" 0 0 0 0 0 "" 0 0 0 None.

(** The tail of [unmarshalBlock] and the offset of the representative *)
Definition unmarshal_tail (t : BlockType) (data : list Z) : result (Tail * Z) :=
  match t with
  | BlockSend =>
      Ok (mkTail (get_hex32 90 data) "" (getU64 122 data) 0 0 0 0 "" 0 0 0 None, 130)
  | BlockReceive | BlockLeaseCancel | BlockLeaseForceSettle =>
      Ok (mkTail "" (get_hex32 90 data) 0 0 0 0 0 "" 0 0 0 None, 122)
  | BlockLease =>
      Ok (mkTail (get_hex32 90 data) "" (getU64 122 data) (getU64 130 data) (getU64 138 data)
            (getU64 146 data) (getU64 154 data) (get_hex32_or "" 162 data) 0 0 0 None, 194)
  | BlockLeaseSettle =>
      Ok (mkTail "" (get_hex32 90 data) (getU64 122 data) 0 0 0 0 "" 0 0 0 None, 130)
  | BlockLeaseAccept =>
      Ok (mkTail "" (get_hex32 90 data) (getU64 122 data) 0 0 0 0 "" (getU64 130 data)
            (getU64 138 data) (getU64 146 data) None, 154)
  | BlockMultisigOpen | BlockMultisigUpdate =>
      let? (ks, ksLen) := result_map_err (wrapf "UnmarshalBlock: keyset: ")
                             (unmarshalKeysetCanonical (drop 90 data)) in
      rfail_if (zlen data <? 90 + ksLen + representativeSize)
        (errorf ("UnmarshalBlock: data too short for " +:+ BlockType_string t +:+ " after keyset")) ;?
      Ok (mkTail "" "" 0 0 0 0 0 "" 0 0 0 (Some ks), 90 + ksLen)
  | BlockBurn | BlockMint => Ok (mkTail "" "" (getU64 90 data) 0 0 0 0 "" 0 0 0 None, 98)
  | _ => Ok (no_tail, 90)
  end.

(** The genesis timing values, all zero when absent, and the offset after them *)
Definition unmarshal_timing (t : BlockType) (repOffset tailOffset : Z) (data : list Z)
    : (Z * Z * Z * Z * Z * Z) * Z :=
  if (t =?s BlockGenesis) && (repOffset + 32 + genesisTimingSize <=? zlen data) then
    let o := repOffset + 32 in
    (getU64 o data, getI64 (o + 8) data, getI64 (o + 16) data, getI64 (o + 24) data,
     getI64 (o + 32) data, getI64 (o + 40) data, o + genesisTimingSize)
  else (0, 0, 0, 0, 0, 0, tailOffset).

Definition unmarshal_memo (t : BlockType) (repOffset minLen tailOffset : Z) (data : list Z)
    : result (string * Z) :=
  if memo_type t then
    let memoLen := default 0 (data !! Z.to_nat (repOffset + 32)) in
    rfail_if (MaxMemoBytes <? memoLen)
      (errorf ("UnmarshalBlock: memo length " +:+ FormatInt memoLen +:+ " exceeds max "
               +:+ FormatInt MaxMemoBytes)) ;?
    rfail_if (zlen data <? minLen + memoLen)
      (errorf ("UnmarshalBlock: data too short for " +:+ FormatInt memoLen +:+ "-byte memo")) ;?
    let? memo := (if 0 <? memoLen then
        let memo := str (slice minLen (minLen + memoLen) data) in
        result_map_err (wrapf "UnmarshalBlock: ") (ValidateMemo memo) ;?
        Ok memo
      else Ok ""%string) in
    Ok (memo, minLen + memoLen)
  else Ok (""%string, tailOffset).

Definition unmarshalBlock (data : list Z) : result Block :=
  let? (blockType, minLen) := unmarshal_type (default 0 (data !! 1%nat)) in
  rfail_if (zlen data <? minLen)
    (errorf ("UnmarshalBlock: data too short for " +:+ BlockType_string blockType
             +:+ " block: need " +:+ FormatInt minLen +:+ " bytes, got "
             +:+ FormatInt (zlen data))) ;?
  let asset := str (trim_right 0 (slice 2 10 data)) in
  let account := get_hex32 10 data in
  let previous := get_hex32_or "0" 42 data in
  let balance := getU64 74 data in
  let timestamp := getI64 82 data in
  let? (t, repOffset) := unmarshal_tail blockType data in
  let rep := get_hex32_or "" repOffset data in
  let '(minDur, grace, gap, escrow, archive, skew, tailOffset) :=
    unmarshal_timing blockType repOffset minLen data in
  let? (memo, tailOffset) := unmarshal_memo blockType repOffset minLen tailOffset data in
  let nonce := if zlen data =? tailOffset + 8
               then le_value (drop (Z.to_nat tailOffset) data) else 0 in
  Ok (mkBlock blockType account previous balance timestamp asset rep
        (t_Destination t) (t_Amount t) (t_Source t) (t_VCPUs t) (t_MemoryMB t) (t_DiskGB t)
        (t_Duration t) (t_AccessPubKey t) minDur grace gap escrow archive skew memo
        (t_MSKeyset t) [] "" "" "" nonce [] "" (t_LockedR t) (t_LockedPayoutCap t)
        (t_LockedTWAP t)).

Definition UnmarshalBlock (data : list Z) : result Block :=
  rfail_if (zlen data <? 2)
    (errorf ("UnmarshalBlock: data too short (" +:+ FormatInt (zlen data) +:+ " bytes)")) ;?
  rfail_if (negb (default 0 (data !! 0%nat) =? versionByte))
    (errorf ("UnmarshalBlock: unsupported version byte 0x" +:+ hex2 (default 0 (data !! 0%nat)))) ;?
  unmarshalBlock data.

(** ** Votes *)

Definition voteVersionByte : Z := 2.

Definition voteSigningBytes (v : Vote) : result (list Z) :=
  let fn := "voteSigningBytes"%string in
  let? rep := decode32 fn "RepPubKey" (v_RepPubKey v) in
  let? hash := decode32 fn "BlockHash" (v_BlockHash v) in
  let? acct := decode32 fn "ConflictAccount" (v_ConflictAccount v) in
  let? prev := decode32_or "0" fn "ConflictPrev" (v_ConflictPrev v) in
  Ok ([voteVersionByte] ++ rep ++ hash ++ acct ++ prev ++ PutUint64 (v_Timestamp v)
      ++ [if v_Final v then 1 else 0]).

Definition EncodeVote (v : Vote) : result (list Z) :=
  let? signing := result_map_err (wrapf "EncodeVote: ") (voteSigningBytes v) in
  let sigLen := zlen (v_Signature v) mod 65536 in
  Ok (signing ++ PutUint16 sigLen ++ v_Signature v).

Definition DecodeVote (data : list Z) : result Vote :=
  let signingSize := 138 in
  rfail_if (zlen data <? signingSize + 2)
    (errorf ("DecodeVote: data too short (" +:+ FormatInt (zlen data) +:+ " bytes)")) ;?
  rfail_if (negb (default 0 (data !! 0%nat) =? voteVersionByte))
    (errorf ("DecodeVote: unsupported version byte 0x" +:+ hex2 (default 0 (data !! 0%nat)))) ;?
  let sigLen := be_value (slice 138 140 data) in
  rfail_if (zlen data <? 140 + sigLen)
    (errorf ("DecodeVote: data truncated: need " +:+ FormatInt sigLen
             +:+ " bytes for signature, have " +:+ FormatInt (zlen data - 140))) ;?
  (* [data[140:140+sigLen]] adds in [uint16] *)
  rfail_if (65536 <=? 140 + sigLen) (panic "slice bounds out of range") ;?
  Ok (mkVote (get_hex32 1 data) (get_hex32 33 data) (get_hex32 65 data)
        (get_hex32_or "0" 97 data) (getI64 129 data)
        (negb (default 0 (data !! 137%nat) =? 0)) (slice 140 (140 + sigLen) data) 0).
