(* ===== verification/EncodingFacts.v ===== *)
(** * What the encodings determine

    The bytes a block hash is computed from determine the signed view of the
    block, and nothing else; the vote and block formats decode to what was
    encoded. *)
From S2P Require Import Prelude GoLib Types Encoding.

(** ** Self-delimiting fields

    [delimited enc P]: an encoded value followed by anything can be split off
    again, so the value and the rest are determined by the bytes. *)
Definition delimited {A} (enc : A → list Z) (P : A → Prop) : Prop :=
  ∀ x y r1 r2, P x → P y → enc x ++ r1 = enc y ++ r2 → x = y ∧ r1 = r2.

Lemma delimited_fixed {A} (enc : A → list Z) (P : A → Prop) n :
  (∀ x, P x → length (enc x) = n) → (∀ x y, P x → P y → enc x = enc y → x = y) →
  delimited enc P.
Proof.
  intros Hlen Hinj x y r1 r2 Hx Hy E.
  apply app_inj_1 in E as [E ->]; [|by rewrite !Hlen]. eauto.
Qed.

Lemma PutUint64_length z : length (PutUint64 z) = 8%nat.
Proof. apply length_be_bytes. Qed.
Lemma PutUint32_length z : length (PutUint32 z) = 4%nat.
Proof. apply length_be_bytes. Qed.

Lemma delimited_u64 : delimited PutUint64 is_u64.
Proof. apply (delimited_fixed _ _ 8); [intros; apply PutUint64_length|apply PutUint64_inj]. Qed.

Lemma delimited_i64 : delimited PutUint64 is_i64.
Proof.
  apply (delimited_fixed _ _ 8); [intros; apply PutUint64_length|].
  intros x y Hx Hy E%(f_equal be_value). rewrite !PutUint64_value in E.
  by rewrite <- (i64_u64 x), <- (i64_u64 y), E.
Qed.

Lemma delimited_u32 : delimited PutUint32 (λ z, 0 <= z < 4294967296).
Proof.
  apply (delimited_fixed _ _ 4); [intros; apply PutUint32_length|].
  intros x y Hx Hy E%(f_equal be_value). unfold PutUint32 in E. rewrite !be_value_bytes in E.
  change (256 ^ Z.of_nat 4) with 4294967296 in E. by rewrite !Z.mod_small in E.
Qed.

Lemma delimited_raw n : delimited id (λ l : list Z, length l = n).
Proof. by apply (delimited_fixed _ _ n). Qed.

Lemma delimited_prefixed : delimited writeLenPrefixedBytes (λ l, zlen l < two64).
Proof.
  intros x y r1 r2 Hx Hy E. unfold writeLenPrefixedBytes in E. rewrite <- !app_assoc in E.
  assert (∀ l : list Z, 0 <= zlen l) by (intros; unfold zlen; lia).
  apply delimited_u64 in E as [E E2]; [|split; auto..].
  apply app_inj_1 in E2; [done|]. unfold zlen in E. lia.
Qed.

Lemma delimited_string : delimited (λ s, writeLenPrefixedBytes (bytes s)) (λ s, slen s < two64).
Proof.
  intros x y r1 r2 Hx Hy E. apply delimited_prefixed in E as [E ->].
  - by apply bytes_inj in E as ->.
  - unfold zlen. by rewrite length_bytes.
  - unfold zlen. by rewrite length_bytes.
Qed.

Lemma delimited_list {A} (enc : A → list Z) P n :
  delimited enc P →
  delimited (λ l, concat (enc <$> l)) (λ l, Forall P l ∧ length l = n).
Proof.
  intros He. induction n as [|n IH]; intros x y r1 r2 [Px Lx] [Py Ly] E.
  { destruct x, y; done. }
  destruct x as [|a x], y as [|b y]; try done. cbn in E. rewrite <- !app_assoc in E.
  apply Forall_cons in Px as [Pa Px], Py as [Pb Py].
  apply He in E as [-> E]; [|done..]. apply IH in E as [-> ->]; naive_solver.
Qed.

Definition attestation_ok (a : TimekeeperAttestation) : Prop :=
  slen (ta_PublicKey a) < two64 ∧ is_i64 (ta_Timestamp a) ∧ slen (ta_Signature a) < two64.

Lemma delimited_attestation : delimited attestation_bytes attestation_ok.
Proof.
  intros [p1 t1 s1] [p2 t2 s2] r1 r2 (Hp1 & Ht1 & Hs1) (Hp2 & Ht2 & Hs2) E.
  unfold attestation_bytes in E. cbn in *. rewrite <- !app_assoc in E.
  apply delimited_string in E as [-> E]; [|done..].
  apply delimited_i64 in E as [-> E]; [|done..].
  by apply delimited_string in E as [-> ->].
Qed.

(** ** Hex fields *)

Lemma decode32_ok fn f s bs :
  decode32 fn f s = Ok bs →
  Forall is_byte bs ∧ length bs = 32%nat ∧ EncodeToString bs = ToLower s ∧
  DecodeString s = Ok bs.
Proof.
  unfold decode32. intros H. run. bool_hyps. destruct (DecodeString s) as [bs'|] eqn:E; [|done].
  cbn in *. simplify_eq. destruct (DecodeString_ok _ _ E). unfold zlen in *.
  split_and!; [done|lia|by apply EncodeToString_DecodeString|done].
Qed.

(** The normal spelling of a field whose zero value means [absent]. *)
Definition spelled (absent : string) (bs : list Z) : string :=
  if allZero bs then absent else EncodeToString bs.

Definition ZeroHex : string := EncodeToString (zeros 32).

Definition lower_or (absent s : string) : string :=
  if s =?s absent then absent
  else if ToLower s =?s ZeroHex then absent else ToLower s.

Lemma allZero_spec l : allZero l = true ↔ l = zeros (length l).
Proof.
  unfold allZero, zeros. induction l as [|x l IH]; cbn; [done|].
  rewrite andb_true_iff, IH, Z.eqb_eq. split; [intros [-> <-]; done|]. intros [= -> H]. done.
Qed.

Lemma EncodeToString_inj l1 l2 :
  Forall is_byte l1 → Forall is_byte l2 → EncodeToString l1 = EncodeToString l2 → l1 = l2.
Proof.
  intros H1 H2 E. apply (f_equal DecodeString) in E.
  rewrite !DecodeString_EncodeToString in E by done. by injection E.
Qed.

Lemma zeros_bytes n : Forall is_byte (zeros n).
Proof. apply Forall_replicate. done. Qed.

Lemma decode32_or_ok absent fn f s bs :
  decode32_or absent fn f s = Ok bs →
  Forall is_byte bs ∧ length bs = 32%nat ∧ spelled absent bs = lower_or absent s.
Proof.
  unfold decode32_or, lower_or, spelled. case_bool_decide.
  { intros [= <-]. split_and!; [apply zeros_bytes|done|done]. }
  intros (Hb & Hl & He & _)%decode32_ok. split_and!; [done..|]. rewrite <- He.
  case_bool_decide as Hz.
  - apply EncodeToString_inj in Hz as ->; [done..|apply zeros_bytes].
  - destruct (allZero bs) eqn:Ha; [|done]. apply allZero_spec in Ha. rewrite Hl in Ha.
    by rewrite Ha in Hz.
Qed.

Lemma keyset_bytes_ok ks l :
  keyset_bytes ks = Ok l →
  ∃ bss, l = concat bss ∧ Forall (λ bs, Forall is_byte bs ∧ length bs = 32%nat) bss ∧
         EncodeToString <$> bss = ToLower <$> ks.
Proof.
  revert l. induction ks as [|k ks IH]; intros l H; cbn in H.
  { simplify_eq. by exists []. }
  destruct (DecodeString k) as [kb|] eqn:E; [|done]. cbn in H. run. bool_hyps.
  destruct (DecodeString_ok _ _ E) as [Hb _]. unfold zlen in *.
  match goal with H : keyset_bytes ks = _ |- _ => apply IH in H as (bss & -> & Hf & He) end.
  exists (kb :: bss). split_and!; [done| |].
  - constructor; [split; [done|lia]|done].
  - cbn. f_equal; [by apply EncodeToString_DecodeString|done].
Qed.

(** ** The signed view of a block *)

(** The type-specific fields the hash covers, hex lower-cased and keys sorted. *)
Definition tail_view (b : Block) : Tail :=
  match b_Type b with
  | BlockSend =>
      mkTail (ToLower (b_Destination b)) "" (b_Amount b) 0 0 0 0 "" 0 0 0 None
  | BlockReceive | BlockLeaseCancel | BlockLeaseForceSettle =>
      mkTail "" (ToLower (b_Source b)) 0 0 0 0 0 "" 0 0 0 None
  | BlockLease =>
      mkTail (ToLower (b_Destination b)) "" (b_Amount b) (b_VCPUs b) (b_MemoryMB b) (b_DiskGB b)
        (b_Duration b) (lower_or "" (b_AccessPubKey b)) 0 0 0 None
  | BlockLeaseSettle => mkTail "" (ToLower (b_Source b)) (b_Amount b) 0 0 0 0 "" 0 0 0 None
  | BlockLeaseAccept =>
      mkTail "" (ToLower (b_Source b)) (b_Amount b) 0 0 0 0 "" (b_LockedR b)
        (b_LockedPayoutCap b) (b_LockedTWAP b) None
  | BlockLeaseRenew =>
      mkTail "" (ToLower (b_Source b)) (b_Amount b) 0 0 0 (b_Duration b) "" (b_LockedR b)
        (b_LockedPayoutCap b) (b_LockedTWAP b) None
  | BlockMultisigOpen | BlockMultisigUpdate =>
      mkTail "" "" 0 0 0 0 0 "" 0 0 0
        (match b_MSKeyset b with
         | Some ks => Some (mkKeyset (ToLower <$> sort_strings (ks_Keys ks)) (ks_Threshold ks))
         | None => None
         end)
  | BlockBurn | BlockMint => mkTail "" "" (b_Amount b) 0 0 0 0 "" 0 0 0 None
  | BlockGenesis | BlockOther _ => no_tail
  end.

Definition timing_view (b : Block) : list Z :=
  [b_LeaseMinDurationSecs b; b_LeaseSettleGraceNs b; b_LeaseForceSettleGapNs b;
   b_LeaseEscrowExpiryNs b; b_LeaseArchiveGapNs b; b_MaxAttestationSkewNs b].

Record SignedView := mkSignedView {
  sv_Type : BlockType; sv_Asset : string; sv_Account : string; sv_Previous : string;
  sv_Balance : Z; sv_Timestamp : Z; sv_Tail : Tail; sv_Representative : string;
  sv_Timing : list Z; sv_Memo : string; sv_PubKey : string;
  sv_CertificateHash : string; sv_Attestations : list TimekeeperAttestation }.

Definition signed_view (b : Block) : SignedView :=
  mkSignedView (b_Type b) (b_Asset b) (ToLower (b_Account b)) (lower_or "0" (b_Previous b))
    (b_Balance b) (b_Timestamp b) (tail_view b) (lower_or "" (b_Representative b))
    (timing_view b) (b_Memo b) (b_PubKey b)
    (if aux_type (b_Type b) then b_CertificateHash b else "")
    (if aux_type (b_Type b) then sort_attestations (b_Attestations b) else []).

(** The bytes the block hash is computed from, after the network id. *)
Definition hash_input (b : Block) : result (list Z) :=
  let? c := MarshalBlockCanonical b in Ok (c ++ MarshalBlockAux b).

(** Machine ranges of the fields, and the limits the ledger puts on a declared
    public key and on attestations. *)
Record hashable (b : Block) : Prop := mkHashable {
  hb_amounts : Forall is_u64 [b_Balance b; b_Amount b; b_VCPUs b; b_MemoryMB b; b_DiskGB b;
    b_Duration b; b_LeaseMinDurationSecs b; b_LockedR b; b_LockedPayoutCap b; b_LockedTWAP b];
  hb_times : Forall is_i64 [b_Timestamp b; b_LeaseSettleGraceNs b; b_LeaseForceSettleGapNs b;
    b_LeaseEscrowExpiryNs b; b_LeaseArchiveGapNs b; b_MaxAttestationSkewNs b];
  hb_asset : 0 ∉ bytes (b_Asset b);
  hb_pubkey : b_PubKey b = "" ∨ slen (b_PubKey b) = 64;
  hb_cert : slen (b_CertificateHash b) < two64;
  hb_natts : zlen (b_Attestations b) <= 20;
  hb_atts : Forall attestation_ok (b_Attestations b);
  hb_keyset : from_option (λ ks, 0 <= ks_Threshold ks < 4294967296 ∧
                zlen (ks_Keys ks) < 4294967296) True (b_MSKeyset b) }.

Lemma type_byte_inj t1 t2 c : type_byte t1 = Ok c → type_byte t2 = Ok c → t1 = t2.
Proof. destruct t1, t2; cbn; intros; simplify_eq; done. Qed.

Lemma insert_attestation_perm a l : insert_attestation a l ≡ₚ a :: l.
Proof.
  induction l as [|x l IH]; cbn; [done|]. destruct (str_ltb _ _); [|done].
  rewrite IH. constructor.
Qed.
Lemma sort_attestations_perm l : sort_attestations l ≡ₚ l.
Proof.
  induction l as [|x l IH]; cbn; [done|]. rewrite insert_attestation_perm. by f_equiv.
Qed.

(** Split the first field off both sides of an equation between encodings. *)
Ltac peel_u64 H := apply delimited_u64 in H as [? H]; [|assumption..].
Ltac raw_length := rewrite ?PutUint64_length, ?PutUint32_length; congruence.
Ltac peel_raw H := apply app_inj_1 in H as [? H]; [|raw_length].

Lemma keyset_tail_inj ks1 ks2 t1 t2 r1 r2 :
  0 <= ks_Threshold ks1 < 4294967296 ∧ zlen (ks_Keys ks1) < 4294967296 →
  0 <= ks_Threshold ks2 < 4294967296 ∧ zlen (ks_Keys ks2) < 4294967296 →
  marshalKeysetCanonical (Some ks1) = Ok t1 → marshalKeysetCanonical (Some ks2) = Ok t2 →
  t1 ++ r1 = t2 ++ r2 →
  ks_Threshold ks1 = ks_Threshold ks2 ∧
  ToLower <$> sort_strings (ks_Keys ks1) = ToLower <$> sort_strings (ks_Keys ks2) ∧ r1 = r2.
Proof.
  intros [Ht1 Hk1] [Ht2 Hk2] H1 H2 E. unfold marshalKeysetCanonical in H1, H2. run.
  repeat match goal with H : keyset_bytes _ = Ok _ |- _ =>
    apply keyset_bytes_ok in H as (? & -> & ? & ?) end.
  assert (Hlen : ∀ ks, zlen (sort_strings ks) = zlen ks).
  { intros ks. unfold zlen. by rewrite (Permutation_length (sort_strings_perm ks)). }
  rewrite <- !app_assoc in E. apply delimited_u32 in E as [-> E]; [|done..].
  assert (∀ l : list string, 0 <= zlen l) by (intros; unfold zlen; lia).
  rewrite !Hlen in E. apply delimited_u32 in E as [En E]; [|auto..].
  match goal with Ha : _ <$> ?a = _ <$> sort_strings (ks_Keys ks1),
                  Hb : _ <$> ?b = _ <$> sort_strings (ks_Keys ks2) |- _ =>
    pose proof (f_equal length Ha) as La; pose proof (f_equal length Hb) as Lb;
    rewrite <- Ha, <- Hb; rewrite <- (list_fmap_id a), <- (list_fmap_id b) in E end.
  rewrite !length_fmap in La, Lb. pose proof (Hlen (ks_Keys ks1)). pose proof (Hlen (ks_Keys ks2)).
  unfold zlen in *.
  apply (delimited_list id _ (length (ks_Keys ks1)) (delimited_raw 32)) in E as [-> ->]; [done|..].
  - split; [|lia]. eapply Forall_impl; [eassumption|naive_solver].
  - split; [|lia]. eapply Forall_impl; [eassumption|naive_solver].
Qed.

(** Gather what the successful hex decodings of a marshalling say. *)
Ltac decodings :=
  repeat match goal with
  | H : decode32 _ _ _ = Ok _ |- _ => apply decode32_ok in H as (? & ? & ? & _)
  | H : decode32_or _ _ _ _ = Ok _ |- _ => apply decode32_or_ok in H as (? & ? & ?)
  | H : Forall _ (_ :: _) |- _ => apply Forall_cons in H as [? H]
  end.

(** Peel every field off an equation between two encodings of the same shape. *)
Ltac peel E :=
  rewrite <- ?app_assoc in E;
  repeat first [ apply delimited_u64 in E as [? E]; [|assumption|assumption]
               | apply app_inj_1 in E as [? E]; [|congruence] ].

Lemma type_tail_inj b1 b2 t1 t2 r1 r2 :
  hashable b1 → hashable b2 → b_Type b1 = b_Type b2 →
  type_tail b1 = Ok t1 → type_tail b2 = Ok t2 → t1 ++ r1 = t2 ++ r2 →
  tail_view b1 = tail_view b2 ∧ r1 = r2.
Proof.
  intros [Ha1 _ _ _ _ _ _ Hk1] [Ha2 _ _ _ _ _ _ Hk2] Ht H1 H2 E.
  unfold type_tail, tail_view in *. rewrite <- Ht in *.
  destruct (b_Type b1); run; decodings; try (peel E; split; congruence);
  (* multisig *)
  destruct (b_MSKeyset b1) as [k1|], (b_MSKeyset b2) as [k2|]; try done; cbn in Hk1, Hk2;
  destruct (marshalKeysetCanonical (Some k1)) eqn:E1; try done;
  destruct (marshalKeysetCanonical (Some k2)) eqn:E2; try done; cbn in H1, H2; run;
  destruct (keyset_tail_inj _ _ _ _ _ _ Hk1 Hk2 E1 E2 E) as (-> & -> & ->); done.
Qed.

Lemma asset_bytes_inj a1 a2 :
  0 ∉ bytes a1 → 0 ∉ bytes a2 → asset_bytes a1 = asset_bytes a2 → a1 = a2.
Proof.
  intros H1 H2 E. apply bytes_inj. unfold asset_bytes, zeros in E.
  revert H1 H2 E. generalize (8 - String.length a1)%nat (8 - String.length a2)%nat.
  generalize (bytes a1) (bytes a2). clear. intros l1 l2.
  revert l2. induction l1 as [|x l1 IH]; intros [|y l2] n m H1 H2 E; [done|..].
  - destruct n; cbn in E; simplify_eq. set_solver.
  - destruct m; cbn in E; simplify_eq. set_solver.
  - cbn in E. simplify_eq. f_equal. eapply IH; [set_solver..|done].
Qed.

Lemma length_asset_bytes a : slen a <= 8 → length (asset_bytes a) = 8%nat.
Proof.
  intros H. unfold asset_bytes, zeros, slen in *.
  rewrite length_app, length_bytes, length_replicate. lia.
Qed.

Lemma pubkey_aux_length b :
  length (pubkey_aux b) = 0%nat ∧ b_PubKey b = "" ∨
  (length (pubkey_aux b) = 34 + String.length (b_PubKey b))%nat ∧ b_PubKey b ≠ "".
Proof.
  unfold pubkey_aux. case_bool_decide; [by left|right]. split; [|done].
  unfold writeLenPrefixedBytes. by rewrite !length_app, !PutUint64_length, !length_bytes.
Qed.

(** A declared public key is recovered from the start of the auxiliary bytes,
    whatever follows them. *)
Lemma pubkey_aux_inj b1 b2 r1 r2 :
  hashable b1 → hashable b2 → b_PubKey b1 ≠ "" → b_PubKey b2 ≠ "" →
  pubkey_aux b1 ++ r1 = pubkey_aux b2 ++ r2 → b_PubKey b1 = b_PubKey b2 ∧ r1 = r2.
Proof.
  intros H1 H2 N1 N2 E. unfold pubkey_aux in E. rewrite !bool_decide_eq_false_2 in E by done.
  rewrite <- !app_assoc in E. apply app_inv_head in E.
  apply delimited_string in E as [-> ->]; [done|..].
  - destruct (hb_pubkey _ H1); [done|unfold two64; lia].
  - destruct (hb_pubkey _ H2); [done|unfold two64; lia].
Qed.

(** The certificate and attestation part of the auxiliary bytes *)
Definition lease_aux (b : Block) : list Z :=
  let atts := sort_attestations (b_Attestations b) in
  writeLenPrefixedBytes (bytes (b_CertificateHash b))
  ++ PutUint64 (zlen atts) ++ concat (attestation_bytes <$> atts).

Lemma lease_aux_inj b1 b2 :
  hashable b1 → hashable b2 → lease_aux b1 = lease_aux b2 →
  b_CertificateHash b1 = b_CertificateHash b2 ∧
  sort_attestations (b_Attestations b1) = sort_attestations (b_Attestations b2).
Proof.
  intros [_ _ _ _ Hc1 Hn1 Ha1 _] [_ _ _ _ Hc2 Hn2 Ha2 _] E. unfold lease_aux in E.
  apply delimited_string in E as [-> E]; [|done..]. split; [done|].
  assert (Hs : ∀ l, zlen (sort_attestations l) = zlen l).
  { intros l. unfold zlen. by rewrite (Permutation_length (sort_attestations_perm l)). }
  apply delimited_u64 in E as [En E];
    [|rewrite Hs; unfold is_u64, two64, zlen in *; lia..].
  rewrite <- (app_nil_r (concat (_ <$> sort_attestations (b_Attestations b1)))),
    <- (app_nil_r (concat (_ <$> sort_attestations (b_Attestations b2)))) in E.
  unfold zlen in En.
  apply (delimited_list _ _ (length (sort_attestations (b_Attestations b1)))
           delimited_attestation) in E as [E _]; [done|..].
  - split; [|done]. by rewrite sort_attestations_perm.
  - split; [|lia]. by rewrite sort_attestations_perm.
Qed.

Lemma pubkey_vs_cert b1 b2 r :
  hashable b1 → hashable b2 → b_PubKey b1 ≠ "" → pubkey_aux b1 ++ r ≠ lease_aux b2.
Proof.
  intros H1 H2 N1 E. unfold pubkey_aux, lease_aux in E. rewrite bool_decide_eq_false_2 in E by done.
  rewrite <- !app_assoc in E. apply delimited_string in E as [_ E]; [|done|apply H2].
  unfold writeLenPrefixedBytes in E. rewrite <- app_assoc in E.
  apply delimited_u64 in E as [E _].
  - destruct (hb_pubkey _ H1) as [|Hl]; [done|].
    unfold zlen, slen in *. rewrite length_bytes in E.
    pose proof (hb_natts _ H2) as Hn. unfold zlen in Hn.
    rewrite (Permutation_length (sort_attestations_perm _)) in E. lia.
  - destruct (hb_pubkey _ H1) as [|Hl]; [done|]. unfold is_u64, zlen, slen, two64 in *.
    rewrite length_bytes. lia.
  - pose proof (hb_natts _ H2) as Hn. unfold is_u64, zlen, two64 in *.
    rewrite (Permutation_length (sort_attestations_perm _)). lia.
Qed.

Lemma genesis_timing_ok b t :
  genesis_timing b = Ok t →
  (b_Type b = BlockGenesis ∧ t = timing_bytes b ∧ length t = 48%nat) ∨
  (t = [] ∧ timing_view b = [0; 0; 0; 0; 0; 0]).
Proof.
  unfold genesis_timing, hasGenesisLeaseTiming, timing_view. intros H.
  destruct (_ || _) eqn:E; run; bool_hyps.
  - left. split_and!; [done|done|]. unfold timing_bytes.
    by rewrite !length_app, !PutUint64_length.
  - right. split; [done|]. congruence.
Qed.

Lemma timing_bytes_inj b1 b2 r1 r2 :
  hashable b1 → hashable b2 → timing_bytes b1 ++ r1 = timing_bytes b2 ++ r2 →
  timing_view b1 = timing_view b2 ∧ r1 = r2.
Proof.
  intros [Ha1 Ht1 _ _ _ _ _ _] [Ha2 Ht2 _ _ _ _ _ _] E. unfold timing_bytes, timing_view in *.
  decodings. rewrite <- !app_assoc in E.
  apply delimited_u64 in E as [? E]; [|assumption..].
  do 5 (apply delimited_i64 in E as [? E]; [|assumption..]). split; congruence.
Qed.

Lemma memo_bytes_inj b1 b2 r1 r2 :
  b_Type b1 = b_Type b2 →
  (b_Memo b1 ≠ "" → memo_type (b_Type b1) = true) →
  (b_Memo b2 ≠ "" → memo_type (b_Type b2) = true) →
  memo_bytes b1 ++ r1 = memo_bytes b2 ++ r2 → b_Memo b1 = b_Memo b2 ∧ r1 = r2.
Proof.
  unfold memo_bytes. intros Ht H1 H2 E. rewrite <- Ht in *.
  destruct (memo_type (b_Type b1)).
  - cbn in E. injection E as El E. apply app_inj_1 in E as [?%bytes_inj ->]; [done|].
    unfold slen in El. rewrite !length_bytes. lia.
  - cbn in E. split; [|done].
    destruct (decide (b_Memo b1 = "")), (decide (b_Memo b2 = "")); try congruence;
      naive_solver.
Qed.

Lemma aux_inj b1 b2 :
  hashable b1 → hashable b2 → b_Type b1 = b_Type b2 →
  MarshalBlockAux b1 = MarshalBlockAux b2 →
  b_PubKey b1 = b_PubKey b2 ∧
  (aux_type (b_Type b1) = true → b_CertificateHash b1 = b_CertificateHash b2 ∧
     sort_attestations (b_Attestations b1) = sort_attestations (b_Attestations b2)).
Proof.
  intros H1 H2 Ht E. unfold MarshalBlockAux in E. rewrite <- Ht in E.
  destruct (aux_type (b_Type b1)).
  - fold (lease_aux b1) (lease_aux b2) in E.
    destruct (pubkey_aux_length b1) as [[L1 P1]|[L1 P1]],
      (pubkey_aux_length b2) as [[L2 P2]|[L2 P2]].
    + apply nil_length_inv in L1, L2. rewrite L1, L2 in E. cbn in E.
      split; [congruence|intros _; by apply lease_aux_inj].
    + apply nil_length_inv in L1. rewrite L1 in E. cbn in E.
      by apply symmetry, pubkey_vs_cert in E.
    + apply nil_length_inv in L2. rewrite L2 in E. cbn in E. by apply pubkey_vs_cert in E.
    + apply pubkey_aux_inj in E as [-> E]; [|done..].
      split; [done|intros _; by apply lease_aux_inj].
  - split; [|done]. pose proof (f_equal length E) as El.
    destruct (pubkey_aux_length b1) as [[L1 P1]|[L1 P1]],
      (pubkey_aux_length b2) as [[L2 P2]|[L2 P2]]; [congruence|lia..|].
    rewrite <- (app_nil_r (pubkey_aux b1)), <- (app_nil_r (pubkey_aux b2)) in E.
    by apply pubkey_aux_inj in E as [? _].
Qed.

(** The part of the hash input after the representative *)
Lemma trailer_inj b1 b2 t1 t2 :
  hashable b1 → hashable b2 → b_Type b1 = b_Type b2 →
  (b_Memo b1 ≠ "" → memo_type (b_Type b1) = true) →
  (b_Memo b2 ≠ "" → memo_type (b_Type b2) = true) →
  genesis_timing b1 = Ok t1 → genesis_timing b2 = Ok t2 →
  t1 ++ memo_bytes b1 ++ MarshalBlockAux b1 = t2 ++ memo_bytes b2 ++ MarshalBlockAux b2 →
  timing_view b1 = timing_view b2 ∧ b_Memo b1 = b_Memo b2 ∧
  MarshalBlockAux b1 = MarshalBlockAux b2.
Proof.
  intros H1 H2 Ht M1 M2 G1 G2 E.
  enough (timing_view b1 = timing_view b2 ∧
    memo_bytes b1 ++ MarshalBlockAux b1 = memo_bytes b2 ++ MarshalBlockAux b2) as [? E'].
  { apply memo_bytes_inj in E' as [? ?]; done. }
  assert (Hlen : ∀ b, hashable b → b_Type b = BlockGenesis →
    length (memo_bytes b ++ MarshalBlockAux b) = 0%nat ∨
    length (memo_bytes b ++ MarshalBlockAux b) = 98%nat).
  { intros b Hb Hg. unfold memo_bytes, MarshalBlockAux. rewrite Hg.
    change (memo_type BlockGenesis) with false. cbn [aux_type app].
    destruct (pubkey_aux_length b) as [[L P]|[L P]]; [by left|right].
    destruct (hb_pubkey _ Hb) as [|Hl]; [done|]. unfold slen in Hl. lia. }
  apply genesis_timing_ok in G1 as [(T1 & -> & L1)|(-> & V1)],
    G2 as [(T2 & -> & L2)|(-> & V2)].
  - by apply timing_bytes_inj in E.
  - pose proof (f_equal length E) as El. rewrite length_app, L1 in El. cbn [app] in El.
    destruct (Hlen b1 H1 T1), (Hlen b2 H2 ltac:(congruence)); lia.
  - pose proof (f_equal length E) as El. rewrite (length_app (timing_bytes b2)), L2 in El.
    cbn [app] in El. destruct (Hlen b1 H1 ltac:(congruence)), (Hlen b2 H2 T2); lia.
  - split; [congruence|done].
Qed.

Lemma memo_allowed b :
  negb (b_Memo b =?s "") && negb (memo_type (b_Type b)) = false →
  b_Memo b ≠ "" → memo_type (b_Type b) = true.
Proof.
  intros H Hm. rewrite bool_decide_eq_false_2 in H by done. cbn in H. by bool_hyps.
Qed.

(** What a successful marshalling is made of *)
Lemma canonical_ok b c :
  MarshalBlockCanonical b = Ok c →
  ∃ tb acct prev tail rep tim,
    type_byte (b_Type b) = Ok tb ∧ slen (b_Asset b) <= 8 ∧
    (b_Memo b ≠ "" → memo_type (b_Type b) = true) ∧ ValidateMemo (b_Memo b) = Ok () ∧
    decode32 MB "account" (b_Account b) = Ok acct ∧
    decode32_or "0" MB "previous" (b_Previous b) = Ok prev ∧
    type_tail b = Ok tail ∧
    decode32_or "" MB "representative" (b_Representative b) = Ok rep ∧
    genesis_timing b = Ok tim ∧
    c = versionByte :: tb :: asset_bytes (b_Asset b) ++ acct ++ prev ++ PutUint64 (b_Balance b)
        ++ PutUint64 (b_Timestamp b) ++ tail ++ rep ++ tim ++ memo_bytes b.
Proof.
  intros H. unfold MarshalBlockCanonical in H. run. bool_hyps.
  destruct (ValidateMemo (b_Memo b)) as [[]|] eqn:Em; [|done].
  eexists _, _, _, _, _, _. split_and!; try eassumption; try done. by apply memo_allowed.
Qed.

(** C29: the input of the block hash determines the signed view: two blocks
    with the same hash input agree on type, account, previous block, balance,
    timestamp, asset, every type-specific field, representative, memo,
    declared key, certificate and attestations (hex up to case, the zero
    address up to the empty string). *)
Theorem hash_input_binding b1 b2 i :
  hashable b1 → hashable b2 → hash_input b1 = Ok i → hash_input b2 = Ok i →
  signed_view b1 = signed_view b2.
Proof.
  intros Hh1 Hh2 H1 H2. unfold hash_input in *.
  apply rbind_ok in H1 as (c1 & H1 & [= <-]), H2 as (c2 & H2 & E).
  apply canonical_ok in H1 as (tb1 & ac1 & pr1 & ta1 & re1 & ti1 & T1 & A1 & M1 & _ & Dac1 & Dpr1
    & Dta1 & Dre1 & Dti1 & ->), H2 as (tb2 & ac2 & pr2 & ta2 & re2 & ti2 & T2 & A2 & M2 & _
    & Dac2 & Dpr2 & Dta2 & Dre2 & Dti2 & ->).
  decodings. apply ok_inj in E. cbn [app] in E. rewrite <- !app_assoc in E.
  injection E as -> E. pose proof (type_byte_inj _ _ _ T1 T2) as Ht. symmetry in E.
  apply app_inj_1 in E as [Easset E]; [|by rewrite !length_asset_bytes].
  apply asset_bytes_inj in Easset; [|by apply hb_asset..].
  apply app_inj_1 in E as [-> E]; [|congruence]. apply app_inj_1 in E as [-> E]; [|congruence].
  pose proof (hb_amounts _ Hh1). pose proof (hb_amounts _ Hh2).
  pose proof (hb_times _ Hh1). pose proof (hb_times _ Hh2). decodings.
  apply delimited_u64 in E as [? E]; [|assumption..].
  apply delimited_i64 in E as [? E]; [|assumption..].
  apply (type_tail_inj b1 b2 ta1 ta2 _ _ Hh1 Hh2 Ht Dta1 Dta2) in E as [Etail E].
  apply app_inj_1 in E as [-> E]; [|congruence].
  apply (trailer_inj b1 b2 ti1 ti2 Hh1 Hh2 Ht M1 M2 Dti1 Dti2) in E as (Etim & Ememo & Eaux).
  apply aux_inj in Eaux as [Epk Ecert]; [|done..].
  unfold signed_view. rewrite <- Ht in *.
  destruct (aux_type (b_Type b1)); [destruct Ecert as [-> ->]; [done|]|]; f_equal; congruence.
Qed.

Definition sample_account : string :=
  "00112233445566778899aabbccddeeff00112233445566778899aabbccddeeff".
Definition sample_account_upper : string :=
  "00112233445566778899AABBCCDDEEFF00112233445566778899aabbccddeeff".

(** A block all of whose optional fields are empty *)
Definition plain_block (t : BlockType) (acct prev : string) (bal ts : Z) (asset rep dest : string)
    (amount : Z) (src pubkey hash : string) : Block :=
  mkBlock t acct prev bal ts asset rep dest amount src 0 0 0 0 "" 0 0 0 0 0 0 "" None []
    pubkey "" hash 0 [] "" 0 0 0.

Definition sample_send : Block :=
  plain_block BlockSend sample_account sample_account 900 5 "XE" "" sample_account 100 "" "" "h1".
Definition sample_send' : Block :=
  plain_block BlockSend sample_account_upper sample_account 900 5 "XE" ZeroHex sample_account 100
    "ff" "" "h2".

Lemma plain_block_hashable t acct prev bal ts asset rep dest amount src pubkey hash :
  is_u64 bal → is_u64 amount → is_i64 ts → 0 ∉ bytes asset →
  pubkey = "" ∨ slen pubkey = 64 →
  hashable (plain_block t acct prev bal ts asset rep dest amount src pubkey hash).
Proof. intros Hb Ha Ht ? ?. constructor; cbn; try done; repeat constructor; apply Hb || apply Ha || apply Ht || done. Qed.

Lemma hash_input_binding_witness : signed_view sample_send = signed_view sample_send'.
Proof.
  apply (hash_input_binding sample_send sample_send'
    (match hash_input sample_send with Ok i => i | Err _ => [] end)).
  - apply plain_block_hashable; [split; done..|cbn; set_solver by lia|by left].
  - apply plain_block_hashable; [split; done..|cbn; set_solver by lia|by left].
  - vm_compute. reflexivity.
  - vm_compute. reflexivity.
Defined.

(** ** Slices of a concatenation *)

(** [len] bytes from [off] *)
Definition sub (off len : Z) (l : list Z) : list Z :=
  take (Z.to_nat len) (drop (Z.to_nat off) l).

Lemma slice_sub lo hi len l : hi - lo = len → slice lo hi l = sub lo len l.
Proof. by intros <-. Qed.

Lemma sub_skip n off off' len (l r : list Z) :
  zlen l = n → off = n + off' → 0 <= off' → sub off len (l ++ r) = sub off' len r.
Proof.
  unfold zlen, sub. intros Hl -> Ho. rewrite drop_app_ge by lia. do 2 f_equal. lia.
Qed.

Lemma sub_here n (l r : list Z) : zlen l = n → sub 0 n (l ++ r) = l.
Proof.
  unfold zlen, sub. intros Hl. change (Z.to_nat 0) with 0%nat.
  rewrite drop_0, take_app_length'; [done|lia].
Qed.

Lemma sub_all n (l : list Z) : zlen l = n → sub 0 n l = l.
Proof. intros. rewrite <- (app_nil_r l) at 1. by apply sub_here. Qed.

Lemma lookup_skip n k k' (l r : list Z) :
  zlen l = n → k = n + k' → 0 <= k' → (l ++ r) !! Z.to_nat k = r !! Z.to_nat k'.
Proof. unfold zlen. intros ? -> ?. rewrite lookup_app_r by lia. f_equal. lia. Qed.

Lemma drop_skip n k k' (l r : list Z) :
  zlen l = n → k = n + k' → 0 <= k' → drop (Z.to_nat k) (l ++ r) = drop (Z.to_nat k') r.
Proof. unfold zlen. intros ? -> ?. rewrite drop_app_ge by lia. f_equal. lia. Qed.

Lemma zlen_PutUint64 z : zlen (PutUint64 z) = 8.
Proof. unfold zlen. by rewrite PutUint64_length. Qed.
Lemma zlen_PutUint32 z : zlen (PutUint32 z) = 4.
Proof. unfold zlen. by rewrite PutUint32_length. Qed.
Lemma zlen_PutUint16 z : zlen (PutUint16 z) = 2.
Proof. unfold zlen, PutUint16. by rewrite length_be_bytes. Qed.
Lemma zlen_LePutUint64 z : zlen (LePutUint64 z) = 8.
Proof. unfold zlen, LePutUint64. by rewrite length_le_bytes. Qed.
Lemma zlen_app {A} (l r : list A) : zlen (l ++ r) = zlen l + zlen r.
Proof. unfold zlen. rewrite length_app. lia. Qed.
Lemma zlen_nonneg {A} (l : list A) : 0 <= zlen l.
Proof. unfold zlen. lia. Qed.

(** Find the length of a piece: from the context or from the encoders. *)
Ltac piece_length l :=
  match l with
  | PutUint64 ?z => constr:(zlen_PutUint64 z)
  | PutUint32 ?z => constr:(zlen_PutUint32 z)
  | PutUint16 ?z => constr:(zlen_PutUint16 z)
  | LePutUint64 ?z => constr:(zlen_LePutUint64 z)
  | _ => match goal with H : zlen l = _ |- _ => H end
  end.

(** Evaluate the sub-lists, lookups and drops of a concatenation of pieces of
    known length. *)
Ltac skip_rest H off :=
  match type of H with _ = ?n => eval vm_compute in (off - n) end.
Ltac slice_step :=
  match goal with
  | |- context [sub 0 ?len (?l ++ ?r)] => let H := piece_length l in rewrite (sub_here len l r H)
  | |- context [sub ?off ?len (?l ++ ?r)] =>
      let H := piece_length l in let o := skip_rest H off in
      rewrite (sub_skip _ off o len l r H ltac:(reflexivity) ltac:(lia))
  | |- context [sub 0 ?n ?l] => let H := piece_length l in rewrite (sub_all n l H)
  | |- context [(?l ++ ?r) !! Z.to_nat ?k] =>
      let H := piece_length l in let o := skip_rest H k in
      rewrite (lookup_skip _ k o l r H ltac:(reflexivity) ltac:(lia))
  | |- context [drop (Z.to_nat ?k) (?l ++ ?r)] =>
      let H := piece_length l in let o := skip_rest H k in
      rewrite (drop_skip _ k o l r H ltac:(reflexivity) ltac:(lia))
  end.
Ltac slices := repeat slice_step.

(** The readers, at a given offset *)
Lemma get_hex32_sub off l : get_hex32 off l = EncodeToString (sub off 32 l).
Proof. unfold get_hex32. by rewrite (slice_sub _ _ 32) by lia. Qed.
Lemma get_hex32_or_sub absent off l : get_hex32_or absent off l = spelled absent (sub off 32 l).
Proof.
  unfold get_hex32_or, spelled. rewrite get_hex32_sub. by rewrite (slice_sub _ _ 32) by lia.
Qed.
Lemma getU64_sub off l : getU64 off l = be_value (sub off 8 l).
Proof. unfold getU64. by rewrite (slice_sub _ _ 8) by lia. Qed.
Lemma getI64_sub off l : getI64 off l = i64 (be_value (sub off 8 l)).
Proof. unfold getI64. by rewrite getU64_sub. Qed.

Lemma length_zlen {A} (l : list A) n : length l = n → zlen l = Z.of_nat n.
Proof. intros <-. done. Qed.

(** ** Votes *)

Definition vote_normal (v : Vote) : Vote :=
  mkVote (ToLower (v_RepPubKey v)) (ToLower (v_BlockHash v)) (ToLower (v_ConflictAccount v))
    (lower_or "0" (v_ConflictPrev v)) (v_Timestamp v) (v_Final v) (v_Signature v) 0.

(** Lengths of the hex fields, in the form [slices] looks for. *)
Ltac zlens :=
  repeat match goal with
  | H : length _ = 32%nat |- _ => apply length_zlen in H; change (Z.of_nat 32) with 32 in H
  end.

Lemma getI64_bytes z : is_i64 z → i64 (be_value (PutUint64 z)) = z.
Proof. intros. rewrite PutUint64_value. by apply i64_u64. Qed.
Lemma getU64_bytes z : is_u64 z → be_value (PutUint64 z) = z.
Proof. intros. rewrite PutUint64_value. by apply u64_small. Qed.

Lemma voteSigning_ok v sg :
  voteSigningBytes v = Ok sg →
  ∃ rep hash acct prev,
    sg = [voteVersionByte] ++ rep ++ hash ++ acct ++ prev ++ PutUint64 (v_Timestamp v)
         ++ [if v_Final v then 1 else 0] ∧
    zlen rep = 32 ∧ zlen hash = 32 ∧ zlen acct = 32 ∧ zlen prev = 32 ∧
    EncodeToString rep = ToLower (v_RepPubKey v) ∧
    EncodeToString hash = ToLower (v_BlockHash v) ∧
    EncodeToString acct = ToLower (v_ConflictAccount v) ∧
    spelled "0" prev = lower_or "0" (v_ConflictPrev v).
Proof.
  unfold voteSigningBytes. intros H. run. decodings. zlens.
  eexists _, _, _, _. split; [reflexivity|done].
Qed.

Lemma getU32_bytes z : 0 <= z < 4294967296 → be_value (PutUint32 z) = z.
Proof. intros. unfold PutUint32. rewrite be_value_bytes. by apply Z.mod_small. Qed.

(** a vote whose signature has a sane length decodes to what was encoded
    (hex lower-cased, the weight left to the receiver). *)
Theorem DecodeVote_EncodeVote v data :
  is_i64 (v_Timestamp v) → zlen (v_Signature v) < 65396 →
  EncodeVote v = Ok data → DecodeVote data = Ok (vote_normal v).
Proof.
  intros Hts Hsig H. unfold EncodeVote in H.
  destruct (voteSigningBytes v) as [sg|] eqn:Es; [|done]. cbn [result_map_err] in H. run.
  apply voteSigning_ok in Es as (rep & hash & acct & prev & -> & Lr & Lh & La & Lp & Er & Eh & Ea & Ep).
  pose proof (zlen_nonneg (v_Signature v)). rewrite Z.mod_small by lia.
  unfold vote_normal, DecodeVote. rewrite <- Er, <- Eh, <- Ea, <- Ep, <- !app_assoc.
  set (sig := v_Signature v) in *. set (ts := v_Timestamp v) in *.
  set (fin := [if v_Final v then 1 else 0]).
  assert (zlen [voteVersionByte] = 1) by done. assert (zlen fin = 1) by done.
  rewrite !zlen_app, zlen_PutUint64, zlen_PutUint16.
  rewrite (proj2 (Z.ltb_ge _ _)) by lia. cbn [rbind rfail_if].
  change (default 0 (([voteVersionByte] ++ _) !! 0%nat)) with voteVersionByte.
  rewrite Z.eqb_refl. cbn [negb rbind rfail_if].
  rewrite (slice_sub 138 140 2) by done.
  set (data := _ ++ _). change 137%nat with (Z.to_nat 137).
  rewrite !get_hex32_sub, get_hex32_or_sub, getI64_sub. subst data. slices.
  assert (Es : be_value (PutUint16 (zlen sig)) = zlen sig).
  { unfold PutUint16. rewrite be_value_bytes. apply Z.mod_small. change (256 ^ Z.of_nat 2) with 65536.
    lia. }
  rewrite Es, (slice_sub 140 _ (zlen sig)) by lia. slices.
  rewrite (proj2 (Z.ltb_ge _ _)), (proj2 (Z.leb_gt _ _)) by lia. cbn [rbind rfail_if].
  rewrite sub_all, getI64_bytes by done. do 2 f_equal. unfold fin. by destruct (v_Final v).
Qed.

Definition sample_vote : Vote :=
  mkVote sample_account sample_account_upper sample_account "0" (-5) true [1; 2; 3] 77.
Lemma DecodeVote_EncodeVote_witness :
  DecodeVote (match EncodeVote sample_vote with Ok d => d | Err _ => [] end)
  = Ok (vote_normal sample_vote).
Proof.
  apply (DecodeVote_EncodeVote sample_vote); [split; done|done|vm_compute; reflexivity].
Defined.

(** ** Blocks *)

Definition is_multisig (t : BlockType) : bool :=
  match t with BlockMultisigOpen | BlockMultisigUpdate => true | _ => false end.

(** What decoding recovers of a block: the fields of [MarshalBlockCanonical] in normal
    spelling, and the nonce.  The certificate and the attestations of a lease block,
    which its hash covers, are not in the binary format and are lost.  So is the nonce
    of a multisig block: [unmarshalBlock] looks for it at the least length of the
    type, which leaves the keys out. *)
Definition block_normal (b : Block) : Block :=
  let t := tail_view b in
  mkBlock (b_Type b) (ToLower (b_Account b)) (lower_or "0" (b_Previous b)) (b_Balance b)
    (b_Timestamp b) (b_Asset b) (lower_or "" (b_Representative b)) (t_Destination t)
    (t_Amount t) (t_Source t) (t_VCPUs t) (t_MemoryMB t) (t_DiskGB t) (t_Duration t)
    (t_AccessPubKey t) (b_LeaseMinDurationSecs b) (b_LeaseSettleGraceNs b)
    (b_LeaseForceSettleGapNs b) (b_LeaseEscrowExpiryNs b) (b_LeaseArchiveGapNs b)
    (b_MaxAttestationSkewNs b) (b_Memo b) (t_MSKeyset t) [] "" "" ""
    (if is_multisig (b_Type b) then 0 else b_PoWNonce b) [] "" (t_LockedR t) (t_LockedPayoutCap t)
    (t_LockedTWAP t).

(** The tail sizes, and the least length [unmarshal_type] gives. *)
Definition tail_len (t : BlockType) : Z :=
  match t with
  | BlockSend => 40 | BlockReceive => 32 | BlockLease => 104 | BlockLeaseAccept => 64
  | BlockLeaseSettle => 40 | BlockLeaseCancel => 32 | BlockLeaseForceSettle => 32
  | BlockBurn => 8 | BlockMint => 8 | BlockMultisigOpen => 8 | BlockMultisigUpdate => 8
  | _ => 0
  end.

Lemma unmarshal_type_ok t c :
  type_byte t = Ok c → t ≠ BlockLeaseRenew →
  unmarshal_type c = Ok (t, 122 + tail_len t + (if memo_type t then 1 else 0)).
Proof. destruct t; cbn; intros; simplify_eq; try done; vm_compute; done. Qed.

Lemma sub_at off len pre (l r : list Z) :
  zlen pre = off → zlen l = len → sub off len (pre ++ l ++ r) = l.
Proof.
  intros Hp Hl. pose proof (zlen_nonneg pre).
  rewrite (sub_skip off off 0) by lia. by apply sub_here.
Qed.

Lemma sub_at_end off len pre (l : list Z) :
  zlen pre = off → zlen l = len → sub off len (pre ++ l) = l.
Proof. intros. rewrite <- (app_nil_r l) at 1. by apply sub_at. Qed.

Lemma get_keys_ok bss pre rest off :
  zlen pre = off → Forall (λ bs, Forall is_byte bs ∧ length bs = 32%nat) bss →
  get_keys (length bss) off (pre ++ concat bss ++ rest) = EncodeToString <$> bss.
Proof.
  intros Hp Hf. revert pre off Hp.
  induction Hf as [|bs bss [Hb Hl] Hf IH]; intros pre off Hp; cbn; [done|].
  f_equal.
  - rewrite get_hex32_sub, <- app_assoc, (sub_at off) by (done || unfold zlen; lia). done.
  - rewrite <- app_assoc, app_assoc. apply IH. rewrite zlen_app. unfold zlen in *. lia.
Qed.

Lemma unmarshalKeyset_ok ks l rest :
  0 <= ks_Threshold ks < 4294967296 → 1 <= zlen (ks_Keys ks) <= 256 →
  marshalKeysetCanonical (Some ks) = Ok l →
  unmarshalKeysetCanonical (l ++ rest)
  = Ok (mkKeyset (ToLower <$> sort_strings (ks_Keys ks)) (ks_Threshold ks), zlen l) ∧
  zlen l = 8 + 32 * zlen (ks_Keys ks).
Proof.
  intros Ht Hk H. unfold marshalKeysetCanonical in H. run.
  match goal with H : keyset_bytes _ = _ |- _ =>
    apply keyset_bytes_ok in H as (bss & -> & Hf & He) end.
  assert (Hs : zlen (sort_strings (ks_Keys ks)) = zlen (ks_Keys ks)).
  { unfold zlen. by rewrite (Permutation_length (sort_strings_perm _)). }
  assert (Hn : Z.of_nat (length bss) = zlen (ks_Keys ks)).
  { rewrite <- Hs. apply (f_equal length) in He. rewrite !length_fmap in He. unfold zlen. lia. }
  assert (Hc : zlen (concat bss) = 32 * zlen (ks_Keys ks)).
  { rewrite <- Hn. clear -Hf. induction Hf as [|bs bss [_ Hl] _ IH]; [done|].
    cbn [concat length]. rewrite zlen_app, IH. unfold zlen. lia. }
  rewrite Hs. set (n := zlen (ks_Keys ks)) in *.
  assert (Hl : zlen (PutUint32 (ks_Threshold ks) ++ PutUint32 n ++ concat bss) = 8 + 32 * n).
  { rewrite !zlen_app, !zlen_PutUint32. lia. }
  split; [|done]. unfold unmarshalKeysetCanonical.
  pose proof (zlen_nonneg rest). rewrite !(zlen_app (_ ++ _) rest), Hl.
  rewrite (proj2 (Z.ltb_ge _ 8)) by lia. cbn [rbind rfail_if].
  rewrite (slice_sub 0 4 4), (slice_sub 4 8 4) by done. rewrite <- !app_assoc. slices.
  rewrite !getU32_bytes by lia.
  rewrite (proj2 (Z.ltb_ge n 1)), (proj2 (Z.ltb_ge 256 n)) by lia. cbn [orb rbind rfail_if].
  rewrite (proj2 (Z.ltb_ge _ (8 + 32 * n))) by lia. cbn [rbind rfail_if].
  rewrite <- Hn at 1. rewrite Nat2Z.id, app_assoc, get_keys_ok by
    (done || rewrite zlen_app, !zlen_PutUint32; done).
  by rewrite He.
Qed.

Lemma unmarshal_tail_ok b hd tail rest :
  hashable b → zlen hd = 90 → b_Type b ≠ BlockLeaseRenew → 32 <= zlen rest →
  from_option (λ ks, 1 <= zlen (ks_Keys ks) <= 256) True (b_MSKeyset b) →
  type_tail b = Ok tail →
  unmarshal_tail (b_Type b) (hd ++ tail ++ rest) = Ok (tail_view b, 90 + zlen tail) ∧
  (if is_multisig (b_Type b) then 40 <= zlen tail else zlen tail = tail_len (b_Type b)).
Proof.
  intros [Ha _ _ _ _ _ _ Hk] Hhd Hren Hrest Hnk H.
  unfold type_tail, tail_view, unmarshal_tail in *.
  decodings.
  destruct (b_Type b); try done; run;
  repeat match goal with
  | H : decode32 _ _ _ = Ok _ |- _ => apply decode32_ok in H as (? & ? & <- & _)
  | H : decode32_or _ _ _ _ = Ok _ |- _ => apply decode32_or_ok in H as (? & ? & <-)
  end; zlens;
  rewrite <- ?app_assoc, ?get_hex32_sub, ?get_hex32_or_sub, ?getU64_sub; slices;
  rewrite ?getU64_bytes by assumption; rewrite ?zlen_app, ?zlen_PutUint64;
  repeat match goal with H : zlen ?x = _ |- context [zlen ?x] => rewrite H end;
  try (split_and!; done);
  (* multisig *)
  destruct (b_MSKeyset b) as [ks|]; try done; cbn in Hk, Hnk;
  destruct (marshalKeysetCanonical (Some ks)) as [l|] eqn:E; try done; apply ok_inj in H; subst l;
  replace (drop 90 (hd ++ tail ++ rest)) with (tail ++ rest)
    by (rewrite drop_app_ge by (unfold zlen in Hhd; lia); unfold zlen in Hhd;
        replace (90 - length hd)%nat with 0%nat by lia; done);
  destruct (unmarshalKeyset_ok ks tail rest) as [-> Hl]; try (lia || done);
  cbn [result_map_err rbind]; rewrite (proj2 (Z.ltb_ge _ _)) by (unfold representativeSize; lia);
  cbn [rbind rfail_if]; (split; [done|]; match goal with |- if ?b then _ else _ => change b with true end; cbv iota; lia).
Qed.

Lemma unmarshal_timing_ok b pre tim rest minLen off :
  hashable b → genesis_timing b = Ok tim → zlen pre = off + 32 →
  (b_Type b = BlockGenesis → zlen rest = 8) →
  unmarshal_timing (b_Type b) off minLen (pre ++ tim ++ rest) =
  (b_LeaseMinDurationSecs b, b_LeaseSettleGraceNs b, b_LeaseForceSettleGapNs b,
   b_LeaseEscrowExpiryNs b, b_LeaseArchiveGapNs b, b_MaxAttestationSkewNs b,
   if bool_decide (tim = []) then minLen else off + 32 + 48).
Proof.
  intros [Ha Ht _ _ _ _ _ _] G Hp Hr. unfold unmarshal_timing. rewrite !zlen_app.
  decodings.
  apply genesis_timing_ok in G as [(Tg & -> & L)|(-> & V)].
  - specialize (Hr Tg). apply length_zlen in L. change (Z.of_nat 48) with 48 in L.
    rewrite bool_decide_eq_true_2 by done.
    rewrite (proj2 (Z.leb_le _ _)) by (unfold genesisTimingSize; lia). cbn [andb].
    rewrite bool_decide_eq_false_2.
    2:{ intros E. rewrite E in L. done. }
    unfold timing_bytes. rewrite !getI64_sub, !getU64_sub, <- !app_assoc.
    rewrite (sub_at _ 8) by (done || apply zlen_PutUint64).
    assert (S : ∀ k l, 0 <= k → sub (off + 32 + k) 8 (pre ++ l) = sub k 8 l).
    { intros k l Hk. by apply (sub_skip (off + 32)). }
    rewrite !S by lia. slices. rewrite !getI64_bytes, getU64_bytes by assumption. done.
  - cbn [app]. unfold timing_view in V.
    assert (F : (b_Type b =?s BlockGenesis) && (off + 32 + genesisTimingSize <=?
      zlen pre + (zlen (@nil Z) + zlen rest)) = false).
    { case_bool_decide as Tg; [|done]. specialize (Hr Tg). cbn [andb].
      apply Z.leb_gt. unfold genesisTimingSize, zlen in *. cbn. lia. }
    rewrite F. injection V as -> -> -> -> -> ->. by rewrite bool_decide_eq_true_2 by done.
Qed.

Lemma unmarshal_memo_ok b pre rest off tailOff :
  ValidateMemo (b_Memo b) = Ok () → (b_Memo b ≠ "" → memo_type (b_Type b) = true) →
  zlen pre = off + 32 → 0 <= off →
  unmarshal_memo (b_Type b) off (off + 33) tailOff (pre ++ memo_bytes b ++ rest) =
  Ok (b_Memo b, if memo_type (b_Type b) then off + 32 + zlen (memo_bytes b) else tailOff).
Proof.
  intros Hv Hm Hp Ho. unfold unmarshal_memo, memo_bytes.
  destruct (memo_type (b_Type b)); cbn [app].
  2:{ destruct (decide (b_Memo b = "")) as [->|Hne]; [done|]. by specialize (Hm Hne). }
  assert (Hl : slen (b_Memo b) <= 64).
  { unfold ValidateMemo in Hv. case_bool_decide as E; [by rewrite E|].
    run. bool_hyps. unfold MaxMemoBytes in *. lia. }
  assert (Hz : zlen (bytes (b_Memo b)) = slen (b_Memo b)) by (unfold zlen, slen; by rewrite length_bytes).
  assert (0 <= slen (b_Memo b)) by (unfold slen; lia).
  rewrite (lookup_skip (off + 32) _ 0) by lia. cbn [lookup list_lookup default].
  change (Z.to_nat 0) with 0%nat. cbn [lookup list_lookup default from_option id].
  rewrite (proj2 (Z.ltb_ge _ _)) by (unfold MaxMemoBytes; lia). cbn [rbind rfail_if].
  change (slen (b_Memo b) :: bytes (b_Memo b) ++ rest)
    with ([slen (b_Memo b)] ++ bytes (b_Memo b) ++ rest).
  pose proof (zlen_nonneg rest). rewrite !zlen_app, Hp, Hz. change (zlen [slen (b_Memo b)]) with 1.
  rewrite (proj2 (Z.ltb_ge _ _)) by lia. cbn [rbind rfail_if].
  rewrite (slice_sub _ _ (slen (b_Memo b))) by lia.
  assert (Hp1 : zlen (pre ++ [slen (b_Memo b)]) = off + 33)
    by (rewrite zlen_app, Hp; change (zlen [slen (b_Memo b)]) with 1; lia).
  rewrite app_assoc, sub_at by done.
  replace (zlen (slen (b_Memo b) :: bytes (b_Memo b))) with (1 + slen (b_Memo b))
    by (rewrite <- Hz; unfold zlen; cbn [length]; lia).
  rewrite str_bytes. destruct (Z.ltb_spec 0 (slen (b_Memo b))) as [Hpos|Hz0].
  - rewrite Hv. cbn [result_map_err rbind]. do 2 f_equal. lia.
  - assert (b_Memo b = "") as -> by (apply slen_0; lia). cbn [rbind]. do 2 f_equal. lia.
Qed.

Lemma memo_bytes_len b : if memo_type (b_Type b) then 1 <= zlen (memo_bytes b) else memo_bytes b = [].
Proof.
  unfold memo_bytes. destruct (memo_type _); [|done]. unfold zlen. cbn [length]. lia.
Qed.

Lemma trim_asset a : 0 ∉ bytes a → trim_right 0 (asset_bytes a) = bytes a.
Proof.
  unfold asset_bytes, zeros. generalize (8 - String.length a)%nat, (bytes a). clear.
  intros n l. induction l as [|x l IH]; intros H.
  - cbn. induction n as [|n IH]; [done|]. cbn. by rewrite IH.
  - cbn. rewrite IH by set_solver. destruct l; [|done].
    destruct (Z.eqb_spec x 0); [set_solver|done].
Qed.

(** The fixed header, as the decoder reads it *)
Lemma unmarshal_header_ok b tb acct prev pre rest :
  hashable b → zlen acct = 32 → zlen prev = 32 → zlen (asset_bytes (b_Asset b)) = 8 →
  pre = [versionByte; tb] ++ asset_bytes (b_Asset b) ++ acct ++ prev
    ++ PutUint64 (b_Balance b) ++ PutUint64 (b_Timestamp b) →
  str (trim_right 0 (slice 2 10 (pre ++ rest))) = b_Asset b ∧
  get_hex32 10 (pre ++ rest) = EncodeToString acct ∧
  get_hex32_or "0" 42 (pre ++ rest) = spelled "0" prev ∧
  getU64 74 (pre ++ rest) = b_Balance b ∧ getI64 82 (pre ++ rest) = b_Timestamp b.
Proof.
  intros [Ha Ht Has _ _ _ _ _] La Lp Lb ->. decodings.
  rewrite (slice_sub 2 10 8) by done.
  rewrite get_hex32_sub, get_hex32_or_sub, getU64_sub, getI64_sub, <- !app_assoc.
  assert (zlen [versionByte; tb] = 2) by done. slices.
  rewrite trim_asset, str_bytes, getU64_bytes, getI64_bytes by assumption. done.
Qed.

(** The length at which the decoder expects the nonce, when there is no memo *)
Definition tail_offset (b : Block) (tail tim : list Z) (minLen : Z) : Z :=
  if bool_decide (tim = []) then minLen else 90 + zlen tail + 32 + 48.

Lemma unmarshal_memo_stage b tail tim pre rest minLen :
  ValidateMemo (b_Memo b) = Ok () → (b_Memo b ≠ "" → memo_type (b_Type b) = true) →
  genesis_timing b = Ok tim → zlen pre = 122 + zlen tail →
  (if is_multisig (b_Type b) then 40 <= zlen tail else zlen tail = tail_len (b_Type b)) →
  minLen = 122 + tail_len (b_Type b) + (if memo_type (b_Type b) then 1 else 0) →
  unmarshal_memo (b_Type b) (90 + zlen tail) minLen (tail_offset b tail tim minLen)
    (pre ++ tim ++ memo_bytes b ++ rest) =
  Ok (b_Memo b, if memo_type (b_Type b) then 122 + zlen tail + zlen (memo_bytes b)
                else tail_offset b tail tim minLen).
Proof.
  intros Hv Hm Hg Hp Hl ->. pose proof (zlen_nonneg tail).
  destruct (memo_type (b_Type b)) eqn:E.
  - assert (tim = []) as ->.
    { apply genesis_timing_ok in Hg as [(Tg & _)|[-> _]]; [|done]. by rewrite Tg in E. }
    assert (is_multisig (b_Type b) = false) as Hms by (by destruct (b_Type b)).
    rewrite Hms in Hl. cbn [app].
    replace (122 + tail_len (b_Type b) + 1) with (90 + zlen tail + 33) by lia.
    rewrite (unmarshal_memo_ok b) by (done || lia). rewrite E. do 2 f_equal. lia.
  - unfold unmarshal_memo. rewrite E.
    destruct (decide (b_Memo b = "")) as [->|Hne]; [done|]. by specialize (Hm Hne).
Qed.

Lemma drop_to_end k (l r : list Z) : zlen l = k → drop (Z.to_nat k) (l ++ r) = r.
Proof.
  intros <-. unfold zlen. rewrite Nat2Z.id. apply drop_app_length.
Qed.

Lemma unmarshal_nonce_stage b tail tim pre minLen :
  genesis_timing b = Ok tim → zlen pre = 122 + zlen tail → is_u64 (b_PoWNonce b) →
  (if is_multisig (b_Type b) then 40 <= zlen tail else zlen tail = tail_len (b_Type b)) →
  minLen = 122 + tail_len (b_Type b) + (if memo_type (b_Type b) then 1 else 0) →
  let off := if memo_type (b_Type b) then 122 + zlen tail + zlen (memo_bytes b)
             else tail_offset b tail tim minLen in
  (if 130 + zlen tail + zlen tim + zlen (memo_bytes b) =? off + 8
   then le_value (drop (Z.to_nat off)
          (pre ++ tim ++ memo_bytes b ++ LePutUint64 (b_PoWNonce b))) else 0)
  = if is_multisig (b_Type b) then 0 else b_PoWNonce b.
Proof.
  intros Hg Hp Hn Hl -> off. pose proof (memo_bytes_len b) as Hmb.
  assert (Hoff : off = off) by done. unfold off at 2, tail_offset in Hoff. clearbody off.
  assert (Hend : off = 122 + zlen tail + zlen tim + zlen (memo_bytes b) →
    le_value (drop (Z.to_nat off) (pre ++ tim ++ memo_bytes b ++ LePutUint64 (b_PoWNonce b)))
    = b_PoWNonce b).
  { intros ->. rewrite !app_assoc, drop_to_end by (rewrite !zlen_app; lia).
    rewrite LePutUint64_value. by apply u64_small. }
  assert (Hnil : zlen (@nil Z) = 0) by done.
  apply genesis_timing_ok in Hg as [(Tg & Et & Lt)|[-> _]].
  - apply length_zlen in Lt. rewrite Tg in *. cbn [memo_type is_multisig tail_len] in *.
    rewrite Hmb, Hnil in *. rewrite bool_decide_eq_false_2 in Hoff.
    2:{ intros E. by rewrite E in Lt. }
    rewrite (proj2 (Z.eqb_eq _ _)) by lia. apply Hend. lia.
  - rewrite bool_decide_eq_true_2 in Hoff by done. rewrite Hnil in *.
    destruct (is_multisig (b_Type b)) eqn:Em.
    + assert (memo_type (b_Type b) = false) as E by (by destruct (b_Type b)).
      assert (tail_len (b_Type b) = 8) by (by destruct (b_Type b)).
      rewrite E, Hmb, Hnil in *. rewrite (proj2 (Z.eqb_neq _ _)) by lia. done.
    + assert (Ho : off = 122 + zlen tail + 0 + zlen (memo_bytes b)).
      { destruct (memo_type (b_Type b)); [lia|]. rewrite Hmb, Hnil. lia. }
      rewrite (proj2 (Z.eqb_eq _ _)) by lia. by apply Hend.
Qed.

(** The whole encoding, cut at the tail *)
Lemma unmarshalBlock_pieces b tb acct prev tail rep tim :
  hashable b → is_u64 (b_PoWNonce b) → b_Type b ≠ BlockLeaseRenew →
  from_option (λ ks, 1 <= zlen (ks_Keys ks) <= 256) True (b_MSKeyset b) →
  type_byte (b_Type b) = Ok tb → slen (b_Asset b) <= 8 →
  (b_Memo b ≠ "" → memo_type (b_Type b) = true) → ValidateMemo (b_Memo b) = Ok () →
  decode32 MB "account" (b_Account b) = Ok acct →
  decode32_or "0" MB "previous" (b_Previous b) = Ok prev →
  type_tail b = Ok tail → decode32_or "" MB "representative" (b_Representative b) = Ok rep →
  genesis_timing b = Ok tim →
  unmarshalBlock ([versionByte; tb] ++ asset_bytes (b_Asset b) ++ acct ++ prev
    ++ PutUint64 (b_Balance b) ++ PutUint64 (b_Timestamp b) ++ tail ++ rep ++ tim
    ++ memo_bytes b ++ LePutUint64 (b_PoWNonce b)) = Ok (block_normal b).
Proof.
  intros Hh Hn Hren Hnk Htb Has Hm Hv Hac Hpr Hta Hre Hti.
  apply decode32_ok in Hac as (_ & Lac & Eac & _).
  apply decode32_or_ok in Hpr as (_ & Lpr & Epr). apply decode32_or_ok in Hre as (_ & Lre & Ere).
  apply length_asset_bytes, length_zlen in Has as Las. change (Z.of_nat 8) with 8 in Las. zlens.
  set (pre := [versionByte; tb] ++ asset_bytes (b_Asset b) ++ acct ++ prev
    ++ PutUint64 (b_Balance b) ++ PutUint64 (b_Timestamp b)).
  assert (Lpre : zlen pre = 90).
  { unfold pre. rewrite !zlen_app, !zlen_PutUint64, Las, Lac, Lpr. done. }
  set (rest := rep ++ tim ++ memo_bytes b ++ LePutUint64 (b_PoWNonce b)).
  pose proof (zlen_nonneg tim). pose proof (zlen_nonneg (memo_bytes b)).
  assert (Lrest : zlen rest = 32 + zlen tim + zlen (memo_bytes b) + 8).
  { unfold rest. rewrite !zlen_app, Lre, zlen_LePutUint64. lia. }
  destruct (unmarshal_tail_ok b pre tail rest Hh Lpre Hren ltac:(lia) Hnk Hta) as (Utail & Ltail).
  replace ([versionByte; tb] ++ _) with (pre ++ tail ++ rest)
    by (unfold pre, rest; by rewrite <- !app_assoc).
  unfold unmarshalBlock. replace (default 0 ((pre ++ tail ++ rest) !! 1%nat)) with tb by done.
  rewrite (unmarshal_type_ok _ _ Htb Hren). cbn [rbind].
  set (minLen := 122 + tail_len (b_Type b) + _).
  assert (Ltot : zlen (pre ++ tail ++ rest)
    = 130 + zlen tail + zlen tim + zlen (memo_bytes b)) by (rewrite !zlen_app; lia).
  assert (Hmin : minLen <= 122 + zlen tail + zlen (memo_bytes b)).
  { unfold minLen. pose proof (memo_bytes_len b). destruct (b_Type b); cbn in *; lia. }
  rewrite Ltot, (proj2 (Z.ltb_ge _ minLen)) by lia. cbn [rbind rfail_if]. rewrite Utail. cbn [rbind].
  destruct (unmarshal_header_ok b tb acct prev pre (tail ++ rest)) as (-> & -> & -> & -> & ->);
    [done..|].
  assert (Erep : get_hex32_or "" (90 + zlen tail) (pre ++ tail ++ rest) = spelled "" rep).
  { unfold rest. rewrite get_hex32_or_sub, app_assoc, (sub_at _ 32) by (rewrite ?zlen_app; lia). done. }
  assert (Etim : pre ++ tail ++ rest = (pre ++ tail ++ rep) ++ tim
    ++ memo_bytes b ++ LePutUint64 (b_PoWNonce b)) by (unfold rest; by rewrite <- !app_assoc).
  rewrite Erep, Etim, (unmarshal_timing_ok b) by
    (done || (rewrite !zlen_app; lia) ||
     (intros E; pose proof (memo_bytes_len b) as Hmb; rewrite E in Hmb; cbn in Hmb;
      rewrite Hmb; apply zlen_LePutUint64)).
  rewrite (unmarshal_memo_stage b tail tim) by (done || (rewrite !zlen_app; lia)). cbn [rbind].
  rewrite (unmarshal_nonce_stage b tail tim) by (done || (rewrite !zlen_app; lia)).
  unfold block_normal. rewrite <- Eac, <- Epr, <- Ere. done.
Qed.

(** The signed view without what the binary format cannot hold *)
Definition canonical_view (v : SignedView) : SignedView :=
  mkSignedView (sv_Type v) (sv_Asset v) (sv_Account v) (sv_Previous v) (sv_Balance v) (sv_Timestamp v) (sv_Tail v)
    (sv_Representative v) (sv_Timing v) (sv_Memo v) "" "" [].

Lemma ToLower_twice s : ToLower (ToLower s) = ToLower s.
Proof.
  unfold ToLower. rewrite bytes_str.
  - f_equal. rewrite <- list_fmap_compose. apply list_fmap_ext. intros _ c _. unfold compose, lower_byte.
    destruct ((65 <=? c) && (c <=? 90)) eqn:E; [|by rewrite E]. bool_hyps.
    destruct (_ && _) eqn:E'; [|done]. bool_hyps. lia.
  - apply Forall_fmap. eapply Forall_impl; [apply bytes_range|]. intros c Hc. unfold compose, lower_byte, is_byte in *. destruct (_ && _) eqn:E; [|done]. bool_hyps. lia.
Qed.

Lemma lower_or_twice z s : lower_or z (lower_or z s) = lower_or z s.
Proof.
  assert (lower_or z s = z ∨ lower_or z s = ToLower s ∧ ToLower s ≠ ZeroHex) as [->|[-> Hz]].
  - unfold lower_or. repeat case_bool_decide; auto.
  - unfold lower_or. by rewrite bool_decide_true.
  - unfold lower_or. rewrite ToLower_twice. repeat case_bool_decide; congruence.
Qed.

Lemma block_normal_view b : is_multisig (b_Type b) = false → signed_view (block_normal b) = canonical_view (signed_view b).
Proof.
  intros Hm. unfold signed_view, canonical_view, timing_view, tail_view, block_normal. simpl. rewrite ToLower_twice, !lower_or_twice.
  unfold tail_view. destruct (b_Type b); try discriminate Hm; simpl; by rewrite ?ToLower_twice, ?lower_or_twice.
Qed.

(** C30: the binary block format round-trips as far as it goes: [UnmarshalBlock]
    applied to what [MarshalBlock] wrote gives the block with the fields of the
    canonical encoding in normal spelling and, except on multisig blocks, the
    proof-of-work nonce.  So, keysets aside, the signed view of what is decoded is
    that of the block without certificate and attestations: a lease block that has
    them does not keep its hash.  [lease_renew] blocks, which the decoder does not
    know, are excluded, and keysets of more than 256 keys. *)
Theorem UnmarshalBlock_MarshalBlock b data :
  hashable b → is_u64 (b_PoWNonce b) → b_Type b ≠ BlockLeaseRenew →
  from_option (λ ks, 1 <= zlen (ks_Keys ks) <= 256) True (b_MSKeyset b) →
  MarshalBlock b = Ok data →
  UnmarshalBlock data = Ok (block_normal b) ∧
  (is_multisig (b_Type b) = false → signed_view (block_normal b) = canonical_view (signed_view b)).
Proof.
  intros Hh Hn Hren Hk H. split; [|apply block_normal_view]. unfold MarshalBlock in H. run.
  match goal with H : MarshalBlockCanonical b = Ok _ |- _ =>
    apply canonical_ok in H as (tb & ac & pr & ta & re & ti & T & A & Mm & V & Dac & Dpr
      & Dta & Dre & Dti & ->) end.
  pose proof (unmarshalBlock_pieces b tb ac pr ta re ti Hh Hn Hren Hk T A Mm V Dac Dpr Dta Dre Dti)
    as U.
  cbn [app]. rewrite <- !app_assoc. cbn [app] in U. unfold UnmarshalBlock.
  rewrite (proj2 (Z.ltb_ge _ 2)) by (unfold zlen; cbn [length]; lia). cbn [rbind rfail_if].
  exact U.
Qed.

Definition sample_keys : list string :=
  ["ff112233445566778899aabbccddeeff00112233445566778899aabbccddeeff"; sample_account].
Definition sample_open : Block :=
  mkBlock BlockMultisigOpen sample_account "0" 0 7 "XE" sample_account_upper "" 0 "" 0 0 0 0 ""
    0 0 0 0 0 0 "" (Some (mkKeyset sample_keys 2)) [] "" "" "" 99 [] "" 0 0 0.
Lemma UnmarshalBlock_MarshalBlock_witness :
  UnmarshalBlock (match MarshalBlock sample_open with Ok d => d | Err _ => [] end)
  = Ok (block_normal sample_open).
Proof.
  refine (proj1 (UnmarshalBlock_MarshalBlock sample_open _ _ _ _ _ _)).
  - constructor; cbn; try done; repeat constructor; try done. set_solver by lia.
  - split; done.
  - done.
  - cbn. unfold zlen. cbn. lia.
  - vm_compute. reflexivity.
Defined.

(** The decoder does not know the type byte of [lease_renew]: no block of that
    type decodes. *)
Lemma UnmarshalBlock_renew_fails b data :
  b_Type b = BlockLeaseRenew → MarshalBlock b = Ok data →
  UnmarshalBlock data = Err (errorf "UnmarshalBlock: unknown type byte 0x0e").
Proof.
  intros Ht H. unfold MarshalBlock in H. run.
  match goal with H : MarshalBlockCanonical b = Ok _ |- _ =>
    apply canonical_ok in H as (tb & ac & pr & ta & re & ti & T & A & Mm & V & Dac & Dpr
      & Dta & Dre & Dti & ->) end.
  rewrite Ht in T. apply ok_inj in T as <-. cbn [app]. unfold UnmarshalBlock.
  rewrite (proj2 (Z.ltb_ge _ 2)) by (unfold zlen; cbn [length]; lia). reflexivity.
Qed.
