(* ===== verification/Crypto.v ===== *)
(** * Hashes, keys and signatures: [core/crypto.go], [core/pow.go],
    [core/address.go]

    The cryptographic primitives are the fields of the class [Crypto]; what the
    code relies on about them is the class [CryptoLaws]. *)
From S2P Require Import Prelude GoLib Types Encoding.

(** [crypto/sha256], [crypto/ed25519] and [golang.org/x/crypto/blake2b] (with
    an 8-byte digest), on byte strings. *)
Class Crypto := {
  sha256 : list Z → list Z;
  ed25519_Verify : list Z → list Z → list Z → bool;
  ed25519_Sign : list Z → list Z → list Z;
  ed25519_Public : list Z → list Z;
  blake2b_8 : list Z → list Z }.

Class CryptoLaws (C : Crypto) := {
  sha256_length l : length (sha256 l) = 32%nat;
  sha256_bytes l : Forall is_byte (sha256 l);
  Public_length k : length (ed25519_Public k) = 32%nat;
  Public_bytes k : Forall is_byte (ed25519_Public k);
  Sign_length k m : length (ed25519_Sign k m) = 64%nat;
  Sign_bytes k m : Forall is_byte (ed25519_Sign k m);
  Verify_Sign k m : ed25519_Verify (ed25519_Public k) m (ed25519_Sign k m) = true }.

Record KeyPair := mkKeyPair { kp_Public : list Z; kp_Private : list Z }.

Section crypto.
Context `{C : Crypto}.
Implicit Types (b : Block).

Definition PubKeyHex (kp : KeyPair) : string := EncodeToString (kp_Public kp).

Definition AccountAddressDomain : string := "xe/account/v1".

Definition DecodePublicKey (hexStr : string) : result (list Z) :=
  let? bs := result_map_err (wrapf "invalid public key hex: ") (DecodeString hexStr) in
  rfail_if (negb (zlen bs =? 32))
    (errorf ("invalid public key length: got " +:+ FormatInt (zlen bs) +:+ ", want 32")) ;?
  Ok bs.

Definition DecodeSignature (hexStr : string) : result (list Z) :=
  let? bs := result_map_err (wrapf "invalid signature hex: ") (DecodeString hexStr) in
  rfail_if (negb (zlen bs =? 64))
    (errorf ("invalid signature length: got " +:+ FormatInt (zlen bs) +:+ ", want 64")) ;?
  Ok bs.

Definition DecodeHash (hexStr : string) : result (list Z) :=
  let? bs := result_map_err (wrapf "invalid hash hex: ") (DecodeString hexStr) in
  rfail_if (negb (zlen bs =? 32))
    (errorf ("invalid hash length: got " +:+ FormatInt (zlen bs) +:+ ", want 32")) ;?
  Ok bs.

Definition VerifyHexSignature (pubKeyHex sigHex : string) (message : list Z) : result unit :=
  let? pub := DecodePublicKey pubKeyHex in
  let? sig := DecodeSignature sigHex in
  rfail_if (negb (ed25519_Verify pub message sig)) (errorf "signature verification failed").

Definition deriveAddressFromKey (pub : list Z) : string :=
  EncodeToString (sha256 (bytes AccountAddressDomain ++ pub)).

Definition DeriveAddress (pubKeyHex : string) : result string :=
  let? pub := result_map_err (wrapf "derive address: ") (DecodePublicKey pubKeyHex) in
  Ok (deriveAddressFromKey pub).

Definition Address (kp : KeyPair) : string := deriveAddressFromKey (kp_Public kp).

Definition KeyPairFromSeed (seed : list Z) : KeyPair := mkKeyPair (ed25519_Public seed) seed.

Definition TryKeyPairFromSeed (seed : list Z) : result KeyPair :=
  rfail_if (negb (zlen seed =? 32))
    (errorf ("invalid seed length: got " +:+ FormatInt (zlen seed) +:+ ", want 32")) ;?
  Ok (KeyPairFromSeed seed).

(** [networkID] is the package variable; unset and empty write the same bytes. *)
Definition HashBlock (networkID : string) b : result string :=
  let? data := result_map_err (wrapf "HashBlock: ") (MarshalBlockCanonical b) in
  Ok (EncodeToString (sha256 (bytes networkID ++ data ++ MarshalBlockAux b))).

Definition ValidatePubKeyDeclaration b : result unit :=
  if negb (b_Signatures b =?s []) then
    rfail_if (negb (b_PubKey b =?s "")) (errorf "multisig block must not declare pub_key")
  else if b_Previous b =?s "0" then
    rfail_if (b_PubKey b =?s "") (errorf "open block must declare pub_key") ;?
    let? derived := result_map_err (wrapf "invalid pub_key: ") (DeriveAddress (b_PubKey b)) in
    rfail_if (negb (derived =?s b_Account b))
      (errorf ("pub_key does not derive account address: derived " +:+ derived
               +:+ ", account " +:+ b_Account b))
  else rfail_if (negb (b_PubKey b =?s "")) (errorf "non-open block must not declare pub_key").

Definition VerifyBlockSignatureWith b (pubKeyHex : string) : result unit :=
  let? hashBytes := DecodeHash (b_Hash b) in
  VerifyHexSignature pubKeyHex (b_Signature b) hashBytes.

Definition VerifyBlock (networkID : string) b : result unit :=
  let? expected := result_map_err (wrapf "verify: ") (HashBlock networkID b) in
  rfail_if (negb (b_Hash b =?s expected))
    (errorf ("hash mismatch: got " +:+ b_Hash b +:+ ", want " +:+ expected)) ;?
  ValidatePubKeyDeclaration b ;?
  if negb (b_Signatures b =?s []) then Ok ()
  else if negb (b_Previous b =?s "0") then Ok ()
  else VerifyBlockSignatureWith b (b_PubKey b).

Definition with_seal (pubKey sig hash : string) b : Block :=
  mkBlock (b_Type b) (b_Account b) (b_Previous b) (b_Balance b) (b_Timestamp b) (b_Asset b)
    (b_Representative b) (b_Destination b) (b_Amount b) (b_Source b) (b_VCPUs b) (b_MemoryMB b)
    (b_DiskGB b) (b_Duration b) (b_AccessPubKey b) (b_LeaseMinDurationSecs b)
    (b_LeaseSettleGraceNs b) (b_LeaseForceSettleGapNs b) (b_LeaseEscrowExpiryNs b)
    (b_LeaseArchiveGapNs b) (b_MaxAttestationSkewNs b) (b_Memo b) (b_MSKeyset b)
    (b_Signatures b) pubKey sig hash (b_PoWNonce b) (b_Attestations b) (b_CertificateHash b)
    (b_LockedR b) (b_LockedPayoutCap b) (b_LockedTWAP b).

(** [SignBlock] fills in the declared key of an open block, the hash and the
    signature; the block it leaves behind on an error is not used by callers. *)
Definition SignBlock (networkID : string) b (kp : KeyPair) : result Block :=
  let declare := (b_Previous b =?s "0") && (b_PubKey b =?s "") && (b_Signatures b =?s [])
    && negb (b_Type b =?s BlockMultisigOpen) && negb (b_Type b =?s BlockMultisigUpdate) in
  let pubKey := if declare then PubKeyHex kp else b_PubKey b in
  let b1 := with_seal pubKey (b_Signature b) (b_Hash b) b in
  let? hash := HashBlock networkID b1 in
  let? hashBytes := result_map_err (wrapf "SignBlock: ") (DecodeHash hash) in
  let sig := EncodeToString (ed25519_Sign (kp_Private kp) hashBytes) in
  Ok (with_seal pubKey sig hash b).

(** ** [core/address.go] *)

Definition VerifyPayloadKey (pubKeyHex account : string) : result unit :=
  rfail_if (pubKeyHex =?s "") (errorf "missing public key") ;?
  rfail_if (account =?s "") (errorf "missing account") ;?
  let? derived := DeriveAddress pubKeyHex in
  rfail_if (negb (derived =?s account))
    (errorf ("public key does not derive account " +:+ account)).

(** ** Proof of work *)

Definition DefaultDifficulty : Z := 18446735277616529408.
Definition TestDifficulty : Z := 2.

Definition powHash (nonce : Z) (blockHash : list Z) : Z :=
  be_value (blake2b_8 (LePutUint64 nonce ++ blockHash)).

Definition ValidatePoW (blockHash : list Z) (nonce difficulty : Z) : bool :=
  difficulty <=? powHash nonce blockHash.

(** The search loop of [ComputePoW] from a start nonce; [None] when [fuel] runs
    out. *)
Fixpoint ComputePoW (fuel : nat) (blockHash : list Z) (difficulty nonce : Z) : option Z :=
  match fuel with
  | O => None
  | S fuel =>
      if ValidatePoW blockHash nonce difficulty then Some nonce
      else ComputePoW fuel blockHash difficulty (u64_add nonce 1)
  end.

End crypto.

(** ** An instance that satisfies the laws

    Not a cryptographic one: it shows the laws are consistent and lets the
    definitions be evaluated on concrete blocks. *)
Module Toy.

Definition norm32 (l : list Z) : list Z := take 32 (((λ z, z mod 256) <$> l) ++ zeros 32).

Definition checksum (l : list Z) : Z := foldl (λ acc z, Z.land (acc * 31 + z + 1) (Z.ones 48)) 7 l.

Definition digest (l : list Z) : list Z := be_bytes 32 (checksum l).

Definition sign (k m : list Z) : list Z := norm32 k ++ digest m.

#[global] Instance toy_crypto : Crypto := {
  sha256 := digest;
  ed25519_Verify p m s := bool_decide (s = sign p m);
  ed25519_Sign := sign;
  ed25519_Public := norm32;
  blake2b_8 l := be_bytes 8 (checksum l) }.

Lemma norm32_length l : length (norm32 l) = 32%nat.
Proof. unfold norm32, zeros. rewrite length_take, length_app, length_replicate. lia. Qed.

Lemma norm32_bytes l : Forall is_byte (norm32 l).
Proof.
  apply Forall_take, Forall_app. split; [|by apply Forall_replicate].
  apply Forall_fmap, Forall_true. intros z. apply Z.mod_pos_bound. lia.
Qed.

Lemma norm32_idemp l : norm32 (norm32 l) = norm32 l.
Proof.
  unfold norm32 at 1. replace ((λ z, z mod 256) <$> norm32 l) with (norm32 l).
  - by rewrite take_app_length' by by rewrite norm32_length.
  - pose proof (norm32_bytes l) as H. induction H as [|z r Hz _ IH]; [done|]. cbn.
    rewrite Z.mod_small by done. by f_equal.
Qed.

#[global] Instance toy_laws : CryptoLaws toy_crypto.
Proof.
  constructor; intros; cbn [sha256 ed25519_Verify ed25519_Sign ed25519_Public toy_crypto].
  - apply length_be_bytes.
  - apply be_bytes_range.
  - apply norm32_length.
  - apply norm32_bytes.
  - unfold sign. rewrite length_app, norm32_length. unfold digest. by rewrite length_be_bytes.
  - apply Forall_app. split; [apply norm32_bytes|apply be_bytes_range].
  - apply bool_decide_eq_true_2. unfold sign. by rewrite norm32_idemp.
Qed.

End Toy.

(** ** Signing and verifying *)
Section facts.
Context `{C : Crypto} {L : CryptoLaws C}.

Lemma DecodeHash_encode l : Forall is_byte l → length l = 32%nat → DecodeHash (EncodeToString l) = Ok l.
Proof.
  intros Hb Hl. unfold DecodeHash. rewrite DecodeString_EncodeToString by done.
  cbn [result_map_err rbind]. unfold zlen. by rewrite Hl.
Qed.

Lemma VerifyHexSignature_sign k m :
  VerifyHexSignature (EncodeToString (ed25519_Public k)) (EncodeToString (ed25519_Sign k m)) m = Ok ().
Proof.
  unfold VerifyHexSignature, DecodePublicKey, DecodeSignature.
  rewrite !DecodeString_EncodeToString by (apply Public_bytes || apply Sign_bytes).
  cbn [result_map_err rbind]. unfold zlen. rewrite Public_length, Sign_length.
  change (Z.of_nat 32 =? 32) with true. change (Z.of_nat 64 =? 64) with true.
  cbn [rbind rfail_if negb]. by rewrite Verify_Sign.
Qed.

Lemma DeriveAddress_encode k :
  DeriveAddress (EncodeToString (ed25519_Public k)) = Ok (deriveAddressFromKey (ed25519_Public k)).
Proof.
  unfold DeriveAddress, DecodePublicKey. rewrite DecodeString_EncodeToString by apply Public_bytes.
  cbn [result_map_err rbind]. unfold zlen. by rewrite Public_length.
Qed.

(** The hash does not depend on the seal. *)
Lemma HashBlock_seal nid pk s1 h1 s2 h2 b :
  HashBlock nid (with_seal pk s1 h1 b) = HashBlock nid (with_seal pk s2 h2 b).
Proof. done. Qed.

(** a block signed with [SignBlock] by the key that owns the account
    passes [VerifyBlock]: an open block declares the key, which derives the
    account address, carries the hash of its signed bytes and a signature that
    verifies. *)
Theorem SignBlock_verifies nid b seed b' :
  b_Previous b = "0" → b_PubKey b = "" → b_Signatures b = [] →
  b_Type b ≠ BlockMultisigOpen → b_Type b ≠ BlockMultisigUpdate →
  b_Account b = Address (KeyPairFromSeed seed) →
  SignBlock nid b (KeyPairFromSeed seed) = Ok b' →
  VerifyBlock nid b' = Ok () ∧ b_Account b' = b_Account b ∧ b_Balance b' = b_Balance b.
Proof.
  intros Hp Hk Hs H1 H2 Ha H. unfold SignBlock in H.
  rewrite Hp, Hk, Hs, !bool_decide_eq_true_2, !bool_decide_eq_false_2 in H by done.
  cbn [andb negb PubKeyHex kp_Public kp_Private KeyPairFromSeed] in H. run.
  split; [|done]. unfold VerifyBlock.
  match goal with H : HashBlock _ _ = Ok _ |- _ =>
    rewrite (HashBlock_seal _ _ _ _ (b_Signature b) (b_Hash b)), H;
    unfold HashBlock in H; run end.
  rewrite DecodeHash_encode in * by (apply sha256_bytes || apply sha256_length).
  match goal with H : result_map_err _ (Ok _) = _ |- _ => cbn in H; apply ok_inj in H; subst end.
  cbn [result_map_err rbind with_seal b_Hash]. rewrite bool_decide_eq_true_2 by done.
  cbn [negb rbind rfail_if]. unfold ValidatePubKeyDeclaration.
  cbn [with_seal b_Signatures b_Previous b_PubKey b_Account b_Hash b_Signature].
  rewrite Hs, Hp, !bool_decide_eq_true_2 by done. cbn [negb].
  unfold PubKeyHex. cbn [kp_Public KeyPairFromSeed]. rewrite DeriveAddress_encode.
  assert (Hne : EncodeToString (ed25519_Public seed) ≠ "").
  { intros E. apply (f_equal DecodeString) in E.
    rewrite DecodeString_EncodeToString in E by apply Public_bytes.
    pose proof (Public_length seed) as Hl. apply ok_inj in E. by rewrite E in Hl. }
  rewrite (bool_decide_eq_false_2 (EncodeToString _ = _)) by done. cbn [rbind rfail_if result_map_err].
  rewrite Ha, (bool_decide_eq_true_2 (deriveAddressFromKey _ = _)) by done.
  cbn [negb rbind rfail_if].
  unfold VerifyBlockSignatureWith. cbn [with_seal b_Hash b_Signature].
  rewrite DecodeHash_encode by (apply sha256_bytes || apply sha256_length). cbn [rbind].
  apply VerifyHexSignature_sign.
Qed.

(** The nonces the search visits *)
Lemma ComputePoW_finds h d n k :
  is_u64 n → 0 <= k → is_u64 (n + k) ∨ is_u64 (n + k - two64) →
  ValidatePoW h (u64_add n k) d = true →
  ∃ n', ComputePoW (S (Z.to_nat k)) h d n = Some n' ∧ ValidatePoW h n' d = true.
Proof.
  intros Hn Hk Hr Hv. remember (Z.to_nat k) as m eqn:Em. revert n k Hn Hk Hr Hv Em.
  induction m as [|m IH]; intros n k Hn Hk Hr Hv Em.
  - assert (k = 0) as -> by lia. cbn. unfold u64_add in Hv. rewrite Z.add_0_r, u64_small in Hv by done.
    rewrite Hv. eauto.
  - cbn [ComputePoW]. destruct (ValidatePoW h n d) eqn:E; [eauto|].
    apply (IH (u64_add n 1) (k - 1)); [apply u64_range|lia| |..|lia].
    + unfold u64_add. destruct (Z.eq_dec n (two64 - 1)) as [->|].
      * replace (u64 _) with 0 by done. unfold is_u64, two64 in *. lia.
      * rewrite u64_small by (unfold is_u64 in *; lia). unfold is_u64 in *. lia.
    + rewrite <- Hv. f_equal. unfold u64_add, u64. rewrite Z.add_mod_idemp_l by done. f_equal. lia.
Qed.

(** the proof-of-work search terminates whenever some nonce works: from
    any start it returns a valid nonce within 2^64 steps, wrapping around. *)
Theorem ComputePoW_terminates h d start good :
  is_u64 start → is_u64 good → ValidatePoW h good d = true →
  ∃ fuel n, Z.of_nat fuel <= two64 ∧ ComputePoW fuel h d start = Some n ∧ ValidatePoW h n d = true.
Proof.
  intros Hs Hg Hv. set (k := u64_sub good start).
  assert (Hk : is_u64 k) by apply u64_range.
  assert (E : u64_add start k = good).
  { unfold u64_add, k, u64_sub, u64. rewrite Z.add_mod_idemp_r by done.
    replace (start + (good - start)) with good by lia. by apply u64_small. }
  destruct (ComputePoW_finds h d start k) as (n & Hn & Hv'); [done|apply Hk| |by rewrite E|].
  - unfold is_u64 in *. destruct (Z_lt_le_dec (start + k) two64); lia.
  - exists (S (Z.to_nat k)), n. split_and!; [|done..]. unfold is_u64 in Hk. lia.
Qed.

End facts.

(** ** Concrete instances of the theorems *)
Definition toy_seed : list Z := [1; 2; 3].
Definition toy_receive : Block :=
  mkBlock BlockReceive (Address (KeyPairFromSeed toy_seed)) "0" 50 10 "XE" "" "" 0
    (EncodeToString (zeros 32)) 0 0 0 0 "" 0 0 0 0 0 0 "" None [] "" "" "" 0 [] "" 0 0 0.
Definition toy_signed : Block :=
  match SignBlock "net" toy_receive (KeyPairFromSeed toy_seed) with
  | Ok b => b | Err _ => toy_receive end.

Lemma SignBlock_verifies_witness :
  VerifyBlock "net" toy_signed = Ok () ∧ b_Account toy_signed = b_Account toy_receive ∧
  b_Balance toy_signed = b_Balance toy_receive.
Proof.
  apply (SignBlock_verifies "net" toy_receive toy_seed toy_signed);
    [done|done|done|done|done|reflexivity|vm_compute; reflexivity].
Defined.

Lemma ComputePoW_terminates_witness :
  ∃ fuel n, Z.of_nat fuel <= two64 ∧ ComputePoW fuel [1] 3 18446744073709551615 = Some n ∧
            ValidatePoW [1] n 3 = true.
Proof.
  apply (ComputePoW_terminates [1] 3 18446744073709551615 7); [split; done..|].
  vm_compute. reflexivity.
Defined.
