(* ===== verification/Multisig.v ===== *)
(** * Multisig accounts: [core/multisig.go] *)
From S2P Require Import Prelude GoLib Types Encoding Crypto.

(** [pk[:12]], which panics on a shorter string *)
Definition first12 (s : string) : result string :=
  if slen s <? 12 then Err (panic "slice bounds out of range")
  else Ok (String.substring 0 12 s).

(** [fmt.Errorf(prefix + pk[:12] + suffix)]: the error, or the panic *)
Definition err_with12 (prefix s : string) (suffix : error) : error :=
  match first12 s with
  | Ok p => mkError (prefix +:+ p +:+ err_msg suffix) (err_is suffix)
  | Err e => e
  end.

Section multisig.
Context `{C : Crypto}.

Fixpoint validate_keys (i : Z) (seen : gset string) (ks : list string) : result unit :=
  match ks with
  | [] => Ok ()
  | k :: ks =>
      rfail_if (negb (slen k =? 64))
        (errorf ("key " +:+ FormatInt i +:+ ": expected 64 hex chars, got " +:+ FormatInt (slen k))) ;?
      let? kb := result_map_err (wrapf ("key " +:+ FormatInt i +:+ ": invalid hex: "))
                   (DecodeString k) in
      let lower := EncodeToString kb in
      rfail_if (bool_decide (lower ∈ seen)) (err_with12 "duplicate key: " k (errorf "")) ;?
      validate_keys (i + 1) ({[lower]} ∪ seen) ks
  end.

Definition ValidateKeyset (ks : option Keyset) : result unit :=
  match ks with
  | None => Err (errorf "keyset is nil")
  | Some ks =>
      rfail_if (ks_Keys ks =?s []) (errorf "keyset has no keys") ;?
      rfail_if (ks_Threshold ks <? 1)
        (errorf ("keyset threshold must be >= 1, got " +:+ FormatInt (ks_Threshold ks))) ;?
      rfail_if (zlen (ks_Keys ks) <? ks_Threshold ks)
        (errorf ("keyset threshold " +:+ FormatInt (ks_Threshold ks) +:+ " exceeds key count "
                 +:+ FormatInt (zlen (ks_Keys ks)))) ;?
      validate_keys 0 ∅ (ks_Keys ks)
  end.

Fixpoint address_keys (ks : list string) : result (list Z) :=
  match ks with
  | [] => Ok []
  | k :: ks =>
      let? kb := result_map_err (wrapf "invalid key hex: ") (DecodeString k) in
      let? rest := address_keys ks in
      Ok (kb ++ rest)
  end.

Definition DeriveMultisigAddress (ks : option Keyset) : result string :=
  ValidateKeyset ks ;?
  match ks with
  | None => Err (panic "nil pointer dereference")
  | Some ks =>
      let sorted := sort_strings (ks_Keys ks) in
      let? kb := address_keys sorted in
      Ok (EncodeToString (sha256 (PutUint32 (ks_Threshold ks) ++ PutUint32 (zlen sorted) ++ kb)))
  end.

(** The loop of [VerifyMultisig]; returns the number of valid signatures. *)
Fixpoint verify_loop (keys : list string) (hashBytes : list Z) (seen : gset string)
    (validCount : Z) (sigs : list BlockSignature) : result Z :=
  match sigs with
  | [] => Ok validCount
  | sig :: sigs =>
      let pk := bs_PublicKey sig in
      rfail_if (bool_decide (pk ∈ seen)) (err_with12 "duplicate signer: " pk (errorf "")) ;?
      rfail_if (negb (bool_decide (pk ∈ keys))) (err_with12 "signer " pk (errorf " not in keyset")) ;?
      result_map_err (λ e, err_with12 "sig from " pk (wrapf ": " e))
        (VerifyHexSignature pk (bs_Sig sig) hashBytes) ;?
      verify_loop keys hashBytes ({[pk]} ∪ seen) (validCount + 1) sigs
  end.

Definition VerifyMultisig (hash : string) (sigs : list BlockSignature) (ks : Keyset) : result unit :=
  rfail_if (sigs =?s []) (errorf "no signatures") ;?
  let? hashBytes := result_map_err (wrapf "decode hash: ") (DecodeHash hash) in
  let? validCount := verify_loop (ks_Keys ks) hashBytes ∅ 0 sigs in
  rfail_if (validCount <? ks_Threshold ks)
    (errorf ("insufficient signatures: got " +:+ FormatInt validCount +:+ ", need "
             +:+ FormatInt (ks_Threshold ks))).

Definition VerifyMultisigAny (hash : string) (sigs : list BlockSignature) (ks : Keyset)
    : result unit :=
  rfail_if (sigs =?s []) (errorf "no signatures") ;?
  let? hashBytes := result_map_err (wrapf "decode hash: ") (DecodeHash hash) in
  if existsb (λ sig, bool_decide (bs_PublicKey sig ∈ ks_Keys ks) &&
                     is_ok (VerifyHexSignature (bs_PublicKey sig) (bs_Sig sig) hashBytes)) sigs
  then Ok () else Err (errorf "no valid signature from any keyset member").

Definition IsSpendingOp (t : BlockType) : bool :=
  match t with
  | BlockSend | BlockBurn | BlockLease | BlockLeaseRenew | BlockMultisigOpen
  | BlockMultisigUpdate | BlockMint => true
  | _ => false
  end.

(** ** What an accepted multisig proves *)

Definition sig_valid (hashBytes : list Z) (sig : BlockSignature) : Prop :=
  VerifyHexSignature (bs_PublicKey sig) (bs_Sig sig) hashBytes = Ok ().

Lemma verify_loop_ok keys hb seen n sigs m :
  verify_loop keys hb seen n sigs = Ok m ↔
  NoDup (bs_PublicKey <$> sigs) ∧
  Forall (λ s, bs_PublicKey s ∉ seen ∧ bs_PublicKey s ∈ keys ∧ sig_valid hb s) sigs ∧
  m = n + zlen sigs.
Proof.
  revert seen n. induction sigs as [|s sigs IH]; intros seen n; cbn [verify_loop].
  { assert (zlen (@nil BlockSignature) = 0) by done. split.
    - intros [= <-]. split_and!; [apply NoDup_nil_2|apply Forall_nil_2|lia].
    - intros (_ & _ & ->). f_equal. lia. }
  assert (Hz : zlen (s :: sigs) = 1 + zlen sigs) by (unfold zlen; cbn [length]; lia).
  cbn [fmap list_fmap]. rewrite NoDup_cons, Forall_cons, Hz. unfold sig_valid. split.
  - intros H. run. bool_hyps. apply IH in H as (Hnd & Hf & ->).
    destruct (VerifyHexSignature _ _ _) as [[]|] eqn:E; [|done].
    rewrite Forall_forall in Hf. split_and!; [|done|done|done|done| |lia].
    + intros (s' & Es & Hs')%list_elem_of_fmap. destruct (Hf s' Hs') as [Hn _]. set_solver.
    + apply Forall_forall. intros s' Hs'. destruct (Hf s' Hs') as (? & ? & ?). set_solver.
  - intros ([Hni Hnd] & [(Hs1 & Hs2 & Hs3) Hf] & ->).
    rewrite bool_decide_eq_false_2 by done. cbn [rbind rfail_if].
    rewrite bool_decide_eq_true_2 by done. cbn [negb rbind rfail_if].
    rewrite Hs3. cbn [result_map_err rbind]. apply IH. split_and!; [done| |lia].
    rewrite Forall_forall in Hf |- *. intros s' Hs'. destruct (Hf s' Hs') as (? & ? & ?).
    split_and!; [|done..]. intros [Hin|?]%elem_of_union; [|done].
    apply elem_of_singleton in Hin. apply Hni. rewrite <- Hin. by apply list_elem_of_fmap_2.
Qed.

(** C32: [VerifyMultisig] accepts exactly the signature lists in which every
    signer is a distinct member of the keyset, every signature verifies over
    the block hash, and at least the threshold of members signed. *)
Theorem VerifyMultisig_iff hash sigs ks :
  VerifyMultisig hash sigs ks = Ok () ↔
  ∃ hb, DecodeHash hash = Ok hb ∧ sigs ≠ [] ∧
    NoDup (bs_PublicKey <$> sigs) ∧
    Forall (λ s, bs_PublicKey s ∈ ks_Keys ks ∧ sig_valid hb s) sigs ∧
    ks_Threshold ks <= zlen sigs.
Proof.
  unfold VerifyMultisig. split.
  - intros H. run. bool_hyps. destruct (DecodeHash hash) as [hb|] eqn:E; [|done].
    match goal with H : result_map_err _ _ = Ok _ |- _ => apply ok_inj in H; subst end.
    match goal with H : verify_loop _ _ _ _ _ = _ |- _ =>
      apply verify_loop_ok in H as (? & Hf & ->) end.
    eexists. split_and!; [done|done|done| |lia].
    eapply Forall_impl; [exact Hf|]. naive_solver.
  - intros (hb & -> & Hne & Hnd & Hf & Ht).
    rewrite bool_decide_eq_false_2 by done. cbn [rbind rfail_if result_map_err].
    rewrite (proj2 (verify_loop_ok (ks_Keys ks) hb ∅ 0 sigs (zlen sigs))).
    + cbn [rbind]. by rewrite (proj2 (Z.ltb_ge _ _)).
    + split_and!; [done| |lia]. eapply Forall_impl; [exact Hf|]. set_solver.
Qed.

(** ** Keysets *)

Definition key_ok (k : string) : Prop := slen k = 64 ∧ ∃ kb, DecodeString k = Ok kb.

Lemma validate_keys_ok i seen ks :
  validate_keys i seen ks = Ok () ↔
  Forall (λ k, key_ok k ∧ ToLower k ∉ seen) ks ∧ NoDup (ToLower <$> ks).
Proof.
  revert i seen. induction ks as [|k ks IH]; intros i seen; cbn [validate_keys].
  { split; [|done]. intros _. split; [apply Forall_nil_2|apply NoDup_nil_2]. }
  cbn [fmap list_fmap]. rewrite Forall_cons, NoDup_cons. unfold key_ok. split.
  - intros H. run. bool_hyps. destruct (DecodeString k) as [kb|] eqn:E; [|done].
    match goal with H : result_map_err _ _ = Ok _ |- _ => apply ok_inj in H; subst end.
    rewrite (EncodeToString_DecodeString _ _ E) in *. apply IH in H as [Hf Hnd].
    rewrite Forall_forall in Hf. split_and!; [done|eauto|done| | |done].
    + apply Forall_forall. intros k' Hk'. destruct (Hf k' Hk') as [? ?]. set_solver.
    + intros (k' & Ek & Hk')%list_elem_of_fmap. destruct (Hf k' Hk') as [_ ?]. set_solver.
  - intros ([[[Hl [kb E]] Hs] Hf] & Hni & Hnd). rewrite Hl, E. cbn [negb rbind rfail_if Z.eqb].
    change (64 =? 64) with true. cbn [negb rbind rfail_if result_map_err].
    rewrite (EncodeToString_DecodeString _ _ E), bool_decide_eq_false_2 by done.
    cbn [rbind rfail_if]. apply IH. split; [|done].
    rewrite Forall_forall in Hf |- *. intros k' Hk'. destruct (Hf k' Hk') as [? ?].
    split; [done|]. intros [Hin|?]%elem_of_union; [|done].
    apply elem_of_singleton in Hin. apply Hni. rewrite <- Hin. by apply list_elem_of_fmap_2.
Qed.

Lemma ValidateKeyset_ok ks :
  ValidateKeyset (Some ks) = Ok () ↔
  1 <= ks_Threshold ks <= zlen (ks_Keys ks) ∧ Forall key_ok (ks_Keys ks) ∧
  NoDup (ToLower <$> ks_Keys ks).
Proof.
  cbn [ValidateKeyset]. split.
  - intros H. run. bool_hyps. apply validate_keys_ok in H as [Hf Hnd].
    split_and!; [lia|lia| |done]. eapply Forall_impl; [exact Hf|]. naive_solver.
  - intros ([H1 H2] & Hf & Hnd). rewrite bool_decide_eq_false_2.
    2:{ intros E. rewrite E in H2. unfold zlen in H2. cbn in H2. lia. }
    rewrite (proj2 (Z.ltb_ge _ 1)), (proj2 (Z.ltb_ge (zlen _) _)) by lia. cbn [rbind rfail_if].
    apply validate_keys_ok. split; [|done]. eapply Forall_impl; [exact Hf|]. set_solver.
Qed.

(** the address of a multisig account does not depend on the order in
    which its keys are listed: reordering the keys of a valid keyset gives a
    valid keyset with the same address. *)
Theorem DeriveMultisigAddress_order ks1 ks2 a :
  ks_Threshold ks1 = ks_Threshold ks2 → ks_Keys ks1 ≡ₚ ks_Keys ks2 →
  DeriveMultisigAddress (Some ks1) = Ok a → DeriveMultisigAddress (Some ks2) = Ok a.
Proof.
  intros Ht Hp H. unfold DeriveMultisigAddress in *.
  apply rbind_ok in H as ([] & Hv & H). apply ValidateKeyset_ok in Hv as (Hr & Hf & Hnd).
  assert (Hl : zlen (ks_Keys ks1) = zlen (ks_Keys ks2)) by (unfold zlen; by rewrite Hp).
  rewrite (proj2 (ValidateKeyset_ok ks2)).
  - cbn [rbind]. by rewrite <- Ht, <- (sort_strings_canonical _ _ Hp).
  - rewrite <- Ht, <- Hl, <- Hp. done.
Qed.

End multisig.

Definition toy_keys : list string := [PubKeyHex (KeyPairFromSeed [9]); PubKeyHex (KeyPairFromSeed [4])].

Lemma DeriveMultisigAddress_order_witness :
  DeriveMultisigAddress (Some (mkKeyset (reverse toy_keys) 2)) =
  DeriveMultisigAddress (Some (mkKeyset toy_keys 2)).
Proof.
  apply (DeriveMultisigAddress_order (mkKeyset toy_keys 2) (mkKeyset (reverse toy_keys) 2)
    (match DeriveMultisigAddress (Some (mkKeyset toy_keys 2)) with Ok a => a | Err _ => "" end)).
  - done.
  - cbn [ks_Keys]. symmetry. apply reverse_Permutation.
  - vm_compute. reflexivity.
Defined.

(** A signer key shorter than 12 characters makes the error message itself
    panic: the slice [pk[:12]] is evaluated before any length check. *)
Lemma VerifyMultisig_short_signer_panics `{C : Crypto} hash hb sig sigs ks :
  DecodeHash hash = Ok hb → slen (bs_PublicKey sig) < 12 → bs_PublicKey sig ∉ ks_Keys ks →
  VerifyMultisig hash (sig :: sigs) ks = Err (panic "slice bounds out of range").
Proof.
  intros Hh Hs Hn. unfold VerifyMultisig. rewrite Hh. cbn [result_map_err rbind verify_loop].
  rewrite bool_decide_eq_false_2 by done. cbn [rbind rfail_if].
  rewrite !bool_decide_eq_false_2 by set_solver. cbn [rbind rfail_if negb].
  unfold err_with12, first12. by rewrite (proj2 (Z.ltb_lt _ _)).
Qed.
