(* ===== verification/Attestation.v ===== *)
(** * Timekeeper attestations: [core/attestation.go]

    The time of a lease event is the median of timestamps signed by trusted
    timekeepers. *)
From S2P Require Import Prelude GoLib Types Encoding LeaseMath Crypto.

Definition MaxAttestationsPerBlock : Z := 20.

Section attestation.
Context `{C : Crypto}.

Definition AttestationPayload (leaseHash : string) (timestamp : Z) : result (list Z) :=
  let? hashBytes := DecodeHash leaseHash in
  Ok (sha256 (hashBytes ++ PutUint64 timestamp)).

Definition SignAttestation (leaseHash : string) (timestamp : Z) (kp : KeyPair)
    : result TimekeeperAttestation :=
  let? payload := AttestationPayload leaseHash timestamp in
  Ok (mkAttestation (PubKeyHex kp) timestamp
        (EncodeToString (ed25519_Sign (kp_Private kp) payload))).

Definition VerifyAttestation (a : TimekeeperAttestation) (leaseHash : string) : result unit :=
  let? payload := AttestationPayload leaseHash (ta_Timestamp a) in
  VerifyHexSignature (ta_PublicKey a) (ta_Signature a) payload.

(** The skew test on one timestamp; the negation wraps as Go's does. *)
Definition within_skew (maxSkew now ts : Z) : bool :=
  let delta := i64_sub ts now in
  let delta := if delta <? 0 then i64 (- delta) else delta in
  negb (maxSkew <? delta).

(** The filtering loop of [ValidateAttestations]. *)
Fixpoint valid_timestamps (keys : list string) (leaseHash : string) (skipSkew : bool)
    (maxSkew now : Z) (seen : gset string) (atts : list TimekeeperAttestation) : list Z :=
  match atts with
  | [] => []
  | a :: atts =>
      if bool_decide (ta_PublicKey a ∈ keys) && bool_decide (ta_PublicKey a ∉ seen)
         && is_ok (VerifyAttestation a leaseHash)
         && (skipSkew || within_skew maxSkew now (ta_Timestamp a))
      then ta_Timestamp a ::
             valid_timestamps keys leaseHash skipSkew maxSkew now
               ({[ta_PublicKey a]} ∪ seen) atts
      else valid_timestamps keys leaseHash skipSkew maxSkew now seen atts
  end.

(** [sort.Slice] by [<] on [int64] *)
Fixpoint insert_Z (x : Z) (l : list Z) : list Z :=
  match l with
  | [] => [x]
  | y :: l => if y <? x then y :: insert_Z x l else x :: y :: l
  end.
Definition sort_Z (l : list Z) : list Z := foldr insert_Z [] l.

Definition ValidateAttestations (T : LeaseTiming) (now : Z)
    (attestations : list TimekeeperAttestation) (leaseHash : string)
    (config : option TimekeeperConfig) (skipSkew : bool) : result Z :=
  match config with
  | None => Err (errorf "no timekeeper config")
  | Some config =>
      rfail_if (tk_Threshold config =? 0) (errorf "timekeeper threshold is zero") ;?
      rfail_if (MaxAttestationsPerBlock <? zlen attestations)
        (errorf ("too many attestations: " +:+ FormatInt (zlen attestations) +:+ " exceeds max "
                 +:+ FormatInt MaxAttestationsPerBlock)) ;?
      rfail_if (zlen attestations <? tk_Threshold config)
        (errorf ("need " +:+ FormatInt (tk_Threshold config) +:+ " attestations, got "
                 +:+ FormatInt (zlen attestations))) ;?
      let valid := valid_timestamps (tk_Keys config) leaseHash skipSkew
                     (MaxAttestationSkew T) now ∅ attestations in
      rfail_if (zlen valid <? tk_Threshold config)
        (errorf ("only " +:+ FormatInt (zlen valid)
                 +:+ " valid attestations from trusted timekeepers, need "
                 +:+ FormatInt (tk_Threshold config))) ;?
      let sorted := sort_Z valid in
      match sorted !! Z.to_nat ((zlen valid - 1) / 2) with
      | Some median => Ok median
      | None => Err (panic "index out of range")
      end
  end.

(** ** Sorting and the median *)

Lemma insert_Z_perm x l : insert_Z x l ≡ₚ x :: l.
Proof.
  induction l as [|y l IH]; cbn; [done|]. destruct (y <? x); [|done]. rewrite IH. constructor.
Qed.
Lemma sort_Z_perm l : sort_Z l ≡ₚ l.
Proof. induction l as [|x l IH]; cbn; [done|]. by rewrite insert_Z_perm, IH. Qed.

Lemma insert_Z_sorted x l : StronglySorted Z.le l → StronglySorted Z.le (insert_Z x l).
Proof.
  induction 1 as [|y l Hl IH Hy]; cbn; [by repeat constructor|].
  destruct (Z.ltb_spec y x).
  - constructor; [done|]. rewrite insert_Z_perm. constructor; [lia|done].
  - constructor; [by constructor|]. constructor; [lia|].
    eapply Forall_impl; [exact Hy|]. intros; cbn in *; lia.
Qed.
Lemma sort_Z_sorted l : StronglySorted Z.le (sort_Z l).
Proof. induction l; cbn; [constructor|by apply insert_Z_sorted]. Qed.

Definition count (P : Z → bool) (l : list Z) : nat := length (List.filter P l).

Lemma count_perm P l1 l2 : l1 ≡ₚ l2 → count P l1 = count P l2.
Proof.
  intros H. unfold count. induction H as [|x|x y|? ? ? ? IH1 ? IH2]; cbn; [done| | |congruence].
  - destruct (P x); cbn; congruence.
  - destruct (P x), (P y); done.
Qed.

Lemma count_take_drop P l i :
  count P l = (count P (take i l) + count P (drop i l))%nat.
Proof.
  rewrite <- (take_drop i l) at 1. unfold count. rewrite List.filter_app, length_app. done.
Qed.

Lemma count_all P l : Forall (λ x, P x = true) l → count P l = length l.
Proof.
  unfold count. induction 1 as [|x l Hx _ IH]; cbn; [done|]. rewrite Hx. cbn. by rewrite IH.
Qed.

Lemma sorted_take_le l i m :
  StronglySorted Z.le l → l !! i = Some m → Forall (λ x, x <= m) (take (S i) l).
Proof.
  intros Hs. revert i. induction Hs as [|y l Hl IH Hy]; intros i Hi; [done|].
  destruct i as [|i]; cbn in *; simplify_eq.
  - by repeat constructor.
  - constructor; [|by apply IH]. rewrite Forall_forall in Hy. apply Hy.
    by eapply list_elem_of_lookup_2.
Qed.
Lemma sorted_drop_ge l i m :
  StronglySorted Z.le l → l !! i = Some m → Forall (λ x, m <= x) (drop i l).
Proof.
  intros Hs. revert i. induction Hs as [|y l Hl IH Hy]; intros i Hi; [done|].
  destruct i as [|i]; cbn in *; simplify_eq; [|by apply IH].
  constructor; [lia|]. eapply Forall_impl; [exact Hy|]. intros; cbn in *; lia.
Qed.

(** More than half of the values are at most, resp. at least, the median. *)
Lemma median_rank l m :
  l ≠ [] → sort_Z l !! Z.to_nat ((zlen l - 1) / 2) = Some m →
  zlen l <= 2 * Z.of_nat (count (λ x, x <=? m) l) ∧
  zlen l < 2 * Z.of_nat (count (λ x, m <=? x) l) + 1 ∧ m ∈ l.
Proof.
  intros Hne Hm. set (i := Z.to_nat ((zlen l - 1) / 2)) in *.
  assert (Hl : 0 < zlen l) by (destruct l; [done|unfold zlen; cbn [length]; lia]).
  assert (Hlen : length (sort_Z l) = length l) by by rewrite sort_Z_perm.
  pose proof (lookup_lt_Some _ _ _ Hm) as Hi.
  pose proof (sorted_take_le _ _ _ (sort_Z_sorted l) Hm) as H1.
  pose proof (sorted_drop_ge _ _ _ (sort_Z_sorted l) Hm) as H2.
  assert (Hi2 : (2 * i = length l - 1 ∨ 2 * i = length l - 2)%nat).
  { unfold i, zlen in *. pose proof (Z.div_mod (Z.of_nat (length l) - 1) 2 ltac:(lia)).
    pose proof (Z.mod_pos_bound (Z.of_nat (length l) - 1) 2 ltac:(lia)). lia. }
  rewrite <- (count_perm _ _ _ (sort_Z_perm l)), <- (count_perm (λ x, m <=? x) _ _ (sort_Z_perm l)).
  rewrite (count_take_drop _ _ (S i)), (count_take_drop (λ x, m <=? x) _ i).
  rewrite (count_all _ (take (S i) _)), (count_all _ (drop i _)).
  - rewrite length_take, length_drop. unfold zlen. split_and!; [lia|lia|].
    rewrite <- sort_Z_perm. by eapply list_elem_of_lookup_2.
  - eapply Forall_impl; [exact H2|]. intros; cbn in *; lia.
  - eapply Forall_impl; [exact H1|]. intros; cbn in *; lia.
Qed.

(** ** What an accepted set of attestations proves *)

Definition attests (cfg : TimekeeperConfig) (leaseHash : string) (a : TimekeeperAttestation) : Prop :=
  ta_PublicKey a ∈ tk_Keys cfg ∧ VerifyAttestation a leaseHash = Ok ().

Lemma valid_timestamps_spec cfg lh skip sk now seen atts :
  ∃ sel, sublist sel atts ∧ NoDup (ta_PublicKey <$> sel) ∧
    Forall (λ a, ta_PublicKey a ∉ seen ∧ attests cfg lh a ∧
              (skip = false → within_skew sk now (ta_Timestamp a) = true)) sel ∧
    valid_timestamps (tk_Keys cfg) lh skip sk now seen atts = ta_Timestamp <$> sel.
Proof.
  revert seen. induction atts as [|a atts IH]; intros seen; cbn [valid_timestamps].
  { exists []. split_and!; [done|apply NoDup_nil_2|apply Forall_nil_2|done]. }
  destruct (_ && _) eqn:E.
  - bool_hyps. destruct (IH ({[ta_PublicKey a]} ∪ seen)) as (sel & Hsub & Hnd & Hf & ->).
    rewrite Forall_forall in Hf. exists (a :: sel). split_and!.
    + by constructor.
    + cbn. apply NoDup_cons. split; [|done].
      intros (a' & Ea & Ha')%list_elem_of_fmap. destruct (Hf a' Ha') as [Hn _]. set_solver.
    + apply Forall_cons. split.
      * split; [done|]. split; [split; [done|]|].
        -- unfold VerifyAttestation in *. by destruct (let? _ := _ in _) as [[]|].
        -- intros ->. by destruct (within_skew _ _ _).
      * apply Forall_forall. intros a' Ha'. destruct (Hf a' Ha') as (? & ? & ?). set_solver.
    + done.
  - destruct (IH seen) as (sel & Hsub & Hnd & Hf & ->). exists sel. split_and!; try done.
    by constructor.
Qed.

Lemma count_filter_neg P l : (count P l + count (λ x, negb (P x)) l = length l)%nat.
Proof.
  unfold count. induction l as [|x l IH]; cbn; [done|]. destruct (P x); cbn; lia.
Qed.

Lemma count_mono P Q l : (∀ x, P x = true → Q x = true) → (count P l <= count Q l)%nat.
Proof.
  intros H. unfold count. induction l as [|x l IH]; cbn; [done|].
  destruct (P x) eqn:E; [rewrite (H x E); cbn; lia|]. destruct (Q x); cbn; lia.
Qed.

(** If more than half of the values lie in an interval, so does the median. *)
Lemma median_majority l m lo hi :
  l ≠ [] → sort_Z l !! Z.to_nat ((zlen l - 1) / 2) = Some m →
  zlen l < 2 * Z.of_nat (count (λ x, (lo <=? x) && (x <=? hi)) l) → lo <= m <= hi.
Proof.
  intros Hne Hm Hc. destruct (median_rank l m Hne Hm) as (H1 & H2 & _).
  pose proof (count_filter_neg (λ x, (lo <=? x) && (x <=? hi)) l). unfold zlen in *. split.
  - destruct (Z_lt_le_dec m lo); [|done]. exfalso.
    pose proof (count_mono (λ x, x <=? m) (λ x, negb ((lo <=? x) && (x <=? hi))) l
      ltac:(intros; cbn in *; lia)). lia.
  - destruct (Z_lt_le_dec hi m); [|lia]. exfalso.
    pose proof (count_mono (λ x, m <=? x) (λ x, negb ((lo <=? x) && (x <=? hi))) l
      ltac:(intros; cbn in *; lia)). lia.
Qed.

(** C31: the time [ValidateAttestations] returns is backed by at least the
    threshold of distinct trusted timekeepers whose signatures over the lease
    and their timestamp verify, and as soon as more than half of them lie in an
    interval, so does the time: a minority of faulty timekeepers cannot move
    it outside the range the others attest. *)
Theorem ValidateAttestations_median T now atts lh cfg skip t :
  0 < tk_Threshold cfg →
  ValidateAttestations T now atts lh (Some cfg) skip = Ok t →
  ∃ sel, sublist sel atts ∧ NoDup (ta_PublicKey <$> sel) ∧
    Forall (attests cfg lh) sel ∧ tk_Threshold cfg <= zlen sel ∧
    t ∈ ta_Timestamp <$> sel ∧
    ∀ lo hi, zlen sel < 2 * Z.of_nat (count (λ x, (lo <=? x) && (x <=? hi)) (ta_Timestamp <$> sel)) →
             lo <= t <= hi.
Proof.
  intros Hth H. unfold ValidateAttestations in H. run. bool_hyps.
  destruct (valid_timestamps_spec cfg lh skip (MaxAttestationSkew T) now ∅ atts)
    as (sel & Hsub & Hnd & Hf & Ev). rewrite Ev in *.
  destruct (_ !! _) as [m|] eqn:Em; [|done]. run.
  assert (Hz : zlen (ta_Timestamp <$> sel) = zlen sel) by (unfold zlen; by rewrite length_fmap).
  assert (ta_Timestamp <$> sel ≠ []).
  { intros E. apply (f_equal zlen) in E. unfold zlen in *. cbn in E. lia. }
  exists sel. split_and!; [done|done| |lia| |].
  - eapply Forall_impl; [exact Hf|]. naive_solver.
  - by eapply median_rank.
  - intros lo hi Hc. eapply median_majority; [done..|]. by rewrite Hz.
Qed.

Lemma within_skew_spec sk now ts :
  0 <= sk < 2 ^ 62 → 0 <= now < 2 ^ 62 → is_i64 ts → within_skew sk now ts = true →
  Z.abs (ts - now) <= sk ∨ ts - now = - two63.
Proof.
  intros Hs Hn Ht H. unfold within_skew, i64_sub in H. bool_hyps.
  pose proof (i64_range (ts - now)) as Hr.
  assert (Hi : i64 (ts - now) = ts - now ∨ i64 (ts - now) = ts - now - two64 ∨
               i64 (ts - now) = ts - now + two64).
  { unfold i64, is_i64, two63, two64 in *. pose proof (Z.div_mod (ts - now + 9223372036854775808) 18446744073709551616).
    assert (-1 <= (ts - now + 9223372036854775808) / 18446744073709551616 <= 1) by
      (split; [apply Z.div_le_lower_bound|apply Z.div_le_upper_bound]; lia).
    lia. }
  destruct (Z.ltb_spec (i64 (ts - now)) 0) as [Hneg|Hpos].
  - destruct (Z.eq_dec (i64 (ts - now)) (- two63)) as [E|E].
    + right. unfold is_i64, two63, two64 in *. lia.
    + rewrite (i64_small (- _)) in H by (unfold is_i64, two63 in *; lia).
      unfold is_i64, two63, two64 in *. lia.
  - unfold is_i64, two63, two64 in *. lia.
Qed.

(** outside of synchronisation the accepted time is within the allowed
    skew of the local clock.  The one exception is a timestamp exactly [2^63]
    nanoseconds before the clock, whose negated distance wraps around. *)
Theorem ValidateAttestations_skew T now atts lh cfg t :
  0 < tk_Threshold cfg → 0 <= MaxAttestationSkew T < 2 ^ 62 → 0 <= now < 2 ^ 62 →
  Forall (λ a, is_i64 (ta_Timestamp a)) atts →
  ValidateAttestations T now atts lh (Some cfg) false = Ok t →
  Z.abs (t - now) <= MaxAttestationSkew T ∨ t = now - two63.
Proof.
  intros Hth Hsk Hnow Hi H. unfold ValidateAttestations in H. run. bool_hyps.
  destruct (valid_timestamps_spec cfg lh false (MaxAttestationSkew T) now ∅ atts)
    as (sel & Hsub & Hnd & Hf & Ev). rewrite Ev in *.
  destruct (_ !! _) as [m|] eqn:Em; [|done]. run.
  assert (ta_Timestamp <$> sel ≠ []).
  { intros E. rewrite E in *. unfold zlen in *. cbn in *. lia. }
  destruct (median_rank _ _ ltac:(done) Em) as (_ & _ & (a & -> & Ha)%list_elem_of_fmap).
  rewrite Forall_forall in Hf, Hi. destruct (Hf a Ha) as (_ & _ & Hw).
  destruct (within_skew_spec _ now (ta_Timestamp a) Hsk Hnow) as [?|?]; [|by apply Hw|lia|lia].
  apply Hi. apply sublist_submseteq in Hsub. by eapply elem_of_submseteq.
Qed.

End attestation.

(** ** Concrete attestations *)

Definition toy_timekeepers : list KeyPair :=
  KeyPairFromSeed <$> [[11]; [12]; [13]].
Definition toy_tk_config : TimekeeperConfig := mkTimekeeperConfig (PubKeyHex <$> toy_timekeepers) 2.
Definition toy_lease_hash : string := EncodeToString (replicate 32 5).
Definition toy_attestations (ts : list Z) : list TimekeeperAttestation :=
  zip_with (λ kp t, match SignAttestation toy_lease_hash t kp with
                    | Ok a => a | Err _ => mkAttestation "" 0 "" end) toy_timekeepers ts.

Lemma ValidateAttestations_median_witness :
  ∃ sel, sublist sel (toy_attestations [1000; 5000; 1010]) ∧ NoDup (ta_PublicKey <$> sel) ∧
    Forall (attests toy_tk_config toy_lease_hash) sel ∧ tk_Threshold toy_tk_config <= zlen sel ∧
    1010 ∈ ta_Timestamp <$> sel ∧
    ∀ lo hi, zlen sel < 2 * Z.of_nat (count (λ x, (lo <=? x) && (x <=? hi)) (ta_Timestamp <$> sel)) →
             lo <= 1010 <= hi.
Proof.
  apply (ValidateAttestations_median DefaultLeaseTiming 0 (toy_attestations [1000; 5000; 1010])
           toy_lease_hash toy_tk_config true 1010); [done|vm_compute; reflexivity].
Defined.

Lemma ValidateAttestations_skew_witness :
  Z.abs (1010 - 900) <= MaxAttestationSkew DefaultLeaseTiming ∨ 1010 = 900 - two63.
Proof.
  apply (ValidateAttestations_skew DefaultLeaseTiming 900 (toy_attestations [1000; 5000; 1010])
           toy_lease_hash toy_tk_config 1010);
    [done|done|done| |vm_compute; reflexivity].
  repeat constructor; vm_compute; done.
Defined.

(** The wrap-around is real: a timestamp [2^63] ns before the clock passes. *)
Lemma within_skew_wraps :
  within_skew DefaultMaxAttestationSkew 1700000000000000000 (1700000000000000000 - two63) = true.
Proof. reflexivity. Qed.
