(* ===== verification/Genesis.v ===== *)
(** * The genesis block: [core/genesis.go]

    Validation of the genesis document, and the lease timing it fixes. *)
From S2P Require Import Prelude GoLib Types Encoding Amount LeaseMath Crypto.

Definition GenesisSupply : Z := u64_mul 42000000 (ac_UnitsPerToken AssetXE).

Definition ZeroAddress : string :=
  "0000000000000000000000000000000000000000000000000000000000000000".

Definition validateGenesisRepresentative (b : Block) : result unit :=
  let rep := b_Representative b in
  rfail_if (rep =?s "") (errorf "genesis: representative is required — a genesis that delegates nothing yields zero total delegated weight, so no block can ever finalize and every balance stays unspendable while all health checks read green") ;?
  rfail_if (match DecodeString rep with Ok bs => negb (zlen bs =? 32) | Err _ => true end)
    (errorf ("genesis: representative must be 64 hex characters (32-byte account address), got "
             +:+ quote rep)) ;?
  rfail_if (rep =?s ZeroAddress)
    (errorf ("genesis: representative must not be the all-zero address — that is how the canonical encoding spells "
             +:+ quote "no representative")) ;?
  rfail_if (negb (b_PubKey b =?s "") && (rep =?s b_PubKey b))
    (errorf ("genesis: representative is the genesis PUBLIC KEY, not an account address — an address is sha256("
             +:+ quote AccountAddressDomain
             +:+ " || pubkey), so this delegates the whole supply to an account that cannot exist and nothing can ever finalize")).

Definition validateGenesisLeaseTiming (b : Block) : result unit :=
  let T := ApplyGenesisLeaseTiming (Some b) in
  let minDur := LeaseMinDuration T in
  let grace := LeaseSettleGrace T in
  let gap := LeaseForceSettleGap T in
  let escrow := LeaseEscrowExpiry T in
  let archive := LeaseArchiveGap T in
  let skew := MaxAttestationSkew T in
  rfail_if (minDur <? 1)
    (errorf ("genesis: lease_min_duration_secs must be >= 1, got " +:+ FormatUint minDur)) ;?
  rfail_if (grace <=? 0)
    (errorf ("genesis: lease_settle_grace_ns must be > 0, got " +:+ FormatInt grace)) ;?
  rfail_if (skew <=? 0)
    (errorf ("genesis: max_attestation_skew_ns must be > 0, got " +:+ FormatInt skew)) ;?
  rfail_if (gap <=? i64_mul 2 skew)
    (errorf ("genesis: lease_force_settle_gap_ns (" +:+ FormatInt gap
             +:+ ") must exceed 2×max_attestation_skew_ns (" +:+ FormatInt (i64_mul 2 skew) +:+ ")")) ;?
  rfail_if (escrow <=? i64_add grace gap)
    (errorf ("genesis: lease_escrow_expiry_ns (" +:+ FormatInt escrow
             +:+ ") must exceed settle_grace+force_settle_gap (" +:+ FormatInt (i64_add grace gap) +:+ ")")) ;?
  rfail_if (archive <=? 0)
    (errorf ("genesis: lease_archive_gap_ns must be > 0, got " +:+ FormatInt archive)).

Section genesis.
Context `{C : Crypto}.

(** The block is verified with the network identifier cleared. *)
Definition ValidateGenesisBlock (b : Block) : result unit :=
  rfail_if (negb (b_Type b =?s BlockGenesis))
    (errorf ("genesis: type must be " +:+ quote "genesis" +:+ ", got "
             +:+ quote (BlockType_string (b_Type b)))) ;?
  rfail_if (negb (b_Previous b =?s "0")) (errorf ("genesis: previous must be " +:+ quote "0")) ;?
  rfail_if (negb (b_Timestamp b =? 0)) (errorf "genesis: timestamp must be 0") ;?
  rfail_if (negb (b_Asset b =?s "XE"))
    (errorf ("genesis: asset must be " +:+ quote "XE" +:+ ", got " +:+ quote (b_Asset b))) ;?
  rfail_if (negb (b_Balance b =? GenesisSupply))
    (errorf ("genesis: balance must be " +:+ FormatUint GenesisSupply +:+ ", got "
             +:+ FormatUint (b_Balance b))) ;?
  rfail_if (b_Account b =?s "") (errorf "genesis: account must not be empty") ;?
  validateGenesisRepresentative b ;?
  validateGenesisLeaseTiming b ;?
  result_map_err (wrapf "genesis: ") (VerifyBlock "" b).

End genesis.

(** ** The windows the timing fixes *)

(** When a settlement attested at [t] is on time, and when a forced one is. *)
Definition in_settle_window (T : LeaseTiming) (expiry t : Z) : Prop :=
  expiry <= t <= expiry + LeaseSettleGrace T.
Definition in_force_window (T : LeaseTiming) (expiry t : Z) : Prop :=
  expiry + LeaseSettleGrace T + LeaseForceSettleGap T <= t < expiry + LeaseEscrowExpiry T.

Lemma genesis_timing_bounds b :
  is_i64 (b_LeaseSettleGraceNs b) → is_i64 (b_LeaseForceSettleGapNs b) →
  b_MaxAttestationSkewNs b < 2 ^ 62 →
  b_LeaseSettleGraceNs b < 2 ^ 62 → b_LeaseForceSettleGapNs b < 2 ^ 62 →
  validateGenesisLeaseTiming b = Ok () →
  let T := ApplyGenesisLeaseTiming (Some b) in
  1 <= LeaseMinDuration T ∧ 0 < LeaseSettleGrace T ∧ 0 < MaxAttestationSkew T ∧
  2 * MaxAttestationSkew T < LeaseForceSettleGap T ∧
  LeaseSettleGrace T + LeaseForceSettleGap T < LeaseEscrowExpiry T ∧ 0 < LeaseArchiveGap T.
Proof.
  intros Hg Hf Hs Hg2 Hf2 H T. unfold validateGenesisLeaseTiming in H. fold T in H. run. bool_hyps.
  assert (B : ∀ v d, v < 2 ^ 62 → d < 2 ^ 62 → nonzero_or v d < 2 ^ 62).
  { intros v d ??. unfold nonzero_or. by destruct (negb _). }
  assert (MaxAttestationSkew T < 2 ^ 62) by (apply B; done).
  assert (LeaseSettleGrace T < 2 ^ 62) by (apply B; done).
  assert (LeaseForceSettleGap T < 2 ^ 62) by (apply B; done).
  unfold i64_mul, i64_add in *.
  rewrite (i64_small (2 * _)) in * by (unfold is_i64, two63; lia).
  rewrite i64_small in * by (unfold is_i64, two63 in *; lia). lia.
Qed.

(** with the timing of a valid genesis a lease can never be both settled
    by its provider and force-settled by its consumer, even when the two
    attested times are off by the maximal skew in opposite directions: any
    on-time settlement precedes any admissible forced settlement by more than
    twice the skew; and the forced window is not empty. *)
Theorem genesis_windows_disjoint b expiry :
  is_i64 (b_LeaseSettleGraceNs b) → is_i64 (b_LeaseForceSettleGapNs b) →
  b_MaxAttestationSkewNs b < 2 ^ 62 →
  b_LeaseSettleGraceNs b < 2 ^ 62 → b_LeaseForceSettleGapNs b < 2 ^ 62 →
  validateGenesisLeaseTiming b = Ok () →
  let T := ApplyGenesisLeaseTiming (Some b) in
  (∀ t t', in_settle_window T expiry t → in_force_window T expiry t' →
           t + 2 * MaxAttestationSkew T < t') ∧
  ∃ t', in_force_window T expiry t'.
Proof.
  intros Hg Hf Hs Hg2 Hf2 H.
  destruct (genesis_timing_bounds b Hg Hf Hs Hg2 Hf2 H) as (_ & ? & ? & ? & ? & _).
  generalize dependent (ApplyGenesisLeaseTiming (Some b)). intros T ????. split.
  - intros t t' Ht Ht'. unfold in_settle_window, in_force_window in *. lia.
  - exists (expiry + LeaseSettleGrace T + LeaseForceSettleGap T). unfold in_force_window. lia.
Qed.

Definition genesis_sample : Block :=
  mkBlock BlockGenesis "acct" "0" GenesisSupply 0 "XE" "rep" "" 0 "" 0 0 0 0 "" 60 0
    (30 * time_Minute) 0 0 0 "" None [] "" "" "" 0 [] "" 0 0 0.
Lemma genesis_windows_disjoint_witness :
  let T := ApplyGenesisLeaseTiming (Some genesis_sample) in
  (∀ t t', in_settle_window T 1000 t → in_force_window T 1000 t' →
           t + 2 * MaxAttestationSkew T < t') ∧ ∃ t', in_force_window T 1000 t'.
Proof.
  apply (genesis_windows_disjoint genesis_sample 1000); (split; done) || done.
Defined.

(** The comparison with twice the skew is computed in [int64]: a huge skew
    wraps and the check accepts a gap that does not exceed it. *)
Definition genesis_wrap : Block :=
  mkBlock BlockGenesis "acct" "0" GenesisSupply 0 "XE" "rep" "" 0 "" 0 0 0 0 "" 0 0 0 0 0
    (2 ^ 62) "" None [] "" "" "" 0 [] "" 0 0 0.
Lemma genesis_skew_check_wraps :
  validateGenesisLeaseTiming genesis_wrap = Ok () ∧
  let T := ApplyGenesisLeaseTiming (Some genesis_wrap) in
  LeaseForceSettleGap T < 2 * MaxAttestationSkew T.
Proof. split; vm_compute; reflexivity. Qed.
