(* ===== verification/Reputation.v ===== *)
(** * Reputation: [core/reputation.go]

    Per-account counters of lease events, applied when a lease block is added
    and reverted when it is undone. *)
From S2P Require Import Prelude GoLib.

Inductive EventKind :=
| EventLeaseAccepted | EventLeaseSettled | EventLeaseCancelled | EventLeaseUnfulfilled.

Record ReputationEvent := mkReputationEvent {
  ev_Kind : EventKind;
  ev_Provider : string;
  ev_Consumer : string;
  ev_Timestamp : Z;
  ev_DurationSecs : Z }.

Record ReputationAggregate := mkReputationAggregate {
  ra_Version : Z;
  ra_AcceptedAsProvider : Z;
  ra_SettledAsProvider : Z;
  ra_HoursAsProvider : Z;
  ra_UnfulfilledAsProvider : Z;
  ra_AcceptedAsConsumer : Z;
  ra_SettledAsConsumer : Z;
  ra_CancelledAsConsumer : Z;
  ra_HoursAsConsumer : Z;
  ra_UnfulfilledAsConsumer : Z;
  ra_FirstActivityAt : Z;
  ra_LastActivityAt : Z }.

Definition ReputationVersion : Z := 2.
Definition NewReputationAggregate : ReputationAggregate :=
  mkReputationAggregate ReputationVersion 0 0 0 0 0 0 0 0 0 0 0.

(** Rewrite the counters with [inc c by], given the roles of the account in the
    event; shared by the two directions. *)
Definition on_counters (inc : Z → Z → Z) (isProvider isConsumer : bool) (ev : ReputationEvent)
    (a : ReputationAggregate) : ReputationAggregate :=
  let p c by_ := if isProvider then inc c by_ else c in
  let q c by_ := if isConsumer then inc c by_ else c in
  match ev_Kind ev with
  | EventLeaseAccepted =>
      mkReputationAggregate (ra_Version a) (p (ra_AcceptedAsProvider a) 1)
        (ra_SettledAsProvider a) (ra_HoursAsProvider a) (ra_UnfulfilledAsProvider a)
        (q (ra_AcceptedAsConsumer a) 1) (ra_SettledAsConsumer a) (ra_CancelledAsConsumer a)
        (ra_HoursAsConsumer a) (ra_UnfulfilledAsConsumer a)
        (ra_FirstActivityAt a) (ra_LastActivityAt a)
  | EventLeaseSettled =>
      mkReputationAggregate (ra_Version a) (ra_AcceptedAsProvider a)
        (p (ra_SettledAsProvider a) 1) (p (ra_HoursAsProvider a) (ev_DurationSecs ev))
        (ra_UnfulfilledAsProvider a) (ra_AcceptedAsConsumer a)
        (q (ra_SettledAsConsumer a) 1) (ra_CancelledAsConsumer a)
        (q (ra_HoursAsConsumer a) (ev_DurationSecs ev)) (ra_UnfulfilledAsConsumer a)
        (ra_FirstActivityAt a) (ra_LastActivityAt a)
  | EventLeaseCancelled =>
      mkReputationAggregate (ra_Version a) (ra_AcceptedAsProvider a) (ra_SettledAsProvider a)
        (ra_HoursAsProvider a) (ra_UnfulfilledAsProvider a) (ra_AcceptedAsConsumer a)
        (ra_SettledAsConsumer a) (q (ra_CancelledAsConsumer a) 1) (ra_HoursAsConsumer a)
        (ra_UnfulfilledAsConsumer a) (ra_FirstActivityAt a) (ra_LastActivityAt a)
  | EventLeaseUnfulfilled =>
      mkReputationAggregate (ra_Version a) (ra_AcceptedAsProvider a) (ra_SettledAsProvider a)
        (ra_HoursAsProvider a) (p (ra_UnfulfilledAsProvider a) 1) (ra_AcceptedAsConsumer a)
        (ra_SettledAsConsumer a) (ra_CancelledAsConsumer a) (ra_HoursAsConsumer a)
        (q (ra_UnfulfilledAsConsumer a) 1) (ra_FirstActivityAt a) (ra_LastActivityAt a)
  end.

Definition with_activity (first last : Z) (a : ReputationAggregate) : ReputationAggregate :=
  mkReputationAggregate (ra_Version a) (ra_AcceptedAsProvider a) (ra_SettledAsProvider a)
    (ra_HoursAsProvider a) (ra_UnfulfilledAsProvider a) (ra_AcceptedAsConsumer a)
    (ra_SettledAsConsumer a) (ra_CancelledAsConsumer a) (ra_HoursAsConsumer a)
    (ra_UnfulfilledAsConsumer a) first last.

Definition ApplyReputationDelta (a : ReputationAggregate) (account : string)
    (ev : ReputationEvent) : ReputationAggregate :=
  if account =?s "" then a
  else
    let isProvider := account =?s ev_Provider ev in
    let isConsumer := account =?s ev_Consumer ev in
    if negb isProvider && negb isConsumer then a
    else
      let a := on_counters u64_add isProvider isConsumer ev a in
      let first := if (ra_FirstActivityAt a =? 0) || (ev_Timestamp ev <? ra_FirstActivityAt a)
                   then ev_Timestamp ev else ra_FirstActivityAt a in
      let last := if ra_LastActivityAt a <? ev_Timestamp ev
                  then ev_Timestamp ev else ra_LastActivityAt a in
      with_activity first last a.

(** [dec] of [RevertReputationDelta]: clamped subtraction *)
Definition rep_dec (c by_ : Z) : Z := if c <? by_ then 0 else c - by_.

Definition RevertReputationDelta (a : ReputationAggregate) (account : string)
    (ev : ReputationEvent) : ReputationAggregate :=
  if account =?s "" then a
  else
    let isProvider := account =?s ev_Provider ev in
    let isConsumer := account =?s ev_Consumer ev in
    if negb isProvider && negb isConsumer then a
    else on_counters rep_dec isProvider isConsumer ev a.

Definition counters (a : ReputationAggregate) : list Z :=
  [ra_AcceptedAsProvider a; ra_SettledAsProvider a; ra_HoursAsProvider a;
   ra_UnfulfilledAsProvider a; ra_AcceptedAsConsumer a; ra_SettledAsConsumer a;
   ra_CancelledAsConsumer a; ra_HoursAsConsumer a; ra_UnfulfilledAsConsumer a].

Definition hasNoCounters (a : ReputationAggregate) : bool := forallb (λ c, c =? 0) (counters a).

Definition AffectedAccounts (ev : ReputationEvent) : list string :=
  (if negb (ev_Provider ev =?s "") then [ev_Provider ev] else []) ++
  (if negb (ev_Consumer ev =?s "") && negb (ev_Consumer ev =?s ev_Provider ev)
   then [ev_Consumer ev] else []).

(** The engine is its map of aggregates; the writes to the backing store are
    returned as a list of puts ([Some]) and deletes ([None]). *)
Notation Reputations := (gmap string ReputationAggregate).

Definition apply_one (ev : ReputationEvent) (agg : Reputations) (acc : string) : Reputations :=
  <[acc := ApplyReputationDelta (default NewReputationAggregate (agg !! acc)) acc ev]> agg.

Definition ReputationApply (ev : ReputationEvent) (agg : Reputations) : Reputations :=
  foldl (apply_one ev) agg (AffectedAccounts ev).

Definition revert_one (ev : ReputationEvent) (agg : Reputations) (acc : string) : Reputations :=
  match agg !! acc with
  | None => agg
  | Some a =>
      let a := RevertReputationDelta a acc ev in
      if hasNoCounters a then delete acc agg else <[acc := a]> agg
  end.

Definition ReputationRevert (ev : ReputationEvent) (agg : Reputations) : Reputations :=
  foldl (revert_one ev) agg (AffectedAccounts ev).

(** The writes [Apply] and [Revert] pass to the reputation store; [Revert]
    leaves accounts it does not know alone. *)
Definition apply_writes (ev : ReputationEvent) (after : Reputations)
    : list (string * option ReputationAggregate) :=
  (λ acc, (acc, after !! acc)) <$> AffectedAccounts ev.
Definition revert_writes (ev : ReputationEvent) (before after : Reputations)
    : list (string * option ReputationAggregate) :=
  (λ acc, (acc, after !! acc)) <$>
    filter (λ acc, is_Some (before !! acc)) (AffectedAccounts ev).

(** ** Applying and reverting *)

Definition counters_of (agg : Reputations) (acc : string) : list Z :=
  from_option counters (counters NewReputationAggregate) (agg !! acc).

Lemma counters_with_activity f l a : counters (with_activity f l a) = counters a.
Proof. done. Qed.

Lemma rep_dec_add c k : is_u64 (c + k) → 0 <= c → 0 <= k → rep_dec (u64_add c k) k = c.
Proof.
  intros H Hc Hk. unfold rep_dec, u64_add. rewrite u64_small by done.
  destruct (Z.ltb_spec (c + k) k); lia.
Qed.

(** No counter that the event increments is about to wrap. *)
Definition room (ev : ReputationEvent) (a : ReputationAggregate) : Prop :=
  Forall (λ c, 0 <= c ∧ c + 1 < two64 ∧ c + ev_DurationSecs ev < two64) (counters a).

Lemma counters_revert_apply p q ev a f l :
  room ev a → 0 <= ev_DurationSecs ev →
  counters (on_counters rep_dec p q ev (with_activity f l (on_counters u64_add p q ev a)))
  = counters a.
Proof.
  intros Hr Hd. unfold room, counters in Hr.
  repeat match goal with H : Forall _ (_ :: _) |- _ => apply Forall_cons in H as [? H] end.
  assert (R : ∀ c k, 0 <= c ∧ c + 1 < two64 ∧ c + ev_DurationSecs ev < two64 →
    k = 1 ∨ k = ev_DurationSecs ev → rep_dec (u64_add c k) k = c).
  { intros c k ? Hk. apply rep_dec_add; unfold is_u64; lia. }
  destruct ev as [k ? ? ? d]; cbn [ev_DurationSecs] in *.
  unfold counters, on_counters, with_activity; cbn [ev_Kind ev_DurationSecs].
  destruct k, p, q; cbn -[u64_add rep_dec]; rewrite ?R by auto; done.
Qed.

Lemma hasNoCounters_true a : hasNoCounters a = true → counters a = counters NewReputationAggregate.
Proof.
  unfold hasNoCounters, counters. cbn. intros H. bool_hyps. congruence.
Qed.

Lemma revert_delta_time a acc k p c t t' d :
  RevertReputationDelta a acc (mkReputationEvent k p c t d)
  = RevertReputationDelta a acc (mkReputationEvent k p c t' d).
Proof. done. Qed.

Lemma delta_revert_apply a acc ev :
  room ev a → 0 <= ev_DurationSecs ev →
  counters (RevertReputationDelta (ApplyReputationDelta a acc ev) acc ev) = counters a.
Proof.
  intros Hr Hd. unfold RevertReputationDelta, ApplyReputationDelta.
  case_bool_decide; [done|]. destruct (negb _ && negb _); [done|].
  by apply counters_revert_apply.
Qed.

Lemma counters_of_revert_one ev agg acc acc' :
  counters_of (revert_one ev agg acc) acc' =
  if decide (acc = acc') then
    from_option (λ a, counters (RevertReputationDelta a acc ev))
      (counters NewReputationAggregate) (agg !! acc)
  else counters_of agg acc'.
Proof.
  unfold counters_of, revert_one. destruct (decide (acc = acc')) as [<-|Hne].
  - destruct (agg !! acc) as [a|] eqn:E; cbn [from_option]; cbv zeta; [|by rewrite E].
    destruct (hasNoCounters (RevertReputationDelta a acc ev)) eqn:Eh.
    + rewrite lookup_delete_eq. cbn. by apply hasNoCounters_true in Eh.
    + by rewrite lookup_insert_eq.
  - destruct (agg !! acc) as [a|] eqn:E; [|done].
    destruct (hasNoCounters (RevertReputationDelta _ acc ev)); [by rewrite lookup_delete_ne|by rewrite lookup_insert_ne].
Qed.

Lemma revert_one_ne ev agg acc acc' : acc ≠ acc' → revert_one ev agg acc !! acc' = agg !! acc'.
Proof.
  intros H. unfold revert_one. destruct (agg !! acc); [|done].
  destruct (hasNoCounters (RevertReputationDelta _ acc ev)); [by rewrite lookup_delete_ne|by rewrite lookup_insert_ne].
Qed.

Lemma affected_nodup ev : NoDup (AffectedAccounts ev).
Proof.
  unfold AffectedAccounts. repeat case_bool_decide; cbn;
    repeat constructor; set_solver.
Qed.

Lemma fold_apply_other ev l agg acc :
  acc ∉ l → foldl (apply_one ev) agg l !! acc = agg !! acc.
Proof.
  revert agg. induction l as [|x l IH]; intros agg H; cbn; [done|].
  rewrite IH by set_solver. unfold apply_one. rewrite lookup_insert_ne; [done|set_solver].
Qed.

Lemma fold_apply_in ev l agg acc :
  NoDup l → acc ∈ l →
  foldl (apply_one ev) agg l !! acc
  = Some (ApplyReputationDelta (default NewReputationAggregate (agg !! acc)) acc ev).
Proof.
  revert agg. induction l as [|x l IH]; intros agg Hnd Hin; cbn; [set_solver|].
  apply NoDup_cons in Hnd as [Hx Hnd]. apply elem_of_cons in Hin as [->|Hin].
  - rewrite fold_apply_other by done. unfold apply_one. by rewrite lookup_insert_eq.
  - rewrite IH by done. unfold apply_one. rewrite lookup_insert_ne; [done|set_solver].
Qed.

Lemma fold_revert_counters ev l agg acc :
  NoDup l →
  counters_of (foldl (revert_one ev) agg l) acc =
  if decide (acc ∈ l) then
    from_option (λ a, counters (RevertReputationDelta a acc ev))
      (counters NewReputationAggregate) (agg !! acc)
  else counters_of agg acc.
Proof.
  revert agg. induction l as [|x l IH]; intros agg Hnd; cbn.
  { destruct (decide (acc ∈ [])); [set_solver|done]. }
  apply NoDup_cons in Hnd as [Hx Hnd]. rewrite IH by done.
  destruct (decide (acc = x)) as [->|Hne].
  - rewrite (decide_False (P:=x ∈ l)), decide_True by set_solver.
    by rewrite counters_of_revert_one, decide_True.
  - rewrite revert_one_ne, counters_of_revert_one, (decide_False (P:=x = acc)) by congruence.
    destruct (decide (acc ∈ l)); [rewrite decide_True by set_solver|rewrite decide_False by set_solver]; done.
Qed.

(** undoing a lease event restores the counters of every account: the
    engine's [Revert] of an event, with whatever timestamp, cancels its
    [Apply] as long as no counter is at the end of its 64-bit range. *)
Theorem Reputation_revert_apply k p c t t' d agg :
  let ev := mkReputationEvent k p c t d in
  0 <= d →
  (∀ acc, room ev (default NewReputationAggregate (agg !! acc))) →
  ∀ acc, counters_of (ReputationRevert (mkReputationEvent k p c t' d) (ReputationApply ev agg)) acc
         = counters_of agg acc.
Proof.
  intros ev Hd Hroom acc. unfold ReputationRevert, ReputationApply.
  change (AffectedAccounts (mkReputationEvent k p c t' d)) with (AffectedAccounts ev).
  pose proof (affected_nodup ev) as Hnd. rewrite fold_revert_counters by done.
  destruct (decide (acc ∈ AffectedAccounts ev)) as [Hin|Hin].
  - rewrite fold_apply_in by done. cbn [from_option].
    rewrite (revert_delta_time _ _ k p c t' t d). fold ev. rewrite delta_revert_apply by done.
    unfold counters_of. by destruct (agg !! acc).
  - unfold counters_of. by rewrite fold_apply_other.
Qed.

Lemma Reputation_revert_apply_witness :
  counters_of (ReputationRevert (mkReputationEvent EventLeaseSettled "p" "c" 0 3600)
    (ReputationApply (mkReputationEvent EventLeaseSettled "p" "c" 77 3600)
      {[ "p" := mkReputationAggregate 2 3 2 7200 0 0 0 0 0 0 5 70 ]})) "p"
  = counters_of {[ "p" := mkReputationAggregate 2 3 2 7200 0 0 0 0 0 0 5 70 ]} "p".
Proof.
  apply (Reputation_revert_apply EventLeaseSettled "p" "c" 77 0 3600
    {[ "p" := mkReputationAggregate 2 3 2 7200 0 0 0 0 0 0 5 70 ]}); [done|].
  intros acc. destruct (decide (acc = "p")) as [->|Hne].
  - rewrite lookup_singleton_eq. repeat constructor; vm_compute; done.
  - rewrite lookup_singleton_ne by done. repeat constructor; vm_compute; done.
Defined.
