(* ===== verification/Store.v ===== *)
(** * The store the ledger works on: [core/store.go]

    [StoreState] is what the interfaces of [core/store.go] promise: finite maps
    from keys to records, and two atomic writes that change several of them.
    [MemFacts.v] shows that the implementation in [store/mem_store.go], with its
    secondary index and joined keys, refines it. *)
From S2P Require Import Prelude GoLib Types Reputation.

Record StoreState := mkStore {
  blocks : gmap string Block;
  chains : gmap string AccountChain;
  pending : gmap string PendingSend;
  frontiers : gmap string string;
  conflicts : gmap (string * string) Conflict;
  staged : gmap string Block;
  blockStatus : gmap string BlockStatus;
  finalHeight : gmap string Z;
  delegations : gmap string string;
  leases : gmap string Lease;
  st_keysets : gmap string Keyset;
  st_accountKeys : gmap string string;
  st_reputation : gmap string ReputationAggregate;
  votes : gmap (string * string * string) Vote;
  finalVotes : gmap (string * string) string }.

Definition emptyStore : StoreState := mkStore ∅ ∅ ∅ ∅ ∅ ∅ ∅ ∅ ∅ ∅ ∅ ∅ ∅ ∅ ∅.

(** [len(m.blocks) == 0] *)
Definition IsEmpty (s : StoreState) : bool := bool_decide (blocks s = ∅).

(** [if id != "" { ... }] *)
Definition when_id {A} (id : string) (f : A → A) (x : A) : A := if id =?s "" then x else f x.

Definition add_pending (p : option PendingSend) (m : gmap string PendingSend) :=
  match p with None => m | Some ps => <[ps_SendHash ps := ps]> m end.

Definition ps_with_amount (f : Z → Z) (ps : PendingSend) : PendingSend :=
  mkPendingSend (ps_SendHash ps) (ps_Source ps) (ps_Destination ps) (f (ps_Amount ps)) (ps_Asset ps).

(** ** The atomic block write *)

Definition commit_pending (c : BlockCommit) (m : gmap string PendingSend) : gmap string PendingSend :=
  let m := add_pending (bc_AddPending c) m in
  let m := when_id (bc_DeletePendingID c) (delete (bc_DeletePendingID c)) m in
  when_id (bc_TopUpPendingID c)
    (alter (ps_with_amount (λ a, u64_add a (bc_TopUpPendingAmount c))) (bc_TopUpPendingID c)) m.

Definition commit_leases (c : BlockCommit) (m : gmap string Lease) : gmap string Lease :=
  let m := match bc_PutLease c with None => m | Some l => <[l_LeaseHash l := l]> m end in
  let m := when_id (bc_SettleLeaseHash c)
             (alter (lease_with_state LeaseSettled true) (bc_SettleLeaseHash c)) m in
  let m := when_id (bc_CancelLeaseHash c)
             (alter (λ l, lease_with_state LeaseCancelled (l_Settled l) l) (bc_CancelLeaseHash c)) m in
  when_id (bc_UnfulfillLeaseHash c)
    (alter (lease_with_state LeaseUnfulfilled true) (bc_UnfulfillLeaseHash c)) m.

(** The state after a commit whose expectations held *)
Definition commit_effect (c : BlockCommit) (s : StoreState) : StoreState :=
  mkStore
    (<[b_Hash (bc_Block c) := bc_Block c]> (blocks s))
    (<[bc_Account c := bc_Chain c]> (chains s))
    (commit_pending c (pending s))
    (when_id (bc_FrontierHash c) (insert (bc_Account c) (bc_FrontierHash c)) (frontiers s))
    (conflicts s) (staged s) (blockStatus s) (finalHeight s)
    (if bc_DeleteDelegation c then delete (bc_Account c) (delegations s)
     else when_id (bc_DelegationRep c) (insert (bc_Account c) (bc_DelegationRep c)) (delegations s))
    (commit_leases c (leases s))
    (match bc_PutKeyset c with None => st_keysets s
     | Some ks => <[bc_Account c := ks]> (st_keysets s) end)
    (when_id (bc_PutAccountKey c) (insert (bc_Account c) (bc_PutAccountKey c)) (st_accountKeys s))
    (st_reputation s) (votes s) (finalVotes s).

(** [hash[:12]] of an identifier the caller has checked is 64 digits long *)
Definition prefix12 (h : string) : string := String.substring 0 12 h.

(** The lease expectation both commits test, on the lease they will find. *)
Definition check_lease (pre : string) (c : BlockCommit) (l : option Lease) : result unit :=
  if bc_ExpectLeaseHash c =?s "" then Ok ()
  else
    let conflict msg := mkError (pre +:+ err_msg ErrLeaseStateConflict +:+ ": lease "
                                 +:+ prefix12 (bc_ExpectLeaseHash c) +:+ msg)
                                (err_is ErrLeaseStateConflict) in
    match l with
    | None => Err (conflict " not found"%string)
    | Some l =>
        rfail_if (negb (l_State l =?s bc_ExpectLeaseState c))
          (conflict (" is " +:+ LeaseState_string (l_State l) +:+ ", want "
                     +:+ LeaseState_string (bc_ExpectLeaseState c))) ;?
        rfail_if (negb (bc_ExpectLeaseEffectiveDurationSecs c =? 0) &&
                  negb (EffectiveDurationSecs l =? bc_ExpectLeaseEffectiveDurationSecs c))
          (conflict (" effective duration " +:+ FormatUint (EffectiveDurationSecs l)
                     +:+ ", want " +:+ FormatUint (bc_ExpectLeaseEffectiveDurationSecs c)))
    end.

Definition CommitBlock (c : BlockCommit) (s : StoreState) : result StoreState :=
  check_lease "CommitBlock: " c (leases s !! bc_ExpectLeaseHash c) ;?
  Ok (commit_effect c s).

(** ** The atomic undo *)

Definition undo_pending (u : BlockUndo) (m : gmap string PendingSend) : gmap string PendingSend :=
  let m := when_id (bu_ReducePendingID u)
    (alter (ps_with_amount (λ a, u64_sub a (bu_ReducePendingAmount u))) (bu_ReducePendingID u)) m in
  let m := when_id (bu_DeletePendingID u) (delete (bu_DeletePendingID u)) m in
  add_pending (bu_AddPending u) m.

Definition undo_leases (u : BlockUndo) (m : gmap string Lease) : gmap string Lease :=
  let m := match bu_RestoreLease u with None => m | Some l => <[l_LeaseHash l := l]> m end in
  when_id (bu_DeleteLeaseHash u) (delete (bu_DeleteLeaseHash u)) m.

Definition CommitUndo (u : BlockUndo) (s : StoreState) : StoreState :=
  mkStore (blocks s)
    (if bu_DeleteAccount u then delete (bu_Account u) (chains s)
     else <[bu_Account u := bu_Chain u]> (chains s))
    (undo_pending u (pending s))
    (if bu_DeleteAccount u then delete (bu_Account u) (frontiers s)
     else <[bu_Account u := bu_FrontierHash u]> (frontiers s))
    (conflicts s) (staged s)
    (when_id (bu_RejectHash u) (insert (bu_RejectHash u) StatusRejected) (blockStatus s))
    (finalHeight s)
    (if bu_RestoreDelegation u then
       (if bu_PrevRep u =?s "" then delete (bu_Account u) (delegations s)
        else <[bu_Account u := bu_PrevRep u]> (delegations s))
     else delegations s)
    (undo_leases u (leases s))
    (when_id (bu_DeleteKeysetAccount u) (delete (bu_DeleteKeysetAccount u)) (st_keysets s))
    (when_id (bu_DeleteAccountKeyAccount u) (delete (bu_DeleteAccountKeyAccount u))
       (st_accountKeys s))
    (st_reputation s) (votes s) (finalVotes s).

(** ** Undos and a winner, in one write *)

(** The lease a cascade's commit will find, after its undos. *)
Definition cascade_lease (h : string) (undos : list BlockUndo) (l : option Lease) : option Lease :=
  foldl (λ l u,
    let l := match bu_RestoreLease u with
             | Some r => if l_LeaseHash r =?s h then Some r else l
             | None => l end in
    if bu_DeleteLeaseHash u =?s h then None else l) l undos.

Definition CommitCascade (undos : list BlockUndo) (c : BlockCommit) (s : StoreState)
    : result StoreState :=
  check_lease ("CommitCascade: " +:+ FormatInt (zlen undos) +:+ " undo(s) + winner: ") c
    (cascade_lease (bc_ExpectLeaseHash c) undos (leases s !! bc_ExpectLeaseHash c)) ;?
  result_map_err (wrapf "CommitCascade: winner commit: ")
    (CommitBlock c (foldl (λ s u, CommitUndo u s) s undos)).

(** ** Single writes *)

Definition SaveConflict (c : Conflict) (s : StoreState) : StoreState :=
  mkStore (blocks s) (chains s) (pending s) (frontiers s)
    (<[(c_AccountAddress c, c_PreviousHash c) := c]> (conflicts s)) (staged s) (blockStatus s)
    (finalHeight s) (delegations s) (leases s) (st_keysets s) (st_accountKeys s)
    (st_reputation s) (votes s) (finalVotes s).

Definition SaveStagedBlock (b : Block) (s : StoreState) : StoreState :=
  mkStore (blocks s) (chains s) (pending s) (frontiers s) (conflicts s)
    (<[b_Hash b := b]> (staged s)) (blockStatus s)
    (finalHeight s) (delegations s) (leases s) (st_keysets s) (st_accountKeys s)
    (st_reputation s) (votes s) (finalVotes s).

Definition SetFinalHeight (account : string) (height : Z) (s : StoreState) : StoreState :=
  mkStore (blocks s) (chains s) (pending s) (frontiers s) (conflicts s) (staged s)
    (blockStatus s) (<[account := height]> (finalHeight s)) (delegations s) (leases s)
    (st_keysets s) (st_accountKeys s) (st_reputation s) (votes s) (finalVotes s).

Definition write_reputation (w : string * option ReputationAggregate) (s : StoreState) : StoreState :=
  mkStore (blocks s) (chains s) (pending s) (frontiers s) (conflicts s) (staged s)
    (blockStatus s) (finalHeight s) (delegations s) (leases s) (st_keysets s) (st_accountKeys s)
    (match w.2 with Some a => <[w.1 := a]> (st_reputation s)
     | None => delete w.1 (st_reputation s) end) (votes s) (finalVotes s).

Definition DeleteConflict (account previous : string) (s : StoreState) : StoreState :=
  mkStore (blocks s) (chains s) (pending s) (frontiers s) (delete (account, previous) (conflicts s))
    (staged s) (blockStatus s) (finalHeight s) (delegations s) (leases s) (st_keysets s)
    (st_accountKeys s) (st_reputation s) (votes s) (finalVotes s).

Definition DeleteStagedBlock (hash : string) (s : StoreState) : StoreState :=
  mkStore (blocks s) (chains s) (pending s) (frontiers s) (conflicts s) (delete hash (staged s))
    (blockStatus s) (finalHeight s) (delegations s) (leases s) (st_keysets s) (st_accountKeys s)
    (st_reputation s) (votes s) (finalVotes s).

Definition SetBlockStatus (hash : string) (st : BlockStatus) (s : StoreState) : StoreState :=
  mkStore (blocks s) (chains s) (pending s) (frontiers s) (conflicts s) (staged s)
    (<[hash := st]> (blockStatus s)) (finalHeight s) (delegations s) (leases s) (st_keysets s)
    (st_accountKeys s) (st_reputation s) (votes s) (finalVotes s).

Definition with_votes (m : gmap (string * string * string) Vote) (s : StoreState) : StoreState :=
  mkStore (blocks s) (chains s) (pending s) (frontiers s) (conflicts s) (staged s) (blockStatus s)
    (finalHeight s) (delegations s) (leases s) (st_keysets s) (st_accountKeys s) (st_reputation s)
    m (finalVotes s).
Definition PutVote (v : Vote) (s : StoreState) : StoreState :=
  with_votes (<[(v_ConflictAccount v, v_ConflictPrev v, v_RepPubKey v) := v]> (votes s)) s.
Definition DeleteVotesForConflict (account previous : string) (s : StoreState) : StoreState :=
  with_votes (filter (λ kv, kv.1.1 ≠ (account, previous)) (votes s)) s.
(** One vote per representative *)
Definition votes_for (account previous : string) (s : StoreState) : list Vote :=
  (map_to_list (filter (λ kv, kv.1.1 = (account, previous)) (votes s))).*2.

Definition PutFinalVote (account previous hash : string) (s : StoreState) : StoreState :=
  mkStore (blocks s) (chains s) (pending s) (frontiers s) (conflicts s) (staged s) (blockStatus s)
    (finalHeight s) (delegations s) (leases s) (st_keysets s) (st_accountKeys s) (st_reputation s)
    (votes s) (<[(account, previous) := hash]> (finalVotes s)).

Definition DeletePendingSend (h : string) (s : StoreState) : StoreState :=
  mkStore (blocks s) (chains s) (delete h (pending s)) (frontiers s) (conflicts s) (staged s)
    (blockStatus s) (finalHeight s) (delegations s) (leases s) (st_keysets s) (st_accountKeys s) (st_reputation s) (votes s)
    (finalVotes s).

Definition PutLease (l : Lease) (s : StoreState) : StoreState :=
  mkStore (blocks s) (chains s) (pending s) (frontiers s) (conflicts s) (staged s)
    (blockStatus s) (finalHeight s) (delegations s) (<[l_LeaseHash l := l]> (leases s)) (st_keysets s) (st_accountKeys s)
    (st_reputation s) (votes s) (finalVotes s).

(** [GetConflictsForAccount] *)
Definition conflicts_for (account : string) (s : StoreState) : list Conflict :=
  (map_to_list (filter (λ kv, kv.1.1 = account) (conflicts s))).*2.
