(* ===== verification/Ledger.v ===== *)
(** * The ledger: state, overlay, delegation and the block write

    [core/ledger.go] (the [Ledger] struct and the operations every handler
    shares) and [core/cascade_commit.go] (the overlay of a conflict promotion).

    Operations run in the monad [M Ledger]: a failed call keeps the state it
    reached.  Account and lease locks serialise calls that touch the same
    account or lease; a run of the model is one order in which calls finish. *)
From S2P Require Import Prelude GoLib Types LeaseMath Reputation Store.

(** ** The environment of a call *)

Record EpochParams := mkEpochParams { ep_R : Z; ep_PayoutCap : Z; ep_TWAP : Z }.

Record RepresentativeConfig := mkRepresentativeConfig {
  rc_Mode : string; rc_Addresses : list string }.

(** The store calls that can fail (an on-disk store returns I/O errors). *)
Inductive StoreCall :=
| CGetBlock (hash : string)
| CGetAccountChain (account : string)
| CGetPendingSend (hash : string)
| CGetLease (hash : string)
| CIsEmpty
| CGetConflict (account previous : string)
| CGetConflictsForAccount (account : string)
| CSaveConflict (account previous : string)
| CGetStagedBlock (hash : string)
| CSaveStagedBlock (hash : string)
| CGetFinalHeight (account : string)
| CSetFinalHeight (account : string)
| CDeleteStagedBlock (hash : string)
| CDeleteConflict (account previous : string)
| CGetAllConflicts
| CGetBlockStatus (hash : string)
| CSetBlockStatus (hash : string)
| CGetVote (account previous rep : string)
| CPutVote (account previous rep : string)
| CGetVotesByConflict (account previous : string)
| CDeleteVotesForConflict (account previous : string)
| CGetFinalVote (account previous : string)
| CPutFinalVote (account previous : string)
| CIterateDelegations
| CGetAllLeases
| CGetPendingByDest (account : string)
| CGetLeasesByProvider (account : string)
| CGetLeasesByState (st : LeaseState)
| CDeletePendingSend (hash : string)
| CPutLease (hash : string)
| CCommitBlock (hash : string)
| CCommitUndo (account : string)
| CCommitCascade (hash : string)
| CReputation (account : string).

(** [LedgerConfig], the package variables, the clock and the store's faults,
    all fixed during one call.  A [nil] function is [None]; a function that
    returns a [nil] pointer returns [None]. *)
Record Env := mkEnv {
  difficulty : Z;
  timestampWindow : Z;
  networkID : string;
  Now : Z;
  timing : LeaseTiming;
  timekeeperConfigFn : option (option TimekeeperConfig);
  minterConfigFn : option (option (list string));
  certificateLookupFn : option (string → option CertificateInfo);
  epochAtFn : option (Z → list EpochParams);
  featureActiveFn : option (string → bool);
  representativeConfigFn : option (option RepresentativeConfig);
  (* the genesis document, decoded *)
  genesisDocument : result Block;
  conflictCallback : bool;
  blockAddedCallback : bool;
  (* [TryLock] on an account's mutex would fail *)
  accountBusy : string → bool;
  fault : StoreCall → option error }.

(** ** The state *)

(** The closure [buildBlockUndo] returns, as the values it captured. *)
Record memApply := mkMemApply {
  ma_account : string;
  ma_asset : string;
  ma_parentBal : Z;
  ma_deleteAccount : bool;
  ma_deleteKeysetAccount : string;
  ma_deleteAccountKeyAccount : string;
  ma_assetDebit : option AssetDelta;
  ma_xeBefore : Z;
  ma_xeAfter : Z;
  ma_prevRep : string;
  ma_repRevert : option ReputationEvent }.

Record cascadeBuild := mkCascade {
  cb_winnerHash : string;
  cb_undos : list BlockUndo;
  cb_memApplies : list memApply;
  cb_chains : gmap string AccountChain;
  cb_addPending : gmap string PendingSend;
  cb_delPending : gset string;
  cb_restoreLease : gmap string Lease;
  cb_deleteLease : gset string;
  cb_deleteKeyset : gset string;
  cb_delegation : gmap string string }.

(** Notifications handed to the callbacks, newest last *)
Inductive LedgerEvent :=
| EvConflict (c : Conflict)
| EvBlockAdded (b : Block).

Record Ledger := mkLedger {
  store : StoreState;
  delegation : gmap string string;
  weights : gmap string Z;
  failedOpen : bool;
  assetBalances : gmap string (gmap string Z);
  blockCount : Z;
  delegationUnderflow : Z;
  keysets : gmap string Keyset;
  accountKeys : gmap string string;
  reputation : gmap string ReputationAggregate;
  activeCascade : option cascadeBuild;
  events : list LedgerEvent }.

Definition with_store (s : StoreState) (L : Ledger) : Ledger :=
  mkLedger s (delegation L) (weights L) (failedOpen L) (assetBalances L) (blockCount L)
    (delegationUnderflow L) (keysets L) (accountKeys L) (reputation L) (activeCascade L) (events L).
Definition with_delegation (d : gmap string string) (w : gmap string Z) (n : Z) (L : Ledger) : Ledger :=
  mkLedger (store L) d w (failedOpen L) (assetBalances L) (blockCount L) n (keysets L)
    (accountKeys L) (reputation L) (activeCascade L) (events L).
Definition with_failedOpen (f : bool) (L : Ledger) : Ledger :=
  mkLedger (store L) (delegation L) (weights L) f (assetBalances L) (blockCount L)
    (delegationUnderflow L) (keysets L) (accountKeys L) (reputation L) (activeCascade L) (events L).
Definition with_balances (m : gmap string (gmap string Z)) (L : Ledger) : Ledger :=
  mkLedger (store L) (delegation L) (weights L) (failedOpen L) m (blockCount L)
    (delegationUnderflow L) (keysets L) (accountKeys L) (reputation L) (activeCascade L) (events L).
Definition with_blockCount (n : Z) (L : Ledger) : Ledger :=
  mkLedger (store L) (delegation L) (weights L) (failedOpen L) (assetBalances L) n
    (delegationUnderflow L) (keysets L) (accountKeys L) (reputation L) (activeCascade L) (events L).
Definition with_keysets (k : gmap string Keyset) (L : Ledger) : Ledger :=
  mkLedger (store L) (delegation L) (weights L) (failedOpen L) (assetBalances L) (blockCount L)
    (delegationUnderflow L) k (accountKeys L) (reputation L) (activeCascade L) (events L).
Definition with_accountKeys (k : gmap string string) (L : Ledger) : Ledger :=
  mkLedger (store L) (delegation L) (weights L) (failedOpen L) (assetBalances L) (blockCount L)
    (delegationUnderflow L) (keysets L) k (reputation L) (activeCascade L) (events L).
Definition with_reputation (r : gmap string ReputationAggregate) (L : Ledger) : Ledger :=
  mkLedger (store L) (delegation L) (weights L) (failedOpen L) (assetBalances L) (blockCount L)
    (delegationUnderflow L) (keysets L) (accountKeys L) r (activeCascade L) (events L).
Definition with_cascade (c : option cascadeBuild) (L : Ledger) : Ledger :=
  mkLedger (store L) (delegation L) (weights L) (failedOpen L) (assetBalances L) (blockCount L)
    (delegationUnderflow L) (keysets L) (accountKeys L) (reputation L) c (events L).
Definition with_event (ev : LedgerEvent) (L : Ledger) : Ledger :=
  mkLedger (store L) (delegation L) (weights L) (failedOpen L) (assetBalances L) (blockCount L)
    (delegationUnderflow L) (keysets L) (accountKeys L) (reputation L) (activeCascade L)
    (events L ++ [ev]).

Notation LM := (M Ledger).

Section ledger.
Context (e : Env).

(** ** Store access *)

(** A read that may fail *)
Definition sread {A} (c : StoreCall) (f : StoreState → A) : LM A :=
  λ L, match fault e c with
       | Some err => (Err err, L)
       | None => (Ok (f (store L)), L)
       end.
(** A write that may fail and then changes nothing *)
Definition swrite (c : StoreCall) (f : StoreState → result StoreState) : LM unit :=
  λ L, match fault e c with
       | Some err => (Err err, L)
       | None => match f (store L) with
                 | Ok s => (Ok (), with_store s L)
                 | Err err => (Err err, L)
                 end
       end.
(** [v, _ := read()]: an error reads as the zero value *)
Definition mor {S A} (d : A) (m : M S A) : M S A := mtry m (λ r, mret_ (match r with Ok a => a | Err _ => d end)).

Definition GetBlock (h : string) : LM (option Block) := sread (CGetBlock h) (λ s, blocks s !! h).
Definition GetAccountChain (a : string) : LM (option AccountChain) :=
  sread (CGetAccountChain a) (λ s, chains s !! a).
Definition GetPendingSend (h : string) : LM (option PendingSend) :=
  sread (CGetPendingSend h) (λ s, pending s !! h).
Definition GetLease (h : string) : LM (option Lease) := sread (CGetLease h) (λ s, leases s !! h).

Definition norm_asset (a : string) : string := if a =?s "" then "XE" else a.

(** ** Balances *)

Definition getAssetBalance (L : Ledger) (account asset : string) : Z :=
  match assetBalances L !! account with
  | Some m => default 0 (m !! asset)
  | None => 0
  end.

Definition set_balance (account asset : string) (v : Z) (m : gmap string (gmap string Z)) :=
  <[account := <[asset := v]> (default ∅ (m !! account))]> m.

Definition setAssetBalance (account asset : string) (balance : Z) (L : Ledger) : Ledger :=
  with_balances (set_balance account asset balance (assetBalances L)) L.

Definition addAssetBalance (account asset : string) (delta : Z) (L : Ledger) : Ledger :=
  with_balances (set_balance account asset (u64_add (getAssetBalance L account asset) delta)
                   (assetBalances L)) L.

Definition subAssetBalance (account asset : string) (delta : Z) (L : Ledger) : Ledger :=
  match assetBalances L !! account with
  | None => L
  | Some m =>
      let cur := default 0 (m !! asset) in
      with_balances (set_balance account asset (if cur <=? delta then 0 else cur - delta)
                       (assetBalances L)) L
  end.

Definition deleteAccountBalances (account : string) (L : Ledger) : Ledger :=
  with_balances (delete account (assetBalances L)) L.

(** The last balance a chain states for an asset *)
Definition assetBalanceOnChain (chain : option AccountChain) (asset : string) : Z :=
  foldl (λ bal b, if norm_asset (b_Asset b) =?s asset then b_Balance b else bal) 0 (default [] chain).

(** The same for XUSD, crediting the stake a settled lease returns. *)
Definition xusd_step (ls : string → option Lease) (bal : Z) (b : Block) : Z :=
  let bal := if norm_asset (b_Asset b) =?s "XUSD" then b_Balance b else bal in
  if b_Type b =?s BlockLeaseSettle then
    match ls (b_Source b) with Some l => u64_add bal (l_Stake l) | None => bal end
  else bal.
(** [GetLease] with errors read as absent *)
Definition lease_or_none (s : StoreState) (h : string) : option Lease :=
  match fault e (CGetLease h) with Some _ => None | None => leases s !! h end.
Definition xusdBalanceOnChain (s : StoreState) (chain : option AccountChain) : Z :=
  foldl (xusd_step (lease_or_none s)) 0 (default [] chain).

(** ** Reputation, keys and keysets *)

Definition write_rep (s : StoreState) (w : string * option ReputationAggregate) : StoreState :=
  match fault e (CReputation w.1) with
  | Some _ => s  (* logged *)
  | None => write_reputation w s
  end.

Definition rep_apply (ev : ReputationEvent) (L : Ledger) : Ledger :=
  let r := ReputationApply ev (reputation L) in
  with_store (foldl write_rep (store L) (apply_writes ev r)) (with_reputation r L).

Definition rep_revert (ev : ReputationEvent) (L : Ledger) : Ledger :=
  let r := ReputationRevert ev (reputation L) in
  with_store (foldl write_rep (store L) (revert_writes ev (reputation L) r)) (with_reputation r L).

Definition setKeyset (account : string) (ks : Keyset) (L : Ledger) : Ledger :=
  with_keysets (<[account := ks]> (keysets L)) L.

Definition setAccountKey (account pubKey : string) (L : Ledger) : Ledger :=
  with_accountKeys (<[account := pubKey]> (accountKeys L)) L.

(** ** Representatives *)

Definition RepModeAllowlist : string := "allowlist".

(** [RepresentativeConfig.allowlist]: [None] is the nil map *)
Definition allowlist (c : option RepresentativeConfig) : option (gset string) :=
  match c with
  | None => None
  | Some c =>
      if negb (rc_Mode c =?s RepModeAllowlist) || (rc_Addresses c =?s []) then None
      else
        let set : gset string := list_to_set (filter (λ a, a ≠ ""%string) (rc_Addresses c)) in
        if set =?s ∅ then None else Some set
  end.

(** The parsed allowlist is cached per configuration pointer; the cache does
    not show in the result. *)
Definition configuredAllowlist : option (gset string) :=
  match representativeConfigFn e with None => None | Some c => allowlist c end.

Definition has_weight (w : gmap string Z) (rep : string) : bool :=
  match w !! rep with Some z => 0 <? z | None => false end.

(** [eligibleAllowlistLocked]: the effective allowlist, and whether a
    configured one is being ignored because it matches no weight *)
Definition eligibleAllowlist (w : gmap string Z) : option (gset string) * bool :=
  match configuredAllowlist with
  | None => (None, false)
  | Some set =>
      if existsb (has_weight w) (elements set) then (Some set, false)
      else (None, existsb (λ kv, 0 <? kv.2) (map_to_list w))
  end.

Definition repEligible (set : option (gset string)) (rep : string) : bool :=
  match set with None => true | Some set => bool_decide (rep ∈ set) end.

Definition snapshotWeights : LM (gmap string Z) := λ L,
  let '(set, open) := eligibleAllowlist (weights L) in
  (Ok ((λ w, if w <=? max_u64 then w else max_u64) <$>
        filter (λ kv, 0 < kv.2 ∧ repEligible set kv.1 = true) (weights L)),
   with_failedOpen open L).

(** ** The overlay of a conflict promotion *)

Definition getAccountChainOverlay (account : string) : LM (option AccountChain) := λ L,
  match activeCascade L with
  | Some cb => match cb_chains cb !! account with
               | Some ch => (Ok (Some ch), L)
               | None => GetAccountChain account L
               end
  | None => GetAccountChain account L
  end.

Definition getPendingSendOverlay (h : string) : LM (option PendingSend) := λ L,
  match activeCascade L with
  | Some cb => match cb_addPending cb !! h with
               | Some ps => (Ok (Some ps), L)
               | None => if bool_decide (h ∈ cb_delPending cb) then (Ok None, L)
                         else GetPendingSend h L
               end
  | None => GetPendingSend h L
  end.

(** Both stores implement [LeaseStore], so the [ok] result is always true. *)
Definition getLeaseOverlay (h : string) : LM (option Lease) := λ L,
  match activeCascade L with
  | Some cb => match cb_restoreLease cb !! h with
               | Some l => (Ok (Some l), L)
               | None => if bool_decide (h ∈ cb_deleteLease cb) then (Ok None, L)
                         else GetLease h L
               end
  | None => GetLease h L
  end.

Definition getKeysetOverlay (L : Ledger) (account : string) : option Keyset :=
  match activeCascade L with
  | Some cb => if bool_decide (account ∈ cb_deleteKeyset cb) then None else keysets L !! account
  | None => keysets L !! account
  end.

Definition getAssetBalanceOverlay (L : Ledger) (account asset : string) : Z :=
  match activeCascade L with
  | Some cb => match cb_chains cb !! account with
               | Some ch =>
                   let asset := norm_asset asset in
                   if asset =?s "XUSD" then xusdBalanceOnChain (store L) (Some ch)
                   else assetBalanceOnChain (Some ch) asset
               | None => getAssetBalance L account asset
               end
  | None => getAssetBalance L account asset
  end.

Definition overlayDelegationRep (L : Ledger) (account : string) : option string :=
  match activeCascade L with
  | Some cb => cb_delegation cb !! account
  | None => None
  end.

Definition newCascadeBuild (winnerHash : string) : cascadeBuild :=
  mkCascade winnerHash [] [] ∅ ∅ ∅ ∅ ∅ ∅ ∅.

Definition addUndo (cb : cascadeBuild) (u : BlockUndo) (a : memApply) : cascadeBuild :=
  let '(addP, delP) :=
    match bu_AddPending u with
    | Some ps => (<[ps_SendHash ps := ps]> (cb_addPending cb), cb_delPending cb ∖ {[ps_SendHash ps]})
    | None => (cb_addPending cb, cb_delPending cb)
    end in
  let '(addP, delP) :=
    if bu_DeletePendingID u =?s "" then (addP, delP)
    else (delete (bu_DeletePendingID u) addP, {[bu_DeletePendingID u]} ∪ delP) in
  let '(resL, delL) :=
    match bu_RestoreLease u with
    | Some l => (<[l_LeaseHash l := l]> (cb_restoreLease cb), cb_deleteLease cb ∖ {[l_LeaseHash l]})
    | None => (cb_restoreLease cb, cb_deleteLease cb)
    end in
  let '(resL, delL) :=
    if bu_DeleteLeaseHash u =?s "" then (resL, delL)
    else (delete (bu_DeleteLeaseHash u) resL, {[bu_DeleteLeaseHash u]} ∪ delL) in
  mkCascade (cb_winnerHash cb) (cb_undos cb ++ [u]) (cb_memApplies cb ++ [a])
    (<[bu_Account u := bu_Chain u]> (cb_chains cb)) addP delP resL delL
    (when_id (bu_DeleteKeysetAccount u) (union {[bu_DeleteKeysetAccount u]}) (cb_deleteKeyset cb))
    (if bu_RestoreDelegation u then <[bu_Account u := bu_PrevRep u]> (cb_delegation cb)
     else cb_delegation cb).

Definition activateCascade (cb : cascadeBuild) : LM unit := λ L,
  match activeCascade L with
  | Some c => (Err (errorf ("activateCascade: a conflict promotion is already in progress (winner "
                +:+ shortHash (cb_winnerHash c) +:+ ") — promotions must be serialized")), L)
  | None => (Ok (), with_cascade (Some cb) L)
  end.

Definition deactivateCascade (L : Ledger) : Ledger := with_cascade None L.

(** ** Delegation *)

Definition get_str (m : gmap string string) (k : string) : string := default "" (m !! k).

(** [weights[rep]], a missing or nil entry reading as zero *)
Definition get_weight (w : gmap string Z) (rep : string) : Z := default 0 (w !! rep).

Definition updateDelegation (account : string) (prevBalance : Z) (b : Block) (L : Ledger) : Ledger :=
  let newXEBal := getAssetBalance L account "XE" in
  let prevXEBal := if norm_asset (b_Asset b) =?s "XE" then prevBalance else newXEBal in
  let oldRep := get_str (delegation L) account in
  let effectiveRep := if b_Representative b =?s "" then oldRep else b_Representative b in
  let '(w, under) :=
    if oldRep =?s "" then (weights L, delegationUnderflow L)
    else
      let v := get_weight (weights L) oldRep - prevXEBal in
      if v <? 0 then (<[oldRep := 0]> (weights L), u64_add (delegationUnderflow L) 1)
      else (<[oldRep := v]> (weights L), delegationUnderflow L) in
  let d := if effectiveRep =?s "" then delete account (delegation L)
           else <[account := effectiveRep]> (delegation L) in
  let w := if effectiveRep =?s "" then w
           else <[effectiveRep := get_weight w effectiveRep + newXEBal]> w in
  with_delegation d w under L.

(** ** Undoing a block in memory: the closure of [buildBlockUndo] *)

Definition undo_delegation (a : memApply) (L : Ledger) : Ledger :=
  let account := ma_account a in
  let curRep := get_str (delegation L) account in
  let w := match weights L !! curRep with
           | Some z => if curRep =?s "" then weights L
                       else <[curRep := if z - ma_xeBefore a <? 0 then 0 else z - ma_xeBefore a]>
                              (weights L)
           | None => weights L
           end in
  let w := if ma_prevRep a =?s "" then w
           else <[ma_prevRep a := get_weight w (ma_prevRep a) + ma_xeAfter a]> w in
  let d := if ma_prevRep a =?s "" then delete account (delegation L)
           else <[account := ma_prevRep a]> (delegation L) in
  with_delegation d w (delegationUnderflow L) L.

Definition run_apply (a : memApply) (L : Ledger) : Ledger :=
  let L := if ma_deleteKeysetAccount a =?s "" then L
           else with_keysets (delete (ma_deleteKeysetAccount a) (keysets L)) L in
  let L := if ma_deleteAccountKeyAccount a =?s "" then L
           else with_accountKeys (delete (ma_deleteAccountKeyAccount a) (accountKeys L)) L in
  let L := if ma_deleteAccount a then deleteAccountBalances (ma_account a) L
           else setAssetBalance (ma_account a) (ma_asset a) (ma_parentBal a) L in
  let L := match ma_assetDebit a with
           | Some d => subAssetBalance (ad_Account d) (ad_Asset d) (ad_Amount d) L
           | None => L end in
  let L := undo_delegation a L in
  match ma_repRevert a with Some ev => rep_revert ev L | None => L end.

(** ** Writing a block *)

Definition err_chain : error → error := wrapf "GetAccountChain: ".

Definition prepareBlockWrite (b : Block) : LM (BlockCommit * Z) :=
  let! chain := mwrap err_chain (getAccountChainOverlay (b_Account b)) in
  let! prevBalance := mgets (λ L, getAssetBalanceOverlay L (b_Account b) "XE") in
  let chain := default [] chain ++ [b] in
  mret_ (mkBlockCommit b (b_Account b) chain (b_Hash b) None "" None "" "" "" "" false None
           (b_PubKey b) "" LeaseStateEmpty None "" 0 0, prevBalance).

(** [c] with its delegation fields filled in *)
Definition with_rep (rep : string) (c : BlockCommit) : BlockCommit :=
  mkBlockCommit (bc_Block c) (bc_Account c) (bc_Chain c) (bc_FrontierHash c) (bc_AddPending c)
    (bc_DeletePendingID c) (bc_PutLease c) (bc_SettleLeaseHash c) (bc_CancelLeaseHash c)
    (bc_UnfulfillLeaseHash c) (if rep =?s "" then bc_DelegationRep c else rep)
    (if rep =?s "" then true else bc_DeleteDelegation c) (bc_PutKeyset c)
    (bc_PutAccountKey c) (bc_ExpectLeaseHash c) (bc_ExpectLeaseState c) (bc_AssetCredit c)
    (bc_TopUpPendingID c) (bc_TopUpPendingAmount c) (bc_ExpectLeaseEffectiveDurationSecs c).

(** The in-memory effects that follow the store write, in order *)
Definition after_commit (c : BlockCommit) (prevBalance : Z) (L : Ledger) : Ledger :=
  let L := with_blockCount (i64_add (blockCount L) 1) L in
  let L := setAssetBalance (bc_Account c) (norm_asset (b_Asset (bc_Block c)))
             (b_Balance (bc_Block c)) L in
  let L := if bc_PutAccountKey c =?s "" then L
           else setAccountKey (bc_Account c) (bc_PutAccountKey c) L in
  let L := match bc_AssetCredit c with
           | Some d => addAssetBalance (ad_Account d) (ad_Asset d) (ad_Amount d) L
           | None => L end in
  updateDelegation (bc_Account c) prevBalance (bc_Block c) L.

Definition commitBlockWrite (c : BlockCommit) (prevBalance : Z) : LM unit :=
  let! oldRep := mgets (λ L, match overlayDelegationRep L (bc_Account c) with
                             | Some r => r
                             | None => get_str (delegation L) (bc_Account c) end) in
  let rep := b_Representative (bc_Block c) in
  let c := with_rep (if rep =?s "" then oldRep else rep) c in
  let! cascade := mgets activeCascade in
  match cascade with
  | Some cb =>
      if cb_winnerHash cb =?s b_Hash (bc_Block c) then
        mwrap (wrapf "CommitCascade: ")
          (swrite (CCommitCascade (b_Hash (bc_Block c))) (CommitCascade (cb_undos cb) c)) ;!
        mmodify (λ L, deactivateCascade (foldl (λ L a, run_apply a L) L (cb_memApplies cb))) ;!
        mmodify (after_commit c prevBalance)
      else
        mwrap (wrapf "CommitBlock: ")
          (swrite (CCommitBlock (b_Hash (bc_Block c))) (CommitBlock c)) ;!
        mmodify (after_commit c prevBalance)
  | None =>
      mwrap (wrapf "CommitBlock: ")
        (swrite (CCommitBlock (b_Hash (bc_Block c))) (CommitBlock c)) ;!
      mmodify (after_commit c prevBalance)
  end.

Definition addBlockLocked (b : Block) : LM unit :=
  let! (c, prevBalance) := prepareBlockWrite b in
  commitBlockWrite c prevBalance.

(** ** Heights *)

Fixpoint index_of (h : string) (i : Z) (c : AccountChain) : option Z :=
  match c with
  | [] => None
  | b :: c => if b_Hash b =?s h then Some i else index_of h (i + 1) c
  end.

Definition GetBlockHeight (account blockHash : string) : LM Z :=
  let! chain := mwrap (wrapf "GetBlockHeight: GetAccountChain: ") (GetAccountChain account) in
  match chain with
  | None => mfail (errorf ("GetBlockHeight: account " +:+ shortAddr account +:+ " not found"))
  | Some c =>
      match index_of blockHash 1 c with
      | Some h => mret_ h
      | None => mfail (errorf ("GetBlockHeight: block " +:+ shortHash blockHash
                               +:+ " not found in account " +:+ shortAddr account))
      end
  end.

Definition FinalHeight (account : string) : LM Z :=
  mor 0 (sread (CGetFinalHeight account) (λ s, default 0 (finalHeight s !! account))).

Definition IsFinalized (account blockHash : string) : LM bool :=
  mtry (GetBlockHeight account blockHash) (λ r,
    match r with
    | Err _ => mret_ false
    | Ok h => if h =? 0 then mret_ false
              else let! fh := FinalHeight account in mret_ (h <=? fh)
    end).

(** [Ledger.GetBlock], [GetBlockOrStaged] and [GetConflict]: errors read as
    absent *)
Definition LGetBlock (h : string) : LM (option Block) := mor None (GetBlock h).
Definition GetBlockOrStaged (h : string) : LM (option Block) :=
  let! b := LGetBlock h in
  match b with
  | Some b => mret_ (Some b)
  | None => mor None (sread (CGetStagedBlock h) (λ s, staged s !! h))
  end.
Definition LGetConflict (account previous : string) : LM (option Conflict) :=
  mor None (sread (CGetConflict account previous) (λ s, conflicts s !! (account, previous))).

End ledger.
