(* ===== verification/Rollback.v ===== *)
(** * Undoing a block: [core/rollback.go] *)
From S2P Require Import Prelude GoLib Types LeaseMath Reputation Store Ledger.

Section rollback.
Context (e : Env).

Definition restored_created (l : Lease) : Lease :=
  mkLease (l_LeaseHash l) LeaseCreated (l_Consumer l) (l_Provider l) (l_VCPUs l) (l_MemoryMB l)
    (l_DiskGB l) (l_Duration l) (l_AccessPubKey l) (l_Cost l) 0 0 (l_CertificateHash l) false
    0 0 0 (l_Renewals l).

Definition priorLease (leaseHash : string) (target : LeaseState) : LM (option Lease) :=
  let! cur := mor None (GetLease e leaseHash) in
  mret_ (match cur with
         | None => None
         | Some l => Some (if target =?s LeaseCreated then restored_created l
                           else lease_with_state target false l)
         end).

Definition escrow_amount (lb : Block) (lease : option Lease) : Z :=
  match lease with
  | Some l => fold_left (λ a s, u64_add a (seg_Cost s)) (l_Renewals l) (b_Amount lb)
  | None => b_Amount lb
  end.

Definition escrowPendingOf (leaseHash : string) : LM (option PendingSend) :=
  let! lb := LGetBlock e leaseHash in
  match lb with
  | None => mret_ None
  | Some lb =>
      if negb (b_Type lb =?s BlockLease) then mret_ None
      else
        let! lease := mor None (GetLease e leaseHash) in
        mret_ (Some (mkPendingSend (b_Hash lb) (b_Account lb) (b_Destination lb)
                       (escrow_amount lb lease) "XUSD"))
  end.

Definition priorLeasePopRenewal (leaseHash : string) : LM (option Lease) :=
  let! cur := mor None (GetLease e leaseHash) in
  mret_ (match cur with
         | None => None
         | Some l => if l_Renewals l =?s [] then None
                     else Some (lease_with_renewals (removelast (l_Renewals l)) l)
         end).

(** The latest non-empty representative on a chain *)
Definition chain_rep (c : AccountChain) : string :=
  foldl (λ r b, if b_Representative b =?s "" then r else b_Representative b) "" c.

(** What the [switch] on the type of the undone block computes *)
Record UndoParts := mkUndoParts {
  up_deletePendingID : string;
  up_addPending : option PendingSend;
  up_deleteLeaseHash : string;
  up_deleteKeysetAccount : string;
  up_reducePendingID : string;
  up_reducePendingAmount : Z;
  up_restoreLease : option Lease;
  up_assetDebit : option AssetDelta }.

Definition no_parts : UndoParts := mkUndoParts "" None "" "" "" 0 None None.

Definition undo_parts (b : Block) : LM UndoParts :=
  match b_Type b with
  | BlockSend => mret_ (mkUndoParts (b_Hash b) None "" "" "" 0 None None)
  | BlockReceive =>
      let! src := LGetBlock e (b_Source b) in
      mret_ (mkUndoParts "" (match src with
        | Some src =>
            if b_Type src =?s BlockSend then
              Some (mkPendingSend (b_Hash src) (b_Account src) (b_Destination src) (b_Amount src)
                      (norm_asset (b_Asset src)))
            else None
        | None => None end) "" "" "" 0 None None)
  | BlockLease => mret_ (mkUndoParts (b_Hash b) None (b_Hash b) "" "" 0 None None)
  | BlockLeaseAccept =>
      let! r := priorLease (b_Source b) LeaseCreated in
      mret_ (mkUndoParts "" None "" "" "" 0 r None)
  | BlockLeaseSettle =>
      let! r := priorLease (b_Source b) LeaseAccepted in
      let! p := escrowPendingOf (b_Source b) in
      mret_ (mkUndoParts "" p "" "" "" 0 r
        (match r with Some l => Some (mkAssetDelta (b_Account b) "XUSD" (l_Stake l))
         | None => None end))
  | BlockLeaseForceSettle =>
      let! r := priorLease (b_Source b) LeaseAccepted in
      let! p := escrowPendingOf (b_Source b) in
      mret_ (mkUndoParts "" p "" "" "" 0 r None)
  | BlockLeaseCancel =>
      let! r := priorLease (b_Source b) LeaseCreated in
      let! p := escrowPendingOf (b_Source b) in
      mret_ (mkUndoParts "" p "" "" "" 0 r None)
  | BlockLeaseRenew =>
      let! r := priorLeasePopRenewal (b_Source b) in
      mret_ (mkUndoParts "" None "" "" (b_Source b) (b_Amount b) r None)
  | BlockMultisigOpen => mret_ (mkUndoParts "" None "" (b_Account b) "" 0 None None)
  | BlockMultisigUpdate =>
      mfail (errorf ("undo: reversing a multisig_update is not supported (prior keyset unrecoverable): "
                     +:+ shortHash (b_Hash b)))
  | _ => mret_ no_parts
  end.

Definition restores_lease (t : BlockType) : bool :=
  match t with
  | BlockLeaseAccept | BlockLeaseSettle | BlockLeaseForceSettle | BlockLeaseCancel
  | BlockLeaseRenew => true
  | _ => false
  end.

Definition rep_revert_of (t : BlockType) (r : option Lease) : option ReputationEvent :=
  match r with
  | None => None
  | Some l =>
      match t with
      | BlockLeaseAccept => Some (mkReputationEvent EventLeaseAccepted (l_Provider l) (l_Consumer l) 0 0)
      | BlockLeaseSettle =>
          Some (mkReputationEvent EventLeaseSettled (l_Provider l) (l_Consumer l) 0 (l_Duration l))
      | BlockLeaseForceSettle =>
          Some (mkReputationEvent EventLeaseUnfulfilled (l_Provider l) (l_Consumer l) 0 0)
      | BlockLeaseCancel =>
          Some (mkReputationEvent EventLeaseCancelled (l_Provider l) (l_Consumer l) 0 0)
      | _ => None
      end
  end.

Definition is_frontier (b : Block) (chain : option AccountChain) : bool :=
  match last (default [] chain) with
  | Some f => b_Hash f =?s b_Hash b
  | None => false
  end.

Definition buildBlockUndo (account : string) (b : Block) (chain : option AccountChain)
    : LM (BlockUndo * memApply) :=
  mfail_if (negb (is_frontier b chain))
    (errorf ("cascade apply: " +:+ shortHash (b_Hash b) +:+ " is not the frontier of "
             +:+ shortAddr account +:+ " (chain changed under the cascade)")) ;!
  let chain := default [] chain in
  let asset := norm_asset (b_Asset b) in
  let! p := undo_parts b in
  mfail_if (restores_lease (b_Type b) && bool_decide (up_restoreLease p = None))
    (errorf ("undo: lease " +:+ shortHash (b_Source b) +:+ " not found while reversing "
             +:+ BlockType_string (b_Type b))) ;!
  let repRevert := rep_revert_of (b_Type b) (up_restoreLease p) in
  let newChain := removelast chain in
  let newFrontier := Frontier newChain in
  let xeBefore := assetBalanceOnChain (Some chain) "XE" in
  let! s := mgets store in
  let parentBal :=
    if b_Previous b =?s "0" then 0
    else if asset =?s "XUSD" then xusdBalanceOnChain e s (Some newChain)
    else assetBalanceOnChain (Some newChain) asset in
  let xeAfter := assetBalanceOnChain (Some newChain) "XE" in
  let prevRep := chain_rep newChain in
  let deleteAccount := bool_decide (newChain = []) in
  let deleteAccountKeyAccount := if b_PubKey b =?s "" then ""%string else b_Account b in
  mret_ (mkBlockUndo account newChain newFrontier (up_addPending p) (up_deletePendingID p)
           (b_Hash b) deleteAccount true prevRep (up_restoreLease p) (up_deleteLeaseHash p)
           (up_deleteKeysetAccount p) deleteAccountKeyAccount (up_assetDebit p)
           (up_reducePendingID p) (up_reducePendingAmount p),
         mkMemApply account asset parentBal deleteAccount (up_deleteKeysetAccount p)
           deleteAccountKeyAccount (up_assetDebit p) xeBefore xeAfter prevRep repRevert).

Definition undoBlockApply (account : string) (b : Block) : LM unit :=
  let! chain := GetAccountChain e account in
  let! (undo, apply) := buildBlockUndo account b chain in
  swrite e (CCommitUndo account) (λ s, Ok (CommitUndo undo s)) ;!
  mmodify (run_apply e apply).

End rollback.
