(* ===== verification/Handlers.v ===== *)
(** * Adding a block: the handlers of [core/ledger.go], [core/mint.go] and
    [core/lease_renew.go]

    One definition per block type, with every check in the order of the source
    and the commit it builds, and [addBlock], which authenticates a block,
    detects conflicts and dispatches. *)
From S2P Require Import Prelude GoLib Types Encoding LeaseMath Crypto Multisig Attestation Genesis Reputation Store Ledger Rollback.

(** [c] with the effects of a block type filled in *)
Definition fill (c : BlockCommit) (addPending : option PendingSend) (deletePending : string)
    (putLease : option Lease) (settle cancel unfulfill : string) (putKeyset : option Keyset)
    (expectHash : string) (expectState : LeaseState) (credit : option AssetDelta)
    (topUpID : string) (topUpAmount expectDuration : Z) : BlockCommit :=
  mkBlockCommit (bc_Block c) (bc_Account c) (bc_Chain c) (bc_FrontierHash c) addPending
    deletePending putLease settle cancel unfulfill (bc_DelegationRep c) (bc_DeleteDelegation c)
    putKeyset (bc_PutAccountKey c) expectHash expectState credit topUpID topUpAmount expectDuration.

Section handlers.
Context `{C : Crypto} (e : Env).

(** ** Checks the handlers share *)

(** The chain of an account that must be open *)
Definition open_chain (account : string) (unopened : error) : LM AccountChain :=
  let! chain := mwrap err_chain (getAccountChainOverlay e account) in
  match chain with
  | None => mfail unopened
  | Some c => mret_ c
  end.

Definition check_previous (chain : AccountChain) (b : Block) : result unit :=
  rfail_if (negb (b_Previous b =?s Frontier chain))
    (errorf ("previous mismatch: got " +:+ shortHash (b_Previous b) +:+ ", want "
             +:+ shortHash (Frontier chain))).

Definition check_timestamp (chain : AccountChain) (b : Block) : result unit :=
  match last chain with
  | None => Ok ()
  | Some p =>
      rfail_if (b_Timestamp b <? b_Timestamp p)
        (errorf ("block timestamp " +:+ FormatInt (b_Timestamp b)
                 +:+ " is before previous block timestamp " +:+ FormatInt (b_Timestamp p)))
  end.

Definition check_link (chain : AccountChain) (b : Block) : result unit :=
  check_previous chain b ;? check_timestamp chain b.

Definition balance_mismatch (pre : string) (expected got : Z) : error :=
  errorf (pre +:+ "balance mismatch: expected " +:+ FormatUint expected +:+ ", got " +:+ FormatUint got).

Definition old_balance (account asset : string) : LM Z :=
  mgets (λ L, getAssetBalanceOverlay e L account asset).

(** ** Transfers *)

Definition validateAndAddSend (b : Block) : LM unit :=
  let! chain := open_chain (b_Account b)
    (errorf ("send from unopened account: " +:+ shortAddr (b_Account b))) in
  mlift (check_link chain b) ;!
  let! oldBal := old_balance (b_Account b) (b_Asset b) in
  mfail_if (b_Amount b =? 0) (errorf "send amount must be > 0") ;!
  mfail_if (oldBal <? b_Amount b)
    (errorf ("insufficient balance: have " +:+ FormatUint oldBal +:+ ", sending "
             +:+ FormatUint (b_Amount b))) ;!
  mfail_if (negb (b_Balance b =? oldBal - b_Amount b))
    (balance_mismatch "" (oldBal - b_Amount b) (b_Balance b)) ;!
  mfail_if (b_Destination b =?s "") (errorf "send must have a destination") ;!
  mfail_if (b_Destination b =?s b_Account b) (errorf "cannot send to self") ;!
  mwrap (wrapf "send: ") (mlift (ValidateMemo (b_Memo b))) ;!
  let! (c, prevBalance) := prepareBlockWrite e b in
  commitBlockWrite e
    (fill c (Some (mkPendingSend (b_Hash b) (b_Account b) (b_Destination b) (b_Amount b) (b_Asset b)))
       "" None "" "" "" None "" LeaseStateEmpty None "" 0 0) prevBalance.

Definition validateAndAddBurn (b : Block) : LM unit :=
  mfail_if (negb (b_Asset b =?s "XE")) (errorf "burn: restricted to XE") ;!
  mfail_if (negb (b_Destination b =?s "") || negb (b_Source b =?s ""))
    (errorf "burn: must not have source or destination") ;!
  mfail_if (b_Amount b =? 0) (errorf "burn: amount must be > 0") ;!
  let! chain := open_chain (b_Account b)
    (errorf ("burn from unopened account: " +:+ shortAddr (b_Account b))) in
  mlift (check_link chain b) ;!
  let! oldBal := old_balance (b_Account b) (b_Asset b) in
  mfail_if (oldBal <? b_Amount b)
    (errorf ("insufficient balance: have " +:+ FormatUint oldBal +:+ " XE, burning "
             +:+ FormatUint (b_Amount b))) ;!
  mfail_if (negb (b_Balance b =? oldBal - b_Amount b))
    (balance_mismatch "" (oldBal - b_Amount b) (b_Balance b)) ;!
  mwrap (wrapf "burn: ") (mlift (ValidateMemo (b_Memo b))) ;!
  let! (c, prevBalance) := prepareBlockWrite e b in
  commitBlockWrite e c prevBalance.

Definition isLiveLeaseEscrow (sendHash : string) : LM bool :=
  mtry (getLeaseOverlay e sendHash) (λ r,
    mret_ (match r with
           | Ok (Some l) => (l_State l =?s LeaseCreated) || (l_State l =?s LeaseAccepted)
           | _ => false
           end)).

(** Whether the source of a receive has a rival *)
Definition contested (src : option Block) : LM bool :=
  match src with
  | Some src => let! c := LGetConflict e (b_Account src) (b_Previous src) in
                mret_ (negb (bool_decide (c = None)))
  | None => mret_ false
  end.

Definition validateAndAddReceive (b : Block) : LM unit :=
  mfail_if (b_Source b =?s "") (errorf "receive must reference a source send") ;!
  let! pending := mwrap (wrapf "GetPendingSend: ") (getPendingSendOverlay e (b_Source b)) in
  match pending with
  | None => mfail (errorf ("source send not pending: " +:+ shortHash (b_Source b)))
  | Some ps =>
      mfail_if (negb (ps_Destination ps =?s b_Account b))
        (errorf "send not addressed to this account") ;!
      let! live := isLiveLeaseEscrow (b_Source b) in
      mfail_if live (errorf ("cannot receive a live lease escrow: " +:+ shortHash (b_Source b))) ;!
      let! src := GetBlockOrStaged e (b_Source b) in
      let! c := contested src in
      mfail_if c
        (errorf ("source send " +:+ shortHash (b_Source b)
                 +:+ " is contested by an unresolved conflict — receive deferred pending resolution")) ;!
      mfail_if (negb (b_Asset b =?s norm_asset (ps_Asset ps)))
        (errorf ("receive asset " +:+ quote (b_Asset b) +:+ " does not match pending send asset "
                 +:+ quote (norm_asset (ps_Asset ps)))) ;!
      let! chain := mwrap err_chain (getAccountChainOverlay e (b_Account b)) in
      match chain with
      | None =>
          mfail_if (negb (b_Previous b =?s "0"))
            (errorf "first block on account must have previous=0") ;!
          mfail_if (negb (b_Balance b =? ps_Amount ps))
            (balance_mismatch "open-receive " (ps_Amount ps) (b_Balance b))
      | Some chain =>
          mlift (check_timestamp chain b) ;!
          let! oldBal := old_balance (b_Account b) (b_Asset b) in
          mlift (check_previous chain b) ;!
          let expectedBal := u64_add oldBal (ps_Amount ps) in
          mfail_if (expectedBal <? oldBal) (errorf "receive would overflow uint64 balance") ;!
          mfail_if (negb (b_Balance b =? expectedBal))
            (balance_mismatch "receive " expectedBal (b_Balance b))
      end ;!
      let! (c, prevBalance) := prepareBlockWrite e b in
      commitBlockWrite e
        (fill c None (b_Source b) None "" "" "" None "" LeaseStateEmpty None "" 0 0) prevBalance
  end.

(** ** Issuance *)

Definition isMinter (account : string) : bool :=
  match minterConfigFn e with
  | Some (Some keys) => existsb (λ k, EqualFold k account) keys
  | _ => false
  end.

Definition validateAndAddMint (b : Block) : LM unit :=
  mfail_if (negb (b_Asset b =?s "XUSD")) (errorf "mint: restricted to XUSD") ;!
  mfail_if (negb (isMinter (b_Account b)))
    (errorf ("mint: account " +:+ shortAddr (b_Account b) +:+ " is not an authorized minter")) ;!
  mfail_if (negb (b_Destination b =?s "") || negb (b_Source b =?s ""))
    (errorf "mint: must not have source or destination") ;!
  mfail_if (negb (b_Memo b =?s "")) (errorf "mint: memo not allowed") ;!
  mfail_if (b_Amount b =? 0) (errorf "mint: amount must be > 0") ;!
  let! chain := mwrap err_chain (getAccountChainOverlay e (b_Account b)) in
  match chain with
  | None =>
      mfail_if (negb (b_Previous b =?s "0")) (errorf "mint: first block must have previous=0") ;!
      mfail_if (negb (b_Balance b =? b_Amount b))
        (balance_mismatch "mint: " (b_Amount b) (b_Balance b))
  | Some chain =>
      mlift (check_link chain b) ;!
      let! oldBal := old_balance (b_Account b) (b_Asset b) in
      let expected := u64_add oldBal (b_Amount b) in
      mfail_if (expected <? oldBal) (errorf "mint: balance would overflow uint64") ;!
      mfail_if (negb (b_Balance b =? expected)) (balance_mismatch "mint: " expected (b_Balance b))
  end ;!
  let! (c, prevBalance) := prepareBlockWrite e b in
  commitBlockWrite e c prevBalance.

Definition parseGenesisBlock (document : result Block) : result Block :=
  let? b := result_map_err (wrapf "parse genesis: ") document in
  ValidateGenesisBlock b ;?
  Ok b.

(** It also applies the timing of the block to the package variables; here the
    timing of a call is part of its environment. *)
Definition LoadGenesisBlock : result Block := parseGenesisBlock (genesisDocument e).

Definition validateAndAddGenesis (b : Block) : LM unit :=
  let! empty := mwrap (wrapf "IsEmpty: ") (sread e CIsEmpty IsEmpty) in
  mfail_if (negb empty) (errorf "genesis block rejected: ledger is not empty") ;!
  let! expected := mwrap (wrapf "load embedded genesis: ") (mlift LoadGenesisBlock) in
  mfail_if (negb (b_Hash b =?s b_Hash expected))
    (errorf ("genesis hash mismatch: got " +:+ shortHash (b_Hash b) +:+ ", want "
             +:+ shortHash (b_Hash expected))) ;!
  mlift (ValidateGenesisBlock b) ;!
  addBlockLocked e b.

(** ** Multisig accounts *)

Definition validateAndAddMultisigOpen (b : Block) : LM unit :=
  match b_MSKeyset b with
  | None => mfail (errorf "multisig_open must include a keyset")
  | Some ks =>
      mwrap (wrapf "multisig_open keyset: ") (mlift (ValidateKeyset (Some ks))) ;!
      let! expected := mwrap (wrapf "derive address: ") (mlift (DeriveMultisigAddress (Some ks))) in
      mfail_if (negb (b_Account b =?s expected))
        (errorf ("multisig_open account mismatch: got " +:+ shortHash (b_Account b) +:+ ", want "
                 +:+ shortHash expected)) ;!
      let! chain := mwrap err_chain (getAccountChainOverlay e (b_Account b)) in
      mfail_if (negb (bool_decide (chain = None))) (errorf "multisig_open: account already exists") ;!
      mfail_if (negb (b_Previous b =?s "0")) (errorf "multisig_open must have previous=0") ;!
      mfail_if (negb (b_Balance b =? 0))
        (errorf ("multisig_open balance must be 0, got " +:+ FormatUint (b_Balance b))) ;!
      let! (c, prevBalance) := prepareBlockWrite e b in
      commitBlockWrite e
        (fill c None "" None "" "" "" (Some ks) "" LeaseStateEmpty None "" 0 0) prevBalance ;!
      mmodify (setKeyset (b_Account b) ks)
  end.

Definition validateAndAddMultisigUpdate (b : Block) : LM unit :=
  match b_MSKeyset b with
  | None => mfail (errorf "multisig_update must include a keyset")
  | Some ks =>
      mwrap (wrapf "multisig_update keyset: ") (mlift (ValidateKeyset (Some ks))) ;!
      let! oldKs := mgets (λ L, getKeysetOverlay L (b_Account b)) in
      mfail_if (bool_decide (oldKs = None)) (errorf "multisig_update: account is not multisig") ;!
      let! chain := open_chain (b_Account b) (errorf "multisig_update: account not found") in
      mlift (check_link chain b) ;!
      let! oldBal := old_balance (b_Account b) (b_Asset b) in
      mfail_if (negb (b_Balance b =? oldBal))
        (balance_mismatch "multisig_update " oldBal (b_Balance b)) ;!
      let! (c, prevBalance) := prepareBlockWrite e b in
      commitBlockWrite e
        (fill c None "" None "" "" "" (Some ks) "" LeaseStateEmpty None "" 0 0) prevBalance ;!
      mmodify (setKeyset (b_Account b) ks)
  end.

(** ** Leases *)

Definition validateAndAddLease (b : Block) : LM unit :=
  mfail_if (negb (b_Asset b =?s "XUSD")) (errorf "lease block must have asset=XUSD") ;!
  mfail_if (b_Destination b =?s "") (errorf "lease block must have a destination (provider)") ;!
  mfail_if (b_Destination b =?s b_Account b) (errorf "cannot lease to self") ;!
  mlift (ValidateLeaseDimensions (timing e) (b_VCPUs b) (b_MemoryMB b) (b_DiskGB b) (b_Duration b)) ;!
  (if b_AccessPubKey b =?s "" then mret_ ()
   else
     let! sshBytes := mwrap (wrapf "invalid access_pub_key hex: ") (mlift (DecodeString (b_AccessPubKey b))) in
     mfail_if (negb (zlen sshBytes =? 32))
       (errorf ("access_pub_key must be 32 bytes, got " +:+ FormatInt (zlen sshBytes)))) ;!
  mfail_if (b_CertificateHash b =?s "") (errorf "lease block must include certificate_hash") ;!
  match certificateLookupFn e with
  | None => mfail (errorf "lease block cannot be validated: certificate lookup not configured")
  | Some lookup =>
  match lookup (b_CertificateHash b) with
  | None => mfail (errorf ("certificate " +:+ shortHash (b_CertificateHash b) +:+ " not found"))
  | Some cert =>
      mfail_if (negb (ci_Provider cert =?s b_Destination b))
        (errorf ("certificate " +:+ shortHash (b_CertificateHash b) +:+ " belongs to "
                 +:+ shortHash (ci_Provider cert) +:+ ", not lease destination "
                 +:+ shortHash (b_Destination b))) ;!
      mfail_if (negb (ci_ExpiresAt cert =? 0) && (ci_ExpiresAt cert <? b_Timestamp b))
        (errorf ("certificate " +:+ shortHash (b_CertificateHash b) +:+ " expired at "
                 +:+ FormatInt (ci_ExpiresAt cert) +:+ ", lease timestamp "
                 +:+ FormatInt (b_Timestamp b))) ;!
      let! expectedCost := mwrap (wrapf "lease cost ")
        (mlift (LeaseCost (timing e) (b_VCPUs b) (b_MemoryMB b) (b_DiskGB b) (b_Duration b)
                  (ci_PriceMultiplierMilli cert))) in
      mfail_if (negb (b_Amount b =? expectedCost))
        (errorf ("lease cost mismatch: expected " +:+ FormatUint expectedCost +:+ " (multiplier "
                 +:+ FormatUint (ci_PriceMultiplierMilli cert) +:+ "), got "
                 +:+ FormatUint (b_Amount b))) ;!
      let! chain := open_chain (b_Account b) (errorf "lease from unopened account") in
      mlift (check_link chain b) ;!
      let! oldBal := old_balance (b_Account b) "XUSD" in
      mfail_if (oldBal <? b_Amount b)
        (errorf ("insufficient XUSD balance: have " +:+ FormatUint oldBal +:+ ", need "
                 +:+ FormatUint (b_Amount b))) ;!
      mfail_if (negb (b_Balance b =? oldBal - b_Amount b))
        (balance_mismatch "" (oldBal - b_Amount b) (b_Balance b)) ;!
      let! (c, prevBalance) := prepareBlockWrite e b in
      commitBlockWrite e
        (fill c (Some (mkPendingSend (b_Hash b) (b_Account b) (b_Destination b) (b_Amount b) "XUSD"))
           "" (Some (mkLease (b_Hash b) LeaseCreated (b_Account b) (b_Destination b) (b_VCPUs b)
                       (b_MemoryMB b) (b_DiskGB b) (b_Duration b) (b_AccessPubKey b) (b_Amount b)
                       0 0 (b_CertificateHash b) false 0 0 0 []))
           "" "" "" None "" LeaseStateEmpty None "" 0 0) prevBalance
  end end.

Definition validateLockedEmissionAt (atTime lockedR lockedCap lockedTWAP : Z) (skipSkew : bool)
    (opName : string) : result unit :=
  match epochAtFn e with
  | None => Ok ()
  | Some epochAt =>
      match epochAt atTime with
      | [] => Err (errorf (opName +:+ " epoch not yet available for time " +:+ FormatInt atTime
                           +:+ ": retry after statechain syncs"))
      | cur :: _ =>
          if existsb (λ ep, (lockedR =? ep_R ep) && (lockedCap =? ep_PayoutCap ep)
                            && (lockedTWAP =? ep_TWAP ep)) (epochAt atTime)
          then Ok ()
          else
            let detail := "block (R=" +:+ FormatUint lockedR +:+ " cap=" +:+ FormatUint lockedCap
              +:+ " twap=" +:+ FormatUint lockedTWAP +:+ ") != epoch@time (R=" +:+ FormatUint (ep_R cur)
              +:+ " cap=" +:+ FormatUint (ep_PayoutCap cur) +:+ " twap=" +:+ FormatUint (ep_TWAP cur)
              +:+ ")" in
            Err (errorf (if skipSkew
              then opName +:+ " locked emission mismatch on sync: " +:+ detail
                   +:+ ": retry after statechain syncs"
              else opName +:+ " locked emission mismatch: " +:+ detail))
      end
  end.

(** The source lease block of an accept, cancel or forced settlement *)
Definition source_lease_block (h : string) : LM Block :=
  let! lb := mwrap (wrapf "GetBlock: ") (GetBlock e h) in
  match lb with
  | None => mfail (errorf ("source lease block not found: " +:+ shortHash h))
  | Some lb =>
      mfail_if (negb (b_Type lb =?s BlockLease)) (errorf "source block is not a lease block") ;!
      mret_ lb
  end.

(** The configured timekeepers *)
Definition timekeepers (op : string) : LM TimekeeperConfig :=
  match timekeeperConfigFn e with
  | Some (Some cfg) => mret_ cfg
  | _ => mfail (errorf (op +:+ ": timekeepers not configured"))
  end.

Definition attested_time (op : string) (b : Block) (skipSkew : bool) : LM Z :=
  let! cfg := timekeepers op in
  mwrap (wrapf (op +:+ " attestation: "))
    (mlift (ValidateAttestations (timing e) (Now e) (b_Attestations b) (b_Source b) (Some cfg) skipSkew)).

Definition validateAndAddLeaseAccept (b : Block) (skipSkew : bool) : LM unit :=
  mfail_if (negb (b_Asset b =?s "XUSD")) (errorf "lease_accept block must have asset=XUSD") ;!
  mfail_if (b_Source b =?s "") (errorf "lease_accept must reference a source lease block") ;!
  let! leaseBlock := source_lease_block (b_Source b) in
  mfail_if (negb (b_Destination leaseBlock =?s b_Account b))
    (errorf "lease_accept: provider account mismatch") ;!
  let! existing := mwrap (wrapf "GetLease: ") (getLeaseOverlay e (b_Source b)) in
  mfail_if (match existing with Some l => negb (l_State l =?s LeaseCreated) | None => false end)
    (errorf "lease already accepted") ;!
  let expectedStake := LeaseStake (b_Amount leaseBlock) in
  mfail_if (negb (b_Amount b =? expectedStake))
    (errorf ("lease_accept stake mismatch: expected " +:+ FormatUint expectedStake +:+ ", got "
             +:+ FormatUint (b_Amount b))) ;!
  let! chain := open_chain (b_Account b) (errorf "lease_accept from unopened account") in
  mlift (check_link chain b) ;!
  let! oldBal := old_balance (b_Account b) "XUSD" in
  mfail_if (oldBal <? b_Amount b)
    (errorf ("insufficient XUSD balance for stake: have " +:+ FormatUint oldBal +:+ ", need "
             +:+ FormatUint (b_Amount b))) ;!
  mfail_if (negb (b_Balance b =? oldBal - b_Amount b))
    (balance_mismatch "" (oldBal - b_Amount b) (b_Balance b)) ;!
  let! startTime := attested_time "lease_accept" b skipSkew in
  mfail_if (b_CertificateHash b =?s "") (errorf "lease_accept: performance certificate required") ;!
  mfail_if (negb (b_CertificateHash leaseBlock =?s b_CertificateHash b))
    (errorf ("lease_accept: certificate hash " +:+ shortHash (b_CertificateHash b)
             +:+ " does not match lease's referenced cert " +:+ shortHash (b_CertificateHash leaseBlock))) ;!
  match certificateLookupFn e with
  | None => mfail (errorf "lease_accept: certificate lookup not configured")
  | Some lookup =>
  match lookup (b_CertificateHash b) with
  | None => mfail (err_with12 "lease_accept: certificate not found: " (b_CertificateHash b) (errorf ""))
  | Some certInfo =>
      mfail_if (negb (ci_Provider certInfo =?s b_Account b))
        (errorf "lease_accept: certificate belongs to different provider") ;!
      mfail_if (ci_ExpiresAt certInfo <? startTime) (errorf "lease_accept: certificate expired") ;!
      let! (c, prevBalance) := prepareBlockWrite e b in
      mfail_if (b_LockedR b =? 0)
        (errorf "lease_accept missing locked emission params: locked_r must be set (the accept must carry locked_r/locked_payout_cap/locked_twap)") ;!
      mlift (validateLockedEmissionAt startTime (b_LockedR b) (b_LockedPayoutCap b) (b_LockedTWAP b)
               skipSkew "lease_accept") ;!
      commitBlockWrite e
        (fill c None "" (Some (mkLease (b_Source b) LeaseAccepted (b_Account leaseBlock) (b_Account b)
                 (b_VCPUs leaseBlock) (b_MemoryMB leaseBlock) (b_DiskGB leaseBlock)
                 (b_Duration leaseBlock) (b_AccessPubKey leaseBlock) (b_Amount leaseBlock)
                 (b_Amount b) startTime (b_CertificateHash b) false (b_LockedR b)
                 (b_LockedPayoutCap b) (b_LockedTWAP b) []))
           "" "" "" None (b_Source b) LeaseCreated None "" 0 0) prevBalance ;!
      mmodify (rep_apply e (mkReputationEvent EventLeaseAccepted (b_Account b) (b_Account leaseBlock)
                              startTime 0))
  end end.

(** The index of the accept of a lease on its provider's chain *)
Fixpoint accept_index (leaseHash : string) (i : Z) (c : AccountChain) : option (Z * Block) :=
  match c with
  | [] => None
  | b :: c => if (b_Type b =?s BlockLeaseAccept) && (b_Source b =?s leaseHash) then Some (i, b)
              else accept_index leaseHash (i + 1) c
  end.

Definition resolveCancelWinsOverAccept (leaseHash provider : string) : LM unit :=
  let! pchain := mwrap (wrapf "cancel-wins: GetAccountChain(provider): ") (GetAccountChain e provider) in
  match accept_index leaseHash 0 (default [] pchain) with
  | None => mfail (errorf "cancel-wins: provider accept not found locally: retry after sync")
  | Some (acceptIdx, acceptBlock) =>
      mfail_if (negb (acceptIdx =? zlen (default [] pchain) - 1))
        (errorf "cancel-wins: provider built on the accept: retry after sync") ;!
      let! fh := FinalHeight e provider in
      mfail_if (acceptIdx + 1 <=? fh)
        (errorf "cannot cancel lease in accepted state: accept is finalized") ;!
      mfail_if (accountBusy e provider)
        (errorf "cancel-wins: provider chain busy: retry after sync") ;!
      mwrap (wrapf "cancel-wins: unwind provider accept: ") (undoBlockApply e provider acceptBlock)
  end.

(** The state a lease must be in to be cancelled, made so if the provider's
    acceptance can still be unwound *)
Definition cancel_guard (b : Block) (existing : option Lease) : LM unit :=
  match existing with
  | None => mret_ ()
  | Some l =>
      if (l_State l =?s LeaseAccepted) && negb (l_Provider l =?s b_Account b)
      then resolveCancelWinsOverAccept (b_Source b) (l_Provider l)
      else mfail_if (negb (l_State l =?s LeaseCreated))
             (errorf ("cannot cancel lease in " +:+ LeaseState_string (l_State l) +:+ " state"))
  end.

(** The refund of the price of [leaseBlock] *)
Definition cancel_refund (b leaseBlock : Block) : LM unit :=
  let! pending := mwrap (wrapf "GetPendingSend: ") (getPendingSendOverlay e (b_Source b)) in
  mfail_if (bool_decide (pending = None))
    (errorf ("no pending send for lease: " +:+ shortHash (b_Source b))) ;!
  let! chain := open_chain (b_Account b) (errorf "lease_cancel from unopened account") in
  mlift (check_link chain b) ;!
  let! oldBal := old_balance (b_Account b) "XUSD" in
  let expectedBal := u64_add oldBal (b_Amount leaseBlock) in
  mfail_if (negb (b_Balance b =? expectedBal)) (balance_mismatch "" expectedBal (b_Balance b)) ;!
  let! (c, prevBalance) := prepareBlockWrite e b in
  commitBlockWrite e
    (fill c None (b_Source b) None "" (b_Source b) "" None (b_Source b) LeaseCreated None "" 0 0)
    prevBalance ;!
  mmodify (rep_apply e (mkReputationEvent EventLeaseCancelled (b_Destination leaseBlock) (b_Account b)
                          (b_Timestamp b) 0)).

Definition validateAndAddLeaseCancel (b : Block) : LM unit :=
  mfail_if (negb (b_Asset b =?s "XUSD")) (errorf "lease_cancel block must have asset=XUSD") ;!
  mfail_if (b_Source b =?s "") (errorf "lease_cancel must reference a source lease block") ;!
  let! leaseBlock := source_lease_block (b_Source b) in
  mfail_if (negb (b_Account leaseBlock =?s b_Account b))
    (errorf "lease_cancel: only the consumer can cancel a lease") ;!
  let! existing := mwrap (wrapf "GetLease: ") (getLeaseOverlay e (b_Source b)) in
  cancel_guard b existing ;!
  cancel_refund b leaseBlock.

Definition validateAndAddLeaseForceSettle (b : Block) (skipSkew : bool) : LM unit :=
  let T := timing e in
  mfail_if (negb (b_Asset b =?s "XUSD")) (errorf "lease_force_settle block must have asset=XUSD") ;!
  mfail_if (b_Source b =?s "") (errorf "lease_force_settle must reference a source lease block") ;!
  let! leaseBlock := source_lease_block (b_Source b) in
  mfail_if (negb (b_Account leaseBlock =?s b_Account b))
    (errorf "lease_force_settle: only the consumer can force-settle a lease") ;!
  let! lease := mwrap (wrapf "GetLease: ") (getLeaseOverlay e (b_Source b)) in
  match lease with
  | None => mfail (errorf ("lease not found: " +:+ shortHash (b_Source b)))
  | Some lease =>
      mfail_if (l_Settled lease) (errorf "lease already settled") ;!
      mfail_if (negb (l_State lease =?s LeaseAccepted))
        (errorf (if l_State lease =?s LeaseCreated
          then "lease not yet accepted for force-settle (state " +:+ LeaseState_string (l_State lease)
               +:+ "): retry after accept"
          else "cannot force-settle lease in " +:+ LeaseState_string (l_State lease) +:+ " state")) ;!
      let! forceTime := attested_time "lease_force_settle" b skipSkew in
      let expiry := EffectiveExpiry lease in
      let eligibleAt := i64_add (i64_add expiry (LeaseSettleGrace T)) (LeaseForceSettleGap T) in
      mfail_if (forceTime <? eligibleAt)
        (errorf ("lease not yet force-settleable: need timestamp >= " +:+ FormatInt eligibleAt
                 +:+ ", got " +:+ FormatInt forceTime)) ;!
      let expireAt := i64_add expiry (LeaseEscrowExpiry T) in
      mfail_if (expireAt <=? forceTime)
        (errorf ("lease escrow expired: refund window closed at " +:+ FormatInt expireAt
                 +:+ ", got " +:+ FormatInt forceTime)) ;!
      let! pending := mwrap (wrapf "GetPendingSend: ") (getPendingSendOverlay e (b_Source b)) in
      match pending with
      | None => mfail (errorf ("no pending escrow for lease: " +:+ shortHash (b_Source b)))
      | Some pending =>
          let! chain := open_chain (b_Account b) (errorf "lease_force_settle from unopened account") in
          mlift (check_link chain b) ;!
          let! oldBal := old_balance (b_Account b) "XUSD" in
          let expectedBal := u64_add oldBal (ps_Amount pending) in
          mfail_if (expectedBal <? oldBal) (errorf "lease_force_settle would overflow uint64 balance") ;!
          mfail_if (negb (b_Balance b =? expectedBal)) (balance_mismatch "" expectedBal (b_Balance b)) ;!
          let! (c, prevBalance) := prepareBlockWrite e b in
          commitBlockWrite e
            (fill c None (b_Source b) None "" "" (b_Source b) None (b_Source b) LeaseAccepted None
               "" 0 (EffectiveDurationSecs lease)) prevBalance ;!
          mmodify (rep_apply e (mkReputationEvent EventLeaseUnfulfilled (l_Provider lease) (b_Account b)
                                  (b_Timestamp b) 0))
      end
  end.


Definition validateAndAddLeaseSettle (b : Block) (skipSkew : bool) : LM unit :=
  let T := timing e in
  mfail_if (negb (b_Asset b =?s "XE")) (errorf "lease_settle block must have asset=XE") ;!
  mfail_if (b_Source b =?s "") (errorf "lease_settle must reference a source lease hash") ;!
  let! lease := mwrap (wrapf "GetLease: ") (getLeaseOverlay e (b_Source b)) in
  match lease with
  | None => mfail (errorf ("lease not found: " +:+ shortHash (b_Source b)))
  | Some lease =>
      mfail_if (l_Settled lease) (errorf "lease already settled") ;!
      mfail_if (negb (l_Provider lease =?s b_Account b))
        (errorf "lease_settle: provider account mismatch") ;!
      mfail_if (negb (l_State lease =?s LeaseAccepted))
        (errorf (if l_State lease =?s LeaseCreated
          then "lease not yet accepted for settle (state " +:+ LeaseState_string (l_State lease)
               +:+ "): retry after accept"
          else "lease_settle: lease not settleable in " +:+ LeaseState_string (l_State lease)
               +:+ " state")) ;!
      let! settleTime := attested_time "lease_settle" b skipSkew in
      let expiry := EffectiveExpiry lease in
      mfail_if (settleTime <? expiry)
        (errorf ("lease not yet expired: need timestamp >= " +:+ FormatInt expiry +:+ ", got "
                 +:+ FormatInt settleTime)) ;!
      let deadline := i64_add expiry (LeaseSettleGrace T) in
      mfail_if (deadline <? settleTime)
        (errorf (if skipSkew && renewalMayBeMissing lease
          then "lease settle past grace for the renewals applied here: timestamp "
               +:+ FormatInt settleTime +:+ " exceeds expiry+grace " +:+ FormatInt deadline
               +:+ ": retry after sync"
          else "lease settle past grace: timestamp " +:+ FormatInt settleTime
               +:+ " exceeds expiry+grace " +:+ FormatInt deadline)) ;!
      let! expectedXE := mwrap (wrapf "lease_settle: ") (mlift (LeaseTotalEmission lease)) in
      let segs := FormatInt (zlen (l_Renewals lease) + 1) in
      mfail_if (negb (b_Amount b =? expectedXE))
        (errorf (if skipSkew && (expectedXE <? b_Amount b) && renewalMayBeMissing lease
          then "lease_settle XE exceeds the " +:+ segs +:+ " segment(s) applied here: expected "
               +:+ FormatUint expectedXE +:+ ", got " +:+ FormatUint (b_Amount b) +:+ ": retry after sync"
          else "lease_settle XE mismatch: expected " +:+ FormatUint expectedXE +:+ " (segments="
               +:+ segs +:+ ", base cost=" +:+ FormatUint (l_Cost lease) +:+ ", R="
               +:+ FormatUint (l_LockedR lease) +:+ "), got " +:+ FormatUint (b_Amount b))) ;!
      let! escrow := mwrap (wrapf "GetPendingSend: ") (getPendingSendOverlay e (b_Source b)) in
      mfail_if (bool_decide (escrow = None))
        (errorf ("no escrow pending to burn for lease: " +:+ shortHash (b_Source b))) ;!
      let! chain := open_chain (b_Account b) (errorf "lease_settle from unopened account") in
      mlift (check_link chain b) ;!
      let! oldXEBal := old_balance (b_Account b) "XE" in
      let expectedBal := u64_add oldXEBal (b_Amount b) in
      mfail_if (expectedBal <? oldXEBal) (errorf "lease_settle would overflow uint64 balance") ;!
      mfail_if (negb (b_Balance b =? expectedBal)) (balance_mismatch "" expectedBal (b_Balance b)) ;!
      let! (c, prevBalance) := prepareBlockWrite e b in
      commitBlockWrite e
        (fill c None (b_Source b) None (b_Source b) "" "" None (b_Source b) LeaseAccepted
           (Some (mkAssetDelta (b_Account b) "XUSD" (l_Stake lease))) "" 0
           (EffectiveDurationSecs lease)) prevBalance ;!
      mmodify (rep_apply e (mkReputationEvent EventLeaseSettled (l_Provider lease) (l_Consumer lease)
                              (b_Timestamp b) (l_Duration lease)))
  end.

Definition validateAndAddLeaseRenew (b : Block) (skipSkew : bool) : LM unit :=
  let T := timing e in
  mfail_if (negb (b_Asset b =?s "XUSD")) (errorf "lease_renew block must have asset=XUSD") ;!
  mfail_if (b_Source b =?s "") (errorf "lease_renew must reference a source lease hash") ;!
  let! lease := mwrap (wrapf "GetLease: ") (getLeaseOverlay e (b_Source b)) in
  match lease with
  | None => mfail (errorf ("lease not found: " +:+ shortHash (b_Source b)))
  | Some lease =>
      mfail_if (l_Settled lease) (errorf "lease already settled") ;!
      mfail_if (negb (l_State lease =?s LeaseAccepted))
        (errorf (if l_State lease =?s LeaseCreated
          then "lease not yet accepted for renewal (state " +:+ LeaseState_string (l_State lease)
               +:+ "): retry after accept"
          else "lease_renew: lease not renewable in " +:+ LeaseState_string (l_State lease)
               +:+ " state")) ;!
      mfail_if (negb (l_Consumer lease =?s b_Account b))
        (errorf "lease_renew: only the consumer can renew a lease") ;!
      mfail_if (b_Duration b <? LeaseMinDuration T)
        (errorf ("lease_renew duration must be >= " +:+ FormatUint (LeaseMinDuration T)
                 +:+ " seconds, got " +:+ FormatUint (b_Duration b))) ;!
      let '(newEffective, ok) := safeAdd (EffectiveDurationSecs lease) (b_Duration b) in
      mfail_if (negb ok || (LeaseMaxDuration <? newEffective))
        (errorf ("lease_renew: cumulative duration " +:+ FormatUint (EffectiveDurationSecs lease)
                 +:+ " + " +:+ FormatUint (b_Duration b) +:+ " exceeds max "
                 +:+ FormatUint LeaseMaxDuration)) ;!
      let! renewTime := attested_time "lease_renew" b skipSkew in
      let expiry := EffectiveExpiry lease in
      mfail_if (renewTime <? l_StartTime lease)
        (errorf ("lease_renew: renewal time " +:+ FormatInt renewTime +:+ " before lease start "
                 +:+ FormatInt (l_StartTime lease))) ;!
      mfail_if (expiry <=? renewTime)
        (errorf ("lease_renew: lease no longer live (renewal time " +:+ FormatInt renewTime
                 +:+ " >= effective expiry " +:+ FormatInt expiry +:+ ")")) ;!
      mfail_if (b_CertificateHash b =?s "") (errorf "lease_renew: performance certificate required") ;!
      match certificateLookupFn e with
      | None => mfail (errorf "lease_renew: certificate lookup not configured")
      | Some lookup =>
      match lookup (b_CertificateHash b) with
      | None => mfail (errorf ("lease_renew: certificate " +:+ shortHash (b_CertificateHash b)
                               +:+ " not found"))
      | Some cert =>
          mfail_if (negb (ci_Provider cert =?s l_Provider lease))
            (errorf ("lease_renew: certificate " +:+ shortHash (b_CertificateHash b) +:+ " belongs to "
                     +:+ shortHash (ci_Provider cert) +:+ ", not the lease provider "
                     +:+ shortHash (l_Provider lease))) ;!
          mfail_if (negb (ci_ExpiresAt cert =? 0) && (ci_ExpiresAt cert <? renewTime))
            (errorf ("lease_renew: certificate " +:+ shortHash (b_CertificateHash b) +:+ " expired at "
                     +:+ FormatInt (ci_ExpiresAt cert) +:+ ", renewal time " +:+ FormatInt renewTime)) ;!
          let! expectedCost := mwrap (wrapf "lease_renew cost ")
            (mlift (LeaseCost T (l_VCPUs lease) (l_MemoryMB lease) (l_DiskGB lease) (b_Duration b)
                      (ci_PriceMultiplierMilli cert))) in
          mfail_if (negb (b_Amount b =? expectedCost))
            (errorf ("lease_renew cost mismatch: expected " +:+ FormatUint expectedCost
                     +:+ " (multiplier " +:+ FormatUint (ci_PriceMultiplierMilli cert) +:+ "), got "
                     +:+ FormatUint (b_Amount b))) ;!
          mfail_if (b_LockedR b =? 0)
            (errorf "lease_renew missing locked emission params: locked_r must be set") ;!
          mlift (validateLockedEmissionAt renewTime (b_LockedR b) (b_LockedPayoutCap b)
                   (b_LockedTWAP b) skipSkew "lease_renew") ;!
          let! escrow := mwrap (wrapf "GetPendingSend: ") (getPendingSendOverlay e (b_Source b)) in
          mfail_if (bool_decide (escrow = None))
            (errorf ("lease_renew: no live escrow for lease " +:+ shortHash (b_Source b))) ;!
          let! chain := open_chain (b_Account b) (errorf "lease_renew from unopened account") in
          mlift (check_link chain b) ;!
          let! oldBal := old_balance (b_Account b) "XUSD" in
          mfail_if (oldBal <? b_Amount b)
            (errorf ("insufficient XUSD balance for renewal: have " +:+ FormatUint oldBal +:+ ", need "
                     +:+ FormatUint (b_Amount b))) ;!
          mfail_if (negb (b_Balance b =? oldBal - b_Amount b))
            (balance_mismatch "" (oldBal - b_Amount b) (b_Balance b)) ;!
          let! (c, prevBalance) := prepareBlockWrite e b in
          commitBlockWrite e
            (fill c None "" (Some (lease_with_renewals
                     (l_Renewals lease ++ [mkLeaseSegment (b_Hash b) (b_Duration b) (b_Amount b)
                        renewTime (b_CertificateHash b) (b_LockedR b) (b_LockedPayoutCap b)
                        (b_LockedTWAP b)]) lease))
               "" "" "" None (b_Source b) LeaseAccepted None (b_Source b) (b_Amount b)
               (EffectiveDurationSecs lease)) prevBalance
      end end
  end.

(** ** Credentials *)

Definition GetAccountKey (account : string) : LM string := λ L,
  match accountKeys L !! account with
  | Some pub => (Ok pub, L)
  | None =>
      mtry (GetAccountChain e account) (λ r,
        match r with
        | Ok (Some chain) =>
            let found := foldl (λ f b, if b_PubKey b =?s "" then f else b_PubKey b) ""%string chain in
            if found =?s "" then mret_ ""%string
            else mmodify (setAccountKey account found) ;! mret_ found
        | _ => mret_ ""%string
        end) L
  end.

Definition keyset_on_chain (chain : AccountChain) : option Keyset :=
  foldl (λ f b, match b_Type b, b_MSKeyset b with
                | BlockMultisigOpen, Some ks | BlockMultisigUpdate, Some ks => Some ks
                | _, _ => f
                end) None chain.

Definition resolveMissingKeyset (account : string) : LM Keyset :=
  let! chain := mwrap (wrapf "GetAccountChain (keyset lookup): ") (GetAccountChain e account) in
  match chain with
  | None => mfail (errorf ("block has signatures but multisig keyset is not known: unopened account "
                           +:+ shortAddr account +:+ " (multisig_open not yet synced)"))
  | Some chain =>
      match keyset_on_chain chain with
      | None => mfail (errorf "block has signatures but account is not multisig")
      | Some ks => mmodify (setKeyset account ks) ;! mret_ ks
      end
  end.

Definition verifyBlockCredential (b : Block) : LM unit :=
  mlift (ValidatePubKeyDeclaration b) ;!
  if negb (b_Signatures b =?s []) then
    let! known := (if b_Type b =?s BlockMultisigOpen then mret_ (b_MSKeyset b)
                   else mgets (λ L, keysets L !! b_Account b)) in
    let! ks := match known with
               | Some ks => mret_ ks
               | None => resolveMissingKeyset (b_Account b)
               end in
    mwrap (wrapf "multisig: ")
      (mlift (if IsSpendingOp (b_Type b) then VerifyMultisig (b_Hash b) (b_Signatures b) ks
              else VerifyMultisigAny (b_Hash b) (b_Signatures b) ks))
  else
    let! ks := mgets (λ L, keysets L !! b_Account b) in
    mfail_if (negb (bool_decide (ks = None))) (errorf "multisig account requires signatures") ;!
    let! pubKey := (if b_Previous b =?s "0" then mret_ (b_PubKey b)
      else
        let! pub := GetAccountKey (b_Account b) in
        mfail_if (pub =?s "") (errorf ("signature: unopened account " +:+ shortAddr (b_Account b)
                                       +:+ " has no declared public key")) ;!
        mret_ pub) in
    mwrap (wrapf "signature: ") (mlift (VerifyBlockSignatureWith b pubKey)).

Definition errUnknownBlockType : error := sentinel "errUnknownBlockType" "unknown block type".

(** [darkValidators]: no type is registered in the sources. *)
Definition darkValidators : list (BlockType * (string * (Block → bool → LM unit))) := [].

Definition FeatureActive (feature : string) : bool :=
  match featureActiveFn e with Some f => f feature | None => false end.

Definition errFeatureNotActivatedFor (t : BlockType) (feature : string) : error :=
  errorf ("block type " +:+ quote (BlockType_string t) +:+ " requires feature " +:+ quote feature
          +:+ ": not yet activated (retry after statechain syncs)").

Definition dispatchValidateAndAdd (b : Block) (skipTimestamp : bool) : LM unit :=
  verifyBlockCredential b ;!
  match b_Type b with
  | BlockSend => validateAndAddSend b
  | BlockReceive => validateAndAddReceive b
  | BlockGenesis => validateAndAddGenesis b
  | BlockLease => validateAndAddLease b
  | BlockLeaseAccept => validateAndAddLeaseAccept b skipTimestamp
  | BlockLeaseSettle => validateAndAddLeaseSettle b skipTimestamp
  | BlockLeaseCancel => validateAndAddLeaseCancel b
  | BlockLeaseForceSettle => validateAndAddLeaseForceSettle b skipTimestamp
  | BlockLeaseRenew => validateAndAddLeaseRenew b skipTimestamp
  | BlockMultisigOpen => validateAndAddMultisigOpen b
  | BlockMultisigUpdate => validateAndAddMultisigUpdate b
  | BlockBurn => validateAndAddBurn b
  | BlockMint => validateAndAddMint b
  | BlockOther _ =>
      match find (λ dv, bool_decide (dv.1 = b_Type b)) darkValidators with
      | Some (_, (feature, validate)) =>
          mfail_if (negb (FeatureActive feature)) (errFeatureNotActivatedFor (b_Type b) feature) ;!
          validate b skipTimestamp
      | None => mfail errUnknownBlockType
      end
  end.

End handlers.
