(* ===== verification/Restart.v ===== *)
(** * Starting a node: [NewLedger] and the caches it rebuilds

    The in-memory part of a ledger (balances, delegations, voting weights,
    keysets, declared keys, reputation and the block count) is recomputed from
    the store when a node starts: the first part of [core/ledger.go].  An empty
    store receives the genesis block instead. *)
From S2P Require Import Prelude GoLib Types Encoding LeaseMath Crypto Multisig Attestation Genesis Reputation Store Ledger Rollback Handlers.

Section restart.
Context `{C : Crypto} (e : Env).

(** A ledger before anything is loaded *)
Definition blankLedger (s : StoreState) : Ledger := mkLedger s ∅ ∅ false ∅ 0 0 ∅ ∅ ∅ None [].

Definition Frontiers (s : StoreState) : list string := (map_to_list (frontiers s)).*1.

(** ** Voting weight *)

Definition xe_on_chain (c : AccountChain) : Z :=
  foldl (λ bal b, if norm_asset (b_Asset b) =?s "XE" then b_Balance b else bal) 0 c.

Definition rebuild_delegation (kv : string * string) : LM unit :=
  let '(account, representative) := kv in
  if representative =?s "" then mret_ ()
  else
    mmodify (λ L, with_delegation (<[account := representative]> (delegation L)) (weights L)
                    (delegationUnderflow L) L) ;!
    let! chain := mwrap (wrapf ("GetAccountChain(" +:+ shortAddr account +:+ "): "))
                    (GetAccountChain e account) in
    match chain with
    | None => mret_ ()
    | Some c =>
        mmodify (λ L, with_delegation (delegation L)
          (<[representative := get_weight (weights L) representative + xe_on_chain c]> (weights L))
          (delegationUnderflow L) L)
    end.

Definition rebuildDelegation : LM unit :=
  mwrap (wrapf "rebuildDelegation: ")
    (let! ds := sread e CIterateDelegations (λ s, map_to_list (delegations s)) in
     mfor rebuild_delegation ds).

Definition sumEligible (set : option (gset string)) (w : gmap string Z) : Z :=
  match set with
  | Some set => foldr (λ rep acc, (if has_weight w rep then get_weight w rep else 0) + acc) 0 (elements set)
  | None => map_sum (λ _ z, if 0 <? z then z else 0) w
  end.

(** ** Balances *)

(** One block of the loop over a chain; a settled lease gives back its stake *)
Definition rebuild_balance (ls : string → option Lease) (m : gmap string Z) (b : Block) : gmap string Z :=
  let m := <[norm_asset (b_Asset b) := b_Balance b]> m in
  if b_Type b =?s BlockLeaseSettle then
    match ls (b_Source b) with
    | Some l => <["XUSD" := u64_add (default 0 (m !! "XUSD")) (l_Stake l)]> m
    | None => m
    end
  else m.

Definition rebuild_balances (acc : string) : LM unit :=
  let! chain := mwrap (wrapf ("rebuildAssetBalances: GetAccountChain(" +:+ shortAddr acc +:+ "): "))
                  (GetAccountChain e acc) in
  match chain with
  | None => mret_ ()
  | Some c =>
      let! s := mgets store in
      let m := foldl (rebuild_balance (lease_or_none e s)) ∅ c in
      mmodify (λ L, with_balances (<[acc := m]> (assetBalances L)) L)
  end.

Definition rebuildAssetBalances : LM unit :=
  let! s := mgets store in mfor rebuild_balances (Frontiers s).

(** ** Keys *)

(** The chain of an account, a failed read counting as none *)
Definition chain_or_nil (acc : string) : LM AccountChain :=
  let! c := mor None (GetAccountChain e acc) in mret_ (default [] c).

Definition rebuildKeysets : LM unit :=
  let! s := mgets store in
  mfor (λ acc,
    let! c := chain_or_nil acc in
    mmodify (λ L, foldl (λ L b,
      match b_Type b, b_MSKeyset b with
      | (BlockMultisigOpen | BlockMultisigUpdate), Some ks => with_keysets (<[acc := ks]> (keysets L)) L
      | _, _ => L
      end) L c)) (Frontiers s).

Definition rebuildAccountKeys : LM unit :=
  let! s := mgets store in
  mfor (λ acc,
    let! c := chain_or_nil acc in
    mmodify (λ L, foldl (λ L b,
      if b_PubKey b =?s "" then L else with_accountKeys (<[acc := b_PubKey b]> (accountKeys L)) L) L c))
    (Frontiers s).

(** ** Reputation *)

(** The timestamp of the block that closed a lease, or the end of its term *)
Definition closing_time (t : BlockType) (account : string) (lease : Lease) : LM Z :=
  let! chain := chain_or_nil account in
  mret_ (match list_find (λ b, b_Type b = t ∧ b_Source b = l_LeaseHash lease) chain with
         | Some (_, b) => b_Timestamp b
         | None => i64_add (l_StartTime lease) (i64_mul (i64 (l_Duration lease)) 1000000000)
         end).

Definition lookupLeaseSettleTimestamp (lease : Lease) : LM Z :=
  closing_time BlockLeaseSettle (l_Provider lease) lease.
Definition lookupLeaseForceSettleTimestamp (lease : Lease) : LM Z :=
  closing_time BlockLeaseForceSettle (l_Consumer lease) lease.

Definition replay_lease (lease : Lease) : LM unit :=
  let p := l_Provider lease in
  let c := l_Consumer lease in
  if l_StartTime lease =? 0 then mret_ ()
  else
    mmodify (rep_apply e (mkReputationEvent EventLeaseAccepted p c (l_StartTime lease) 0)) ;!
    if negb (l_Settled lease) || (l_State lease =?s LeaseExpired) then mret_ ()
    else if l_State lease =?s LeaseUnfulfilled then
      let! ts := lookupLeaseForceSettleTimestamp lease in
      mmodify (rep_apply e (mkReputationEvent EventLeaseUnfulfilled p c ts 0))
    else
      let! ts := lookupLeaseSettleTimestamp lease in
      mmodify (rep_apply e (mkReputationEvent EventLeaseSettled p c ts (l_Duration lease))).

Definition replay_cancel (b : Block) : LM unit :=
  if negb (b_Type b =?s BlockLeaseCancel) then mret_ ()
  else
    let! lb := mor None (GetBlock e (b_Source b)) in
    match lb with
    | None => mret_ ()
    | Some lb => mmodify (rep_apply e (mkReputationEvent EventLeaseCancelled (b_Destination lb)
                                         (b_Account b) (b_Timestamp b) 0))
    end.

(** [GetAllLeases] failing is logged and ends the rebuild. *)
Definition rebuildReputation : LM unit :=
  mmodify (with_reputation ∅) ;!
  mtry (sread e CGetAllLeases (λ s, (map_to_list (leases s)).*2)) (λ r,
    match r with
    | Err _ => mret_ ()
    | Ok ls =>
        mfor replay_lease ls ;!
        let! s := mgets store in
        mfor (λ acc, let! c := chain_or_nil acc in mfor replay_cancel c) (Frontiers s)
    end).

(** ** The block count and ghost accounts *)

Definition initBlockCount : LM unit :=
  let! s := mgets store in
  mmodify (with_blockCount 0) ;!
  mfor (λ acc,
    let! c := chain_or_nil acc in
    mmodify (λ L, with_blockCount (i64_add (blockCount L) (zlen c)) L)) (Frontiers s).

(** The undo that removes an account without blocks *)
Definition ghost_undo (acc : string) : BlockUndo :=
  mkBlockUndo acc [] "0" None "" "" true true "" None "" "" "" None "" 0.

Definition prune_account (acc : string) : LM unit :=
  mtry (GetAccountChain e acc) (λ r,
    match r with
    | Ok (Some (_ :: _)) | Err _ => mret_ ()
    | Ok _ =>
        mtry (swrite e (CCommitUndo acc) (λ s, Ok (CommitUndo (ghost_undo acc) s))) (λ r,
          match r with
          | Err _ => mret_ ()
          | Ok _ => mmodify (deleteAccountBalances acc)
          end)
    end).

Definition pruneChainlessAccounts : LM unit :=
  let! s := mgets store in mfor prune_account (Frontiers s).

(** ** The constructor

    A panic is an error; the result is the lease timing it installs.  No
    representative policy has been set yet when the weights are summed. *)

Definition panicf (pre : string) (err : error) : error := panic (pre +:+ err_msg err).

Definition first_start : LM LeaseTiming :=
  let! genesis := mwrap (panicf "ledger: load genesis: ") (mlift (LoadGenesisBlock e)) in
  let! (c, prevBal) := mwrap (panicf "ledger: prepare genesis: ") (prepareBlockWrite e genesis) in
  mwrap (panicf "ledger: commit genesis: ") (commitBlockWrite e c prevBal) ;!
  mor () (swrite e (CSetFinalHeight (b_Account genesis))
            (λ s, Ok (SetFinalHeight (b_Account genesis) 1 s))) ;!
  let! total := mgets (λ L, sumEligible None (weights L)) in
  mfail_if (total =? 0)
    (panic ("ledger: genesis " +:+ shortHash (b_Hash genesis)
            +:+ " yielded ZERO total delegated weight — refusing to bootstrap a network that can never finalize a block")) ;!
  mret_ (ApplyGenesisLeaseTiming (Some genesis)).

Definition rebuild_caches : LM unit :=
  mwrap (panicf "ledger: ") rebuildDelegation ;!
  mwrap (panicf "ledger: ") rebuildAssetBalances ;!
  rebuildKeysets ;!
  rebuildAccountKeys ;!
  rebuildReputation ;!
  initBlockCount ;!
  pruneChainlessAccounts.

Definition later_start : LM LeaseTiming :=
  let! genesis := mwrap (panicf "genesis: ") (mlift (LoadGenesisBlock e)) in
  let! gchain := mwrap (panicf "ledger: load persisted genesis on restart: ")
                   (GetAccountChain e (b_Account genesis)) in
  match default [] gchain with
  | [] => mfail (panic ("ledger: persisted genesis chain for " +:+ shortAddr (b_Account genesis)
                        +:+ " is missing on restart"))
  | g :: _ => rebuild_caches ;! mret_ (ApplyGenesisLeaseTiming (Some g))
  end.

Definition NewLedger (s : StoreState) : result LeaseTiming * Ledger :=
  (let! empty := mwrap (panicf "ledger: IsEmpty: ") (sread e CIsEmpty IsEmpty) in
   if empty then first_start else later_start) (blankLedger s).

End restart.
