(* ===== verification/AddBlock.v ===== *)
(** * Entry points: [AddBlock] and [AddSyncedBlock]

    Normalisation, verification, conflict detection and recording
    ([core/conflict.go]), staging of the losing siblings, and the dispatch to
    the handlers. *)
From S2P Require Import Prelude GoLib Types Encoding LeaseMath Crypto Multisig Attestation Genesis Reputation Store Ledger Rollback Handlers.

(** ** Normalisation *)

Definition lower_sig (s : BlockSignature) : BlockSignature :=
  mkBlockSignature (ToLower (bs_PublicKey s)) (ToLower (bs_Sig s)).
Definition lower_keyset (ks : Keyset) : Keyset :=
  mkKeyset (ToLower <$> ks_Keys ks) (ks_Threshold ks).

Definition normalizeBlockHex (b : Block) : Block :=
  mkBlock (b_Type b) (ToLower (b_Account b)) (ToLower (b_Previous b)) (b_Balance b)
    (b_Timestamp b) (b_Asset b) (ToLower (b_Representative b)) (ToLower (b_Destination b))
    (b_Amount b) (ToLower (b_Source b)) (b_VCPUs b) (b_MemoryMB b) (b_DiskGB b) (b_Duration b)
    (b_AccessPubKey b) (b_LeaseMinDurationSecs b) (b_LeaseSettleGraceNs b)
    (b_LeaseForceSettleGapNs b) (b_LeaseEscrowExpiryNs b) (b_LeaseArchiveGapNs b)
    (b_MaxAttestationSkewNs b) (b_Memo b) (lower_keyset <$> b_MSKeyset b)
    (lower_sig <$> b_Signatures b) (ToLower (b_PubKey b)) (ToLower (b_Signature b))
    (ToLower (b_Hash b)) (b_PoWNonce b) (b_Attestations b) (b_CertificateHash b) (b_LockedR b)
    (b_LockedPayoutCap b) (b_LockedTWAP b).

Definition attested_type (t : BlockType) : bool :=
  match t with
  | BlockLeaseAccept | BlockLeaseSettle | BlockLeaseForceSettle | BlockLeaseRenew => true
  | _ => false
  end.

Definition with_attestations (atts : list TimekeeperAttestation) (b : Block) : Block :=
  mkBlock (b_Type b) (b_Account b) (b_Previous b) (b_Balance b) (b_Timestamp b) (b_Asset b)
    (b_Representative b) (b_Destination b) (b_Amount b) (b_Source b) (b_VCPUs b) (b_MemoryMB b)
    (b_DiskGB b) (b_Duration b) (b_AccessPubKey b) (b_LeaseMinDurationSecs b)
    (b_LeaseSettleGraceNs b) (b_LeaseForceSettleGapNs b) (b_LeaseEscrowExpiryNs b)
    (b_LeaseArchiveGapNs b) (b_MaxAttestationSkewNs b) (b_Memo b) (b_MSKeyset b)
    (b_Signatures b) (b_PubKey b) (b_Signature b) (b_Hash b) (b_PoWNonce b) atts
    (b_CertificateHash b) (b_LockedR b) (b_LockedPayoutCap b) (b_LockedTWAP b).

(** ** Conflicts *)

Definition detectConflictSibling (chain : option AccountChain) (b : Block) : string :=
  match find (λ x, b_Previous x =?s b_Previous b) (default [] chain) with
  | Some x => b_Hash x
  | None => ""
  end.

Definition containsConflictHash (hashes : list string) (h : string) : bool :=
  existsb (λ x, x =?s h) hashes.

Definition NewConflict (now : Z) (account previous hashA hashB : string) : Conflict :=
  mkConflict account previous [hashA; hashB] now None 0.

Definition maxConflictHashes : Z := 10.

Definition ErrInvalidPoW : error := sentinel "ErrInvalidPoW" "invalid proof of work".

Section addblock.
Context `{C : Crypto} (e : Env).

Definition GetConflict (account previous : string) : LM (option Conflict) :=
  sread e (CGetConflict account previous) (λ s, conflicts s !! (account, previous)).

Definition save_conflict (c : Conflict) : LM unit :=
  swrite e (CSaveConflict (c_AccountAddress c) (c_PreviousHash c)) (λ s, Ok (SaveConflict c s)).

(** [recordConflict]: whether the conflict is new *)
Definition recordConflict (account previous existingHash newHash : string) : LM bool :=
  let! record := GetConflict account previous in
  match record with
  | None =>
      save_conflict (NewConflict (Now e) account previous existingHash newHash) ;!
      mret_ true
  | Some r =>
      if containsConflictHash (c_BlockHashes r) newHash then mret_ false
      else if maxConflictHashes <=? zlen (c_BlockHashes r) then mret_ false
      else
        save_conflict (mkConflict (c_AccountAddress r) (c_PreviousHash r)
                         (c_BlockHashes r ++ [newHash]) (c_DetectedAt r) (c_WeightSnapshot r)
                         (c_TotalWeight r)) ;!
        mret_ false
  end.

(** The balance of the asset just after the shared parent: the loop stops at
    the parent, after it has been taken into account. *)
Fixpoint parent_balance (asset previous : string) (bal : Z) (chain : AccountChain) : Z :=
  match chain with
  | [] => bal
  | cb :: chain =>
      let bal := if b_Asset cb =?s asset then b_Balance cb else bal in
      if b_Hash cb =?s previous then bal else parent_balance asset previous bal chain
  end.

Definition staged_pending (op msg : string) (h : string) : LM PendingSend :=
  let! ps := mwrap (wrapf ("staged " +:+ op +:+ ": GetPendingSend: ")) (GetPendingSend e h) in
  match ps with
  | None => mfail (errorf ("staged " +:+ op +:+ ": " +:+ msg))
  | Some ps => mret_ ps
  end.

Definition staged_debit (op verb unit_ : string) (b : Block) (parentBalance : Z) : LM unit :=
  mfail_if (parentBalance <? b_Amount b)
    (errorf ("staged " +:+ op +:+ ": insufficient balance: have " +:+ FormatUint parentBalance
             +:+ unit_ +:+ ", " +:+ verb +:+ " " +:+ FormatUint (b_Amount b))) ;!
  mfail_if (negb (b_Balance b =? parentBalance - b_Amount b))
    (balance_mismatch ("staged " +:+ op +:+ ": ") (parentBalance - b_Amount b) (b_Balance b)).

Definition staged_balance (op : string) (b : Block) (expected : Z) : LM unit :=
  mfail_if (negb (b_Balance b =? expected))
    (balance_mismatch ("staged " +:+ op +:+ ": ") expected (b_Balance b)).

Definition ValidateStagedBlock (b : Block) (parentBalance : Z) : LM unit :=
  verifyBlockCredential e b ;!
  match b_Type b with
  | BlockSend =>
      mfail_if (b_Amount b =? 0) (errorf "staged send: amount must be > 0") ;!
      staged_debit "send" "sending" "" b parentBalance ;!
      mfail_if (b_Destination b =?s "") (errorf "staged send: must have a destination") ;!
      mfail_if (b_Destination b =?s b_Account b) (errorf "staged send: cannot send to self")
  | BlockReceive =>
      mfail_if (b_Source b =?s "") (errorf "staged receive: must reference a source send") ;!
      let! ps := staged_pending "receive" ("source send not pending: " +:+ shortHash (b_Source b))
                   (b_Source b) in
      mfail_if (negb (ps_Destination ps =?s b_Account b))
        (errorf "staged receive: send not addressed to this account") ;!
      let! live := isLiveLeaseEscrow e (b_Source b) in
      mfail_if live
        (errorf ("staged receive: cannot receive a live lease escrow: " +:+ shortHash (b_Source b))) ;!
      let expectedBal := u64_add parentBalance (ps_Amount ps) in
      mfail_if (expectedBal <? parentBalance)
        (errorf "staged receive: balance would overflow uint64") ;!
      staged_balance "receive" b expectedBal
  | BlockLease => staged_debit "lease" "need" "" b parentBalance
  | BlockLeaseAccept => staged_debit "lease_accept" "need" "" b parentBalance
  | BlockLeaseSettle =>
      staged_pending "lease_settle" "no pending escrow for lease" (b_Source b) ;!
      let expectedBal := u64_add parentBalance (b_Amount b) in
      mfail_if (expectedBal <? parentBalance)
        (errorf "staged lease_settle: balance would overflow uint64") ;!
      staged_balance "lease_settle" b expectedBal
  | BlockLeaseCancel =>
      let! ps := staged_pending "lease_cancel" "no pending send for lease" (b_Source b) in
      staged_balance "lease_cancel" b (u64_add parentBalance (ps_Amount ps))
  | BlockLeaseForceSettle =>
      let! ps := staged_pending "lease_force_settle" "no pending escrow for lease" (b_Source b) in
      staged_balance "lease_force_settle" b (u64_add parentBalance (ps_Amount ps))
  | BlockMultisigOpen =>
      mfail (errorf "staged multisig_open: conflicting account opens are invalid")
  | BlockMultisigUpdate => staged_balance "multisig_update" b parentBalance
  | BlockBurn =>
      mfail_if (negb (b_Asset b =?s "XE")) (errorf "staged burn: restricted to XE") ;!
      mfail_if (b_Amount b =? 0) (errorf "staged burn: amount must be > 0") ;!
      staged_debit "burn" "burning" " XE" b parentBalance
  | BlockMint =>
      mfail_if (negb (b_Asset b =?s "XUSD")) (errorf "staged mint: restricted to XUSD") ;!
      mfail_if (negb (isMinter e (b_Account b)))
        (errorf ("staged mint: account " +:+ shortAddr (b_Account b)
                 +:+ " is not an authorized minter")) ;!
      mfail_if (b_Amount b =? 0) (errorf "staged mint: amount must be > 0") ;!
      let expectedBal := u64_add parentBalance (b_Amount b) in
      mfail_if (expectedBal <? parentBalance)
        (errorf "staged mint: balance would overflow uint64") ;!
      staged_balance "mint" b expectedBal
  | _ => mfail (errorf ("staged block: unknown type: " +:+ BlockType_string (b_Type b)))
  end.

Definition notify_conflict (c : Conflict) : LM unit :=
  if conflictCallback e then mmodify (with_event (EvConflict c)) else mret_ ().

(** The branch of [addBlock] for a block that has a sibling on the chain *)
Definition stage_conflict (b : Block) (chain : option AccountChain) (siblingHash : string) : LM unit :=
  let! final := IsFinalized e (b_Account b) siblingHash in
  mfail_if final
    (errorf ("block conflicts with finalized block " +:+ shortHash siblingHash +:+ " — rejected")) ;!
  mfail_if (b_Asset b =?s "") (errorf "conflict block must have an asset") ;!
  mfail_if (negb (IsValidAsset (b_Asset b)))
    (errorf ("conflict block: unsupported asset: " +:+ quote (b_Asset b))) ;!
  let parentBalance :=
    if b_Previous b =?s "0" then 0
    else parent_balance (b_Asset b) (b_Previous b) 0 (default [] chain) in
  mwrap (wrapf "conflict block: ") (ValidateStagedBlock b parentBalance) ;!
  let! isNew := mwrap (wrapf "recordConflict: ")
                  (recordConflict (b_Account b) (b_Previous b) siblingHash (b_Hash b)) in
  let! record := mor None (GetConflict (b_Account b) (b_Previous b)) in
  let! bodyNewlyStaged :=
    (if match record with Some r => containsConflictHash (c_BlockHashes r) (b_Hash b)
        | None => false end
     then
       let! prev := mor None (sread e (CGetStagedBlock (b_Hash b)) (λ s, staged s !! b_Hash b)) in
       mwrap (wrapf "SaveStagedBlock: ")
         (swrite e (CSaveStagedBlock (b_Hash b)) (λ s, Ok (SaveStagedBlock b s))) ;!
       mret_ (bool_decide (prev = None))
     else mret_ false) in
  if isNew then
    let! record := mor None (GetConflict (b_Account b) (b_Previous b)) in
    match record with
    | None => mret_ ()
    | Some r =>
        let! snap := snapshotWeights e in
        let total := u64 (map_sum (λ _ w, w) snap) in
        let r := mkConflict (c_AccountAddress r) (c_PreviousHash r) (c_BlockHashes r)
                   (c_DetectedAt r) (Some snap) total in
        mwrap (wrapf "SaveConflict (weight snapshot): ") (save_conflict r) ;!
        notify_conflict r
    end
  else if bodyNewlyStaged then
    match record with Some r => notify_conflict r | None => mret_ () end
  else mret_ ().

Definition check_pow (b : Block) : result unit :=
  if 0 <? difficulty e then
    let? hashBytes := result_map_err (wrapf "decode hash: ") (DecodeString (b_Hash b)) in
    rfail_if (negb (ValidatePoW hashBytes (b_PoWNonce b) (difficulty e))) ErrInvalidPoW
  else Ok ().

Definition check_window (b : Block) (skipTimestamp : bool) : result unit :=
  if negb skipTimestamp && (0 <? timestampWindow e) then
    rfail_if (b_Timestamp b <? 0) (errorf "block timestamp must not be negative") ;?
    let delta := if Now e <? b_Timestamp b then i64_sub (b_Timestamp b) (Now e)
                 else i64_sub (Now e) (b_Timestamp b) in
    rfail_if (timestampWindow e <? delta)
      (errorf ("block timestamp out of range: delta=" +:+ Duration_String delta))
  else Ok ().

(** The block [addBlock] works on: a copy, normalised, without attestations
    on types that carry none *)
Definition prepared (b : Block) : Block :=
  let b := normalizeBlockHex b in
  if attested_type (b_Type b) then b else with_attestations [] b.

Definition addBlock (b : Block) (skipTimestamp : bool) : LM unit :=
  let b := prepared b in
  mfail_if (MaxAttestationsPerBlock <? zlen (b_Attestations b))
    (errorf ("too many attestations: " +:+ FormatInt (zlen (b_Attestations b)) +:+ " exceeds max "
             +:+ FormatInt MaxAttestationsPerBlock)) ;!
  mwrap (wrapf "verify: ") (mlift (VerifyBlock (networkID e) b)) ;!
  mlift (check_pow b) ;!
  mlift (check_window b skipTimestamp) ;!
  let! existing := mwrap (wrapf "GetBlock: ") (GetBlock e (b_Hash b)) in
  match existing with
  | Some _ => mret_ ()
  | None =>
      verifyBlockCredential e b ;!
      let! chain := mwrap (wrapf "GetAccountChain (conflict detect): ")
                      (GetAccountChain e (b_Account b)) in
      let siblingHash := detectConflictSibling chain b in
      if negb (siblingHash =?s "") then stage_conflict b chain siblingHash
      else
        let! conflicts := mor [] (sread e (CGetConflictsForAccount (b_Account b))
                                    (conflicts_for (b_Account b))) in
        mfail_if (negb (conflicts =?s []))
          (errorf "account has unresolved conflict — block rejected pending resolution") ;!
        mfail_if (b_Asset b =?s "") (errorf "block must have an asset") ;!
        mfail_if (negb (IsValidAsset (b_Asset b)))
          (errorf ("unsupported asset: " +:+ quote (b_Asset b))) ;!
        mtry (dispatchValidateAndAdd e b skipTimestamp) (λ r,
          match r with
          | Ok _ => if blockAddedCallback e then mmodify (with_event (EvBlockAdded b)) else mret_ ()
          | Err err =>
              if bool_decide (err = errUnknownBlockType)
              then mfail (errorf ("unknown block type: " +:+ BlockType_string (b_Type b)))
              else mfail err
          end)
  end.

Definition LedgerAddBlock (b : Block) : LM unit := addBlock b false.
Definition AddSyncedBlock (b : Block) : LM unit := addBlock b true.

End addblock.

(** ** Retry classification: [core/retryable.go] *)

Definition retryablePatterns : list string :=
  ["previous block not found"; "source send not pending"; "not found"; "frontier mismatch";
   "previous mismatch"; "GetAccountChain"; "GetBlock"; "unresolved conflict";
   "Transaction Conflict"; "lease not yet accepted"; "epoch not yet available";
   "retry after statechain syncs"; "retry after sync"; "unopened account";
   "unknown block type"; "not yet activated"].

Definition IsRetryableError (err : option error) : bool :=
  match err with
  | None => false
  | Some err => existsb (λ p, Contains (err_msg err) p) retryablePatterns
  end.
