(* ===== verification/Swap.v ===== *)
(** * Promoting the winner of a conflict: [core/rollback.go] and the swap of
    [core/ledger.go]

    A promotion plans which blocks have to go (those above the replaced block,
    and on other chains the receives of sends among them, with everything above
    those), builds the undo of each, and then adds the winner through the usual
    handler with the undone state as an overlay: one atomic store write removes
    the losers and appends the winner. *)
From S2P Require Import Prelude GoLib Types LeaseMath Encoding Crypto Reputation Store Ledger Rollback Handlers.

Record cascadeStep := mkStep { st_account : string; st_b : Block }.

(** The blocks marked so far (the map [planned]) and the plan *)
Notation planning := (gset string * list cascadeStep)%type.

(** The block types a plan may undo *)
Definition unwindable (t : BlockType) : bool :=
  match t with BlockSend | BlockReceive | BlockBurn | BlockMint => true | _ => false end.

Definition is_receive_of (send : string) (b : Block) : bool :=
  (b_Type b =?s BlockReceive) && (b_Source b =?s send).

(** [recvIdx]: the first position that satisfies a test *)
Fixpoint position (f : Block → bool) (c : AccountChain) : option nat :=
  match c with
  | [] => None
  | b :: c => if f b then Some 0%nat else S <$> position f c
  end.

Section swap.
Context `{C : Crypto} (e : Env).

(** ** Planning

    The recursion of [planRollbackOfSend] takes fuel; every nested call has
    marked one more block of a chain, so the number of blocks is enough and the
    error for running out of it is never returned ([swap_plan_terminates]). *)

Definition out_of_fuel : error := errorf "cascade: out of fuel".

(** The body of the two loops that walk down a chain.  [refuse] is the error for
    a type that cannot be undone and [wrap] what the loop adds to an error of a
    nested plan. *)
Definition plan_block (nested : string → planning → LM planning) (refuse : Block → error)
    (wrap : error → error) (account : string) (p : planning) (b : Block) : LM planning :=
  if bool_decide (b_Hash b ∈ p.1) then mret_ p
  else
    mfail_if (negb (unwindable (b_Type b))) (refuse b) ;!
    let p := ({[b_Hash b]} ∪ p.1, p.2) in
    let! p :=
      (if b_Type b =?s BlockSend then
         let! ps := mor None (GetPendingSend e (b_Hash b)) in
         match ps with
         | None => mwrap wrap (nested (b_Hash b) p)
         | Some _ => mret_ p
         end
       else mret_ p) in
    mret_ (p.1, p.2 ++ [mkStep account b]).

Fixpoint plan_blocks (nested : string → planning → LM planning) (refuse : Block → error)
    (wrap : error → error) (account : string) (p : planning) (bs : list Block) : LM planning :=
  match bs with
  | [] => mret_ p
  | b :: bs =>
      let! p := plan_block nested refuse wrap account p b in
      plan_blocks nested refuse wrap account p bs
  end.

Definition unsupported (account : string) (b : Block) : error :=
  errorf ("cascade: unsupported block type " +:+ quote (BlockType_string (b_Type b)) +:+ " ("
          +:+ shortHash (b_Hash b) +:+ ") on " +:+ shortAddr account
          +:+ " — reversing its lease/keyset/reputation side-effects is not yet implemented").

Definition planRollbackFrom (nested : string → planning → LM planning)
    (account consumedSend : string) (p : planning) : LM planning :=
  let! chain := GetAccountChain e account in
  let chain := default [] chain in
  if chain =?s [] then mret_ p
  else
    match position (is_receive_of consumedSend) chain with
    | None => mret_ p  (* logged *)
    | Some recvIdx =>
        let! fh := FinalHeight e account in
        mfail_if (Z.of_nat recvIdx + 1 <=? fh)
          (errorf ("cascade: refusing to roll back finalized block at height "
                   +:+ FormatInt (Z.of_nat recvIdx + 1) +:+ " (final height " +:+ FormatUint fh
                   +:+ ") on " +:+ shortAddr account)) ;!
        plan_blocks nested (unsupported account) id account p (reverse (drop recvIdx chain))
    end.

(** The body of [planRollbackOfSend], whose nested calls are [nested] *)
Definition rollback_of_send (nested : string → planning → LM planning) (sendHash : string) (p : planning)
    : LM planning :=
  let! ps := mor None (GetPendingSend e sendHash) in
  match ps with
  | Some _ => mret_ p
  | None =>
      let! send := LGetBlock e sendHash in
      match send with
      | None => mret_ p
      | Some send =>
          if b_Destination send =?s "" then mret_ p
          else planRollbackFrom nested (b_Destination send) sendHash p
      end
  end.

Fixpoint planRollbackOfSend (fuel : nat) : string → planning → LM planning :=
  match fuel with
  | O => λ _ _, mfail out_of_fuel
  | S fuel => rollback_of_send (planRollbackOfSend fuel)
  end.

(** The plan of a send is a list of its own; the marks are shared.  [rollback] is
    [planRollbackOfSend]. *)
Definition planCascade (rollback : string → planning → LM planning) (sendHash : string) (planned : gset string)
    : LM (gset string * list cascadeStep) :=
  let! ps := mor None (GetPendingSend e sendHash) in
  match ps with
  | Some _ => mret_ (planned, [])
  | None => rollback sendHash (planned, [])
  end.

(** The blocks on all chains *)
Definition chain_hashes (s : StoreState) : gset string :=
  ⋃ ((λ kc, list_to_set (b_Hash <$> kc.2)) <$> map_to_list (chains s)).
Definition enough_fuel (L : Ledger) : nat := S (size (chain_hashes (store L))).

(** ** The swap *)

Definition err_swap : error → error := wrapf "SwapBlock: ".

Definition cannot_unwind (b : Block) : error :=
  errorf ("SwapBlock: cannot unwind descendant " +:+ quote (BlockType_string (b_Type b)) +:+ " ("
          +:+ shortHash (b_Hash b)
          +:+ ") of the replaced block — reversing its side-effects is not yet implemented").

(** The whole plan: the blocks above the replaced one, what its send caused,
    and the block itself *)
Definition swap_plan (rollback : string → planning → LM planning) (account : string) (chain : AccountChain) (idx : nat)
    (oldBlock : Block) : LM (list cascadeStep) :=
  let! (planned, plan) :=
    plan_blocks rollback cannot_unwind err_swap account (∅, [])
      (reverse (drop (S idx) chain)) in
  let! plan :=
    (if b_Type oldBlock =?s BlockSend then
       let! (_, oldPlan) := mwrap err_swap (planCascade rollback (b_Hash oldBlock) planned) in
       mret_ (plan ++ oldPlan)
     else mret_ plan) in
  mret_ (plan ++ [mkStep account oldBlock]).

(** One step of the build: undo the block against the chain the previous steps
    left. *)
Definition build_step (cb : cascadeBuild) (snapshots : gmap string AccountChain) (st : cascadeStep)
    : LM (cascadeBuild * gmap string AccountChain) :=
  let account := st_account st in
  let! snap :=
    match snapshots !! account with
    | Some snap => mret_ snap
    | None =>
        let! s := mwrap (wrapf ("SwapBlock: GetAccountChain(" +:+ shortAddr account +:+ "): "))
                    (GetAccountChain e account) in
        match s with
        | None => mfail (errorf ("SwapBlock: account " +:+ shortAddr account
                                 +:+ " vanished under the cascade"))
        | Some s => mret_ s
        end
    end in
  let! (undo, apply) :=
    mwrap (wrapf ("SwapBlock: build undo for " +:+ shortHash (b_Hash (st_b st)) +:+ ": "))
      (buildBlockUndo e account (st_b st) (Some snap)) in
  mret_ (addUndo cb undo apply, <[account := bu_Chain undo]> snapshots).

Fixpoint build_cascade (cb : cascadeBuild) (snapshots : gmap string AccountChain)
    (plan : list cascadeStep) : LM cascadeBuild :=
  match plan with
  | [] => mret_ cb
  | st :: plan =>
      let! (cb, snapshots) := build_step cb snapshots st in
      build_cascade cb snapshots plan
  end.

Definition ErrWinnerFullValidation : error :=
  sentinel "ErrWinnerFullValidation" "winner failed full validation".

(** [fmt.Errorf] with two [%w]: the error is both the sentinel and the cause *)
Definition winner_failed (newHash : string) (err : error) : error :=
  mkError ("SwapBlock: " +:+ err_msg ErrWinnerFullValidation +:+ " " +:+ shortHash newHash
           +:+ ", loser kept: " +:+ err_msg err)
    (err_is ErrWinnerFullValidation ++ err_is err).

(** The locks of the other accounts are taken in the order of their names
    between the planning and the build; they are not state. *)
Definition swapBlockLocked (account oldHash newHash : string) (newBlock : Block) : LM unit :=
  let! chain := mwrap (wrapf "SwapBlock: GetAccountChain: ") (GetAccountChain e account) in
  match chain with
  | None => mfail (errorf ("SwapBlock: account " +:+ shortAddr account +:+ " not found"))
  | Some chain =>
      match position (λ b, b_Hash b =?s oldHash) chain with
      | None => mfail (errorf ("SwapBlock: block " +:+ shortHash oldHash +:+ " not found in chain"))
      | Some idx =>
          let! fh := FinalHeight e account in
          mfail_if (Z.of_nat idx + 1 <=? fh)
            (errorf ("SwapBlock: refusing to replace finalized block " +:+ shortHash oldHash
                     +:+ " at height " +:+ FormatInt (Z.of_nat idx + 1) +:+ " (final height "
                     +:+ FormatUint fh +:+ ")")) ;!
          match chain !! idx with
          | None => mfail (panic "index out of range")  (* [idx] is a position of the chain *)
          | Some oldBlock =>
              let! fuel := mgets enough_fuel in
              let! plan := swap_plan (planRollbackOfSend fuel) account chain idx oldBlock in
              let! cascade := build_cascade (newCascadeBuild newHash) ∅ plan in
              mwrap err_swap (activateCascade cascade) ;!
              mtry (dispatchValidateAndAdd e newBlock true) (λ r,
                mmodify deactivateCascade ;!
                match r with
                | Ok _ => mret_ ()
                | Err err => mfail (winner_failed newHash err)
                end)
          end
      end
  end.

Definition SwapBlock (account oldHash newHash : string) (newBlock : Block) : LM unit :=
  mwrap (wrapf "SwapBlock: verify replacement: ") (mlift (VerifyBlock (networkID e) newBlock)) ;!
  swapBlockLocked account oldHash newHash newBlock.

End swap.
