(* ===== verification/Quorum.v ===== *)
(** * Settling a conflict: [core/quorum.go]

    The tally of final votes, the confirmation of a winner (which may promote a
    staged block over the one on the chain) and the sweep of stale conflicts.  The
    state is the ledger with the bookkeeping of the quorum and vote managers. *)
From S2P Require Import Prelude GoLib Types Encoding LeaseMath Crypto Multisig Attestation Genesis Reputation Store Ledger Rollback Handlers Restart AddBlock Swap.

Definition quorumNumerator : Z := 67.
Definition quorumDenominator : Z := 100.
Definition staleConflictAge : Z := 10 * 1000000000.
Definition withholdLogInterval : Z := 5 * 60 * 1000000000.
Definition lockStabilityWindow : Z := 3 * 1000000000.
Definition phantomEvictionDelay : Z := 30 * 1000000000.
Definition phantomUnretrievableTimeout : Z := 10 * 60 * 1000000000.
Definition failedPromotionTTL : Z := 30 * 1000000000.

Record quorumResult := mkQuorumResult {
  qr_ConflictAccount : string;
  qr_ConflictPrev : string;
  qr_WinnerHash : string;
  qr_LoserHashes : list string;
  qr_WinningWeight : Z;
  qr_TotalWeight : Z }.

(** [Time.Sub] saturates; times are nanoseconds since 1970, the zero time is the
    beginning of year 1. *)
Definition time_Sub (a b : Z) : Z :=
  if max_i64 <? a - b then max_i64 else if a - b <? min_i64 then min_i64 else a - b.
Definition zero_time : Z := -62135596800 * 1000000000.

(** ** The state of the two managers *)

(** What a node hands to its network and callbacks, newest last *)
Inductive NodeEvent :=
| EvVote (v : Vote)
| EvFinalized
| EvFinality (blocks : Z) (winner : option Block)
| EvPhantomPull (account previous : string) (hashes : list string)
| EvVotePull (account previous : string).

Record Node := mkNode {
  n_ledger : Ledger;
  finalityAdvances : Z;
  lastFinalityNs : Z;
  failedPromotions : gmap string Z;
  withheldLogNanos : gmap string Z;
  pendingVotes : gmap string (list Vote);
  lastRevoteNanos : gmap string Z;
  lastNewCandidateNanos : gmap string Z;
  seenCandidates : gmap string (gset string);
  pendingStabilityRedrive : gmap string (Z * (string * string));
  vm_closed : bool;
  outbox : list NodeEvent }.

Definition with_ledger (L : Ledger) (n : Node) : Node :=
  mkNode L (finalityAdvances n) (lastFinalityNs n) (failedPromotions n) (withheldLogNanos n)
    (pendingVotes n) (lastRevoteNanos n) (lastNewCandidateNanos n) (seenCandidates n)
    (pendingStabilityRedrive n) (vm_closed n) (outbox n).
Definition with_finality (k t : Z) (n : Node) : Node :=
  mkNode (n_ledger n) k t (failedPromotions n) (withheldLogNanos n) (pendingVotes n)
    (lastRevoteNanos n) (lastNewCandidateNanos n) (seenCandidates n) (pendingStabilityRedrive n)
    (vm_closed n) (outbox n).
Definition with_failedPromotions (m : gmap string Z) (n : Node) : Node :=
  mkNode (n_ledger n) (finalityAdvances n) (lastFinalityNs n) m (withheldLogNanos n)
    (pendingVotes n) (lastRevoteNanos n) (lastNewCandidateNanos n) (seenCandidates n)
    (pendingStabilityRedrive n) (vm_closed n) (outbox n).
Definition with_withheld (m : gmap string Z) (n : Node) : Node :=
  mkNode (n_ledger n) (finalityAdvances n) (lastFinalityNs n) (failedPromotions n) m
    (pendingVotes n) (lastRevoteNanos n) (lastNewCandidateNanos n) (seenCandidates n)
    (pendingStabilityRedrive n) (vm_closed n) (outbox n).
Definition with_pendingVotes (m : gmap string (list Vote)) (n : Node) : Node :=
  mkNode (n_ledger n) (finalityAdvances n) (lastFinalityNs n) (failedPromotions n)
    (withheldLogNanos n) m (lastRevoteNanos n) (lastNewCandidateNanos n) (seenCandidates n)
    (pendingStabilityRedrive n) (vm_closed n) (outbox n).
Definition with_lastRevote (m : gmap string Z) (n : Node) : Node :=
  mkNode (n_ledger n) (finalityAdvances n) (lastFinalityNs n) (failedPromotions n)
    (withheldLogNanos n) (pendingVotes n) m (lastNewCandidateNanos n) (seenCandidates n)
    (pendingStabilityRedrive n) (vm_closed n) (outbox n).
Definition with_candidates (m : gmap string Z) (s : gmap string (gset string)) (n : Node) : Node :=
  mkNode (n_ledger n) (finalityAdvances n) (lastFinalityNs n) (failedPromotions n)
    (withheldLogNanos n) (pendingVotes n) (lastRevoteNanos n) m s (pendingStabilityRedrive n)
    (vm_closed n) (outbox n).
Definition with_redrive (m : gmap string (Z * (string * string))) (closed : bool) (n : Node) : Node :=
  mkNode (n_ledger n) (finalityAdvances n) (lastFinalityNs n) (failedPromotions n)
    (withheldLogNanos n) (pendingVotes n) (lastRevoteNanos n) (lastNewCandidateNanos n)
    (seenCandidates n) m closed (outbox n).
Definition emit (ev : NodeEvent) (n : Node) : Node :=
  mkNode (n_ledger n) (finalityAdvances n) (lastFinalityNs n) (failedPromotions n)
    (withheldLogNanos n) (pendingVotes n) (lastRevoteNanos n) (lastNewCandidateNanos n)
    (seenCandidates n) (pendingStabilityRedrive n) (vm_closed n) (outbox n ++ [ev]).

Notation NM := (M Node).

Definition on_ledger {A} (m : LM A) : NM A := λ n,
  let '(r, L) := m (n_ledger n) in (r, with_ledger L n).

(** The environment of a call at a node: the ledger's, the node's key, which
    callbacks are set, whether the store must be synced and what that returns, and
    the orders in which Go happens to iterate over maps *)
Record VoteEnv := mkVoteEnv {
  ve_env : Env;
  ve_keyPair : option KeyPair;
  ve_quorum : bool;
  ve_emitter : bool;
  ve_pull : option (string → string → bool);
  ve_onFinalized : bool;
  ve_observer : bool;
  ve_phantomPull : bool;
  ve_votePull : bool;
  ve_sync : option (option error);
  ve_order : gset string → list string;
  ve_conflicts : gmap (string * string) Conflict → list Conflict }.

(** ** Voting weight *)
Section weight.
Context (e : Env).

Definition GetVoteWeight (representative : string) : LM Z := λ L,
  let '(set, open) := eligibleAllowlist e (weights L) in
  (Ok (if repEligible set representative then get_weight (weights L) representative else 0),
   with_failedOpen open L).

Definition GetTotalDelegatedWeight : LM Z := λ L,
  let '(set, open) := eligibleAllowlist e (weights L) in
  (Ok (sumEligible set (weights L)), with_failedOpen open L).

(** The loop of [GetAssetBalanceAtBlock]: it stops after the named block. *)
Fixpoint balance_at (ls : string → option Lease) (asset blockHash : string) (bal : Z)
    (chain : AccountChain) : Z :=
  match chain with
  | [] => bal
  | b :: chain =>
      let bal := if norm_asset (b_Asset b) =?s asset then b_Balance b else bal in
      let bal :=
        if (asset =?s "XUSD") && (b_Type b =?s BlockLeaseSettle) then
          match ls (b_Source b) with Some l => u64_add bal (l_Stake l) | None => bal end
        else bal in
      if b_Hash b =?s blockHash then bal else balance_at ls asset blockHash bal chain
  end.

Definition GetAssetBalanceAtBlock (account asset blockHash : string) : LM Z :=
  let! chain := mor None (GetAccountChain e account) in
  let! s := mgets store in
  mret_ (match chain with
         | None => 0
         | Some c => balance_at (lease_or_none e s) asset blockHash 0 c
         end).

Definition finalized_child (open : bool) (prev : string) (fh : Z) : Z → AccountChain → string :=
  fix go i chain :=
    match chain with
    | [] => ""
    | b :: chain =>
        if (b_Previous b =?s prev) || (open && (i =? 0)) then
          if i + 1 <=? fh then b_Hash b else ""
        else go (i + 1) chain
    end.

Definition FinalizedChildHash (account prev : string) : LM string :=
  let! chain := mor None (GetAccountChain e account) in
  match chain with
  | None => mret_ ""%string
  | Some c =>
      let! fh := FinalHeight e account in
      mret_ (finalized_child ((prev =?s "") || (prev =?s "0")) prev fh 0 c)
  end.

(** The step of [confirmConflict] that makes the winner and everything below it
    final, once the winner is on the chain; the number of blocks it made final *)
Definition advance_final (account winner : string) : LM (option Z) :=
  mtry (GetBlockHeight e account winner) (λ r,
    match r with
    | Err _ => mret_ None
    | Ok height =>
        let! cur := FinalHeight e account in
        if cur <? height then
          mwrap (wrapf "confirmConflict: SetFinalHeight: ")
            (swrite e (CSetFinalHeight account) (λ s, Ok (SetFinalHeight account height s))) ;!
          mret_ (Some (height - cur))
        else mret_ None
    end).
End weight.

Section quorum.
Context `{C : Crypto} (V : VoteEnv).
Notation e := (ve_env V).

Definition GetStagedBlock (hash : string) : LM (option Block) :=
  sread e (CGetStagedBlock hash) (λ s, staged s !! hash).
Definition GetVotesByConflict (account previous : string) : LM (list Vote) :=
  sread e (CGetVotesByConflict account previous) (votes_for account previous).
Definition GetBlockStatus (hash : string) : LM BlockStatus :=
  sread e (CGetBlockStatus hash) (λ s, default StatusPending (blockStatus s !! hash)).

(** ** The tally *)

Definition failedPromotionKey (account previous hash : string) : string :=
  account +:+ "|" +:+ previous +:+ "|" +:+ hash.

(** The balance a staged block is validated against *)
Definition staged_parent_balance (account previous : string) (b : Block) : LM Z :=
  if previous =?s "0" then mret_ 0
  else GetAssetBalanceAtBlock e account (norm_asset (b_Asset b)) previous.

(** The part of [promotable] for a block that is not on the chain *)
Definition promotable_staged (account previous hash : string) : NM bool :=
  let! staged := mor None (on_ledger (GetStagedBlock hash)) in
  match staged with
  | None => mret_ false
  | Some b =>
      let! parentBalance := on_ledger (staged_parent_balance account previous b) in
      mtry (on_ledger (ValidateStagedBlock e b parentBalance)) (λ r, mret_ (is_ok r))
  end.

Definition qm_promotable (account previous hash : string) : NM bool :=
  mtry (on_ledger (GetBlockHeight e account hash)) (λ r,
    match r with
    | Ok h =>
        if previous =?s "0" then mret_ (h =? 1)
        else
          mtry (on_ledger (GetBlockHeight e account previous)) (λ p,
            mret_ (match p with Ok ph => h =? u64_add ph 1 | Err _ => false end))
    | Err _ =>
        let key := failedPromotionKey account previous hash in
        let! failed := mgets failedPromotions in
        match failed !! key with
        | Some recordedAt =>
            if time_Sub (Now e) recordedAt <? failedPromotionTTL then mret_ false
            else mmodify (with_failedPromotions (delete key failed)) ;!
                 promotable_staged account previous hash
        | None => promotable_staged account previous hash
        end
    end).

(** The loop over the votes: the weight of the final votes for blocks of this
    position, and every hash voted for *)
Fixpoint tally_votes (account previous : string) (vs : list Vote)
    (weightByBlock : gmap string Z) (candidateSet : gset string)
    : NM (gmap string Z * gset string) :=
  match vs with
  | [] => mret_ (weightByBlock, candidateSet)
  | v :: vs =>
      let candidateSet := {[v_BlockHash v]} ∪ candidateSet in
      if negb (v_Final v) then tally_votes account previous vs weightByBlock candidateSet
      else
        let! b := on_ledger (GetBlockOrStaged e (v_BlockHash v)) in
        let counts := match b with
                      | Some b => (b_Account b =?s account) && (b_Previous b =?s previous)
                      | None => false end in
        let weightByBlock :=
          if counts then <[v_BlockHash v := get_weight weightByBlock (v_BlockHash v) + v_Weight v]> weightByBlock
          else weightByBlock in
        tally_votes account previous vs weightByBlock candidateSet
  end.

(** [winner], or when it fails validation the lowest candidate that passes *)
Fixpoint best_candidate (account previous best : string) (hs : list string) : NM string :=
  match hs with
  | [] => mret_ best
  | h :: hs =>
      let! ok := qm_promotable account previous h in
      best_candidate account previous
        (if ok && ((best =?s "") || str_ltb h best) then h else best) hs
  end.

Definition pickWinner (account previous : string) (prevFinalized : bool) (candidateSet : gset string)
    (winner : string) : NM string :=
  if (winner =?s "") || negb prevFinalized then mret_ winner
  else
    let! ok := qm_promotable account previous winner in
    if ok then mret_ winner
    else best_candidate account previous "" (ve_order V candidateSet).

Definition buildResultFrom (account previous winner : string) (candidateSet : gset string) : quorumResult :=
  mkQuorumResult account previous winner (filter (λ h, h ≠ winner) (ve_order V candidateSet)) 0 0.

Definition thresholdMet (weight total : Z) : bool :=
  negb (total =? 0) && (total * quorumNumerator <=? weight * quorumDenominator).

(** The loop over the candidates with weight, in the order of their hashes *)
Fixpoint find_winner (account previous : string) (prevFinalized : bool) (weightByBlock : gmap string Z)
    (bigThreshold : Z) (candidateSet : gset string) (hs : list string) : NM (option quorumResult) :=
  match hs with
  | [] => mret_ None
  | h :: hs =>
      if bigThreshold <=? get_weight weightByBlock h * quorumDenominator then
        let! w := pickWinner account previous prevFinalized candidateSet h in
        if negb (w =?s "") then mret_ (Some (buildResultFrom account previous w candidateSet))
        else find_winner account previous prevFinalized weightByBlock bigThreshold candidateSet hs
      else find_winner account previous prevFinalized weightByBlock bigThreshold candidateSet hs
  end.

Definition position_key (account previous : string) : string := account +:+ "|" +:+ previous.

Definition shouldLogWithhold (account previous : string) : NM bool :=
  let key := position_key account previous in
  let! m := mgets withheldLogNanos in
  if match m !! key with
     | Some last => i64_sub (Now e) last <? withholdLogInterval
     | None => false end
  then mret_ false
  else mmodify (with_withheld (<[key := Now e]> m)) ;! mret_ true.

(** The oldest final vote; no vote reads as 0 *)
Definition oldest_final (vs : list Vote) : Z :=
  foldl (λ oldest v, if v_Final v && ((oldest =? 0) || (v_Timestamp v <? oldest))
                     then v_Timestamp v else oldest) 0 vs.

(** The report that finality is withheld *)
Definition withhold_log (account previous : string) (vs : list Vote) (conflict : option Conflict) : NM unit :=
  let stale :=
    match conflict with
    | Some c => negb (c_DetectedAt c =? zero_time) &&
                (staleConflictAge <=? time_Sub (Now e) (c_DetectedAt c))
    | None => false
    end ||
    (let oldest := oldest_final vs in
     negb (oldest =? 0) && (staleConflictAge <=? i64_sub (Now e) oldest)) in
  if stale then (shouldLogWithhold account previous ;! mret_ ()) else mret_ ().

Definition LGetConflictN (account previous : string) : NM (option Conflict) :=
  on_ledger (LGetConflict e account previous).

Definition conflict_total (conflict : option Conflict) : LM Z :=
  match conflict with
  | Some c => if 0 <? c_TotalWeight c then mret_ (c_TotalWeight c) else GetTotalDelegatedWeight e
  | None => GetTotalDelegatedWeight e
  end.

Definition finalTally (account previous : string) : NM (option quorumResult) :=
  let! vs := mwrap (wrapf "finalTally: GetVotesByConflict: ")
               (on_ledger (GetVotesByConflict account previous)) in
  let! (weightByBlock, candidateSet) := tally_votes account previous vs ∅ ∅ in
  let! conflict := LGetConflictN account previous in
  let candidateSet :=
    match conflict with
    | Some c => list_to_set (c_BlockHashes c) ∪ candidateSet
    | None => candidateSet
    end in
  let! bigTotal := on_ledger (conflict_total conflict) in
  if bigTotal =? 0 then mret_ None
  else
    let bigThreshold := bigTotal * quorumNumerator in
    let! prevFinalized :=
      (if previous =?s "0" then mret_ true else on_ledger (IsFinalized e account previous)) in
    let hashes := sort_strings (map_to_list weightByBlock).*1 in
    let! r := find_winner account previous prevFinalized weightByBlock bigThreshold candidateSet hashes in
    match r with
    | Some r => mret_ (Some r)
    | None =>
        (if bool_decide (weightByBlock = ∅) then mret_ ()
         else withhold_log account previous vs conflict) ;!
        mret_ None
    end.

(** ** Confirmation *)

Definition finalizeBlock (hash : string) : LM unit :=
  swrite e (CSetBlockStatus hash) (λ s, Ok (SetBlockStatus hash StatusFinalized s)).

Definition rejectBlocks (hashes : list string) : LM unit :=
  mfor (λ h, mwrap (wrapf ("rejectBlocks: SetBlockStatus(" +:+ h +:+ "): "))
               (swrite e (CSetBlockStatus h) (λ s, Ok (SetBlockStatus h StatusRejected s)))) hashes.

(** Errors of the clean-up are logged. *)
Definition ignored (m : LM unit) : NM unit := mor () (on_ledger m).
Definition delete_staged (h : string) : LM unit :=
  swrite e (CDeleteStagedBlock h) (λ s, Ok (DeleteStagedBlock h s)).
Definition delete_votes (account previous : string) : LM unit :=
  swrite e (CDeleteVotesForConflict account previous) (λ s, Ok (DeleteVotesForConflict account previous s)).
Definition RemoveConflict (account previous : string) : LM unit :=
  swrite e (CDeleteConflict account previous) (λ s, Ok (DeleteConflict account previous s)).

Definition cleanupResolvedConflict (r : quorumResult) : NM unit :=
  let a := qr_ConflictAccount r in let p := qr_ConflictPrev r in
  ignored (delete_staged (qr_WinnerHash r)) ;!
  ignored (rejectBlocks (qr_LoserHashes r)) ;!
  mfor (λ h, ignored (delete_staged h)) (qr_LoserHashes r) ;!
  ignored (delete_votes a p) ;!
  ignored (RemoveConflict a p) ;!
  mmodify (λ n, with_withheld (delete (position_key a p) (withheldLogNanos n)) n) ;!
  if ve_onFinalized V then mmodify (emit EvFinalized) else mret_ ().

Definition appendStagedWinner (r : quorumResult) (winnerBlock : Block) : NM bool :=
  let! chain := on_ledger (GetAccountChain e (qr_ConflictAccount r)) in
  if negb (b_Previous winnerBlock =?s Frontier (default [] chain)) then mret_ false
  else
    mtry (on_ledger (dispatchValidateAndAdd e winnerBlock true)) (λ res,
      match res with
      | Ok _ => mret_ true
      | Err err => if IsRetryableError (Some err) then mret_ false else mfail err
      end).

(** The loop over the losers: the first one on the chain is swapped. *)
Fixpoint swap_losers (r : quorumResult) (winnerBlock : Block) (losers : list string) : NM bool :=
  match losers with
  | [] => mret_ false
  | loserHash :: losers =>
      mtry (on_ledger (GetBlockHeight e (qr_ConflictAccount r) loserHash)) (λ h,
        match h with
        | Err _ => swap_losers r winnerBlock losers
        | Ok _ =>
            let! mainBlock := on_ledger (LGetBlock e loserHash) in
            match mainBlock with
            | None => swap_losers r winnerBlock losers
            | Some mainBlock =>
                mwrap (wrapf "confirmConflict: SaveStagedBlock (demoted): ")
                  (on_ledger (swrite e (CSaveStagedBlock (b_Hash mainBlock)) (λ s, Ok (SaveStagedBlock mainBlock s)))) ;!
                mtry (on_ledger (swapBlockLocked e (qr_ConflictAccount r) loserHash (qr_WinnerHash r) winnerBlock))
                  (λ res,
                    match res with
                    | Ok _ => mret_ true
                    | Err err =>
                        (if errors_Is err "ErrWinnerFullValidation" && negb (IsRetryableError (Some err)) then
                           mmodify (λ n, with_failedPromotions
                             (<[failedPromotionKey (qr_ConflictAccount r) (qr_ConflictPrev r) (qr_WinnerHash r) := Now e]>
                                (failedPromotions n)) n)
                         else mret_ ()) ;!
                        mfail (wrapf "confirmConflict: SwapBlock: " err)
                    end)
            end
        end)
  end.

Definition check_winner_pow (r : quorumResult) (b : Block) : result unit :=
  if 0 <? difficulty e then
    let? hashBytes := result_map_err (wrapf "confirmConflict: decode winner hash: ") (DecodeString (b_Hash b)) in
    rfail_if (negb (ValidatePoW hashBytes (b_PoWNonce b) (difficulty e)))
      (errorf ("confirmConflict: winner block " +:+ shortHash (qr_WinnerHash r) +:+ " failed PoW validation"))
  else Ok ().

(** The branch for a winner that is staged and not on the chain: whether the
    winner is on the chain afterwards *)
Definition promote_winner (r : quorumResult) (winnerBlock : Block) : NM bool :=
  mwrap (wrapf "confirmConflict: verify winner: ") (mlift (VerifyBlock (networkID e) winnerBlock)) ;!
  mlift (check_winner_pow r winnerBlock) ;!
  let! parentBalance :=
    on_ledger (staged_parent_balance (qr_ConflictAccount r) (qr_ConflictPrev r) winnerBlock) in
  mwrap (wrapf "confirmConflict: invalid staged winner: ")
    (on_ledger (ValidateStagedBlock e winnerBlock parentBalance)) ;!
  let! swapped := swap_losers r winnerBlock (qr_LoserHashes r) in
  if swapped then mret_ true
  else mwrap (wrapf "confirmConflict: append winner: ") (appendStagedWinner r winnerBlock).

Definition recordFinalityAdvance (n : Node) : Node :=
  with_finality (u64_add (finalityAdvances n) 1) (Now e) n.

Definition observeFinalityAdvance (blocks : Z) (winner : option Block) : NM unit :=
  if blocks =? 0 then mret_ ()
  else if ve_observer V then mmodify (emit (EvFinality blocks winner)) else mret_ ().

Definition confirmConflict (r : quorumResult) : NM unit :=
  let a := qr_ConflictAccount r in let w := qr_WinnerHash r in
  let! final := on_ledger (IsFinalized e a w) in
  if final then cleanupResolvedConflict r
  else
    let! winnerBlock := mwrap (wrapf "confirmConflict: GetStagedBlock: ") (on_ledger (GetStagedBlock w)) in
    let! placed :=
      match winnerBlock with
      | None => mret_ true
      | Some wb =>
          mtry (on_ledger (GetBlockHeight e a w)) (λ h,
            match h with Ok _ => mret_ true | Err _ => promote_winner r wb end)
      end in
    if negb placed then mret_ ()
    else
      let! advanced := on_ledger (advance_final e a w) in
      match advanced with
      | Some blocks =>
          mmodify recordFinalityAdvance ;!
          let! b := on_ledger (GetBlockOrStaged e w) in
          observeFinalityAdvance blocks b
      | None => mret_ ()
      end ;!
      on_ledger (finalizeBlock w) ;!
      cleanupResolvedConflict r.

Definition Retally (account previous : string) : NM unit :=
  mtry (finalTally account previous) (λ r,
    match r with
    | Ok (Some r) => mor () (confirmConflict r)  (* logged *)
    | _ => mret_ ()
    end).

Definition OnVote (v : Vote) : NM unit := Retally (v_ConflictAccount v) (v_ConflictPrev v).

(** ** The sweep *)

Definition on_chain (chain : option AccountChain) (h : string) : bool :=
  existsb (λ b, b_Hash b =?s h) (default [] chain).

Fixpoint any_rejected (hs : list string) : LM bool :=
  match hs with
  | [] => mret_ false
  | h :: hs =>
      let! st := mor StatusPending (GetBlockStatus h) in
      if st =?s StatusRejected then mret_ true else any_rejected hs
  end.

Definition conflictOrphanedByRollback (c : Conflict) : LM bool :=
  mtry (GetAccountChain e (c_AccountAddress c)) (λ r,
    match r with
    | Err _ => mret_ false
    | Ok chain =>
        let positionDead :=
          if c_PreviousHash c =?s "0" then bool_decide (default [] chain = [])
          else negb (on_chain chain (c_PreviousHash c)) in
        if negb positionDead then mret_ false
        else if existsb (on_chain chain) (c_BlockHashes c) then mret_ false
        else any_rejected (c_BlockHashes c)
    end).

Definition dropConflictIfOrphaned (c : Conflict) : NM bool :=
  let! orphaned := on_ledger (conflictOrphanedByRollback c) in
  if negb orphaned then mret_ false
  else
    ignored (delete_votes (c_AccountAddress c) (c_PreviousHash c)) ;!
    ignored (RemoveConflict (c_AccountAddress c) (c_PreviousHash c)) ;!
    mret_ true.

Definition dropConflictIfResolved (c : Conflict) : NM bool :=
  let! winner := on_ledger (FinalizedChildHash e (c_AccountAddress c) (c_PreviousHash c)) in
  if winner =?s "" then mret_ false
  else
    cleanupResolvedConflict (mkQuorumResult (c_AccountAddress c) (c_PreviousHash c) winner
      (filter (λ h, h ≠ winner) (c_BlockHashes c)) 0 0) ;!
    mret_ true.

Definition GetAllConflicts : LM (list Conflict) :=
  sread e CGetAllConflicts (λ s, ve_conflicts V (conflicts s)).

Definition pruneOrphanedConflicts : NM unit :=
  mtry (on_ledger GetAllConflicts) (λ r,
    match r with
    | Err _ => mret_ ()
    | Ok cs => mfor (λ c, dropConflictIfOrphaned c ;! mret_ ()) cs
    end).

Definition splitPhantomsByVoteWeight (account previous : string) (phantoms : list string)
    : LM (list string * list string) :=
  let! vs := mor [] (GetVotesByConflict account previous) in
  let weighted : gset string := list_to_set (v_BlockHash <$> filter (λ v, 0 < v_Weight v) vs) in
  mret_ (filter (λ h, h ∈ weighted) phantoms, filter (λ h, h ∉ weighted) phantoms).

Definition with_hashes (hs : list string) (c : Conflict) : Conflict :=
  mkConflict (c_AccountAddress c) (c_PreviousHash c) hs (c_DetectedAt c) (c_WeightSnapshot c)
    (c_TotalWeight c).
Definition trim (hs : list string) (c : Conflict) : NM unit := ignored (save_conflict e (with_hashes hs c)).

(** The hashes of a conflict whose block is held, and those whose block is not *)
Fixpoint split_held (hs : list string) : LM (list string * list string) :=
  match hs with
  | [] => mret_ ([], [])
  | h :: hs =>
      let! b := GetBlockOrStaged e h in
      let! (real, phantoms) := split_held hs in
      mret_ (if bool_decide (b = None) then (real, h :: phantoms) else (h :: real, phantoms))
  end.

(** The case of a single block that is held *)
Definition resolve_single (c : Conflict) (real : string) (live dead : list string) : NM bool :=
  let a := c_AccountAddress c in let p := c_PreviousHash c in
  let! final := on_ledger (IsFinalized e a real) in
  if final then
    ignored (delete_votes a p) ;!
    ignored (RemoveConflict a p) ;!
    mret_ false
  else
    (if bool_decide (dead = []) then mret_ () else trim (real :: live) c) ;!
    mtry (finalTally a p) (λ r,
      match r with
      | Ok (Some r) => mor () (confirmConflict r)
      | _ => mret_ ()
      end) ;!
    mret_ false.

Definition evictPhantomsAndResolve (c : Conflict) : NM bool :=
  let a := c_AccountAddress c in let p := c_PreviousHash c in
  let! (realBlocks, phantoms) := on_ledger (split_held (c_BlockHashes c)) in
  if bool_decide (phantoms = []) then mret_ true
  else
    (if ve_phantomPull V then mmodify (emit (EvPhantomPull a p phantoms)) else mret_ ()) ;!
    let! (live, dead) := on_ledger (splitPhantomsByVoteWeight a p phantoms) in
    let expired := negb (bool_decide (realBlocks = [])) && negb (bool_decide (live = [])) &&
                   (phantomUnretrievableTimeout <=? time_Sub (Now e) (c_DetectedAt c)) in
    let dead := if expired then dead ++ live else dead in
    let live := if expired then [] else live in
    match realBlocks with
    | [] =>
        (if negb (bool_decide (live = [])) then
           if negb (bool_decide (dead = [])) then trim live c else mret_ ()
         else ignored (RemoveConflict a p)) ;!
        mret_ false
    | [real] => resolve_single c real live dead
    | _ =>
        (if negb (bool_decide (dead = [])) then trim (realBlocks ++ live) c else mret_ ()) ;!
        mret_ (bool_decide (live = []))
    end.

(** [revote] is the callback [RevoteFn]. *)
Definition sweep_conflict (revote : option (string → string → NM unit)) (c : Conflict) : NM unit :=
  let a := c_AccountAddress c in let p := c_PreviousHash c in
  let! resolved := dropConflictIfResolved c in
  if resolved then mret_ ()
  else
    let! orphaned := dropConflictIfOrphaned c in
    if orphaned then mret_ ()
    else
      let age := time_Sub (Now e) (c_DetectedAt c) in
      let! go :=
        (if phantomEvictionDelay <=? age then evictPhantomsAndResolve c
         else mret_ (staleConflictAge <=? age)) in
      if negb go then mret_ ()
      else
        match revote with Some f => f a p | None => mret_ () end ;!
        let! unresolved :=
          mtry (finalTally a p) (λ r,
            match r with
            | Ok (Some r) => mor () (confirmConflict r) ;! mret_ false
            | _ => mret_ true
            end) in
        if unresolved && ve_votePull V then mmodify (emit (EvVotePull a p)) else mret_ ().

Definition sweepStaleConflicts (revote : option (string → string → NM unit)) : NM unit :=
  mtry (on_ledger GetAllConflicts) (λ r,
    match r with
    | Err _ => mret_ ()
    | Ok cs => mfor (sweep_conflict revote) cs
    end).
End quorum.
