(* ===== verification/Vote.v ===== *)
(** * Voting: [core/vote.go] and [core/finalization.go]

    Validation and intake of votes from the network, and the node's own votes: a
    preference for the lowest candidate, a lock on it once it has converged, and
    final votes that follow the lock. *)
From S2P Require Import Prelude GoLib Types Encoding LeaseMath Crypto Multisig Attestation Genesis Reputation Store Ledger Rollback Handlers Restart AddBlock Swap Quorum.

Definition voteWindowNanos : Z := 5 * 60 * 1000000000.
Definition maxPendingVotesPerConflict : Z := 10.
Definition revoteBackoff : Z := 15 * 1000000000.
Definition pullStampTTL : Z := 10 * revoteBackoff.

Record blockDep := mkDep { bd_account : string; bd_hash : string }.

(** [hashes[0]] of an empty list panics *)
Definition lowestHash (hashes : list string) : result string :=
  match hashes with
  | [] => Err (panic "index out of range [0] with length 0")
  | h :: hs => Ok (foldl (λ lowest h, if str_ltb h lowest then h else lowest) h hs)
  end.

Section vote.
Context `{C : Crypto} (V : VoteEnv).
Notation e := (ve_env V).

(** ** Dependencies *)

Definition accountOfBlock (hash : string) : LM string :=
  let! blk := LGetBlock e hash in
  mret_ (match blk with Some b => b_Account b | None => ""%string end).

Definition blockDependencies (b : Block) : LM (list blockDep) :=
  let deps := if negb (b_Previous b =?s "") && negb (b_Previous b =?s "0")
              then [mkDep (b_Account b) (b_Previous b)] else [] in
  match b_Type b with
  | BlockReceive | BlockLeaseAccept | BlockLeaseSettle | BlockLeaseCancel | BlockLeaseForceSettle
  | BlockLeaseRenew =>
      if negb (b_Source b =?s "") && negb (b_Source b =?s "0") then
        let! account := accountOfBlock (b_Source b) in
        mret_ (deps ++ [mkDep account (b_Source b)])
      else mret_ deps
  | BlockSend | BlockBurn | BlockMint | BlockLease | BlockMultisigOpen | BlockMultisigUpdate
  | BlockGenesis => mret_ deps
  | BlockOther t => mret_ (deps ++ [mkDep "" ("unknown-type:" +:+ t)])
  end.

Fixpoint all_finalized (deps : list blockDep) : LM bool :=
  match deps with
  | [] => mret_ true
  | d :: deps =>
      if bd_account d =?s "" then mret_ false
      else
        let! final := IsFinalized e (bd_account d) (bd_hash d) in
        if negb final then mret_ false else all_finalized deps
  end.

Definition depsFinalized (b : Block) : LM bool :=
  let! deps := blockDependencies b in
  all_finalized deps.

(** ** The votes of a position *)

Definition RepAccount (v : Vote) : string :=
  match DeriveAddress (v_RepPubKey v) with Ok a => a | Err _ => "" end.

Definition GetVote (account previous rep : string) : LM (option Vote) :=
  sread e (CGetVote account previous rep) (λ s, votes s !! (account, previous, rep)).
Definition put_vote (v : Vote) : LM unit :=
  swrite e (CPutVote (v_ConflictAccount v) (v_ConflictPrev v) (v_RepPubKey v)) (λ s, Ok (PutVote v s)).
Definition GetFinalVote (account previous : string) : LM (option string) :=
  sread e (CGetFinalVote account previous) (λ s, finalVotes s !! (account, previous)).
(** The vote that is stored afterwards: the one that was there, or this one *)
Definition PutFinalVoteIfAbsent (account previous hash : string) : LM string :=
  let! s := sread e (CPutFinalVote account previous) id in
  match finalVotes s !! (account, previous) with
  | Some existing => mret_ existing
  | None => mmodify (λ L, with_store (PutFinalVote account previous hash (store L)) L) ;! mret_ hash
  end.

Definition electionTotalWeight (account prev : string) : NM Z :=
  let! c := LGetConflictN V account prev in
  on_ledger (conflict_total V c).

Definition convergeWeights (account prev : string) : NM (gmap string Z * Z) :=
  let! vs := mor [] (on_ledger (GetVotesByConflict V account prev)) in
  let cw := foldl (λ m v, <[v_BlockHash v := get_weight m (v_BlockHash v) + v_Weight v]> m) ∅ vs in
  let! total := electionTotalWeight account prev in
  mret_ (cw, total).

Definition gatherCandidates (account prev : string) (seed : list string) : NM (list string) :=
  let set : gset string := list_to_set (filter (λ h, h ≠ ""%string) seed) in
  let! vs := mor [] (on_ledger (GetVotesByConflict V account prev)) in
  let set := list_to_set (v_BlockHash <$> vs) ∪ set in
  let! c := LGetConflictN V account prev in
  let set := match c with Some c => list_to_set (c_BlockHashes c) ∪ set | None => set end in
  mret_ (ve_order V set).

Definition positionResolved (account prev : string) : LM bool :=
  if (prev =?s "") || (prev =?s "0") then
    let! fh := FinalHeight e account in mret_ (0 <? fh)
  else
    mtry (GetBlockHeight e account prev) (λ r,
      match r with
      | Err _ => mret_ false
      | Ok h => if h =? 0 then mret_ false
                else let! fh := FinalHeight e account in mret_ (h <? fh)
      end).

Definition GetChain (account : string) : LM (list Block) :=
  let! chain := mor None (GetAccountChain e account) in
  mret_ (default [] chain).

Definition finalizedChildAt (account prev : string) : LM string :=
  let! chain := GetChain account in
  let! fh := FinalHeight e account in
  mret_ (finalized_child ((prev =?s "") || (prev =?s "0")) prev fh 0 chain).

(** ** Building a vote *)

Definition is_uint64 (z : Z) : bool := (0 <=? z) && (z <=? max_u64).

(** The weight a vote carries: from the snapshot of the conflict, or the current
    one when it fits *)
Definition vote_weight (account prev repAccount : string) : NM Z :=
  let! c := LGetConflictN V account prev in
  match c with
  | Some (mkConflict _ _ _ _ (Some snapshot) _) => mret_ (get_weight snapshot repAccount)
  | _ => let! w := on_ledger (GetVoteWeight e repAccount) in
         mret_ (if is_uint64 w then w else 0)
  end.

Definition with_signature (sig : list Z) (v : Vote) : Vote :=
  mkVote (v_RepPubKey v) (v_BlockHash v) (v_ConflictAccount v) (v_ConflictPrev v) (v_Timestamp v)
    (v_Final v) sig (v_Weight v).
Definition with_weight (w : Z) (v : Vote) : Vote :=
  mkVote (v_RepPubKey v) (v_BlockHash v) (v_ConflictAccount v) (v_ConflictPrev v) (v_Timestamp v)
    (v_Final v) (v_Signature v) w.

Definition buildVote (kp : KeyPair) (account prev blockHash : string) (final : bool) : NM (option Vote) :=
  let! w := vote_weight account prev (Address kp) in
  let v := mkVote (PubKeyHex kp) blockHash account prev (Now e) final [] w in
  mret_ (match voteSigningBytes v with
         | Err _ => None
         | Ok sb => Some (with_signature (ed25519_Sign (kp_Private kp) sb) v)
         end).

Definition emit_vote (v : Vote) : NM unit :=
  if ve_emitter V then mmodify (emit (EvVote v)) else mret_ ().

(** [Sync] of a store that has it; whether the caller may go on *)
Definition synced : bool := match ve_sync V with Some (Some _) => false | _ => true end.

Definition stamp_revote (key : string) : NM unit :=
  mmodify (λ n, with_lastRevote (<[key := Now e]> (lastRevoteNanos n)) n).

(** Whether the backoff since the last vote under a key is over *)
Definition backoff_over (key : string) : NM bool :=
  let! m := mgets lastRevoteNanos in
  let last := get_weight m key in
  mret_ ((last =? 0) || (revoteBackoff <=? i64_sub (Now e) last)).

(** ** Locking and final votes *)

Definition notify_quorum (v : Vote) : NM unit := if ve_quorum V then OnVote V v else mret_ ().

Definition emitFinalLocked (kp : KeyPair) (account prev lockTarget : string) : NM unit :=
  mtry (on_ledger (PutFinalVoteIfAbsent account prev lockTarget)) (λ r,
    match r with
    | Err _ => mret_ ()
    | Ok locked =>
        let! lockedBlock := on_ledger (GetBlockOrStaged e locked) in
        match lockedBlock with
        | None => mret_ ()
        | Some lockedBlock =>
            let! ready := on_ledger (depsFinalized lockedBlock) in
            if negb ready then mret_ ()
            else
              let! existing := mor None (on_ledger (GetVote account prev (PubKeyHex kp))) in
              if match existing with
                 | Some x => v_Final x && (v_BlockHash x =?s locked)
                 | None => false end
              then mret_ ()
              else
                let! v := buildVote kp account prev locked true in
                match v with
                | None => mret_ ()
                | Some v =>
                    mtry (on_ledger (put_vote v)) (λ r,
                      match r with
                      | Err _ => mret_ ()
                      | Ok _ =>
                          if negb synced then mret_ ()
                          else notify_quorum v ;! emit_vote v
                      end)
                end
        end
    end).

(** The candidates whose block is held for the first time restart the clock. *)
Fixpoint note_held (key : string) (candidates : list string) : NM unit :=
  match candidates with
  | [] => mret_ ()
  | h :: candidates =>
      let! n := mget in
      let seen := default ∅ (seenCandidates n !! key) in
      (if bool_decide (h ∈ seen) then mret_ ()
       else
         let! b := on_ledger (GetBlockOrStaged e h) in
         match b with
         | None => mret_ ()
         | Some _ =>
             mmodify (λ n, with_candidates (<[key := Now e]> (lastNewCandidateNanos n))
               (<[key := {[h]} ∪ default ∅ (seenCandidates n !! key)]> (seenCandidates n)) n)
         end) ;!
      note_held key candidates
  end.

Definition noteHeldCandidatesLocked (account prev : string) (candidates : list string) : NM unit :=
  let key := position_key account prev in
  mmodify (λ n, with_candidates (lastNewCandidateNanos n)
    (<[key := default ∅ (seenCandidates n !! key)]> (seenCandidates n)) n) ;!
  note_held key candidates.

(** The time left of the window, and whether a candidate has been seen at all *)
Definition stabilityWindowRemaining (account prev : string) : NM (Z * bool) :=
  let! m := mgets lastNewCandidateNanos in
  let stamp := get_weight m (position_key account prev) in
  mret_ (if stamp =? 0 then (lockStabilityWindow, false)
         else (i64_sub lockStabilityWindow (i64_sub (Now e) stamp), true)).

Definition scheduleStabilityRedrive (account prev : string) (remaining : Z) : NM unit :=
  let key := position_key account prev in
  let! n := mget in
  if vm_closed n || bool_decide (is_Some (pendingStabilityRedrive n !! key)) then mret_ ()
  else
    mmodify (with_redrive (<[key := (i64_add remaining 100000000, (account, prev))]>
                             (pendingStabilityRedrive n)) (vm_closed n)).

Definition maybeLockLocked (kp : KeyPair) (account prev pref : string) : NM unit :=
  let! (cw, total) := convergeWeights account prev in
  if negb (bool_decide (is_Some (cw !! pref)) && thresholdMet (get_weight cw pref) total) then mret_ ()
  else
    let! (remaining, ok) := stabilityWindowRemaining account prev in
    if negb ok || (0 <? remaining) then
      scheduleStabilityRedrive account prev (if remaining <? 0 then 0 else remaining)
    else emitFinalLocked kp account prev pref.

(** ** Casting a vote *)

(** The node's own final vote is repeated, at most once per backoff. *)
Definition reemit_final (kp : KeyPair) (account prev : string) (existing : Vote) : NM unit :=
  let key := position_key account prev in
  let! reEmit := backoff_over key in
  if reEmit && ve_emitter V then
    if negb synced then mret_ ()
    else
      stamp_revote key ;!
      let! fresh := buildVote kp account prev (v_BlockHash existing) true in
      match fresh with Some v => emit_vote v | None => mret_ () end
  else mret_ ().

(** The candidates that may be preferred: held, or named by the conflict *)
Fixpoint eligible_candidates (conflict : option Conflict) (candidates : list string) : LM (list string) :=
  match candidates with
  | [] => mret_ []
  | h :: candidates =>
      let! b := GetBlockOrStaged e h in
      let keep_ := negb (bool_decide (b = None)) ||
                   match conflict with Some c => containsConflictHash (c_BlockHashes c) h | None => false end in
      let! rest := eligible_candidates conflict candidates in
      mret_ (if keep_ then h :: rest else rest)
  end.

(** The vote for the preferred candidate *)
Definition vote_preference (kp : KeyPair) (account prev pref : string) : NM unit :=
  let key := position_key account prev in
  let! existing := mor None (on_ledger (GetVote account prev (PubKeyHex kp))) in
  let prefChanged := match existing with
                     | Some x => negb (v_BlockHash x =?s pref) || v_Final x
                     | None => true end in
  let! due := (if prefChanged then mret_ true else backoff_over key) in
  if negb due then mret_ ()
  else
    let! v := buildVote kp account prev pref false in
    match v with
    | None => mret_ ()
    | Some v =>
        mor () (on_ledger (put_vote v)) ;!
        notify_quorum v ;!
        emit_vote v ;!
        stamp_revote key
    end.

Definition choose_and_vote (kp : KeyPair) (account prev : string) (seed : list string) : NM unit :=
  let! candidates := gatherCandidates account prev seed in
  if bool_decide (candidates = []) then mret_ ()
  else
    noteHeldCandidatesLocked account prev candidates ;!
    let! conflict := LGetConflictN V account prev in
    let! eligible := on_ledger (eligible_candidates conflict candidates) in
    if bool_decide (eligible = []) then mret_ ()
    else
      let! pref := mlift (lowestHash eligible) in
      let! prefBlock := on_ledger (GetBlockOrStaged e pref) in
      match prefBlock with
      | None => mret_ ()
      | Some prefBlock =>
          let! ready := on_ledger (depsFinalized prefBlock) in
          if negb ready then mret_ ()
          else
            vote_preference kp account prev pref ;!
            maybeLockLocked kp account prev pref
      end.

Definition castVoteLocked (account prev : string) (seed : list string) : NM unit :=
  match ve_keyPair V with
  | None => mret_ ()
  | Some kp =>
      let! w := on_ledger (GetVoteWeight e (Address kp)) in
      if w <=? 0 then mret_ ()
      else
        let! resolved := on_ledger (positionResolved account prev) in
        if resolved then mret_ ()
        else
          let! existing := mor None (on_ledger (GetVote account prev (PubKeyHex kp))) in
          match existing with
          | Some (mkVote _ _ _ _ _ true _ _ as x) => reemit_final kp account prev x
          | _ =>
              let! locked := mor None (on_ledger (GetFinalVote account prev)) in
              match locked with
              | Some locked => emitFinalLocked kp account prev locked
              | None => choose_and_vote kp account prev seed
              end
          end
  end.

(** The lock of a position serialises its votes; it is not state. *)
Definition CastVote (account prev : string) (seed : list string) : NM unit :=
  castVoteLocked account prev seed.

(** The timer of a stability window *)
Definition fire_redrive (key account prev : string) : NM unit :=
  let! n := mget in
  mmodify (with_redrive (delete key (pendingStabilityRedrive n)) (vm_closed n)) ;!
  if vm_closed n then mret_ () else CastVote account prev [].

Definition Close : NM unit := mmodify (with_redrive ∅ true).

(** ** Votes from the network *)

Definition verified_signature (v : Vote) : result bool :=
  let? pub := DecodePublicKey (v_RepPubKey v) in
  let? signingBytes := voteSigningBytes v in
  Ok (ed25519_Verify pub signingBytes (v_Signature v)).

Definition VerifyVoteSignature (v : Vote) : bool :=
  match verified_signature v with Ok ok => ok | Err _ => false end.

Definition timestamp_delta (v : Vote) : Z :=
  if Now e <? v_Timestamp v then i64_sub (v_Timestamp v) (Now e) else i64_sub (Now e) (v_Timestamp v).

(** [v.RepPubKey[:8]] of a key that has been decoded *)
Definition ValidateVote (v : Vote) : LM unit :=
  let! ok := mwrap (wrapf "ValidateVote: ") (mlift (verified_signature v)) in
  mfail_if (negb ok) (errorf "ValidateVote: signature verification failed") ;!
  let! weight := GetVoteWeight e (RepAccount v) in
  mfail_if (weight <=? 0)
    (errorf ("ValidateVote: representative " +:+ String.substring 0 8 (v_RepPubKey v) +:+ " has zero vote weight")) ;!
  mfail_if (v_Timestamp v <? 0) (errorf "ValidateVote: timestamp must not be negative") ;!
  mfail_if (voteWindowNanos <? timestamp_delta v)
    (errorf ("ValidateVote: timestamp out of range: delta=" +:+ Duration_String (timestamp_delta v))).

Definition isConflictNotFound (v : Vote) : LM bool :=
  match verified_signature v with
  | Err _ | Ok false => mret_ false
  | Ok true =>
      let! weight := GetVoteWeight e (RepAccount v) in
      if weight <=? 0 then mret_ false
      else if v_Timestamp v <? 0 then mret_ false
      else if voteWindowNanos <? timestamp_delta v then mret_ false
      else
        let! conflict := LGetConflict e (v_ConflictAccount v) (v_ConflictPrev v) in
        mret_ (bool_decide (conflict = None))
  end.

Definition bufferVote (v : Vote) : NM unit :=
  let key := position_key (v_ConflictAccount v) (v_ConflictPrev v) in
  let! m := mgets pendingVotes in
  let buffered := default [] (m !! key) in
  if maxPendingVotesPerConflict <=? zlen buffered then mret_ ()
  else mmodify (with_pendingVotes (<[key := buffered ++ [v]]> m)).

Definition receiveVoteInner (v : Vote) : NM unit :=
  let! existing := mwrap (wrapf "ReceiveVote: GetVote: ")
    (on_ledger (GetVote (v_ConflictAccount v) (v_ConflictPrev v) (v_RepPubKey v))) in
  match existing with
  | Some (mkVote _ _ _ _ _ true _ _) => mret_ ()
  | _ =>
      let! w := vote_weight (v_ConflictAccount v) (v_ConflictPrev v) (RepAccount v) in
      let v := with_weight w v in
      on_ledger (put_vote v) ;!
      mmodify (λ n, with_lastRevote
        (delete (position_key (v_ConflictAccount v) (v_ConflictPrev v)) (lastRevoteNanos n)) n) ;!
      notify_quorum v
  end.

Definition flushPendingVotes (account prev : string) : NM unit :=
  let key := position_key account prev in
  let! m := mgets pendingVotes in
  mmodify (with_pendingVotes (delete key m)) ;!
  mfor (λ v,
    mtry (on_ledger (ValidateVote v)) (λ r,
      match r with
      | Err _ => mret_ ()
      | Ok _ => mor () (receiveVoteInner v)
      end)) (default [] (m !! key)).

Definition reaffirmFromState (account prev : string) : NM unit :=
  match ve_keyPair V with
  | None => mret_ ()
  | Some kp =>
      if negb (ve_emitter V) then mret_ ()
      else
        let! w := on_ledger (GetVoteWeight e (Address kp)) in
        if w <=? 0 then mret_ ()
        else
          let key := position_key account prev in
          let! due := backoff_over key in
          if negb due then mret_ ()
          else
            stamp_revote key ;!
            let! winner := on_ledger (finalizedChildAt account prev) in
            if winner =?s "" then mret_ ()
            else
              let! fresh := buildVote kp account prev winner true in
              match fresh with Some v => emit_vote v | None => mret_ () end
  end.

Definition ReceiveVote (v : Vote) : NM unit :=
  let a := v_ConflictAccount v in let p := v_ConflictPrev v in
  mtry (on_ledger (ValidateVote v)) (λ r,
    match r with
    | Err err =>
        let! buffered := on_ledger (isConflictNotFound v) in
        if buffered then bufferVote v else mfail err
    | Ok _ =>
        let! resolved := on_ledger (positionResolved a p) in
        if resolved then reaffirmFromState a p
        else
          receiveVoteInner v ;!
          castVoteLocked a p []
    end).

(** ** Callbacks of the ledger *)

Definition OnConflict (c : Conflict) : NM unit :=
  if bool_decide (c_BlockHashes c = []) then mret_ ()
  else
    flushPendingVotes (c_AccountAddress c) (c_PreviousHash c) ;!
    castVoteLocked (c_AccountAddress c) (c_PreviousHash c) (c_BlockHashes c).

Definition OnBlockAdded (b : Block) : NM unit :=
  if b_Type b =?s BlockGenesis then mret_ ()
  else CastVote (b_Account b) (b_Previous b) [b_Hash b].

(** ** The sweep over the frontiers *)

Definition hasVoteWeight : NM bool :=
  match ve_keyPair V with
  | None => mret_ false
  | Some kp => let! w := on_ledger (GetVoteWeight e (Address kp)) in mret_ (0 <? w)
  end.

Definition evictStalePullStamps : NM unit :=
  mmodify (λ n, with_lastRevote
    (filter (λ kv, ¬ (HasPrefix kv.1 "pull|" = true ∧ kv.2 < i64_sub (Now e) pullStampTTL)) (lastRevoteNanos n)) n).

Definition pullVotesFor (account prev : string) : NM unit :=
  match ve_pull V with
  | None => mret_ ()
  | Some pull =>
      let key := "pull|" +:+ account +:+ "|" +:+ prev in
      let! due := backoff_over key in
      if negb due then mret_ ()
      else if negb (pull account prev) then mret_ ()
      else stamp_revote key
  end.

(** The first position from the final height on that is not the genesis block *)
Fixpoint pull_floor (i : nat) (chain : list Block) : option (nat * Block) :=
  match chain with
  | [] => None
  | b :: chain => if b_Type b =?s BlockGenesis then pull_floor (S i) chain else Some (i, b)
  end.

Definition pullChainVotes (account : string) (chain : list Block) (fh : nat) : NM unit :=
  match pull_floor fh (drop fh chain), last chain with
  | Some (floor, lo), Some hi =>
      (if bool_decide (S floor = length chain) then mret_ () else pullVotesFor account (b_Previous hi)) ;!
      pullVotesFor account (b_Previous lo)
  | _, _ => mret_ ()
  end.

Definition sweep_account (pullOnly : bool) (account : string) : NM unit :=
  let! fh := on_ledger (FinalHeight e account) in
  let! chain := on_ledger (GetChain account) in
  if pullOnly then pullChainVotes account chain (Z.to_nat fh)
  else
    mfor (λ b, if b_Type b =?s BlockGenesis then mret_ ()
               else CastVote account (b_Previous b) [b_Hash b]) (drop (Z.to_nat fh) chain).

(** The accounts come from a map; their order is that of the iteration. *)
Definition sweepFrontiersOnce : NM unit :=
  let! voting := hasVoteWeight in
  evictStalePullStamps ;!
  let! n := mget in
  mfor (sweep_account (negb voting)) (ve_order V (dom (frontiers (store (n_ledger n))))).

(** The votes a node serves for a position, with its own final vote for what it
    has finalized *)
Definition VotesForPosition (account prev : string) : NM (list Vote) :=
  let! out := mor [] (on_ledger (GetVotesByConflict V account prev)) in
  match ve_keyPair V with
  | None => mret_ out
  | Some kp =>
      let! w := on_ledger (GetVoteWeight e (Address kp)) in
      if w <=? 0 then mret_ out
      else
        let! winner := on_ledger (finalizedChildAt account prev) in
        if winner =?s "" then mret_ out
        else if existsb (λ v, (v_RepPubKey v =?s PubKeyHex kp) && v_Final v) out then mret_ out
        else
          let! fresh := buildVote kp account prev winner true in
          mret_ (match fresh with Some v => out ++ [v] | None => out end)
  end.
End vote.
