(* ===== verification/LedgerSpec.v ===== *)
(** * What the ledger promises

    The well-formedness invariant of a ledger, the supply it accounts for, and
    the rules of the protocol: one rule per block type that says when a block
    is accepted and which write it causes.  [LedgerRefine.v] shows that the
    handlers implement the rules, [LedgerCommit.v] that the rules keep the
    invariant. *)
From S2P Require Import Prelude GoLib Types Encoding LeaseMath Crypto Multisig Attestation Genesis Reputation Store Ledger Rollback Handlers.

(** ** Ledgers up to what the accounting does not read

    The caches of keys and keysets, the reputation counters, the conflict
    records and the notifications are not part of the accounting. *)
Record Core := mkCore {
  co_blocks : gmap string Block;
  co_chains : gmap string AccountChain;
  co_pending : gmap string PendingSend;
  co_frontiers : gmap string string;
  co_leases : gmap string Lease;
  co_final : gmap string Z;
  co_delegations : gmap string string;
  co_balances : gmap string (gmap string Z);
  co_delegation : gmap string string;
  co_weights : gmap string Z;
  co_underflow : Z;
  co_cascade : option cascadeBuild }.

Definition core (L : Ledger) : Core :=
  let s := store L in
  mkCore (blocks s) (chains s) (pending s) (frontiers s) (leases s) (finalHeight s) (delegations s)
    (assetBalances L) (delegation L) (weights L) (delegationUnderflow L) (activeCascade L).

Definition core_eq (L L' : Ledger) : Prop := core L = core L'.
Infix "≈" := core_eq (at level 70).

#[global] Instance core_eq_equiv : Equivalence core_eq.
Proof. split; unfold core_eq; congruence. Qed.
#[global] Instance core_eq_preorder : PreOrder core_eq := _.

(** ** Chains *)

(** Every block names the hash of the one before it. *)
Fixpoint linked (prev : string) (c : AccountChain) : Prop :=
  match c with
  | [] => True
  | b :: c => b_Previous b = prev ∧ linked (b_Hash b) c
  end.

(** The types that may open an account *)
Definition opening (t : BlockType) : Prop :=
  match t with
  | BlockReceive | BlockMint | BlockGenesis | BlockMultisigOpen => True
  | _ => False
  end.

(** The fields of type [uint64] that the accounting reads *)
Definition block_words (b : Block) : Prop := is_u64 (b_Balance b) ∧ is_u64 (b_Amount b).

(** An acceptance carries the balance of the block before it: providers stake
    nothing. *)
Definition accepts_neutral (c : AccountChain) : Prop :=
  ∀ pre x post, c = pre ++ x :: post → b_Type x = BlockLeaseAccept →
    b_Balance x = assetBalanceOnChain (Some pre) (b_Asset x).

Record chain_ok (s : StoreState) (a : string) (c : AccountChain) : Prop := {
  ch_nonempty : c ≠ [];
  ch_linked : linked "0" c;
  ch_stored : ∀ b, b ∈ c → blocks s !! b_Hash b = Some b;
  ch_account : ∀ b, b ∈ c → b_Account b = a;
  ch_opening : ∀ b, head c = Some b → opening (b_Type b);
  ch_times : Sorted (λ x y, b_Timestamp x <= b_Timestamp y) c;
  ch_accept : accepts_neutral c;
  ch_nodup : NoDup (b_Hash <$> c);
  ch_frontier : frontiers s !! a = Some (Frontier c) }.

(** ** Supply *)

Definition circulating (s : StoreState) (asset : string) : Z :=
  map_sum (λ _ c, assetBalanceOnChain (Some c) asset) (chains s).

Definition pending_value (asset : string) (ps : PendingSend) : Z :=
  if norm_asset (ps_Asset ps) =?s asset then ps_Amount ps else 0.

Definition in_flight (s : StoreState) (asset : string) : Z :=
  map_sum (λ _ ps, pending_value asset ps) (pending s).

Definition supply (s : StoreState) (asset : string) : Z :=
  circulating s asset + in_flight s asset.

(** What a block adds to the XE and XUSD in existence *)
Definition xe_issue (b : Block) : Z :=
  match b_Type b with
  | BlockGenesis => b_Balance b
  | BlockLeaseSettle => b_Amount b
  | BlockBurn => - b_Amount b
  | _ => 0
  end.
Definition xusd_issue (b : Block) : Z :=
  match b_Type b with BlockMint => b_Amount b | _ => 0 end.

Definition sum_list (f : Block → Z) (c : AccountChain) : Z := foldr (λ b acc, f b + acc) 0 c.
Definition issued (f : Block → Z) (s : StoreState) : Z := map_sum (λ _ c, sum_list f c) (chains s).

(** The weight the chains delegate to a representative *)
Definition chain_weight (rep : string) (c : AccountChain) : Z :=
  if chain_rep c =?s rep then assetBalanceOnChain (Some c) "XE" else 0.
Definition delegated (s : StoreState) (rep : string) : Z :=
  map_sum (λ _ c, chain_weight rep c) (chains s).

(** ** The invariant *)

Definition escrow_ok (b : Block) (ps : PendingSend) : Prop :=
  b_Type b = BlockLease → ps_Asset ps = "XUSD" ∧ b_Amount b <= ps_Amount ps.

Record ledger_inv (L : Ledger) : Prop := {
  inv_cascade : activeCascade L = None;
  inv_blocks : ∀ h b, blocks (store L) !! h = Some b →
    b_Hash b = h ∧ h ≠ "0" ∧ h ≠ "" ∧ block_words b ∧ IsValidAsset (b_Asset b) = true;
  inv_chains : ∀ a c, chains (store L) !! a = Some c → chain_ok (store L) a c;
  inv_balances : ∀ a asset,
    getAssetBalance L a asset = assetBalanceOnChain (chains (store L) !! a) asset;
  inv_pending : ∀ h ps, pending (store L) !! h = Some ps →
    is_u64 (ps_Amount ps) ∧ ∃ b, blocks (store L) !! h = Some b ∧ escrow_ok b ps;
  inv_leases : ∀ h l, leases (store L) !! h = Some l →
    l_LeaseHash l = h ∧ l_Stake l = 0 ∧ ∃ b, blocks (store L) !! h = Some b ∧ b_Type b = BlockLease;
  inv_delegation : ∀ a,
    get_str (delegation L) a = from_option chain_rep "" (chains (store L) !! a);
  inv_delegations : delegations (store L) = delegation L;
  inv_weights : ∀ rep, rep ≠ "" → get_weight (weights L) rep = delegated (store L) rep;
  inv_underflow : delegationUnderflow L = 0;
  inv_xe : supply (store L) "XE" = issued xe_issue (store L);
  inv_xusd : supply (store L) "XUSD" <= issued xusd_issue (store L);
  inv_reps : ∀ a r, delegation L !! a = Some r → r ≠ "";
  inv_frontiers : ∀ a f, frontiers (store L) !! a = Some f → is_Some (chains (store L) !! a);
  inv_final : blocks (store L) = ∅ → finalHeight (store L) = ∅ }.

(** ** The rules *)

(** The write that appends [b] and nothing else *)
Definition base_commit (c : AccountChain) (b : Block) : BlockCommit :=
  mkBlockCommit b (b_Account b) (c ++ [b]) (b_Hash b) None "" None "" "" "" "" false None
    (b_PubKey b) "" LeaseStateEmpty None "" 0 0.

Definition chain_of (L : Ledger) (b : Block) : option AccountChain :=
  chains (store L) !! b_Account b.

Definition append (L : Ledger) (b : Block) : BlockCommit := base_commit (default [] (chain_of L b)) b.

(** The state after a write whose expectations held *)
Definition apply_commit (c : BlockCommit) (L : Ledger) : Ledger :=
  let rep := b_Representative (bc_Block c) in
  let c := with_rep (if rep =?s "" then get_str (delegation L) (bc_Account c) else rep) c in
  after_commit c (getAssetBalance L (bc_Account c) "XE")
    (with_store (commit_effect c (store L)) L).

Definition extends (L : Ledger) (b : Block) : Prop :=
  ∃ c, chain_of L b = Some c ∧ b_Previous b = Frontier c ∧
       ∀ p, last c = Some p → b_Timestamp p <= b_Timestamp b.

Definition starts (L : Ledger) (b : Block) : Prop :=
  chain_of L b = None ∧ b_Previous b = "0".

Definition debits (L : Ledger) (b : Block) : Prop :=
  b_Amount b <= getAssetBalance L (b_Account b) (b_Asset b) ∧
  b_Balance b = getAssetBalance L (b_Account b) (b_Asset b) - b_Amount b.

Definition credits (L : Ledger) (b : Block) (amount : Z) : Prop :=
  b_Balance b = getAssetBalance L (b_Account b) (b_Asset b) + amount.

Section rules.
Context `{C : Crypto} (e : Env) (skip : bool).

(** The time the timekeepers attest for a lease operation *)
Definition attested (b : Block) (t : Z) : Prop :=
  ∃ cfg, timekeeperConfigFn e = Some (Some cfg) ∧
    ValidateAttestations (timing e) (Now e) (b_Attestations b) (b_Source b) (Some cfg) skip = Ok t.

Definition certified (h provider : string) (cert : CertificateInfo) : Prop :=
  h ≠ "" ∧ (∃ f, certificateLookupFn e = Some f ∧ f h = Some cert) ∧ ci_Provider cert = provider.

Definition new_lease (b : Block) : Lease :=
  mkLease (b_Hash b) LeaseCreated (b_Account b) (b_Destination b) (b_VCPUs b)
    (b_MemoryMB b) (b_DiskGB b) (b_Duration b) (b_AccessPubKey b) (b_Amount b)
    0 0 (b_CertificateHash b) false 0 0 0 [].

Definition accepted_lease (lb b : Block) (t : Z) : Lease :=
  mkLease (b_Source b) LeaseAccepted (b_Account lb) (b_Account b) (b_VCPUs lb) (b_MemoryMB lb)
    (b_DiskGB lb) (b_Duration lb) (b_AccessPubKey lb) (b_Amount lb) (b_Amount b) t
    (b_CertificateHash b) false (b_LockedR b) (b_LockedPayoutCap b) (b_LockedTWAP b) [].

Definition renewal (b : Block) (t : Z) : LeaseSegment :=
  mkLeaseSegment (b_Hash b) (b_Duration b) (b_Amount b) t (b_CertificateHash b) (b_LockedR b)
    (b_LockedPayoutCap b) (b_LockedTWAP b).

(** The source of a lease operation: a stored lease block *)
Definition lease_block (L : Ledger) (b lb : Block) : Prop :=
  b_Source b ≠ "" ∧ blocks (store L) !! b_Source b = Some lb ∧ b_Type lb = BlockLease.

Definition lease_in (L : Ledger) (b : Block) (st : LeaseState) (l : Lease) : Prop :=
  leases (store L) !! b_Source b = Some l ∧ l_State l = st.

(** A send that is the escrow of a running lease, and one whose block has a
    rival: neither can be received, unless the store fails to say so. *)
Definition not_live (L : Ledger) (h : string) : Prop :=
  fault e (CGetLease h) = None → ∀ l, leases (store L) !! h = Some l →
    l_State l ≠ LeaseCreated ∧ l_State l ≠ LeaseAccepted.

Definition uncontested (L : Ledger) (h : string) : Prop :=
  ∀ x, blocks (store L) !! h = Some x → fault e (CGetBlock h) = None →
    fault e (CGetConflict (b_Account x) (b_Previous x)) = None →
    conflicts (store L) !! (b_Account x, b_Previous x) = None.

Inductive accepts (L : Ledger) (b : Block) : BlockCommit → Prop :=
| accepts_send :
    b_Type b = BlockSend → extends L b → debits L b → b_Amount b ≠ 0 →
    b_Destination b ≠ "" → b_Destination b ≠ b_Account b → ValidateMemo (b_Memo b) = Ok () →
    accepts L b (fill (append L b)
      (Some (mkPendingSend (b_Hash b) (b_Account b) (b_Destination b) (b_Amount b) (b_Asset b)))
      "" None "" "" "" None "" LeaseStateEmpty None "" 0 0)
| accepts_burn :
    b_Type b = BlockBurn → b_Asset b = "XE" → extends L b → debits L b → b_Amount b ≠ 0 →
    b_Destination b = "" → b_Source b = "" → ValidateMemo (b_Memo b) = Ok () →
    accepts L b (append L b)
| accepts_receive ps :
    b_Type b = BlockReceive → b_Source b ≠ "" →
    pending (store L) !! b_Source b = Some ps → ps_Destination ps = b_Account b →
    b_Asset b = norm_asset (ps_Asset ps) → not_live L (b_Source b) → uncontested L (b_Source b) →
    starts L b ∨ extends L b → credits L b (ps_Amount ps) →
    accepts L b (fill (append L b) None (b_Source b) None "" "" "" None "" LeaseStateEmpty None "" 0 0)
| accepts_mint :
    b_Type b = BlockMint → b_Asset b = "XUSD" → isMinter e (b_Account b) = true →
    b_Destination b = "" → b_Source b = "" → b_Memo b = "" → b_Amount b ≠ 0 →
    starts L b ∨ extends L b → credits L b (b_Amount b) →
    accepts L b (append L b)
| accepts_genesis g :
    b_Type b = BlockGenesis → blocks (store L) = ∅ → LoadGenesisBlock e = Ok g →
    b_Hash b = b_Hash g → ValidateGenesisBlock b = Ok () →
    accepts L b (append L b)
| accepts_multisig_open ks :
    b_Type b = BlockMultisigOpen → b_MSKeyset b = Some ks → ValidateKeyset (Some ks) = Ok () →
    DeriveMultisigAddress (Some ks) = Ok (b_Account b) → starts L b → b_Balance b = 0 →
    accepts L b (fill (append L b) None "" None "" "" "" (Some ks) "" LeaseStateEmpty None "" 0 0)
| accepts_multisig_update ks :
    b_Type b = BlockMultisigUpdate → b_MSKeyset b = Some ks → ValidateKeyset (Some ks) = Ok () →
    extends L b → credits L b 0 →
    accepts L b (fill (append L b) None "" None "" "" "" (Some ks) "" LeaseStateEmpty None "" 0 0)
| accepts_lease cert :
    b_Type b = BlockLease → b_Asset b = "XUSD" → b_Destination b ≠ "" →
    b_Destination b ≠ b_Account b →
    ValidateLeaseDimensions (timing e) (b_VCPUs b) (b_MemoryMB b) (b_DiskGB b) (b_Duration b) = Ok () →
    b_AccessPubKey b = "" ∨
      (∃ key, DecodeString (b_AccessPubKey b) = Ok key ∧ zlen key = 32) →
    certified (b_CertificateHash b) (b_Destination b) cert →
    ci_ExpiresAt cert = 0 ∨ b_Timestamp b <= ci_ExpiresAt cert →
    LeaseCost (timing e) (b_VCPUs b) (b_MemoryMB b) (b_DiskGB b) (b_Duration b)
      (ci_PriceMultiplierMilli cert) = Ok (b_Amount b) →
    extends L b → debits L b →
    accepts L b (fill (append L b)
      (Some (mkPendingSend (b_Hash b) (b_Account b) (b_Destination b) (b_Amount b) "XUSD"))
      "" (Some (new_lease b)) "" "" "" None "" LeaseStateEmpty None "" 0 0)
| accepts_lease_accept lb l cert t :
    b_Type b = BlockLeaseAccept → b_Asset b = "XUSD" → lease_block L b lb →
    b_Destination lb = b_Account b → lease_in L b LeaseCreated l →
    b_Amount b = LeaseStake (b_Amount lb) → extends L b → debits L b → attested b t →
    b_CertificateHash lb = b_CertificateHash b →
    certified (b_CertificateHash b) (b_Account b) cert → t <= ci_ExpiresAt cert →
    b_LockedR b ≠ 0 →
    validateLockedEmissionAt e t (b_LockedR b) (b_LockedPayoutCap b) (b_LockedTWAP b) skip
      "lease_accept" = Ok () →
    accepts L b (fill (append L b) None "" (Some (accepted_lease lb b t)) "" "" "" None
      (b_Source b) LeaseCreated None "" 0 0)
| accepts_lease_cancel lb l ps :
    b_Type b = BlockLeaseCancel → b_Asset b = "XUSD" → lease_block L b lb →
    b_Account lb = b_Account b → lease_in L b LeaseCreated l →
    pending (store L) !! b_Source b = Some ps → extends L b → credits L b (b_Amount lb) →
    accepts L b (fill (append L b) None (b_Source b) None "" (b_Source b) "" None
      (b_Source b) LeaseCreated None "" 0 0)
| accepts_lease_force_settle lb l ps t :
    b_Type b = BlockLeaseForceSettle → b_Asset b = "XUSD" → lease_block L b lb →
    b_Account lb = b_Account b → lease_in L b LeaseAccepted l → l_Settled l = false →
    attested b t →
    i64_add (i64_add (EffectiveExpiry l) (LeaseSettleGrace (timing e)))
      (LeaseForceSettleGap (timing e)) <= t →
    t < i64_add (EffectiveExpiry l) (LeaseEscrowExpiry (timing e)) →
    pending (store L) !! b_Source b = Some ps → extends L b → credits L b (ps_Amount ps) →
    accepts L b (fill (append L b) None (b_Source b) None "" "" (b_Source b) None
      (b_Source b) LeaseAccepted None "" 0 (EffectiveDurationSecs l))
| accepts_lease_settle l ps t :
    b_Type b = BlockLeaseSettle → b_Asset b = "XE" → b_Source b ≠ "" →
    lease_in L b LeaseAccepted l → l_Settled l = false → l_Provider l = b_Account b →
    attested b t → EffectiveExpiry l <= t →
    t <= i64_add (EffectiveExpiry l) (LeaseSettleGrace (timing e)) →
    LeaseTotalEmission l = Ok (b_Amount b) →
    pending (store L) !! b_Source b = Some ps → extends L b → credits L b (b_Amount b) →
    accepts L b (fill (append L b) None (b_Source b) None (b_Source b) "" "" None
      (b_Source b) LeaseAccepted (Some (mkAssetDelta (b_Account b) "XUSD" (l_Stake l))) "" 0
      (EffectiveDurationSecs l))
| accepts_lease_renew l cert ps t :
    b_Type b = BlockLeaseRenew → b_Asset b = "XUSD" → b_Source b ≠ "" →
    lease_in L b LeaseAccepted l → l_Settled l = false → l_Consumer l = b_Account b →
    LeaseMinDuration (timing e) <= b_Duration b →
    (∃ n, safeAdd (EffectiveDurationSecs l) (b_Duration b) = (n, true) ∧ n <= LeaseMaxDuration) →
    attested b t → l_StartTime l <= t → t < EffectiveExpiry l →
    certified (b_CertificateHash b) (l_Provider l) cert →
    ci_ExpiresAt cert = 0 ∨ t <= ci_ExpiresAt cert →
    LeaseCost (timing e) (l_VCPUs l) (l_MemoryMB l) (l_DiskGB l) (b_Duration b)
      (ci_PriceMultiplierMilli cert) = Ok (b_Amount b) →
    b_LockedR b ≠ 0 →
    validateLockedEmissionAt e t (b_LockedR b) (b_LockedPayoutCap b) (b_LockedTWAP b) skip
      "lease_renew" = Ok () →
    pending (store L) !! b_Source b = Some ps → extends L b → debits L b →
    accepts L b (fill (append L b) None ""
      (Some (lease_with_renewals (l_Renewals l ++ [renewal b t]) l)) "" "" "" None
      (b_Source b) LeaseAccepted None (b_Source b) (b_Amount b) (EffectiveDurationSecs l)).

End rules.
