(* ===== verification/LedgerCommit.v ===== *)
(** * Writing a block keeps the ledger well formed

    What [commitBlockWrite] does to the state, for any block type: the chain,
    the balance, the delegation and its weight move together. *)
From S2P Require Import Prelude GoLib Types Encoding LeaseMath Crypto Multisig Attestation Genesis Reputation Store Ledger Rollback Handlers LedgerSpec.

(** ** The invariant reads the core *)

Lemma core_supply L L' asset : L ≈ L' → supply (store L) asset = supply (store L') asset.
Proof.
  intros E. injection E as E1 E2 E3 E4 E5 EF E6 E7 E8 E9 E10 E11.
  unfold supply, circulating, in_flight. by rewrite E2, E3.
Qed.

Lemma core_balance L L' a asset : L ≈ L' → getAssetBalance L a asset = getAssetBalance L' a asset.
Proof.
  intros E. injection E as E1 E2 E3 E4 E5 EF E6 E7 E8 E9 E10 E11. unfold getAssetBalance. by rewrite E7.
Qed.

Lemma core_inv L L' : L ≈ L' → ledger_inv L → ledger_inv L'.
Proof.
  intros HE Hi. pose proof (core_balance L L') as HB. pose proof (core_supply L L') as HS.
  pose proof HE as E. injection E as E1 E2 E3 E4 E5 EF E6 E7 E8 E9 E10 E11.
  destruct Hi as [H1 H2 H3 H4 H5 H6 H7 H8 H9 H10 H11 H12 H13 H14 H15].
  split; rewrite <- ?HS by done; unfold issued, delegated in *;
    rewrite <- ?E1, <- ?E2, <- ?E3, <- ?E4, <- ?E5, <- ?EF, <- ?E6, <- ?E8, <- ?E9, <- ?E10, <- ?E11; try done.
  - intros a c Hc. destruct (H3 a c Hc). split; rewrite <- ?E1, <- ?E4; done.
  - intros a asset. rewrite <- HB by done. auto.
Qed.

#[export] Instance ledger_inv_proper : Proper (core_eq ==> iff) ledger_inv.
Proof. intros L L' E. split; apply core_inv; [done|by symmetry]. Qed.

(** ** Chains and folds *)

Lemma valid_norm asset : IsValidAsset asset = true → norm_asset asset = asset.
Proof.
  intros H. unfold norm_asset. destruct (decide (asset = ""%string)) as [->|Hne]; [discriminate H|].
  by rewrite bool_decide_false.
Qed.

Lemma valid_XE : IsValidAsset "XE" = true.
Proof. reflexivity. Qed.
Lemma valid_XUSD : IsValidAsset "XUSD" = true.
Proof. reflexivity. Qed.

Lemma on_chain_snoc c b asset :
  assetBalanceOnChain (Some (c ++ [b])) asset =
  if norm_asset (b_Asset b) =?s asset then b_Balance b else assetBalanceOnChain (Some c) asset.
Proof. unfold assetBalanceOnChain. simpl. by rewrite foldl_app. Qed.

Lemma on_chain_default o asset : assetBalanceOnChain (Some (default [] o)) asset = assetBalanceOnChain o asset.
Proof. by destruct o. Qed.

Lemma chain_rep_snoc c b :
  chain_rep (c ++ [b]) = if b_Representative b =?s "" then chain_rep c else b_Representative b.
Proof. unfold chain_rep. by rewrite foldl_app. Qed.

Lemma sum_list_snoc f c b : sum_list f (c ++ [b]) = sum_list f c + f b.
Proof. unfold sum_list. induction c as [|x c IH]; simpl; lia. Qed.

Lemma Frontier_snoc c b : Frontier (c ++ [b]) = b_Hash b.
Proof. unfold Frontier. by rewrite last_snoc. Qed.

Lemma linked_snoc p c b :
  linked p (c ++ [b]) ↔
  linked p c ∧ b_Previous b = match last c with None => p | Some x => b_Hash x end.
Proof.
  revert p. induction c as [|x c IH]; intros p; [simpl; naive_solver|].
  change ((x :: c) ++ [b]) with (x :: (c ++ [b])). cbn [linked]. rewrite IH.
  rewrite (last_cons x c). destruct (last c); naive_solver.
Qed.

Lemma times_snoc (R : relation Block) c b :
  Sorted R (c ++ [b]) ↔ Sorted R c ∧ ∀ p, last c = Some p → R p b.
Proof.
  induction c as [|x c IH]; simpl.
  - split; [split; [constructor|done]|repeat constructor].
  - split.
    + intros [Hs Hx]%Sorted_inv. apply IH in Hs as [Hs Hl]. split.
      * constructor; [done|]. destruct c; [constructor|]. inversion Hx; subst. by constructor.
      * intros p Hp. rewrite last_cons in Hp. destruct (last c) eqn:El.
        { apply Hl. congruence. }
        apply last_None in El. subst. simplify_eq. by inversion Hx.
    + intros [[Hs Hx]%Sorted_inv Hl]. constructor.
      * apply IH. split; [done|]. intros p Hp. apply Hl. by rewrite last_cons, Hp.
      * destruct c; simpl in *; [by constructor; apply Hl|]. inversion Hx; subst. by constructor.
Qed.

Lemma neutral_snoc c b :
  accepts_neutral (c ++ [b]) ↔
  accepts_neutral c ∧
  (b_Type b = BlockLeaseAccept → b_Balance b = assetBalanceOnChain (Some c) (b_Asset b)).
Proof.
  split.
  - intros H. split; [|by apply (H c b [])].
    intros pre x post -> Ht. apply (H pre x (post ++ [b])); [|done]. by rewrite <- app_assoc.
  - intros [Hc Hb] pre x post E Ht. destruct post as [|y post _] using rev_ind.
    + apply app_inj_tail in E as [-> ->]. by apply Hb.
    + rewrite app_comm_cons, app_assoc in E. apply app_inj_tail in E as [-> _]. by eapply Hc.
Qed.

(** ** Sums over the chains *)

Lemma chains_sum_insert (f : AccountChain → Z) (m : gmap string AccountChain) a c :
  f [] = 0 →
  map_sum (λ _ c, f c) (<[a := c]> m) = map_sum (λ _ c, f c) m + f c
    - f (default [] (m !! a)).
Proof.
  intros H0. rewrite map_sum_insert. destruct (m !! a); simpl; lia.
Qed.

Lemma chain_weight_nil rep : chain_weight rep [] = 0.
Proof. unfold chain_weight. by destruct (chain_rep [] =?s rep). Qed.

(** ** The commit of a block *)

Record appends (L : Ledger) (b : Block) (c : BlockCommit) : Prop := {
  ap_block : bc_Block c = b;
  ap_account : bc_Account c = b_Account b;
  ap_chain : bc_Chain c = default [] (chain_of L b) ++ [b];
  ap_frontier : bc_FrontierHash c = b_Hash b;
  ap_rep : bc_DelegationRep c = "";
  ap_del : bc_DeleteDelegation c = false;
  ap_credit : bc_AssetCredit c = None ∨
              bc_AssetCredit c = Some (mkAssetDelta (b_Account b) "XUSD" 0) }.

(** A block that [addBlock] has checked and not yet stored *)
Record new_block (L : Ledger) (b : Block) : Prop := {
  nb_fresh : blocks (store L) !! b_Hash b = None;
  nb_hash0 : b_Hash b ≠ "0";
  nb_hash : b_Hash b ≠ "";
  nb_words : block_words b;
  nb_asset : IsValidAsset (b_Asset b) = true }.

Definition next_ok (L : Ledger) (b : Block) : Prop :=
  starts L b ∧ opening (b_Type b) ∨ extends L b.

Lemma store_after_commit c pb L : store (after_commit c pb L) = store L.
Proof.
  unfold after_commit, updateDelegation. destruct (bc_AssetCredit c), (bc_PutAccountKey c =?s "");
    repeat case_match; reflexivity.
Qed.

Lemma store_apply_commit c L :
  ∃ c', c' = with_rep (if b_Representative (bc_Block c) =?s "" then
                         get_str (delegation L) (bc_Account c)
                       else b_Representative (bc_Block c)) c ∧
    store (apply_commit c L) = commit_effect c' (store L).
Proof. eexists. split; [done|]. unfold apply_commit. by rewrite store_after_commit. Qed.

(** *** Reading a balance after the in-memory updates *)

Lemma get_set_balance M x y v x' y' :
  (match set_balance x y v M !! x' with Some m => default 0 (m !! y') | None => 0 end) =
  if (x' =?s x) && (y' =?s y) then v
  else match M !! x' with Some m => default 0 (m !! y') | None => 0 end.
Proof.
  unfold set_balance. destruct (decide (x' = x)) as [->|Hx].
  - rewrite lookup_insert_eq, bool_decide_true by done. simpl.
    destruct (decide (y' = y)) as [->|Hy].
    + by rewrite lookup_insert_eq, bool_decide_true.
    + rewrite lookup_insert_ne, bool_decide_false by done.
      destruct (M !! x); simpl; [done|]. by rewrite lookup_empty.
  - rewrite lookup_insert_ne, bool_decide_false by done. reflexivity.
Qed.

Lemma balance_setAssetBalance L x y v x' y' :
  getAssetBalance (setAssetBalance x y v L) x' y' =
  if (x' =?s x) && (y' =?s y) then v else getAssetBalance L x' y'.
Proof. unfold getAssetBalance, setAssetBalance. simpl. apply get_set_balance. Qed.

Lemma balance_setAccountKey (t : bool) L x k x' y' :
  getAssetBalance (if t then L else setAccountKey x k L) x' y' = getAssetBalance L x' y'.
Proof. by destruct t. Qed.

Lemma balance_updateDelegation x pb b L x' y' :
  getAssetBalance (updateDelegation x pb b L) x' y' = getAssetBalance L x' y'.
Proof. unfold updateDelegation. by repeat case_match. Qed.

Lemma balance_add_0 L x y x' y' :
  is_u64 (getAssetBalance L x y) →
  getAssetBalance (addAssetBalance x y 0 L) x' y' = getAssetBalance L x' y'.
Proof.
  intros Hr. change (addAssetBalance x y 0 L) with
    (setAssetBalance x y (u64_add (getAssetBalance L x y) 0) L).
  rewrite balance_setAssetBalance. unfold u64_add. rewrite Z.add_0_r, u64_small by done.
  destruct (decide (x' = x)) as [->|]; [|by rewrite bool_decide_false].
  destruct (decide (y' = y)) as [->|]; [|by rewrite (bool_decide_false (y' = y)), andb_false_r].
  by rewrite !bool_decide_true.
Qed.

Section commit.
Context (L : Ledger) (b : Block) (c : BlockCommit).
Context (Hap : appends L b c).
Notation L' := (apply_commit c L).
Notation a := (b_Account b).
Notation old := (default [] (chain_of L b)).

Lemma commit_blocks : blocks (store L') = <[b_Hash b := b]> (blocks (store L)).
Proof. unfold apply_commit. rewrite store_after_commit. simpl. by rewrite (ap_block _ _ _ Hap). Qed.

Lemma commit_chains : chains (store L') = <[a := old ++ [b]]> (chains (store L)).
Proof.
  unfold apply_commit. rewrite store_after_commit. simpl.
  by rewrite (ap_chain _ _ _ Hap), (ap_account _ _ _ Hap).
Qed.

Lemma commit_frontiers :
  b_Hash b ≠ "" → frontiers (store L') = <[a := b_Hash b]> (frontiers (store L)).
Proof.
  intros H. unfold apply_commit. rewrite store_after_commit. simpl. unfold when_id.
  rewrite (ap_frontier _ _ _ Hap), (ap_account _ _ _ Hap). by rewrite bool_decide_false.
Qed.

Lemma commit_pendings : pending (store L') = commit_pending c (pending (store L)).
Proof. unfold apply_commit. by rewrite store_after_commit. Qed.

Lemma commit_leases_eq : leases (store L') = commit_leases c (leases (store L)).
Proof. unfold apply_commit. by rewrite store_after_commit. Qed.

Lemma commit_cascade : activeCascade L' = activeCascade L.
Proof.
  unfold apply_commit, after_commit, updateDelegation. simpl.
  destruct (bc_AssetCredit c), (bc_PutAccountKey c =?s ""); repeat case_match; reflexivity.
Qed.

Lemma commit_balance x y :
  IsValidAsset (b_Asset b) = true → is_u64 (b_Balance b) →
  is_u64 (getAssetBalance L a "XUSD") →
  getAssetBalance L' x y =
  if (x =?s a) && (y =?s b_Asset b) then b_Balance b else getAssetBalance L x y.
Proof.
  intros Hv Hb HL. unfold apply_commit, after_commit. simpl.
  rewrite (ap_account _ _ _ Hap), (ap_block _ _ _ Hap), (valid_norm _ Hv), balance_updateDelegation.
  destruct (ap_credit _ _ _ Hap) as [-> | ->].
  { by rewrite balance_setAccountKey, balance_setAssetBalance. }
  cbn [ad_Account ad_Asset ad_Amount].
  set (K := if bc_PutAccountKey c =?s "" then _ else _).
  assert (EK : ∀ x y, getAssetBalance K x y =
    if (x =?s a) && (y =?s b_Asset b) then b_Balance b else getAssetBalance L x y).
  { intros x' y'. subst K. by rewrite balance_setAccountKey, balance_setAssetBalance. }
  rewrite balance_add_0; [apply EK|]. rewrite EK. case_match; auto.
Qed.

End commit.

(** ** Delegation and weight *)

Lemma get_weight_insert w rep v rep' :
  get_weight (<[rep := v]> w) rep' = if rep =?s rep' then v else get_weight w rep'.
Proof.
  unfold get_weight. case_bool_decide as E.
  - subst. by rewrite lookup_insert_eq.
  - by rewrite lookup_insert_ne.
Qed.

Definition effective_rep (L : Ledger) (b : Block) : string :=
  if b_Representative b =?s "" then get_str (delegation L) (b_Account b) else b_Representative b.

Lemma updateDelegation_spec b pb K :
  let a := b_Account b in
  let oldRep := get_str (delegation K) a in
  let new := getAssetBalance K a "XE" in
  let prev := if norm_asset (b_Asset b) =?s "XE" then pb else new in
  (oldRep ≠ "" → prev <= get_weight (weights K) oldRep) →
  let K' := updateDelegation a pb b K in
  delegation K' = (if effective_rep K b =?s "" then delete a (delegation K)
                   else <[a := effective_rep K b]> (delegation K)) ∧
  delegationUnderflow K' = delegationUnderflow K ∧
  ∀ rep, rep ≠ "" → get_weight (weights K') rep =
    get_weight (weights K) rep - (if oldRep =?s rep then prev else 0)
    + (if effective_rep K b =?s rep then new else 0).
Proof.
  intros a oldRep new prev Hle K'. subst K'. unfold updateDelegation.
  fold a oldRep new. fold prev.
  change (if b_Representative b =?s "" then oldRep else b_Representative b) with (effective_rep K b).
  destruct (decide (oldRep = ""%string)) as [E|E].
  - rewrite (bool_decide_true (oldRep = ""%string)) by done. cbn [delegation delegationUnderflow weights with_delegation].
    split_and!; [done..|]. intros rep Hr. rewrite (bool_decide_false (oldRep = rep)) by congruence.
    destruct (decide (effective_rep K b = ""%string)) as [Ee|Ee].
    + rewrite Ee, bool_decide_true, (bool_decide_false (""%string = rep)) by congruence. lia.
    + rewrite (bool_decide_false (effective_rep K b = ""%string)) by done.
      rewrite get_weight_insert. case_bool_decide; subst; lia.
  - rewrite (bool_decide_false (oldRep = ""%string)) by done.
    specialize (Hle E). rewrite (proj2 (Z.ltb_ge _ _)) by lia.
    cbn [delegation delegationUnderflow weights with_delegation].
    split_and!; [done..|]. intros rep Hr.
    destruct (decide (effective_rep K b = ""%string)) as [Ee|Ee].
    + rewrite Ee, bool_decide_true, (bool_decide_false (""%string = rep)) by congruence.
      rewrite get_weight_insert. case_bool_decide; subst; lia.
    + rewrite (bool_decide_false (effective_rep K b = ""%string)) by done.
      rewrite !get_weight_insert. repeat case_bool_decide; subst; try congruence; lia.
Qed.

(** ** What the invariant says of balances *)

Lemma on_chain_u64 c asset :
  (∀ b, b ∈ c → is_u64 (b_Balance b)) → is_u64 (assetBalanceOnChain (Some c) asset).
Proof.
  induction c as [|b c IH] using rev_ind; intros H; [done|].
  rewrite on_chain_snoc. case_match.
  - apply H. set_solver.
  - apply IH. intros b' ?. apply H. set_solver.
Qed.

Lemma on_chain_XUSD_stake e s c :
  (∀ b, b ∈ c → is_u64 (b_Balance b)) →
  (∀ h l, leases s !! h = Some l → l_Stake l = 0) →
  xusdBalanceOnChain e s (Some c) = assetBalanceOnChain (Some c) "XUSD".
Proof.
  intros Hu Hs. unfold xusdBalanceOnChain, assetBalanceOnChain. simpl.
  induction c as [|b c IH] using rev_ind; [done|].
  rewrite !foldl_app. cbn [foldl]. rewrite IH by (intros; apply Hu; set_solver).
  unfold xusd_step. set (v := if norm_asset (b_Asset b) =?s "XUSD" then _ else _).
  assert (is_u64 v).
  { pose proof (on_chain_u64 (c ++ [b]) "XUSD" Hu) as H. by rewrite on_chain_snoc in H. }
  destruct (b_Type b =?s BlockLeaseSettle); [|done].
  unfold lease_or_none. destruct (fault e _); [done|].
  destruct (leases s !! b_Source b) as [l|] eqn:El; [|done].
  rewrite (Hs _ _ El). unfold u64_add. rewrite Z.add_0_r. by apply u64_small.
Qed.

Section inv_facts.
Context (L : Ledger) (Hinv : ledger_inv L).

Lemma inv_chain_words a c b : chains (store L) !! a = Some c → b ∈ c → block_words b.
Proof.
  intros Hc Hb. eapply (inv_blocks L Hinv), ch_stored; [|done]. by eapply inv_chains.
Qed.

Lemma inv_balance_u64 a asset : IsValidAsset asset = true → is_u64 (getAssetBalance L a asset).
Proof.
  intros Hv. rewrite (inv_balances L Hinv) by done.
  destruct (chains (store L) !! a) as [c|] eqn:Ec; [|done].
  apply on_chain_u64. intros b Hb. by eapply inv_chain_words.
Qed.

Lemma chain_balance_nonneg a c asset :
  chains (store L) !! a = Some c → 0 <= assetBalanceOnChain (Some c) asset.
Proof.
  intros Hc. eapply on_chain_u64. intros b Hb. by eapply inv_chain_words.
Qed.

Lemma chain_weight_nonneg rep a c : chains (store L) !! a = Some c → 0 <= chain_weight rep c.
Proof. intros Hc. unfold chain_weight. case_match; [|done]. by eapply chain_balance_nonneg. Qed.

(** The weight of a representative covers the balance of each delegator. *)
Lemma weight_covers a :
  let rep := get_str (delegation L) a in
  rep ≠ "" → getAssetBalance L a "XE" <= get_weight (weights L) rep.
Proof.
  intros rep Hr. rewrite (inv_weights L Hinv) by done.
  rewrite (inv_balances L Hinv) by done. subst rep. rewrite (inv_delegation L Hinv) in *.
  destruct (chains (store L) !! a) as [c|] eqn:Ec; [|done]. simpl in *.
  etrans; [|apply (map_sum_lookup_le _ _ a c)]; [|by eauto using chain_weight_nonneg|done].
  simpl. unfold chain_weight. by rewrite bool_decide_true.
Qed.

(** An account's balance and a pending send together stay within the supply. *)
Lemma supply_covers a h ps asset :
  IsValidAsset asset = true →
  pending (store L) !! h = Some ps → norm_asset (ps_Asset ps) = asset →
  getAssetBalance L a asset + ps_Amount ps <= supply (store L) asset.
Proof.
  intros Hv Hp Ha. unfold supply. apply Z.add_le_mono.
  - rewrite (inv_balances L Hinv) by done. unfold circulating.
    destruct (chains (store L) !! a) as [c|] eqn:Ec.
    + apply (map_sum_lookup_le (λ _ c, assetBalanceOnChain (Some c) asset) _ a c); [|done].
      eauto using chain_balance_nonneg.
    + apply map_sum_nonneg. eauto using chain_balance_nonneg.
  - unfold in_flight.
    assert (E : ps_Amount ps = pending_value asset ps).
    { unfold pending_value. by rewrite bool_decide_true. }
    rewrite E. apply (map_sum_lookup_le (λ _ ps, pending_value asset ps) _ h ps); [|done].
    intros k v Hv'. unfold pending_value. case_match; [|done].
    by apply (inv_pending L Hinv) in Hv' as [[? _] _].
Qed.

End inv_facts.

(** ** Preservation, whatever the type of the block *)
Section preserve.
Context (L : Ledger) (b : Block) (c : BlockCommit).
Context (Hinv : ledger_inv L) (Hap : appends L b c) (Hnew : new_block L b) (Hnext : next_ok L b).
Context (Hneutral : b_Type b = BlockLeaseAccept →
  b_Balance b = getAssetBalance L (b_Account b) (b_Asset b)).
Notation L' := (apply_commit c L).
Notation a := (b_Account b).
Notation old := (default [] (chain_of L b)).

Lemma next_link : b_Previous b = match last old with None => "0" | Some x => b_Hash x end.
Proof.
  destruct Hnext as [[[-> ->] _]|(ch & -> & -> & _)]; [done|].
  unfold Frontier. simpl. by destruct (last ch).
Qed.

Lemma next_times p : last old = Some p → b_Timestamp p <= b_Timestamp b.
Proof. destruct Hnext as [[[-> _] _]|(ch & -> & _ & H)]; [done|apply H]. Qed.

Lemma stored_kept h x : blocks (store L) !! h = Some x → blocks (store L') !! h = Some x.
Proof.
  intros H. rewrite (commit_blocks L b c Hap). rewrite lookup_insert_ne; [done|].
  intros <-. by rewrite (nb_fresh L b Hnew) in H.
Qed.

Lemma old_chain_ok : chain_of L b = None ∨ chain_ok (store L) a old.
Proof.
  destruct (chain_of L b) as [ch|] eqn:E; [right|by left].
  by apply (inv_chains L Hinv).
Qed.

Lemma old_stored x : x ∈ old → blocks (store L) !! b_Hash x = Some x ∧ b_Account x = a.
Proof.
  intros Hx. destruct old_chain_ok as [E|E].
  - rewrite E in Hx. set_solver.
  - split; [by eapply ch_stored|by eapply ch_account].
Qed.

Lemma new_chain_ok : chain_ok (store L') a (old ++ [b]).
Proof.
  split.
  - by destruct old.
  - apply linked_snoc. split; [|apply next_link].
    destruct old_chain_ok as [->|E]; [done|apply E].
  - intros x [Hx|Hx]%elem_of_app.
    + apply stored_kept. by apply old_stored.
    + apply list_elem_of_singleton in Hx as ->.
      by rewrite (commit_blocks L b c Hap), lookup_insert_eq.
  - intros x [Hx|Hx]%elem_of_app; [by apply old_stored|by apply list_elem_of_singleton in Hx as ->].
  - intros x Hx. destruct Hnext as [[[E _] Ho]|(ch & E & _)]; rewrite E in Hx; simpl in Hx.
    + by simplify_eq.
    + apply (inv_chains L Hinv) in E. eapply ch_opening; [exact E|].
      destruct ch; [by destruct (ch_nonempty _ _ _ E)|done].
  - apply times_snoc. split; [|apply next_times].
    destruct old_chain_ok as [->|E]; [constructor|apply E].
  - apply neutral_snoc. split.
    + destruct old_chain_ok as [->|E]; [by intros [] ??|apply E].
    + intros Ht. rewrite (Hneutral Ht), (inv_balances L Hinv), on_chain_default by apply Hnew. done.
  - rewrite fmap_app, NoDup_app. split_and!.
    + destruct old_chain_ok as [->|E]; [constructor|apply E].
    + intros h (x & -> & Hx)%list_elem_of_fmap Hb. simpl in Hb.
      apply list_elem_of_singleton in Hb. apply old_stored in Hx as [Hx _].
      rewrite Hb, (nb_fresh L b Hnew) in Hx. done.
    + apply NoDup_singleton.
  - rewrite (commit_frontiers L b c Hap) by apply Hnew.
    by rewrite lookup_insert_eq, Frontier_snoc.
Qed.

Lemma other_chain_ok a' ch : a' ≠ a → chain_ok (store L) a' ch → chain_ok (store L') a' ch.
Proof.
  intros Hne [?????????]. split; try done.
  - intros x Hx. apply stored_kept. auto.
  - rewrite (commit_frontiers L b c Hap) by apply Hnew. by rewrite lookup_insert_ne.
Qed.

Lemma balance_after x y :
  getAssetBalance L' x y =
  if (x =?s a) && (y =?s b_Asset b) then b_Balance b else getAssetBalance L x y.
Proof.
  apply commit_balance; [done|apply Hnew|apply Hnew|by apply inv_balance_u64].
Qed.

Lemma balances_kept x y :
  getAssetBalance L' x y = assetBalanceOnChain (chains (store L') !! x) y.
Proof.
  rewrite balance_after, (commit_chains L b c Hap).
  destruct (decide (x = a)) as [->|Hx].
  - rewrite lookup_insert_eq, on_chain_snoc, on_chain_default, bool_decide_true by done.
    rewrite (valid_norm _ (nb_asset L b Hnew)), (inv_balances L Hinv) by done. unfold chain_of.
    simpl. by repeat case_bool_decide; subst.
  - rewrite lookup_insert_ne, bool_decide_false by done. by apply inv_balances.
Qed.

Lemma circulating_after asset : IsValidAsset asset = true →
  circulating (store L') asset = circulating (store L) asset +
    (if b_Asset b =?s asset then b_Balance b - getAssetBalance L a asset else 0).
Proof.
  intros Hy. unfold circulating. rewrite (commit_chains L b c Hap).
  rewrite (chains_sum_insert (λ c, assetBalanceOnChain (Some c) asset)) by done.
  rewrite on_chain_snoc, (valid_norm _ (nb_asset L b Hnew)), (inv_balances L Hinv) by done.
  unfold chain_of. rewrite on_chain_default. case_bool_decide; lia.
Qed.

Lemma issued_after f : issued f (store L') = issued f (store L) + f b.
Proof.
  unfold issued. rewrite (commit_chains L b c Hap).
  rewrite (chains_sum_insert (sum_list f)) by done.
  rewrite sum_list_snoc. unfold chain_of.
  lia.
Qed.

(** The state [updateDelegation] starts from *)
Lemma before_delegation : ∃ K,
  L' = updateDelegation a (getAssetBalance L a "XE") b K ∧
  delegation K = delegation L ∧ weights K = weights L ∧
  delegationUnderflow K = delegationUnderflow L ∧ effective_rep K b = effective_rep L b ∧
  ∀ x y, getAssetBalance K x y = getAssetBalance L' x y.
Proof.
  unfold apply_commit, after_commit, effective_rep. cbn [bc_Block bc_Account with_rep].
  rewrite (ap_account _ _ _ Hap), (ap_block _ _ _ Hap).
  eexists. split; [reflexivity|]. split_and!; try (intros; by rewrite balance_updateDelegation).
  all: destruct (ap_credit _ _ _ Hap) as [E|E]; simpl; rewrite ?E; by repeat case_match.
Qed.

Lemma XE_after :
  (if norm_asset (b_Asset b) =?s "XE" then getAssetBalance L a "XE" else getAssetBalance L' a "XE")
  = getAssetBalance L a "XE".
Proof.
  case_bool_decide as E; [done|]. rewrite (valid_norm _ (nb_asset L b Hnew)) in E.
  rewrite balance_after, (bool_decide_false ("XE"%string = _)), andb_false_r by congruence. done.
Qed.

Lemma delegation_after :
  delegation L' = (if effective_rep L b =?s "" then delete a (delegation L)
                   else <[a := effective_rep L b]> (delegation L)) ∧
  delegationUnderflow L' = delegationUnderflow L ∧
  ∀ rep, rep ≠ "" → get_weight (weights L') rep =
    get_weight (weights L) rep
    - (if get_str (delegation L) a =?s rep then getAssetBalance L a "XE" else 0)
    + (if effective_rep L b =?s rep then getAssetBalance L' a "XE" else 0).
Proof.
  destruct before_delegation as (K & E & Hd & Hw & Hu & He & Hb).
  pose proof (updateDelegation_spec b (getAssetBalance L a "XE") K) as H. cbv zeta in H.
  rewrite Hd, Hw, Hu, He, Hb, XE_after, <- E in H. apply H.
  intros. by apply weight_covers.
Qed.

Lemma effective_rep_chain : effective_rep L b = chain_rep (old ++ [b]).
Proof.
  unfold effective_rep. rewrite chain_rep_snoc, (inv_delegation L Hinv). unfold chain_of.
  by destruct (chains (store L) !! a).
Qed.

Lemma delegation_kept x :
  get_str (delegation L') x = from_option chain_rep "" (chains (store L') !! x).
Proof.
  destruct delegation_after as [-> _]. rewrite (commit_chains L b c Hap).
  destruct (decide (x = a)) as [->|Hx].
  - rewrite lookup_insert_eq. simpl. rewrite <- effective_rep_chain. unfold get_str.
    case_bool_decide as E; [by rewrite lookup_delete_eq|by rewrite lookup_insert_eq].
  - rewrite lookup_insert_ne, <- (inv_delegation L Hinv) by done. unfold get_str.
    case_bool_decide; [by rewrite lookup_delete_ne|by rewrite lookup_insert_ne].
Qed.

Lemma delegations_kept : delegations (store L') = delegation L'.
Proof.
  destruct delegation_after as [-> _]. unfold apply_commit. rewrite store_after_commit. simpl.
  unfold effective_rep. rewrite (ap_account _ _ _ Hap), (ap_block _ _ _ Hap),
    (ap_rep _ _ _ Hap), (ap_del _ _ _ Hap), (inv_delegations L Hinv).
  unfold when_id. by destruct (_ =?s "") eqn:E; [|rewrite E].
Qed.

Lemma reps_kept x r : delegation L' !! x = Some r → r ≠ "".
Proof.
  destruct delegation_after as [-> _]. unfold when_id. case_bool_decide as E.
  - intros [_ H]%lookup_delete_Some. by eapply (inv_reps L Hinv).
  - intros [[_ <-]|[_ H]]%lookup_insert_Some; [done|by eapply (inv_reps L Hinv)].
Qed.

Lemma frontiers_kept x f : frontiers (store L') !! x = Some f → is_Some (chains (store L') !! x).
Proof.
  rewrite (commit_frontiers L b c Hap) by apply Hnew. rewrite (commit_chains L b c Hap).
  destruct (decide (x = a)) as [->|Hne]; [by rewrite !lookup_insert_eq|].
  rewrite !lookup_insert_ne by done. apply (inv_frontiers L Hinv).
Qed.

Lemma weights_kept rep : rep ≠ "" → get_weight (weights L') rep = delegated (store L') rep.
Proof.
  intros Hr. destruct delegation_after as (_ & _ & ->); [|done].
  unfold delegated. rewrite (commit_chains L b c Hap).
  rewrite (chains_sum_insert (chain_weight rep)).
  - rewrite (inv_weights L Hinv) by done. unfold delegated, chain_weight at 3 4.
    rewrite <- effective_rep_chain, (inv_delegation L Hinv).
    rewrite (balances_kept a "XE") by done. rewrite (commit_chains L b c Hap), lookup_insert_eq.
    rewrite (inv_balances L Hinv) by done. unfold chain_of.
    destruct (chains (store L) !! a); simpl; [lia|]. change (chain_rep []) with ""%string.
    rewrite (bool_decide_false (""%string = rep)) by congruence. lia.
  - apply chain_weight_nil.
Qed.

End preserve.
