(* ===== verification/LedgerRules.v ===== *)
(** * The rules keep the invariant and account for the supply

    Each rule of [LedgerSpec.accepts] is a write that keeps [ledger_inv], and
    changes the amount of each asset by exactly what [moved] says. *)
From S2P Require Import Prelude GoLib Types Encoding LeaseMath Crypto Multisig Attestation Genesis Reputation Store Ledger Rollback Handlers LedgerSpec LedgerCommit.

(** The escrow pending for a lease, and the price its block paid *)
Definition escrow_of (L : Ledger) (h : string) : Z := from_option ps_Amount 0 (pending (store L) !! h).
Definition price_of (L : Ledger) (h : string) : Z := from_option b_Amount 0 (blocks (store L) !! h).

(** What an accepted block adds to the supply of an asset *)
Definition moved (L : Ledger) (b : Block) (asset : string) : Z :=
  match b_Type b with
  | BlockGenesis => if asset =?s "XE" then b_Balance b else 0
  | BlockMint => if asset =?s "XUSD" then b_Amount b else 0
  | BlockBurn => if asset =?s "XE" then - b_Amount b else 0
  | BlockLeaseSettle =>
      if asset =?s "XE" then b_Amount b
      else if asset =?s "XUSD" then - escrow_of L (b_Source b) else 0
  | BlockLeaseCancel =>
      if asset =?s "XUSD" then price_of L (b_Source b) - escrow_of L (b_Source b) else 0
  | _ => 0
  end.

(** ** Sums over the pending sends *)

Notation flight asset m := (map_sum (K:=string) (λ _ ps, pending_value asset ps) m).

Lemma flight_add asset m h ps :
  m !! h = None → flight asset (<[h := ps]> m) = flight asset m + pending_value asset ps.
Proof. intros H. rewrite map_sum_insert_fresh by done. lia. Qed.

Lemma flight_delete asset m h ps :
  m !! h = Some ps → flight asset (delete h m) = flight asset m - pending_value asset ps.
Proof. intros H. rewrite (map_sum_delete _ m h ps) by done. lia. Qed.

Lemma flight_alter asset m h ps f :
  m !! h = Some ps →
  flight asset (alter f h m) = flight asset m - pending_value asset ps + pending_value asset (f ps).
Proof.
  intros H. replace (alter f h m) with (<[h := f ps]> m).
  - rewrite map_sum_insert, H. simpl. lia.
  - apply map_eq. intros k. destruct (decide (k = h)) as [->|].
    + by rewrite lookup_insert_eq, lookup_alter_eq, H.
    + by rewrite lookup_insert_ne, lookup_alter_ne.
Qed.

Lemma when_id_empty {A} (f : A → A) x : when_id "" f x = x.
Proof. reflexivity. Qed.
Lemma when_id_set {A} id (f : A → A) x : id ≠ "" → when_id id f x = f x.
Proof. intros H. unfold when_id. by rewrite bool_decide_false. Qed.

Section rules.
Context `{C : Crypto} (e : Env) (skip : bool) (L : Ledger) (b : Block) (c : BlockCommit).
Context (Hinv : ledger_inv L) (Hnew : new_block L b).

Lemma genesis_starts : blocks (store L) = ∅ → chain_of L b = None.
Proof.
  intros Hb. unfold chain_of. destruct (chains (store L) !! _) as [ch|] eqn:E; [|done].
  apply (inv_chains L Hinv) in E. destruct ch as [|x ch]; [by destruct (ch_nonempty _ _ _ E)|].
  pose proof (ch_stored _ _ _ E x ltac:(set_solver)) as H. by rewrite Hb in H.
Qed.

Lemma genesis_facts : ValidateGenesisBlock b = Ok () →
  b_Type b = BlockGenesis ∧ b_Previous b = "0" ∧ b_Asset b = "XE" ∧ b_Balance b = GenesisSupply.
Proof. unfold ValidateGenesisBlock. intros H. run. bool_hyps. done. Qed.

(** The block a lease operation names is a lease block. *)
Lemma lease_source_block st l : lease_in L b st l →
  l_LeaseHash l = b_Source b ∧ ∃ lb, blocks (store L) !! b_Source b = Some lb ∧ b_Type lb = BlockLease.
Proof. intros [H _]. apply (inv_leases L Hinv) in H as (-> & _ & H). done. Qed.

(** Its escrow is in XUSD and covers the price. *)
Lemma lease_escrow lb ps :
  blocks (store L) !! b_Source b = Some lb → b_Type lb = BlockLease →
  pending (store L) !! b_Source b = Some ps →
  ps_Asset ps = "XUSD" ∧ is_u64 (ps_Amount ps) ∧ b_Amount lb <= ps_Amount ps.
Proof.
  intros Hb Ht Hp. apply (inv_pending L Hinv) in Hp as (Hu & b' & Hb' & Hok).
  simplify_eq. destruct (Hok Ht). done.
Qed.

Lemma fresh_pending : pending (store L) !! b_Hash b = None.
Proof.
  destruct (pending (store L) !! b_Hash b) as [ps|] eqn:E; [|done].
  apply (inv_pending L Hinv) in E as (_ & b' & Hb & _). by rewrite (nb_fresh L b Hnew) in Hb.
Qed.

Context (Hacc : accepts e skip L b c).

Lemma accepts_appends : appends L b c.
Proof.
  destruct Hacc; split; try reflexivity; try (by left).
  right. simpl. match goal with Hl : lease_in _ _ _ _ |- _ => destruct Hl as [Hl _];
    apply (inv_leases L Hinv) in Hl as (_ & -> & _) end. done.
Qed.

Lemma accepts_next : next_ok L b.
Proof.
  unfold next_ok, opening. destruct Hacc; simplify_eq;
    match goal with H : b_Type b = _ |- _ => rewrite H end; try (right; done); try (left; done).
  - naive_solver.
  - naive_solver.
  - left. split; [|done]. split; [by apply genesis_starts|by apply genesis_facts].
Qed.

Lemma accepts_stake : b_Type b = BlockLeaseAccept →
  b_Balance b = getAssetBalance L (b_Account b) (b_Asset b).
Proof.
  intros Ht. destruct Hacc; try congruence. change (LeaseStake _) with 0 in *.
  match goal with H : debits L b |- _ => destruct H as [_ ->] end. lia.
Qed.

Context (Hcap : supply (store L) "XUSD" < two64).
Notation L' := (apply_commit c L).

(** *** What each kind of write does to the pending sends *)

Lemma pending_fill ch add del put st ca un ks eh es cr top amt d m :
  commit_pending (fill (base_commit ch b) add del put st ca un ks eh es cr top amt d) m =
  when_id top (alter (ps_with_amount (λ v, u64_add v amt)) top)
    (when_id del (delete del) (add_pending add m)).
Proof. reflexivity. Qed.

Lemma top_up_exact ps lb :
  blocks (store L) !! b_Source b = Some lb → b_Type lb = BlockLease →
  pending (store L) !! b_Source b = Some ps → b_Asset b = "XUSD" → debits L b →
  u64_add (ps_Amount ps) (b_Amount b) = ps_Amount ps + b_Amount b.
Proof.
  intros Hb Ht Hp Ha [Hd _]. destruct (lease_escrow lb ps Hb Ht Hp) as (Hx & Hu & _).
  pose proof (supply_covers L Hinv (b_Account b) _ ps "XUSD" valid_XUSD Hp) as Hs.
  rewrite Hx in Hs. specialize (Hs eq_refl). rewrite Ha in Hd.
  destruct (nb_words L b Hnew) as [_ Hw]. apply u64_small. unfold is_u64 in *. lia.
Qed.

Lemma value_XUSD ps asset : ps_Asset ps = "XUSD" →
  pending_value asset ps = if "XUSD" =?s asset then ps_Amount ps else 0.
Proof. intros H. unfold pending_value. by rewrite H. Qed.

Lemma debit_delta asset : debits L b →
  (if b_Asset b =?s asset then b_Balance b - getAssetBalance L (b_Account b) asset else 0) =
  if b_Asset b =?s asset then - b_Amount b else 0.
Proof. intros [_ ->]. case_bool_decide; subst; lia. Qed.

Lemma credit_delta asset amount : credits L b amount →
  (if b_Asset b =?s asset then b_Balance b - getAssetBalance L (b_Account b) asset else 0) =
  if b_Asset b =?s asset then amount else 0.
Proof. intros ->. case_bool_decide; subst; lia. Qed.

Lemma genesis_delta asset : blocks (store L) = ∅ → ValidateGenesisBlock b = Ok () →
  (if b_Asset b =?s asset then b_Balance b - getAssetBalance L (b_Account b) asset else 0) =
  if asset =?s "XE" then b_Balance b else 0.
Proof.
  intros Hb (_ & _ & -> & _)%genesis_facts. case_bool_decide as E; subst.
  - rewrite (inv_balances L Hinv) by done. apply genesis_starts in Hb. unfold chain_of in Hb.
    rewrite Hb, bool_decide_true by done. unfold assetBalanceOnChain. simpl. lia.
  - by rewrite bool_decide_false.
Qed.

Lemma lease_escrow_value st l ps asset :
  lease_in L b st l → pending (store L) !! b_Source b = Some ps →
  pending_value asset ps = if "XUSD" =?s asset then ps_Amount ps else 0.
Proof.
  intros (_ & lb & Hb & Ht)%lease_source_block Hp. apply value_XUSD. by eapply lease_escrow.
Qed.

(** Finish an equation between sums over the two assets. *)
Ltac assets :=
  unfold pending_value; cbn [ps_Asset ps_Amount ps_with_amount];
  repeat case_bool_decide; simplify_eq; try congruence; try lia.

Lemma in_flight_after asset : IsValidAsset asset = true →
  in_flight (store L') asset = in_flight (store L) asset + moved L b asset -
    (if b_Asset b =?s asset then b_Balance b - getAssetBalance L (b_Account b) asset else 0).
Proof.
  intros Hv. pose proof fresh_pending as Hf.
  unfold in_flight. rewrite commit_pendings. unfold moved.
  destruct Hacc; unfold append; rewrite ?pending_fill, ?when_id_empty;
    match goal with H : b_Type b = _ |- _ => rewrite H end; cbn [add_pending].
  - rewrite flight_add, debit_delta by done. unfold pending_value. cbn [ps_Asset ps_Amount].
    rewrite (valid_norm _ (nb_asset L b Hnew)). assets.
  - rewrite debit_delta by done. change (commit_pending _ ?m) with m. assets.
  - rewrite when_id_set, (flight_delete _ _ _ ps), (credit_delta _ (ps_Amount ps)) by done. assets.
  - rewrite (credit_delta _ (b_Amount b)) by done. change (commit_pending _ ?m) with m. assets.
  - rewrite genesis_delta by done. change (commit_pending _ ?m) with m. lia.
  - rewrite (credit_delta _ 0); [assets|].
    unfold credits. rewrite (inv_balances L Hinv) by apply Hnew. destruct H3 as [E _].
    unfold chain_of in E. by rewrite E, H4.
  - rewrite (credit_delta _ 0) by done. assets.
  - rewrite flight_add, debit_delta by done. assets.
  - rewrite debit_delta by done. change (LeaseStake _) with 0 in *. assets.
  - destruct H1 as (Hs & Hlb & Ht). unfold price_of, escrow_of. rewrite H4, Hlb. simpl.
    rewrite when_id_set, (flight_delete _ _ _ ps), (credit_delta _ (b_Amount lb)) by done.
    erewrite lease_escrow_value by done. assets.
  - destruct H1 as (Hs & Hlb & Ht).
    rewrite when_id_set, (flight_delete _ _ _ ps), (credit_delta _ (ps_Amount ps)) by done.
    erewrite lease_escrow_value by done. assets.
  - unfold escrow_of. rewrite H9. simpl.
    rewrite when_id_set, (flight_delete _ _ _ ps), (credit_delta _ (b_Amount b)) by done.
    erewrite lease_escrow_value by done. assets.
  - rewrite when_id_set, (flight_alter _ _ _ ps), debit_delta by done.
    destruct (lease_source_block _ _ H2) as (_ & lb & Hlb & Ht).
    destruct (lease_escrow lb ps) as (Hx & _ & _); [done..|].
    rewrite !value_XUSD by done. cbn [ps_Amount ps_with_amount].
    rewrite (top_up_exact ps lb) by done. assets.
Qed.

(** An accepted block changes the supply of each asset by what [moved] says. *)
Lemma accepts_supply asset : IsValidAsset asset = true →
  supply (store L') asset = supply (store L) asset + moved L b asset.
Proof.
  intros Hv. unfold supply. rewrite in_flight_after by done.
  rewrite (circulating_after L b c Hinv accepts_appends Hnew) by done. lia.
Qed.

(** *** The pending sends and the leases stay well formed *)

Definition pending_ok (bs : gmap string Block) (m : gmap string PendingSend) : Prop :=
  ∀ h ps, m !! h = Some ps → is_u64 (ps_Amount ps) ∧ ∃ b, bs !! h = Some b ∧ escrow_ok b ps.

Definition leases_ok (bs : gmap string Block) (m : gmap string Lease) : Prop :=
  ∀ h l, m !! h = Some l →
    l_LeaseHash l = h ∧ l_Stake l = 0 ∧ ∃ b, bs !! h = Some b ∧ b_Type b = BlockLease.

Notation bs' := (<[b_Hash b := b]> (blocks (store L))).

Lemma stored_later h x : blocks (store L) !! h = Some x → bs' !! h = Some x.
Proof.
  intros H. rewrite lookup_insert_ne; [done|]. intros <-. by rewrite (nb_fresh L b Hnew) in H.
Qed.

Lemma pending_ok_mono : pending_ok bs' (pending (store L)).
Proof.
  intros h ps H. apply (inv_pending L Hinv) in H as (? & x & ? & ?). eauto using stored_later.
Qed.

Lemma pending_ok_add ps : ps_Amount ps = b_Amount b →
  (b_Type b = BlockLease → ps_Asset ps = "XUSD") →
  pending_ok bs' (<[b_Hash b := ps]> (pending (store L))).
Proof.
  intros Ha Hx h p. destruct (decide (h = b_Hash b)) as [->|Hne].
  - rewrite lookup_insert_eq. intros [= <-]. rewrite Ha. split; [apply Hnew|].
    exists b. rewrite lookup_insert_eq. split; [done|]. intros Ht. split; [auto|lia].
  - rewrite lookup_insert_ne by done. apply pending_ok_mono.
Qed.

Lemma pending_ok_delete h : pending_ok bs' (delete h (pending (store L))).
Proof. intros k ps [_ H]%lookup_delete_Some. by apply pending_ok_mono. Qed.

Lemma pending_ok_top_up h ps x :
  pending (store L) !! h = Some ps → u64_add (ps_Amount ps) x = ps_Amount ps + x → 0 <= x →
  pending_ok bs' (alter (ps_with_amount (λ v, u64_add v x)) h (pending (store L))).
Proof.
  intros Hp Hx Hx0 k q. destruct (decide (k = h)) as [->|Hne].
  - rewrite lookup_alter_eq, Hp. intros [= <-]. apply pending_ok_mono in Hp as (_ & y & Hy & Hok).
    simpl. split; [apply u64_range|]. exists y. split; [done|]. intros Ht.
    destruct (Hok Ht). simpl. split; [done|lia].
  - rewrite lookup_alter_ne by done. apply pending_ok_mono.
Qed.

Lemma accepts_pending : pending_ok bs' (pending (store L')).
Proof.
  rewrite commit_pendings.
  destruct Hacc; unfold append; rewrite ?pending_fill, ?when_id_empty; cbn [add_pending];
    try apply pending_ok_mono; rewrite ?when_id_set by (done || by apply H1);
    try apply pending_ok_delete.
  - apply pending_ok_add; [done|congruence].
  - by apply pending_ok_add.
  - destruct (lease_source_block _ _ H2) as (_ & lb & Hlb & Ht).
    eapply pending_ok_top_up; [done|by eapply top_up_exact|apply Hnew].
Qed.

Lemma leases_ok_mono : leases_ok bs' (leases (store L)).
Proof.
  intros h l H. apply (inv_leases L Hinv) in H as (? & ? & x & ? & ?). eauto 6 using stored_later.
Qed.

Lemma leases_ok_put m l x :
  leases_ok bs' m → l_Stake l = 0 → bs' !! l_LeaseHash l = Some x → b_Type x = BlockLease →
  leases_ok bs' (<[l_LeaseHash l := l]> m).
Proof.
  intros Hm Hs Hx Ht h k. destruct (decide (h = l_LeaseHash l)) as [->|Hne].
  - rewrite lookup_insert_eq. intros [= <-]. eauto.
  - rewrite lookup_insert_ne by done. apply Hm.
Qed.

Lemma leases_ok_alter m h f :
  leases_ok bs' m → (∀ l, l_LeaseHash (f l) = l_LeaseHash l ∧ l_Stake (f l) = l_Stake l) →
  leases_ok bs' (alter f h m).
Proof.
  intros Hm Hf k l. destruct (decide (k = h)) as [->|Hne].
  - rewrite lookup_alter_eq. destruct (m !! h) as [l'|] eqn:E; [|done]. intros [= <-].
    destruct (Hf l') as [-> ->]. by apply Hm.
  - rewrite lookup_alter_ne by done. apply Hm.
Qed.

Lemma accepts_leases : leases_ok bs' (leases (store L')).
Proof.
  rewrite commit_leases_eq. unfold commit_leases.
  destruct Hacc; simpl; rewrite ?when_id_empty; rewrite ?when_id_set by (done || by apply H1);
    try apply leases_ok_alter; try apply leases_ok_mono; try (by intros []).
  - apply (leases_ok_put _ (new_lease b) b); [apply leases_ok_mono|done| |done].
    by rewrite lookup_insert_eq.
  - destruct H1 as (Hs & Hlb & Ht).
    apply (leases_ok_put _ (accepted_lease lb b t) lb);
      [apply leases_ok_mono|by simpl; rewrite H4|by apply stored_later|done].
  - destruct (lease_source_block _ _ H2) as (E & lb & Hlb & Ht). destruct H2 as [H2 _].
    apply (leases_ok_put _ (lease_with_renewals (l_Renewals l ++ [renewal b t]) l) lb);
      [apply leases_ok_mono|by apply leases_ok_mono in H2 as (_ & ? & _)| |done].
    simpl. rewrite E. by apply stored_later.
Qed.

(** *** The invariant *)

Lemma moved_xe : moved L b "XE" = xe_issue b.
Proof. unfold moved, xe_issue. by destruct (b_Type b). Qed.

Lemma moved_xusd : moved L b "XUSD" <= xusd_issue b.
Proof.
  unfold moved, xusd_issue, escrow_of, price_of.
  destruct Hacc; match goal with H : b_Type b = _ |- _ => rewrite H end; try done.
  - destruct H1 as (Hs & Hlb & Ht). rewrite Hlb, H4. simpl.
    destruct (lease_escrow lb ps) as (_ & _ & ?); [done..|lia].
  - rewrite H9. simpl. apply (inv_pending L Hinv) in H9 as [[? _] _]. lia.
Qed.

Lemma accepts_inv : ledger_inv L'.
Proof.
  pose proof accepts_appends as Hap. pose proof accepts_next as Hnx.
  destruct (delegation_after L b c Hinv Hap Hnew) as (_ & Hu & _).
  split.
  - by rewrite commit_cascade, (inv_cascade L Hinv).
  - intros h x. rewrite (commit_blocks L b c Hap).
    intros [[<- <-]|[_ Hx]]%lookup_insert_Some; [|by apply (inv_blocks L Hinv)].
    split_and!; [done|apply Hnew..].
  - intros x ch. rewrite (commit_chains L b c Hap).
    intros [[<- <-]|[Hne Hx]]%lookup_insert_Some.
    + apply new_chain_ok; auto using accepts_stake.
    + apply (other_chain_ok L b c Hap Hnew); [done|]. by apply (inv_chains L Hinv).
  - intros x y. by apply (balances_kept L b c).
  - rewrite (commit_blocks L b c Hap). apply accepts_pending.
  - rewrite (commit_blocks L b c Hap). apply accepts_leases.
  - intros x. by apply (delegation_kept L b c).
  - by eapply (delegations_kept L b c).
  - intros rep Hr. by eapply (weights_kept L b c).
  - by rewrite Hu, (inv_underflow L Hinv).
  - rewrite accepts_supply, (issued_after L b c Hap), (inv_xe L Hinv), moved_xe by done. done.
  - rewrite accepts_supply, (issued_after L b c Hap) by done.
    pose proof (inv_xusd L Hinv). pose proof moved_xusd. lia.
  - by eapply (reps_kept L b c).
  - by eapply (frontiers_kept L b c).
  - rewrite (commit_blocks L b c Hap). by intros []%insert_non_empty.
Qed.

End rules.
