(* ===== verification/LedgerCalls.v ===== *)
(** * Inverting the calls of a handler

    What a call that succeeded read or wrote, for the calls the handlers share,
    and the tactic that steps through a successful run with them. *)
From S2P Require Import Prelude GoLib Types Encoding LeaseMath Crypto Multisig Attestation Genesis Reputation Store Ledger Rollback Handlers LedgerSpec LedgerCommit LedgerRules.

(** ** Inverting the calls the handlers share *)

Lemma mlift_ok {S A} (r : result A) (s s' : S) x : mlift r s = (Ok x, s') → r = Ok x ∧ s' = s.
Proof. unfold mlift. by intros [= -> ->]. Qed.

Lemma mtry_inv {S A B} (m : M S A) (k : result A → M S B) s r s' :
  mtry m k s = (r, s') → ∃ r1 s1, m s = (r1, s1) ∧ k r1 s1 = (r, s').
Proof. unfold mtry. destruct (m s) as [r1 s1]. eauto. Qed.

Section calls.
Context `{C : Crypto} (e : Env).
Implicit Types (L : Ledger).

Lemma sread_ok {A} c (f : StoreState → A) L v L1 :
  sread e c f L = (Ok v, L1) → v = f (store L) ∧ L1 = L.
Proof. unfold sread. destruct (fault e c); naive_solver. Qed.

Lemma sread_state {A} c (f : StoreState → A) L r L1 : sread e c f L = (r, L1) → L1 = L.
Proof. unfold sread. destruct (fault e c); naive_solver. Qed.

Lemma mor_state {A} (d : A) (m : LM A) L r L1 :
  (∀ r L1, m L = (r, L1) → L1 = L) → mor d m L = (r, L1) → L1 = L.
Proof.
  intros Hm H. unfold mor in H. apply mtry_inv in H as (r1 & s1 & H1 & H2).
  apply Hm in H1 as ->. by injection H2.
Qed.

Lemma chain_read_ok a L v L1 : activeCascade L = None →
  getAccountChainOverlay e a L = (Ok v, L1) → v = chains (store L) !! a ∧ L1 = L.
Proof. intros Hn. unfold getAccountChainOverlay. rewrite Hn. apply sread_ok. Qed.

Lemma pending_read_ok h L v L1 : activeCascade L = None →
  getPendingSendOverlay e h L = (Ok v, L1) → v = pending (store L) !! h ∧ L1 = L.
Proof. intros Hn. unfold getPendingSendOverlay. rewrite Hn. apply sread_ok. Qed.

Lemma lease_read_ok h L v L1 : activeCascade L = None →
  getLeaseOverlay e h L = (Ok v, L1) → v = leases (store L) !! h ∧ L1 = L.
Proof. intros Hn. unfold getLeaseOverlay. rewrite Hn. apply sread_ok. Qed.

Lemma block_read_ok h L v L1 : GetBlock e h L = (Ok v, L1) → v = blocks (store L) !! h ∧ L1 = L.
Proof. apply sread_ok. Qed.

Lemma mor_read_ok {A} (d : A) c (f : StoreState → A) L r L1 :
  mor d (sread e c f) L = (Ok r, L1) → (fault e c = None → r = f (store L)) ∧ L1 = L.
Proof.
  unfold mor, mtry, sread. destruct (fault e c); intros [= <- <-]; [|done].
  split; [discriminate|done].
Qed.

Lemma mor_read_some {A} c (f : StoreState → option A) L r L1 :
  mor None (sread e c f) L = (Ok r, L1) → L1 = L ∧ (r = None ∨ r = f (store L)).
Proof. unfold mor, mtry, sread. destruct (fault e c); intros [= <- <-]; auto. Qed.

Lemma conflict_read_ok a p L r L1 : LGetConflict e a p L = (Ok r, L1) →
  (fault e (CGetConflict a p) = None → r = conflicts (store L) !! (a, p)) ∧ L1 = L.
Proof. apply mor_read_ok. Qed.

Lemma staged_read_ok h L r L1 : GetBlockOrStaged e h L = (Ok r, L1) →
  (fault e (CGetBlock h) = None → ∀ x, blocks (store L) !! h = Some x → r = Some x) ∧ L1 = L.
Proof.
  intros H. unfold GetBlockOrStaged in H. run.
  match goal with H : LGetBlock _ _ _ = _ |- _ => apply mor_read_ok in H as [Hr ->] end.
  case_match; run.
  - split; [|done]. intros Hf y Hy. rewrite Hy in Hr. by rewrite Hr.
  - apply mor_read_ok in H as [_ ->]. split; [|done]. intros Hf y Hy. rewrite Hy in Hr.
    specialize (Hr Hf). congruence.
Qed.

(** The rival check of a receive *)
Lemma contested_ok src L r L1 : contested e src L = (Ok r, L1) →
  (r = false → ∀ h, (fault e (CGetBlock h) = None →
     ∀ x, blocks (store L) !! h = Some x → src = Some x) → uncontested e L h) ∧ L1 = L.
Proof.
  intros H. unfold contested in H. destruct src as [src|]; run.
  - match goal with H : LGetConflict _ _ _ _ = _ |- _ => apply conflict_read_ok in H as [Hc ->] end.
    split; [|done]. intros Hr h Hsrc y Hy Hf Hg. bool_hyps. subst.
    specialize (Hsrc Hf y Hy) as [= ->]. symmetry. by apply Hc.
  - split; [|done]. intros _ h Hsrc x Hx Hf _. by specialize (Hsrc Hf x Hx).
Qed.

Lemma prepare_ok b L x L1 : activeCascade L = None →
  prepareBlockWrite e b L = (Ok x, L1) →
  x = (append L b, getAssetBalance L (b_Account b) "XE") ∧ L1 = L.
Proof.
  intros Hn H. unfold prepareBlockWrite, getAssetBalanceOverlay in H. run.
  match goal with H : getAccountChainOverlay _ _ _ = _ |- _ =>
    apply chain_read_ok in H as [-> ->]; [|done] end. by rewrite Hn.
Qed.

Lemma commit_ok c L L1 u : activeCascade L = None →
  commitBlockWrite e c (getAssetBalance L (bc_Account c) "XE") L = (Ok u, L1) →
  check_lease "CommitBlock: " c (leases (store L) !! bc_ExpectLeaseHash c) = Ok () ∧
  L1 = apply_commit c L.
Proof.
  intros Hn H. unfold commitBlockWrite, overlayDelegationRep in H. run. rewrite Hn in H. run.
  match goal with H : swrite _ _ _ _ = _ |- _ => unfold swrite in H end.
  destruct (fault e _); [discriminate|]. destruct (CommitBlock _ _) as [s|] eqn:E; [|discriminate].
  unfold CommitBlock in E. run.
  match goal with H : check_lease _ _ _ = Ok ?u |- _ => destruct u; split; [exact H|done] end.
Qed.

Lemma check_lease_ok pre c l : bc_ExpectLeaseHash c ≠ "" → check_lease pre c l = Ok () →
  ∃ x, l = Some x ∧ l_State x = bc_ExpectLeaseState c.
Proof.
  intros Hne H. unfold check_lease in H. rewrite bool_decide_false in H by done.
  destruct l as [l|]; [|discriminate]. run. bool_hyps. eauto.
Qed.

Lemma source_lease_block_ok h L lb L1 :
  source_lease_block e h L = (Ok lb, L1) →
  blocks (store L) !! h = Some lb ∧ b_Type lb = BlockLease ∧ L1 = L.
Proof.
  intros H. unfold source_lease_block in H. run.
  match goal with H : GetBlock _ _ _ = _ |- _ => apply block_read_ok in H as [-> ->] end.
  destruct (blocks (store L) !! h); run. bool_hyps. done.
Qed.

Lemma attested_time_ok op b skip L t L1 :
  attested_time e op b skip L = (Ok t, L1) → attested e skip b t ∧ L1 = L.
Proof.
  intros H. unfold attested_time, timekeepers in H. run.
  destruct (timekeeperConfigFn e) as [[cfg|]|] eqn:E; run.
  match goal with H : mlift _ _ = _ |- _ => apply mlift_ok in H as [? ->] end.
  split; [by eexists|done].
Qed.

Lemma check_previous_ok ch b u : check_previous ch b = Ok u → b_Previous b = Frontier ch.
Proof. unfold check_previous. intros H. run. by bool_hyps. Qed.

Lemma check_timestamp_ok ch b u : check_timestamp ch b = Ok u →
  ∀ p, last ch = Some p → b_Timestamp p <= b_Timestamp b.
Proof. unfold check_timestamp. intros H p Hp. rewrite Hp in H. run. by bool_hyps. Qed.

(** ** What a handler sees

    A handler runs on the ledger, or during a promotion on the ledger behind
    the overlay of the planned undos.  [sees b L R] says that for a block [b] of
    that handler, every read of [L] through the overlay gives what [R] holds, and
    that the write is the write on [R].  An account all of whose blocks are
    undone reads as an empty chain. *)

Definition seen_chain (b : Block) (R : Ledger) (ch : AccountChain) : Prop :=
  chain_of R b = Some ch ∨
  chain_of R b = None ∧ ch = [] ∧ (b_Previous b = "0" → opening (b_Type b)).

Record sees (b : Block) (L R : Ledger) : Prop := {
  see_blocks : blocks (store L) = blocks (store R);
  see_conflicts : conflicts (store L) = conflicts (store R);
  see_chain : ∀ v L1, getAccountChainOverlay e (b_Account b) L = (Ok v, L1) →
    L1 = L ∧ (v = None ∧ chain_of R b = None ∨ ∃ ch, v = Some ch ∧ seen_chain b R ch);
  see_pending : ∀ h v L1, getPendingSendOverlay e h L = (Ok v, L1) →
    v = pending (store R) !! h ∧ L1 = L;
  see_lease : ∀ h v L1, getLeaseOverlay e h L = (Ok v, L1) → v = leases (store R) !! h ∧ L1 = L;
  see_no_lease : ∀ h err L1, getLeaseOverlay e h L = (Err err, L1) →
    fault e (CGetLease h) ≠ None ∧ L1 = L;
  see_balance : ∀ y, IsValidAsset y = true →
    getAssetBalanceOverlay e L (b_Account b) y = getAssetBalance R (b_Account b) y;
  see_commit : ∀ c L1 u, appends R b c →
    commitBlockWrite e c (getAssetBalance R (b_Account b) "XE") L = (Ok u, L1) →
    (∃ pre, check_lease pre c (leases (store R) !! bc_ExpectLeaseHash c) = Ok ()) ∧
    L1 ≈ apply_commit c R }.

Lemma sees_self b L : activeCascade L = None → sees b L L.
Proof.
  intros Hn. split; try done.
  - intros v L1 H. apply chain_read_ok in H as [-> ->]; [|done]. split; [done|].
    destruct (chains (store L) !! b_Account b) eqn:E; [right|by left]. eexists. split; [done|by left].
  - intros h v L1 H. by apply pending_read_ok in H.
  - intros h v L1 H. by apply lease_read_ok in H.
  - intros h err L1 H. unfold getLeaseOverlay, GetLease, sread in H. rewrite Hn in H.
    destruct (fault e _); [|discriminate]. by injection H as _ <-.
  - intros y _. unfold getAssetBalanceOverlay. by rewrite Hn.
  - intros c L1 u Hap H. rewrite <- (ap_account _ _ _ Hap) in H. apply commit_ok in H as [? ->]; [|done].
    split; [by eexists|done].
Qed.

Section seen.
Context (b : Block) (L R : Ledger) (Hsee : sees b L R).

Lemma open_chain_ok err ch L1 :
  open_chain e (b_Account b) err L = (Ok ch, L1) → seen_chain b R ch ∧ L1 = L.
Proof.
  intros H. unfold open_chain in H. run.
  match goal with H : getAccountChainOverlay _ _ _ = _ |- _ => apply (see_chain _ _ _ Hsee) in H as [-> Hv] end.
  destruct Hv as [[-> _]|(c & -> & Hc)]; run. done.
Qed.

Lemma old_balance_ok y v L1 : IsValidAsset y = true →
  old_balance e (b_Account b) y L = (Ok v, L1) → v = getAssetBalance R (b_Account b) y ∧ L1 = L.
Proof. intros Hv H. unfold old_balance in H. run. by rewrite (see_balance _ _ _ Hsee). Qed.

Lemma isLive_ok h r L1 : isLiveLeaseEscrow e h L = (Ok r, L1) →
  (r = false → not_live e R h) ∧ L1 = L.
Proof.
  intros H. unfold isLiveLeaseEscrow in H. apply mtry_inv in H as (r1 & s1 & H1 & H2).
  injection H2 as <- <-. destruct r1 as [v|err].
  - apply (see_lease _ _ _ Hsee) in H1 as [-> ->]. split; [|done]. intros Hr _ l Hl.
    rewrite Hl in Hr. bool_hyps. done.
  - apply (see_no_lease _ _ _ Hsee) in H1 as [Hf ->]. split; [|done]. by intros _ ?.
Qed.

Lemma prepare_seen x L1 : prepareBlockWrite e b L = (Ok x, L1) →
  x = (append R b, getAssetBalance R (b_Account b) "XE") ∧ L1 = L.
Proof.
  intros H. unfold prepareBlockWrite in H. run.
  match goal with H : getAccountChainOverlay _ _ _ = _ |- _ => apply (see_chain _ _ _ Hsee) in H as [-> Hv] end.
  rewrite (see_balance _ _ _ Hsee) by done. split; [|done]. unfold append.
  destruct Hv as [[-> ->]|(c & -> & [->|(-> & -> & _)])]; done.
Qed.

(** A block that names the end of the chain it sees extends it, or opens the
    account. *)
Lemma check_link_seen ch u v : seen_chain b R ch →
  check_previous ch b = Ok u → check_timestamp ch b = Ok v →
  extends R b ∨ starts R b ∧ opening (b_Type b).
Proof.
  intros [Hc|(Hc & -> & Ho)] Hp%check_previous_ok Ht.
  - left. exists ch. split_and!; [done..|]. by eapply check_timestamp_ok.
  - right. split; [by split|by apply Ho].
Qed.

Lemma check_link_ok ch u : seen_chain b R ch → check_link ch b = Ok u →
  extends R b ∨ starts R b ∧ opening (b_Type b).
Proof. intros Hc H. unfold check_link in H. run. by eapply check_link_seen. Qed.
End seen.

End calls.

Lemma VerifyBlock_hash `{C : Crypto} `{CL : !CryptoLaws C} nid b : VerifyBlock nid b = Ok () → b_Hash b ≠ "0" ∧ b_Hash b ≠ "".
Proof.
  intros H. unfold VerifyBlock in H. apply rbind_ok in H as (h & Hh & H).
  unfold HashBlock in Hh. destruct (MarshalBlockCanonical b) as [data|]; [|discriminate].
  simpl in Hh. injection Hh as <-. run. bool_hyps.
  assert (Hd : ∃ l, DecodeHash (b_Hash b) = Ok l).
  { eexists. rewrite H0. apply DecodeHash_encode; [apply sha256_bytes|apply sha256_length]. }
  destruct Hd as [l Hl]. split; intros E; rewrite E in Hl; discriminate.
Qed.

(** Use an equation for the value read: substitute it, or turn it round. *)
Ltac keep_eq H := match type of H with ?x = _ => first [is_var x; subst x | symmetry in H] end; try (let H' := fresh "Hread" in rename H into H').

Create HintDb ledger.

(** The asset of a balance that is read *)
Ltac valid_asset := first [reflexivity | eassumption | solve [eauto with ledger]].

(** A commit built by [prepareBlockWrite] and [fill] appends the block. *)
Lemma append_appends R b : appends R b (append R b).
Proof. split; try reflexivity. by left. Qed.

Lemma fill_appends R b add del put st ca un ks eh es top amt d :
  appends R b (fill (append R b) add del put st ca un ks eh es None top amt d).
Proof. split; try reflexivity. by left. Qed.

Lemma credit_appends R b add del put st ca un ks eh es x top amt d : x = 0 →
  appends R b (fill (append R b) add del put st ca un ks eh es
                 (Some (mkAssetDelta (b_Account b) "XUSD" x)) top amt d).
Proof. intros ->. split; try reflexivity. by right. Qed.

Ltac appends_write := first [apply append_appends | apply fill_appends].

(** Invert one call of a successful run of a handler. *)
Ltac call_step :=
  match goal with
  | Hs : sees _ _ ?K _, H : open_chain _ _ _ ?K = (Ok _, _) |- _ =>
      apply (open_chain_ok _ _ _ _ Hs) in H as [? ->]
  | Hs : sees _ _ ?K _, H : old_balance _ _ _ ?K = (Ok _, _) |- _ =>
      apply (old_balance_ok _ _ _ _ Hs) in H as [Hv ->]; [|valid_asset]; keep_eq Hv
  | Hs : sees _ _ ?K _, H : getAccountChainOverlay _ _ ?K = (Ok _, _) |- _ =>
      apply (see_chain _ _ _ _ Hs) in H as [-> [[-> ?]|(? & -> & ?)]]
  | Hs : sees _ _ ?K _, H : getPendingSendOverlay _ _ ?K = (Ok _, _) |- _ =>
      apply (see_pending _ _ _ _ Hs) in H as [Hv ->]; keep_eq Hv
  | Hs : sees _ _ ?K _, H : getLeaseOverlay _ _ ?K = (Ok _, _) |- _ =>
      apply (see_lease _ _ _ _ Hs) in H as [Hv ->]; keep_eq Hv
  | Hs : sees _ _ ?K _, H : isLiveLeaseEscrow _ _ ?K = (Ok _, _) |- _ =>
      apply (isLive_ok _ _ _ _ Hs) in H as [? ->]
  | H : contested _ _ _ = (Ok _, _) |- _ => apply contested_ok in H as [? ->]
  | H : GetBlockOrStaged _ _ _ = (Ok _, _) |- _ => apply staged_read_ok in H as [? ->]
  | H : sread _ _ _ _ = (Ok _, _) |- _ => apply sread_ok in H as [-> ->]
  | H : source_lease_block _ _ _ = (Ok _, _) |- _ => apply source_lease_block_ok in H as (? & ? & ->)
  | H : attested_time _ _ _ _ _ = (Ok _, _) |- _ => apply attested_time_ok in H as [? ->]
  | Hs : sees _ _ ?K _, H : prepareBlockWrite _ _ ?K = (Ok _, _) |- _ =>
      apply (prepare_seen _ _ _ _ Hs) in H as [-> ->]; cbv beta iota in *
  | H : prepareBlockWrite _ _ _ = (Ok _, _) |- _ =>
      apply prepare_ok in H as [-> ->]; [|done]; cbv beta iota in *
  | Hs : sees _ _ ?K _, H : commitBlockWrite _ _ _ ?K = (Ok _, _) |- _ =>
      apply (see_commit _ _ _ _ Hs) in H as [[? ?] ?]; [|solve [appends_write]]
  | H : commitBlockWrite _ _ _ _ = (Ok _, _) |- _ => apply commit_ok in H as [? ->]; [|done]
  | H : mlift _ _ = (Ok _, _) |- _ => apply mlift_ok in H as [? ->]
  end.
(** Split on the optional value a run depends on. *)
Ltac case_step :=
  match goal with
  | H : match ?x with Some _ => _ | None => _ end _ = (Ok _, _) |- _ => destruct x eqn:?
  | H : (if ?x then _ else _) _ = (Ok _, _) |- _ => destruct x eqn:?
  end.
Ltac calls := repeat (run_step || call_step || case_step); repeat match goal with x : unit |- _ => destruct x end;
  bool_hyps.

(** ** What the accounting does not see *)

Lemma core_setKeyset a ks L : setKeyset a ks L ≈ L.
Proof. reflexivity. Qed.

Lemma core_setAccountKey a k L : setAccountKey a k L ≈ L.
Proof. reflexivity. Qed.

Lemma core_write_rep e s w :
  let s' := write_rep e s w in
  blocks s' = blocks s ∧ chains s' = chains s ∧ pending s' = pending s ∧
  frontiers s' = frontiers s ∧ leases s' = leases s ∧ finalHeight s' = finalHeight s ∧
  delegations s' = delegations s.
Proof. unfold write_rep. by destruct (fault e _). Qed.

Lemma core_rep_writes e ws s :
  let s' := foldl (write_rep e) s ws in
  blocks s' = blocks s ∧ chains s' = chains s ∧ pending s' = pending s ∧
  frontiers s' = frontiers s ∧ leases s' = leases s ∧ finalHeight s' = finalHeight s ∧
  delegations s' = delegations s.
Proof.
  revert s. induction ws as [|w ws IH]; intros s; [done|]. simpl.
  destruct (IH (write_rep e s w)) as (-> & -> & -> & -> & -> & -> & ->). apply core_write_rep.
Qed.

Lemma core_rep_apply e ev L : rep_apply e ev L ≈ L.
Proof.
  unfold core_eq, core, rep_apply. cbn [store with_store].
  by destruct (core_rep_writes e (apply_writes ev (ReputationApply ev (reputation L))) (store L))
    as (-> & -> & -> & -> & -> & -> & ->).
Qed.

Lemma core_rep_revert e ev L : rep_revert e ev L ≈ L.
Proof.
  unfold core_eq, core, rep_revert. cbn [store with_store].
  by destruct (core_rep_writes e (revert_writes ev (reputation L) (ReputationRevert ev (reputation L)))
    (store L)) as (-> & -> & -> & -> & -> & -> & ->).
Qed.

#[export] Hint Resolve core_setKeyset core_setAccountKey core_rep_apply core_rep_revert : ledger.


(** ** Calls that change nothing *)
Section reads.
Context `{C : Crypto} (e : Env) (R : Ledger → Ledger → Prop) `{!PreOrder R}.

Lemma keeps_sread {A} c (f : StoreState → A) : keeps R (sread e c f).
Proof. intros L r L1 H. unfold sread in H. destruct (fault e c); by injection H as _ <-. Qed.

Lemma keeps_mor {A} (d : A) (m : LM A) : keeps R m → keeps R (mor d m).
Proof. intros Hm. unfold mor. keep. Qed.

Lemma keeps_chain a : keeps R (getAccountChainOverlay e a).
Proof.
  intros L r L1 H. unfold getAccountChainOverlay in H.
  repeat case_match; try (by injection H as _ <-); by eapply keeps_sread.
Qed.

Lemma keeps_pending h : keeps R (getPendingSendOverlay e h).
Proof.
  intros L r L1 H. unfold getPendingSendOverlay in H.
  repeat case_match; try (by injection H as _ <-); by eapply keeps_sread.
Qed.

Lemma keeps_lease h : keeps R (getLeaseOverlay e h).
Proof.
  intros L r L1 H. unfold getLeaseOverlay in H.
  repeat case_match; try (by injection H as _ <-); by eapply keeps_sread.
Qed.

End reads.

#[export] Hint Resolve keeps_sread keeps_mor keeps_chain keeps_pending keeps_lease : keeps.
#[export] Hint Extern 1 (keeps _ (GetBlock _ _)) => unfold GetBlock : keeps.
#[export] Hint Extern 1 (keeps _ (GetAccountChain _ _)) => unfold GetAccountChain : keeps.
#[export] Hint Extern 1 (keeps _ (GetPendingSend _ _)) => unfold GetPendingSend : keeps.
#[export] Hint Extern 1 (keeps _ (GetLease _ _)) => unfold GetLease : keeps.

Section reads2.
Context `{C : Crypto} (e : Env) (R : Ledger → Ledger → Prop) `{!PreOrder R}.

Lemma keeps_open_chain a err : keeps R (open_chain e a err).
Proof. unfold open_chain. keep. Qed.

Lemma keeps_old_balance a y : keeps R (old_balance e a y).
Proof. unfold old_balance. keep. Qed.

Lemma keeps_isLive h : keeps R (isLiveLeaseEscrow e h).
Proof. unfold isLiveLeaseEscrow. keep. Qed.

Lemma keeps_staged h : keeps R (GetBlockOrStaged e h).
Proof. unfold GetBlockOrStaged, LGetBlock, GetBlock. keep. Qed.

Lemma keeps_contested src : keeps R (contested e src).
Proof. unfold contested, LGetConflict. keep. Qed.

Lemma keeps_prepare b : keeps R (prepareBlockWrite e b).
Proof. unfold prepareBlockWrite. keep. Qed.

Lemma keeps_source h : keeps R (source_lease_block e h).
Proof. unfold source_lease_block, GetBlock. keep. Qed.

Lemma keeps_attested op b skip : keeps R (attested_time e op b skip).
Proof. unfold attested_time, timekeepers. keep. Qed.

Lemma keeps_final a : keeps R (FinalHeight e a).
Proof. unfold FinalHeight. keep. Qed.

Lemma keeps_height a h : keeps R (GetBlockHeight e a h).
Proof. unfold GetBlockHeight, GetAccountChain. keep. Qed.

Lemma keeps_undo_parts b : keeps R (undo_parts e b).
Proof.
  unfold undo_parts, priorLease, priorLeasePopRenewal, escrowPendingOf, LGetBlock, GetLease, GetBlock.
  keep.
Qed.
End reads2.

#[export] Hint Resolve keeps_open_chain keeps_old_balance keeps_isLive keeps_staged keeps_contested
  keeps_prepare keeps_source keeps_attested keeps_final keeps_height keeps_undo_parts : keeps.

Section reads3.
Context `{C : Crypto} (e : Env) (R : Ledger → Ledger → Prop) `{!PreOrder R}.

Lemma keeps_IsFinalized a h : keeps R (IsFinalized e a h).
Proof. unfold IsFinalized. keep. Qed.

Lemma keeps_buildBlockUndo a b ch : keeps R (buildBlockUndo e a b ch).
Proof. unfold buildBlockUndo. keep. Qed.

(** A failed write leaves the ledger as it was. *)
Lemma err_keeps_commit c pb : err_keeps R (commitBlockWrite e c pb).
Proof.
  intros L err L1 H. unfold commitBlockWrite, mbind_, mgets, mwrap, swrite, mmodify in H.
  repeat (case_match; simplify_eq); done.
Qed.
End reads3.

#[export] Hint Resolve keeps_IsFinalized keeps_buildBlockUndo err_keeps_commit : keeps.
