(* ===== verification/LedgerUndo.v ===== *)
(** * Undoing a block

    What the undo of the last block of a chain does to the accounting, for any
    type ([undone]), and the first use of it: a consumer's cancellation wins over
    the provider's acceptance while the latter is not final, and
    [resolveCancelWinsOverAccept] removes the acceptance from the end of the
    provider's chain.  That keeps the ledger well formed and moves no value. *)
From S2P Require Import Prelude GoLib Types Encoding LeaseMath Crypto Multisig Attestation Genesis Reputation Store Ledger Rollback Handlers LedgerSpec LedgerCommit LedgerRules LedgerCalls.

(** ** Where the acceptance is *)

Lemma accept_index_spec h i c n b :
  accept_index h i c = Some (n, b) →
  i <= n < i + zlen c ∧ c !! Z.to_nat (n - i) = Some b ∧ b_Type b = BlockLeaseAccept ∧ b_Source b = h.
Proof.
  revert i. induction c as [|x c IH]; intros i; simpl; [done|].
  unfold zlen in *. simpl. destruct (_ && _) eqn:E.
  - intros [= <- <-]. bool_hyps. rewrite Z.sub_diag. simpl. split_and!; [lia|lia|done..].
  - intros H. apply IH in H as (? & Hl & ?). split_and!; [lia|lia| |tauto..].
    replace (Z.to_nat (n - i)) with (S (Z.to_nat (n - (i + 1)))) by lia. done.
Qed.

Lemma accept_last h c b :
  accept_index h 0 c = Some (zlen c - 1, b) →
  b_Type b = BlockLeaseAccept ∧ b_Source b = h ∧ ∃ c0, c = c0 ++ [b].
Proof.
  intros (Hn & Hl & Ht & Hs)%accept_index_spec. split_and!; [done..|].
  destruct c as [|x c0 _] using rev_ind; [done|]. exists c0.
  unfold zlen in *. rewrite length_app in *. simpl in *.
  replace (Z.to_nat (Z.of_nat (length c0 + 1) - 1 - 0)) with (length c0) in Hl by lia.
  rewrite lookup_app_r, Nat.sub_diag in Hl by lia. by injection Hl as ->.
Qed.

(** ** The delegation an undo restores *)

Lemma undo_delegation_spec A K :
  let cur := get_str (delegation K) (ma_account A) in
  (cur ≠ "" → 0 <= ma_xeBefore A <= get_weight (weights K) cur) →
  let K' := undo_delegation A K in
  delegation K' = (if ma_prevRep A =?s "" then delete (ma_account A) (delegation K)
                   else <[ma_account A := ma_prevRep A]> (delegation K)) ∧
  ∀ rep, rep ≠ "" → get_weight (weights K') rep =
    get_weight (weights K) rep - (if cur =?s rep then ma_xeBefore A else 0)
    + (if ma_prevRep A =?s rep then ma_xeAfter A else 0).
Proof.
  intros cur Hle K'. subst K'. unfold undo_delegation. fold cur.
  cbn [delegation weights with_delegation]. split; [done|]. intros rep Hr.
  set (w := match weights K !! cur with Some _ => _ | None => _ end).
  assert (Hw : ∀ rep, rep ≠ "" →
    get_weight w rep = get_weight (weights K) rep - (if cur =?s rep then ma_xeBefore A else 0)).
  { clear rep Hr. intros rep Hr. subst w. destruct (weights K !! cur) as [z|] eqn:E.
    - assert (Ez : get_weight (weights K) cur = z) by (unfold get_weight; by rewrite E).
      case_bool_decide as Ec; [rewrite (bool_decide_false (cur = rep)) by congruence; lia|].
      specialize (Hle Ec). rewrite get_weight_insert. case_bool_decide as Er; [|lia].
      subst rep. rewrite (proj2 (Z.ltb_ge _ _)) by lia. lia.
    - case_bool_decide as Er; [|lia]. subst rep. specialize (Hle Hr).
      unfold get_weight in *. rewrite E in *. simpl in *. lia. }
  destruct (decide (ma_prevRep A = ""%string)) as [E|E].
  - rewrite E, bool_decide_true, (bool_decide_false (""%string = rep)) by congruence.
    rewrite Hw by done. lia.
  - rewrite (bool_decide_false (ma_prevRep A = ""%string)) by done. rewrite get_weight_insert.
    case_bool_decide as Er; [subst rep|]; rewrite Hw by done; lia.
Qed.

Lemma run_apply_core e A K K' : K ≈ K' → run_apply e A K ≈ run_apply e A K'.
Proof.
  destruct K as [[] ], K' as [[] ]. intros E. unfold core_eq, core in E. simpl in E.
  injection E as -> -> -> -> -> -> -> -> -> -> -> ->. unfold run_apply.
  destruct (ma_repRevert A); [do 2 rewrite core_rep_revert|];
    destruct (_ =?s ""), (_ =?s ""), (ma_deleteAccount A), (ma_assetDebit A); try reflexivity.
  all: unfold subAssetBalance; simpl; by case_match.
Qed.

(** ** Taking the last block off a chain

    The undo of a block of any type, given what it does to the pending sends
    and the leases. *)
Section undo.
Context (L : Ledger) (b : Block) (c0 : AccountChain).
Context (add : option PendingSend) (del : string) (restore : option Lease) (rev : option ReputationEvent).
Notation a := (b_Account b).

(** The undo record and the in-memory closure *)
Definition block_undo : BlockUndo :=
  mkBlockUndo a c0 (Frontier c0) add del (b_Hash b) (bool_decide (c0 = [])) true (chain_rep c0)
    restore "" "" (if b_PubKey b =?s "" then "" else a) None "" 0.
Definition block_apply : memApply :=
  mkMemApply a (b_Asset b) (assetBalanceOnChain (Some c0) (b_Asset b)) (bool_decide (c0 = [])) ""
    (if b_PubKey b =?s "" then "" else a) None (assetBalanceOnChain (Some (c0 ++ [b])) "XE")
    (assetBalanceOnChain (Some c0) "XE") (chain_rep c0) rev.

(** The ledger after the undo, as far as the accounting goes *)
Definition undo_balance (L : Ledger) : Ledger :=
  if bool_decide (c0 = []) then deleteAccountBalances a L
  else setAssetBalance a (b_Asset b) (assetBalanceOnChain (Some c0) (b_Asset b)) L.
Definition undone : Ledger :=
  undo_delegation block_apply (undo_balance (with_store (CommitUndo block_undo (store L)) L)).
Notation U := undone.

Lemma run_apply_undone e :
  run_apply e block_apply (with_store (CommitUndo block_undo (store L)) L) ≈ undone.
Proof.
  unfold run_apply, undone, undo_balance. cbn [ma_deleteKeysetAccount ma_deleteAccountKeyAccount
    ma_deleteAccount ma_assetDebit ma_repRevert ma_account ma_asset ma_parentBal block_apply].
  destruct rev as [ev|]; [etrans; [apply core_rep_revert|]|];
    change (bool_decide (""%string = ""%string)) with true; cbv iota;
    by destruct ((if b_PubKey b =?s "" then ""%string else a) =?s ""%string), (bool_decide (c0 = [])).
Qed.

Context (Hinv : ledger_inv L) (Hchain : chains (store L) !! a = Some (c0 ++ [b])).

Let Hok : chain_ok (store L) a (c0 ++ [b]) := inv_chains L Hinv _ _ Hchain.

Lemma undo_stored x : x ∈ c0 ++ [b] →
  block_words x ∧ IsValidAsset (b_Asset x) = true ∧ b_Hash x ≠ "0".
Proof.
  intros Hx. pose proof (ch_stored _ _ _ Hok x Hx) as Hs.
  apply (inv_blocks L Hinv) in Hs. naive_solver.
Qed.

Lemma undo_asset : IsValidAsset (b_Asset b) = true.
Proof. apply undo_stored. set_solver. Qed.

Lemma undo_previous : b_Previous b = "0" ↔ c0 = [].
Proof.
  pose proof (ch_linked _ _ _ Hok) as [_ Hp]%linked_snoc. split.
  - intros E. destruct (last c0) as [x|] eqn:El; [|by apply last_None in El].
    destruct (undo_stored x) as (_ & _ & Hx); [|congruence].
    apply elem_of_app. left. by apply last_Some_elem_of.
  - intros ->. done.
Qed.

(** *** The store and the balances *)

Lemma undone_chains : chains (store U) = if bool_decide (c0 = []) then delete a (chains (store L))
                                         else <[a := c0]> (chains (store L)).
Proof. unfold undone, undo_balance, block_undo. by destruct (bool_decide (c0 = [])). Qed.

Lemma undone_frontiers : frontiers (store U) =
  if bool_decide (c0 = []) then delete a (frontiers (store L))
  else <[a := Frontier c0]> (frontiers (store L)).
Proof. unfold undone, undo_balance, block_undo. by destruct (bool_decide (c0 = [])). Qed.

Lemma undone_pending : pending (store U) = add_pending add (when_id del (delete del) (pending (store L))).
Proof. unfold undone, undo_balance, block_undo. by destruct (bool_decide (c0 = [])). Qed.

Lemma undone_rest :
  blocks (store U) = blocks (store L) ∧ finalHeight (store U) = finalHeight (store L) ∧
  leases (store U) = undo_leases block_undo (leases (store L)) ∧
  conflicts (store U) = conflicts (store L) ∧ activeCascade U = activeCascade L ∧
  delegationUnderflow U = delegationUnderflow L.
Proof. unfold undone, undo_balance, block_undo. by destruct (bool_decide (c0 = [])). Qed.

Lemma undone_lookup x c : chains (store U) !! x = Some c →
  x = a ∧ c = c0 ∧ c0 ≠ [] ∨ x ≠ a ∧ chains (store L) !! x = Some c.
Proof.
  rewrite undone_chains. case_bool_decide as E.
  - intros [? ?]%lookup_delete_Some. by right.
  - intros [[<- <-]|[? ?]]%lookup_insert_Some; [by left|by right].
Qed.

Lemma undone_other x : x ≠ a → chains (store U) !! x = chains (store L) !! x.
Proof.
  intros Hx. rewrite undone_chains. case_bool_decide;
    [by rewrite lookup_delete_ne|by rewrite lookup_insert_ne].
Qed.

Lemma undone_own : chains (store U) !! a = if bool_decide (c0 = []) then None else Some c0.
Proof.
  rewrite undone_chains. case_bool_decide; [by rewrite lookup_delete_eq|by rewrite lookup_insert_eq].
Qed.

Lemma undone_own_balance asset :
  assetBalanceOnChain (chains (store U) !! a) asset = assetBalanceOnChain (Some c0) asset.
Proof. rewrite undone_own. case_bool_decide as E; [by rewrite E|done]. Qed.

Lemma undone_sum (f : AccountChain → Z) : f [] = 0 →
  map_sum (λ _ c, f c) (chains (store U)) =
  map_sum (λ _ c, f c) (chains (store L)) + f c0 - f (c0 ++ [b]).
Proof.
  intros H0. rewrite undone_chains. case_bool_decide as E.
  - pose proof (map_sum_delete (λ _ c, f c) (chains (store L)) a (c0 ++ [b]) Hchain) as H.
    assert (f c0 = 0) by by rewrite E. simpl in H. lia.
  - rewrite (chains_sum_insert f) by done. rewrite Hchain. simpl. lia.
Qed.

Lemma undone_balance x y :
  getAssetBalance U x y =
  if x =?s a then (if bool_decide (c0 = []) then 0
    else if y =?s b_Asset b then assetBalanceOnChain (Some c0) (b_Asset b) else getAssetBalance L a y)
  else getAssetBalance L x y.
Proof.
  change (getAssetBalance U x y) with
    (getAssetBalance (undo_balance (with_store (CommitUndo block_undo (store L)) L)) x y).
  unfold undo_balance. case_bool_decide as E.
  - unfold getAssetBalance, deleteAccountBalances. simpl. case_bool_decide as Ex.
    + by rewrite Ex, lookup_delete_eq.
    + by rewrite lookup_delete_ne.
  - rewrite balance_setAssetBalance. by repeat case_bool_decide; subst.
Qed.

Lemma undone_balances x y :
  getAssetBalance U x y = assetBalanceOnChain (chains (store U) !! x) y.
Proof.
  rewrite undone_balance. case_bool_decide as Ex.
  - subst x. rewrite undone_own_balance. case_bool_decide as E; [by rewrite E|].
    case_bool_decide as Ey; [by subst|].
    rewrite (inv_balances L Hinv), Hchain, on_chain_snoc, (valid_norm _ undo_asset) by done.
    by rewrite bool_decide_false.
  - rewrite undone_other by done. by apply (inv_balances L Hinv).
Qed.

Lemma undone_circulating asset :
  circulating (store U) asset = circulating (store L) asset +
    assetBalanceOnChain (Some c0) asset - assetBalanceOnChain (Some (c0 ++ [b])) asset.
Proof. apply (undone_sum (λ c, assetBalanceOnChain (Some c) asset)). done. Qed.

Lemma undone_issued f : issued f (store U) = issued f (store L) - f b.
Proof. unfold issued. rewrite (undone_sum (sum_list f)), sum_list_snoc by done. lia. Qed.

(** *** The chains *)

Lemma undone_chain_ok x c : chains (store U) !! x = Some c → chain_ok (store U) x c.
Proof.
  destruct undone_rest as (HB & _). intros [(-> & -> & Hne)|[Hx Hc]]%undone_lookup.
  - destruct Hok as [_ Hlink Hst Hac Hop Htm Hnt Hnd _].
    apply linked_snoc in Hlink as [? _]. apply times_snoc in Htm as [? _].
    apply neutral_snoc in Hnt as [? _]. rewrite fmap_app, NoDup_app in Hnd. destruct Hnd as [? _].
    split; try done; rewrite ?HB.
    + intros y Hy. apply Hst. set_solver.
    + intros y Hy. apply Hac. set_solver.
    + intros y Hy. apply Hop. by destruct c0.
    + rewrite undone_frontiers, bool_decide_false by done. by rewrite lookup_insert_eq.
  - destruct (inv_chains L Hinv _ _ Hc). split; try done; rewrite ?HB; try done.
    rewrite undone_frontiers. case_bool_decide; [by rewrite lookup_delete_ne|by rewrite lookup_insert_ne].
Qed.

Lemma undone_frontier_chain x f :
  frontiers (store U) !! x = Some f → is_Some (chains (store U) !! x).
Proof.
  rewrite undone_frontiers. destruct (decide (x = a)) as [->|Hx].
  - rewrite undone_own. case_bool_decide; [by rewrite lookup_delete_eq|done].
  - rewrite undone_other by done. case_bool_decide;
      [rewrite lookup_delete_ne by done|rewrite lookup_insert_ne by done]; apply (inv_frontiers L Hinv).
Qed.

(** *** Delegation *)

Lemma undone_delegation :
  delegation U = (if chain_rep c0 =?s "" then delete a (delegation L)
                  else <[a := chain_rep c0]> (delegation L)) ∧
  ∀ rep, rep ≠ "" → get_weight (weights U) rep = delegated (store U) rep.
Proof.
  set (K := undo_balance (with_store (CommitUndo block_undo (store L)) L)).
  assert (HK : delegation K = delegation L ∧ weights K = weights L).
  { subst K. unfold undo_balance. by destruct (bool_decide (c0 = [])). }
  destruct HK as [HKd HKw]. destruct (undo_delegation_spec block_apply K) as [Hd Hw].
  { simpl. rewrite HKd, HKw. intros Hr. split; [by eapply chain_balance_nonneg|].
    etrans; [|by apply (weight_covers L Hinv)]. rewrite (inv_balances L Hinv), Hchain by done. done. }
  rewrite HKd in Hd. split; [exact Hd|]. intros rep Hr. etrans; [by apply Hw|]. clear Hw.
  cbn [ma_account ma_xeBefore ma_xeAfter ma_prevRep block_apply]. rewrite HKd, HKw.
  rewrite (inv_weights L Hinv) by done. unfold delegated. rewrite (undone_sum (chain_weight rep)).
  - rewrite (inv_delegation L Hinv), Hchain. simpl. unfold chain_weight at 3 4. lia.
  - apply chain_weight_nil.
Qed.

Lemma undone_rep x : get_str (delegation U) x = from_option chain_rep "" (chains (store U) !! x).
Proof.
  destruct undone_delegation as [-> _]. destruct (decide (x = a)) as [->|Hx].
  - rewrite undone_own. unfold get_str. case_bool_decide as E.
    + rewrite lookup_delete_eq. by case_bool_decide.
    + rewrite lookup_insert_eq. case_bool_decide as E0; [|done]. by rewrite E0 in E.
  - rewrite undone_other, <- (inv_delegation L Hinv) by done. unfold get_str.
    case_bool_decide; [by rewrite lookup_delete_ne|by rewrite lookup_insert_ne].
Qed.

Lemma undone_delegations : delegations (store U) = delegation U.
Proof.
  destruct undone_delegation as [-> _]. rewrite <- (inv_delegations L Hinv).
  unfold undone, undo_balance. by destruct (bool_decide (c0 = [])).
Qed.

(** *** The invariant *)

Context (Hpend : pending_ok (blocks (store L)) (pending (store U))).
Context (Hleases : leases_ok (blocks (store L)) (leases (store U))).
Context (Hxe : supply (store U) "XE" = supply (store L) "XE" - xe_issue b).
Context (Hxusd : supply (store U) "XUSD" <= supply (store L) "XUSD" - xusd_issue b).

Lemma undone_inv : ledger_inv U.
Proof.
  destruct undone_delegation as [Hd Hw], undone_rest as (HB & HF & _ & _ & HC & HU).
  split; rewrite ?HB, ?HF, ?HC, ?HU; try apply Hinv; auto using undone_chain_ok, undone_balances,
    undone_rep, undone_delegations.
  - rewrite Hxe, undone_issued, (inv_xe L Hinv). done.
  - rewrite undone_issued. pose proof (inv_xusd L Hinv). lia.
  - intros x r. rewrite Hd. case_bool_decide as E.
    + intros [_ H]%lookup_delete_Some. by eapply (inv_reps L Hinv).
    + intros [[_ <-]|[_ H]]%lookup_insert_Some; [done|by eapply (inv_reps L Hinv)].
  - apply undone_frontier_chain.
Qed.
End undo.

Lemma undone_core L L0 b c0 add del restore rev :
  L ≈ L0 → undone L b c0 add del restore rev ≈ undone L0 b c0 add del restore rev.
Proof.
  destruct L as [[] ], L0 as [[] ]. intros E. unfold core_eq, core in E. simpl in E.
  injection E as -> -> -> -> -> -> -> -> -> -> -> ->.
  unfold undone, undo_balance, block_undo. by destruct (bool_decide (c0 = [])).
Qed.

(** What [buildBlockUndo] restores as the balance *)
Lemma parent_balance_eq e L b c0 :
  ledger_inv L → chains (store L) !! b_Account b = Some (c0 ++ [b]) →
  (if b_Previous b =?s "0" then 0
   else if b_Asset b =?s "XUSD" then xusdBalanceOnChain e (store L) (Some c0)
   else assetBalanceOnChain (Some c0) (b_Asset b)) = assetBalanceOnChain (Some c0) (b_Asset b).
Proof.
  intros Hinv Hchain.
  case_bool_decide as E0; [apply (undo_previous L b c0 Hinv Hchain) in E0; by rewrite E0|].
  case_bool_decide as E; [|done]. rewrite E. apply on_chain_XUSD_stake.
  - intros x Hx. apply (undo_stored L b c0 Hinv Hchain). set_solver.
  - intros h k Hk. by apply (inv_leases L Hinv) in Hk as (_ & ? & _).
Qed.

(** ** Unwinding an acceptance *)
Section unwind.
Context (e : Env) (L : Ledger) (b : Block) (c0 : AccountChain) (l : Lease).
Context (Hinv : ledger_inv L).
Notation a := (b_Account b).
Context (Hchain : chains (store L) !! a = Some (c0 ++ [b])).
Context (Ht : b_Type b = BlockLeaseAccept) (Hl : leases (store L) !! b_Source b = Some l).

Let Hok : chain_ok (store L) a (c0 ++ [b]) := inv_chains L Hinv _ _ Hchain.

Lemma unwind_nonempty : c0 ≠ [].
Proof. intros ->. pose proof (ch_opening _ _ _ Hok b eq_refl) as H. by rewrite Ht in H. Qed.

Notation reverted := (Some (mkReputationEvent EventLeaseAccepted (l_Provider l) (l_Consumer l) 0 0)).
Definition unwound : Ledger := undone L b c0 None "" (Some (restored_created l)) reverted.
Notation U := unwound.

Lemma buildBlockUndo_accept r L1 :
  buildBlockUndo e a b (Some (c0 ++ [b])) L = (Ok r, L1) →
  r = (block_undo b c0 None "" (Some (restored_created l)), block_apply b c0 reverted) ∧ L1 = L.
Proof.
  intros H. unfold buildBlockUndo, undo_parts in H. rewrite Ht in H. cbn [default from_option id] in H.
  run. unfold priorLease in *. run.
  match goal with H : mor _ _ _ = _ |- _ => apply mor_read_some in H as [-> [->| ->]] end;
    [discriminate|]. rewrite Hl in *. cbn [up_restoreLease] in *.
  by rewrite removelast_last, (valid_norm _ (undo_asset L b c0 Hinv Hchain)), (parent_balance_eq e L b c0 Hinv Hchain).
Qed.

Lemma undoBlockApply_accept r L1 :
  undoBlockApply e a b L = (r, L1) →
  (∃ err, r = Err err ∧ L1 = L) ∨ (r = Ok () ∧ L1 ≈ unwound).
Proof.
  unfold undoBlockApply, mbind_. unfold GetAccountChain at 1, sread at 1.
  destruct (fault e _); [intros [= <- <-]; eauto|]. rewrite Hchain.
  destruct (buildBlockUndo _ _ _ _ L) as [[x|err] L2] eqn:E.
  - apply buildBlockUndo_accept in E as [-> ->]. unfold swrite.
    destruct (fault e _); intros [= <- <-]; [eauto|right]. split; [done|]. by apply run_apply_undone.
  - intros [= <- <-]. apply (keeps_buildBlockUndo e eq) in E as <-. eauto.
Qed.

Lemma unwound_chains : chains (store U) = <[a := c0]> (chains (store L)).
Proof. unfold unwound. rewrite undone_chains, bool_decide_false by apply unwind_nonempty. done. Qed.

(** The acceptance moved no value. *)
Lemma unwound_supply asset : IsValidAsset asset = true →
  supply (store U) asset = supply (store L) asset.
Proof.
  intros Hv. unfold supply, unwound. rewrite undone_circulating by done.
  unfold in_flight. rewrite undone_pending, on_chain_snoc, (valid_norm _ (undo_asset L b c0 Hinv Hchain)).
  simpl. change (when_id "" _ ?m) with m. case_bool_decide as E; [|lia]. subst asset.
  rewrite (ch_accept _ _ _ Hok c0 b []) by done. lia.
Qed.

Lemma unwound_leases : leases (store U) = <[b_Source b := restored_created l]> (leases (store L)).
Proof.
  unfold unwound. destruct (undone_rest L b c0 None "" (Some (restored_created l)) reverted)
    as (_ & _ & -> & _). pose proof (inv_leases L Hinv _ _ Hl) as (<- & _). done.
Qed.

Lemma unwound_inv : ledger_inv U.
Proof.
  apply undone_inv; try done.
  - rewrite undone_pending. intros h ps H. by apply (inv_pending L Hinv).
  - change (leases_ok (blocks (store L)) (leases (store U))). rewrite unwound_leases.
    pose proof (inv_leases L Hinv _ _ Hl) as (Eh & Hs & Hb).
    intros h k [[<- <-]|[_ Hk]]%lookup_insert_Some; [done|by apply (inv_leases L Hinv)].
  - change (supply (store U) "XE" = supply (store L) "XE" - xe_issue b).
    rewrite unwound_supply by done. unfold xe_issue. rewrite Ht. lia.
  - change (supply (store U) "XUSD" <= supply (store L) "XUSD" - xusd_issue b).
    rewrite unwound_supply by done. unfold xusd_issue. rewrite Ht. lia.
Qed.

End unwind.

(** ** The resolution *)

(** A change of state that keeps the invariant, the blocks and the supply *)
Definition neutral (L L' : Ledger) : Prop :=
  ledger_inv L → ledger_inv L' ∧ blocks (store L') = blocks (store L) ∧
    pending (store L') = pending (store L) ∧
    ∀ asset, IsValidAsset asset = true → supply (store L') asset = supply (store L) asset.

#[export] Instance neutral_preorder : PreOrder neutral.
Proof.
  split; [by intros L HL|]. intros L1 L2 L3 H12 H23 H1.
  destruct (H12 H1) as (H2 & B2 & P2 & S2). destruct (H23 H2) as (H3 & B3 & P3 & S3).
  split_and!; [done|congruence..|]. intros asset Hv. by rewrite S3, S2.
Qed.

Lemma core_neutral L L' : L ≈ L' → neutral L L'.
Proof.
  intros E HL. split_and!; [by eapply core_inv|by injection E..|].
  intros asset _. symmetry. by apply core_supply.
Qed.

(** [L1] is [L] without the acceptance of lease [h] that ends its provider's
    chain and is not final (unless the store failed to say so). *)
Definition accept_unwound (e : Env) (L : Ledger) (h provider : string) (L1 : Ledger) : Prop :=
  ∃ acc c0 l, b_Account acc = provider ∧ chains (store L) !! provider = Some (c0 ++ [acc]) ∧
    b_Type acc = BlockLeaseAccept ∧ b_Source acc = h ∧ leases (store L) !! h = Some l ∧
    l_State l = LeaseAccepted ∧
    (fault e (CGetFinalHeight provider) = None →
       default 0 (finalHeight (store L) !! provider) <= zlen c0) ∧
    L1 ≈ unwound L acc c0 l.

Lemma unwound_core L L0 acc c0 l : L ≈ L0 → unwound L acc c0 l ≈ unwound L0 acc c0 l.
Proof. apply undone_core. Qed.

Lemma accept_unwound_core_l e L L0 h provider L1 :
  L ≈ L0 → accept_unwound e L h provider L1 → accept_unwound e L0 h provider L1.
Proof.
  intros E (acc & c0 & l & H1 & H2 & H3 & H4 & H5 & HS & HF & HU). exists acc, c0, l.
  pose proof (unwound_core L L0 acc c0 l E). injection E as E1 E2 E3 E4 E5 EF E6 E7 E8 E9 E10 E11.
  rewrite E2 in H2. rewrite E5 in H5. rewrite EF in HF. split_and!; try done. by etrans.
Qed.

Lemma accept_unwound_core e L h provider L1 L2 :
  accept_unwound e L h provider L1 → L1 ≈ L2 → accept_unwound e L h provider L2.
Proof.
  intros (acc & c0 & l & H1 & H2 & H3 & H4 & H5 & HS & HF & HU) E. exists acc, c0, l.
  split_and!; try done. etrans; [by symmetry|done].
Qed.

Lemma accept_unwound_neutral e L h provider L1 : accept_unwound e L h provider L1 → neutral L L1.
Proof.
  intros (acc & c0 & l & <- & Hc & Ht & <- & Hl & _ & _ & HU) HL.
  destruct (core_neutral (unwound L acc c0 l) L1) as (H1 & H2 & H3 & H4); [by symmetry|by apply unwound_inv|].
  unfold unwound in H2, H3. rewrite undone_pending in H3.
  split_and!; [done|rewrite H2; apply undone_rest|done|]. intros asset Hv. by rewrite H4, unwound_supply.
Qed.

Section resolve.
Context `{C : Crypto} (e : Env).

Lemma resolve_spec h provider L r L1 l :
  ledger_inv L → leases (store L) !! h = Some l → l_State l = LeaseAccepted →
  resolveCancelWinsOverAccept e h provider L = (r, L1) →
  (∃ err, r = Err err ∧ L1 = L) ∨ (r = Ok () ∧ accept_unwound e L h provider L1).
Proof.
  intros HL Hl Hst. unfold resolveCancelWinsOverAccept, mbind_, mwrap.
  unfold GetAccountChain, sread at 1. destruct (fault e _); [intros [= <- <-]; eauto|]. simpl.
  destruct (accept_index _ _ _) as [[n acc]|] eqn:Ea; [|intros [= <- <-]; eauto].
  unfold mfail_if, mlift, rfail_if. destruct (n =? _) eqn:En; [|intros [= <- <-]; eauto]. simpl.
  bool_hyps. subst n. apply accept_last in Ea as (Ht & <- & c0 & Ec).
  destruct (FinalHeight e provider L) as [[fh|x] L2] eqn:Ef;
    pose proof (keeps_final e eq _ _ _ _ Ef) as <-; [|intros [= <- <-]; eauto].
  apply mor_read_ok in Ef as [Hfh _].
  destruct (_ <=? fh) eqn:Hle; [intros [= <- <-]; eauto|]. bool_hyps.
  destruct (accountBusy e provider); [intros [= <- <-]; eauto|].
  destruct (chains (store L) !! provider) as [ch|] eqn:Hch; simpl in Ec; [subst ch|by destruct c0].
  assert (Hp : b_Account acc = provider).
  { eapply ch_account; [by eapply inv_chains|]. set_solver. }
  destruct (undoBlockApply e provider acc L) as [r1 L2] eqn:Eu.
  rewrite <- Hp in Eu, Hch. eapply undoBlockApply_accept in Eu; [|done..].
  intros [= <- <-]. destruct Eu as [(err & -> & ->)|[-> HU]]; [left; simpl; eauto|right].
  split; [done|]. exists acc, c0, l. rewrite <- Hp. split_and!; try done.
  - intros Hf. rewrite Hp in *. rewrite <- Hfh by done. unfold zlen in *. simpl in Hle.
    rewrite length_app in Hle. simpl in Hle. lia.
Qed.
End resolve.
