(* ===== verification/LedgerHistory.v ===== *)
(** * What the chains remember

    An undo must know what a block did.  [history] says that the chains tell: the
    balance of every transfer follows from the one before it, a pending send is
    the trace of a stored block, and a send that is no longer pending was taken
    by exactly one receive, on the chain of its destination.  Every rule keeps it. *)
From S2P Require Import Prelude GoLib Types Encoding LeaseMath Crypto Multisig Attestation Genesis Reputation Store Ledger Rollback Handlers Swap LedgerSpec LedgerCommit LedgerRules LedgerCalls LedgerUndo.

(** What a block whose value is in flight leaves pending *)
Definition pending_of (x : Block) (ps : PendingSend) : Prop :=
  ps_SendHash ps = b_Hash x ∧ ps_Source ps = b_Account x ∧ ps_Destination ps = b_Destination x ∧
  ps_Asset ps = b_Asset x ∧
  match b_Type x with BlockSend => ps_Amount ps = b_Amount x | BlockLease => True | _ => False end.

(** The block a receive takes, and what it credits *)
Definition taken_from (bs : gmap string Block) (b : Block) (amount : Z) : Prop :=
  ∃ x, bs !! b_Source b = Some x ∧ b_Destination x = b_Account b ∧ b_Asset x = b_Asset b ∧ 0 <= amount ∧
    match b_Type x with BlockSend => amount = b_Amount x | BlockLease => b_Asset b = "XUSD" | _ => False end.

(** The balance a transfer states, from the chain before it *)
Definition step_ok (bs : gmap string Block) (pre : AccountChain) (b : Block) : Prop :=
  let old := assetBalanceOnChain (Some pre) (b_Asset b) in
  match b_Type b with
  | BlockSend => b_Balance b = old - b_Amount b ∧ b_Destination b ≠ ""
  | BlockReceive => ∃ amount, b_Balance b = old + amount ∧ taken_from bs b amount
  | BlockBurn => b_Balance b = old - b_Amount b ∧ b_Asset b = "XE"
  | BlockMint => b_Balance b = old + b_Amount b ∧ b_Asset b = "XUSD"
  | _ => True
  end.

Definition steps_ok (bs : gmap string Block) (c : AccountChain) : Prop :=
  ∀ pre b post, c = pre ++ b :: post → step_ok bs pre b.

(** The sends a chain has received *)
Definition sources (c : AccountChain) : list string :=
  b_Source <$> filter (λ b, b_Type b = BlockReceive) c.

Record history (s : StoreState) : Prop := {
  hi_steps : ∀ a c, chains s !! a = Some c → steps_ok (blocks s) c;
  hi_pending : ∀ h ps, pending s !! h = Some ps → ∃ x, blocks s !! h = Some x ∧ pending_of x ps;
  hi_spent : ∀ a c b, chains s !! a = Some c → b ∈ c → b_Type b = BlockSend →
    pending s !! b_Hash b = None →
    ∃ c', chains s !! b_Destination b = Some c' ∧ b_Hash b ∈ sources c';
  hi_taken : ∀ a c h, chains s !! a = Some c → h ∈ sources c → pending s !! h = None;
  hi_once : ∀ a c, chains s !! a = Some c → NoDup (sources c) }.

Lemma history_same s s' :
  blocks s' = blocks s → chains s' = chains s → pending s' = pending s → history s → history s'.
Proof. intros E1 E2 E3 [?????]. split; rewrite ?E1, ?E2, ?E3; done. Qed.

Lemma core_history L L' : L ≈ L' → history (store L) → history (store L').
Proof. intros E. injection E as E1 E2 E3 _. by apply history_same. Qed.

(** ** Lists *)

Lemma steps_snoc bs c b : steps_ok bs (c ++ [b]) ↔ steps_ok bs c ∧ step_ok bs c b.
Proof.
  split.
  - intros H. split; [|by apply (H c b [])].
    intros pre x post ->. apply (H pre x (post ++ [b])). by rewrite <- app_assoc.
  - intros [Hc Hb] pre x post E. destruct post as [|y post _] using rev_ind.
    + apply app_inj_tail in E as [-> ->]. done.
    + rewrite app_comm_cons, app_assoc in E. apply app_inj_tail in E as [-> _]. by eapply Hc.
Qed.

Lemma sources_snoc c b :
  sources (c ++ [b]) = sources c ++ if bool_decide (b_Type b = BlockReceive) then [b_Source b] else [].
Proof.
  unfold sources. rewrite filter_app, fmap_app. f_equal. simpl. unfold filter at 1. simpl.
  case_bool_decide as E; [by rewrite decide_True|by rewrite decide_False].
Qed.

Lemma elem_of_sources h c : h ∈ sources c ↔ ∃ r, r ∈ c ∧ b_Type r = BlockReceive ∧ b_Source r = h.
Proof.
  unfold sources. rewrite list_elem_of_fmap. setoid_rewrite list_elem_of_filter. naive_solver.
Qed.

Lemma step_ok_mono bs bs' pre b :
  (∀ h x, bs !! h = Some x → bs' !! h = Some x) → step_ok bs pre b → step_ok bs' pre b.
Proof.
  intros Hb. unfold step_ok. destruct (b_Type b); try done.
  intros (amount & ? & x & ? & ?). exists amount. split; [done|]. exists x. naive_solver.
Qed.

Section facts.
Context (L : Ledger) (Hinv : ledger_inv L) (Hhis : history (store L)).

Lemma chain_step a c b : chains (store L) !! a = Some c → b ∈ c →
  ∃ pre post, c = pre ++ b :: post ∧ step_ok (blocks (store L)) pre b.
Proof.
  intros Hc (pre & post & ->)%list_elem_of_split. exists pre, post. split; [done|].
  by eapply (hi_steps _ Hhis).
Qed.

(** The block a receive names is stored and addressed to the chain. *)
Lemma source_stored a c h : chains (store L) !! a = Some c → h ∈ sources c →
  ∃ x, blocks (store L) !! h = Some x ∧ b_Destination x = a ∧
    (b_Type x = BlockSend ∨ b_Type x = BlockLease).
Proof.
  intros Hc (r & Hr & Ht & <-)%elem_of_sources.
  destruct (chain_step a c r Hc Hr) as (pre & post & _ & H). unfold step_ok in H. rewrite Ht in H.
  destruct H as (amount & _ & x & Hx & Hd & _ & _ & Hm). exists x. split; [done|].
  rewrite Hd. split; [eapply ch_account; [by eapply inv_chains|done]|].
  destruct (b_Type x); auto; done.
Qed.

(** So a send is received at most once over all chains. *)
Lemma source_unique a a' c c' h :
  chains (store L) !! a = Some c → chains (store L) !! a' = Some c' →
  h ∈ sources c → h ∈ sources c' → a = a'.
Proof.
  intros Hc Hc' H H'. destruct (source_stored _ _ _ Hc H) as (x & Hx & <- & _).
  destruct (source_stored _ _ _ Hc' H') as (x' & Hx' & <- & _). congruence.
Qed.

Lemma on_chain_stored a c b : chains (store L) !! a = Some c → b ∈ c →
  blocks (store L) !! b_Hash b = Some b ∧ b_Account b = a.
Proof.
  intros Hc Hb. apply (inv_chains L Hinv) in Hc. split; [by eapply ch_stored|by eapply ch_account].
Qed.
End facts.

(** ** The rules *)

(** What a rule pends, takes and tops up *)
Lemma commit_pending_fill c0 add del put st ca un ks eh es cr top amt d m :
  commit_pending (fill c0 add del put st ca un ks eh es cr top amt d) m =
  when_id top (alter (ps_with_amount (λ v, u64_add v amt)) top)
    (when_id del (delete del) (add_pending add m)).
Proof. reflexivity. Qed.

Section rules.
Context `{C : Crypto} (e : Env) (skip : bool) (L : Ledger) (b : Block) (c : BlockCommit).
Context (Hinv : ledger_inv L) (Hhis : history (store L)) (Hnew : new_block L b).
Context (Hacc : accepts e skip L b c).
Notation L' := (apply_commit c L).
Notation old := (default [] (chain_of L b)).
Let Hap : appends L b c := accepts_appends e skip L b c Hinv Hacc.

Lemma fresh_not_source a ch : chains (store L) !! a = Some ch → b_Hash b ∉ sources ch.
Proof.
  intros Hc H. eapply source_stored in H as (x & Hx & _); [|done..].
  by rewrite (nb_fresh L b Hnew) in Hx.
Qed.

(** What happens to the entry under a hash *)
Inductive pending_change (h : string) : option PendingSend → Prop :=
| pc_same : pending_change h (pending (store L) !! h)
| pc_added ps : h = b_Hash b → pending_of b ps → pending_change h (Some ps)
| pc_taken : h = b_Source b → b_Type b = BlockReceive → pending_change h None
| pc_lease v ps x : pending (store L) !! h = Some ps → blocks (store L) !! h = Some x →
    b_Type x = BlockLease → (v = None ∨ ∃ f, v = Some (ps_with_amount f ps)) → pending_change h v.

Lemma pc_insert ps h : pending_of b ps →
  pending_change h (<[b_Hash b := ps]> (pending (store L)) !! h).
Proof.
  intros Hp. destruct (decide (h = b_Hash b)) as [->|Hne].
  - rewrite lookup_insert_eq. by apply pc_added.
  - rewrite lookup_insert_ne by done. apply pc_same.
Qed.

Lemma pc_delete_lease ps x h : pending (store L) !! b_Source b = Some ps →
  blocks (store L) !! b_Source b = Some x → b_Type x = BlockLease →
  pending_change h (delete (b_Source b) (pending (store L)) !! h).
Proof.
  intros Hp Hx Ht. destruct (decide (h = b_Source b)) as [->|Hne].
  - rewrite lookup_delete_eq. eapply pc_lease; eauto.
  - rewrite lookup_delete_ne by done. apply pc_same.
Qed.

Lemma accepts_pending_change h : pending_change h (pending (store L') !! h).
Proof.
  rewrite commit_pendings.
  clear Hap. destruct Hacc; rewrite ?commit_pending_fill, ?when_id_empty; cbn [add_pending];
    rewrite ?when_id_set by (done || by apply H1); try apply pc_same.
  - apply pc_insert. unfold pending_of. by rewrite H.
  - destruct (decide (h = b_Source b)) as [->|Hne].
    + rewrite lookup_delete_eq. by apply pc_taken.
    + rewrite lookup_delete_ne by done. apply pc_same.
  - apply pc_insert. unfold pending_of. by rewrite H, H0.
  - destruct H1 as (_ & Hx & Ht). by eapply pc_delete_lease.
  - destruct H1 as (_ & Hx & Ht). by eapply pc_delete_lease.
  - destruct (lease_source_block L b Hinv _ _ H2) as (_ & x & Hx & Ht). by eapply pc_delete_lease.
  - destruct (lease_source_block L b Hinv _ _ H2) as (_ & x & Hx & Ht).
    destruct (decide (h = b_Source b)) as [->|Hne].
    + eapply (pc_lease _ _ ps x); [done..|]. right. eexists.
      rewrite lookup_alter_eq. by match goal with H : pending _ !! _ = _ |- _ => rewrite H end.
    + rewrite lookup_alter_ne by done. apply pc_same.
Qed.

Lemma old_balance_chain :
  getAssetBalance L (b_Account b) (b_Asset b) = assetBalanceOnChain (Some old) (b_Asset b).
Proof. rewrite (inv_balances L Hinv), on_chain_default by apply Hnew. done. Qed.

Lemma new_step : step_ok (blocks (store L)) old b.
Proof.
  unfold step_ok. rewrite <- old_balance_chain.
  clear Hap. destruct Hacc; match goal with H : b_Type b = _ |- _ => rewrite H end; try done.
  - destruct H1 as [_ ->]. done.
  - by destruct H2.
  - exists (ps_Amount ps). split; [done|].
    destruct (inv_pending L Hinv _ _ H1) as ([Hu _] & _).
    destruct (hi_pending _ Hhis _ _ H1) as (x & Hx & _ & _ & Hd & Ha & Hm).
    destruct (inv_blocks L Hinv _ _ Hx) as (_ & _ & _ & _ & Hv).
    rewrite Ha, (valid_norm _ Hv) in H3. exists x. split_and!; [done|congruence|done..|].
    destruct (b_Type x) eqn:Ht; try done.
    rewrite H3, <- Ha. by apply (lease_escrow L b Hinv x ps).
Qed.

(** The chains after the write *)
Lemma after_lookup a ch : chains (store L') !! a = Some ch →
  a = b_Account b ∧ ch = old ++ [b] ∨ a ≠ b_Account b ∧ chains (store L) !! a = Some ch.
Proof.
  rewrite (commit_chains L b c Hap). intros [[<- <-]|[? ?]]%lookup_insert_Some; [by left|by right].
Qed.

Lemma old_sources h : h ∈ sources old → pending (store L) !! h = None.
Proof.
  unfold chain_of. destruct (chains (store L) !! b_Account b) eqn:E; [|by rewrite elem_of_nil].
  by eapply (hi_taken _ Hhis).
Qed.

Lemma old_facts : steps_ok (blocks (store L)) old ∧ NoDup (sources old).
Proof.
  unfold chain_of. destruct (chains (store L) !! b_Account b) eqn:E; simpl.
  - split; [by eapply (hi_steps _ Hhis)|by eapply (hi_once _ Hhis)].
  - split; [by intros [] ??|constructor].
Qed.

(** A receive takes a send that was pending. *)
Lemma receive_pending : b_Type b = BlockReceive →
  ∃ ps, pending (store L) !! b_Source b = Some ps ∧ ps_Destination ps = b_Account b.
Proof. intros Ht. destruct Hacc; try congruence. eauto. Qed.

(** A chain's receives stay, under the same account. *)
Lemma sources_kept a ch h : chains (store L) !! a = Some ch → h ∈ sources ch →
  ∃ ch', chains (store L') !! a = Some ch' ∧ h ∈ sources ch'.
Proof.
  intros Hc Hh. rewrite (commit_chains L b c Hap). destruct (decide (a = b_Account b)) as [->|Hne].
  - rewrite lookup_insert_eq. eexists. split; [done|]. unfold chain_of. rewrite Hc. simpl.
    rewrite sources_snoc. set_solver.
  - rewrite lookup_insert_ne by done. eauto.
Qed.

Lemma stored_send_pending x h ps : blocks (store L) !! h = Some x → b_Type x = BlockSend →
  pending (store L) !! h = Some ps → pending (store L') !! h = None →
  b_Type b = BlockReceive ∧ h = b_Source b.
Proof.
  intros Hx Ht Hp Hn. pose proof (accepts_pending_change h) as Hch. rewrite Hn in Hch.
  inversion Hch; simplify_eq; first [done|congruence].
Qed.

Lemma accepts_spent a ch x : chains (store L') !! a = Some ch → x ∈ ch → b_Type x = BlockSend →
  pending (store L') !! b_Hash x = None →
  ∃ ch', chains (store L') !! b_Destination x = Some ch' ∧ b_Hash x ∈ sources ch'.
Proof.
  intros Hc Hx Ht Hn.
  assert (x = b ∨ ∃ a' ch', chains (store L) !! a' = Some ch' ∧ x ∈ ch') as [->|(a' & ch' & Hc' & Hx')].
  { apply after_lookup in Hc as [[-> ->]|[_ Hc]]; [|by eauto].
    apply elem_of_app in Hx as [Hx|Hx]; [right|left; by apply list_elem_of_singleton].
    unfold chain_of in Hx. destruct (chains (store L) !! b_Account b) eqn:E; [by eauto|].
    by apply elem_of_nil in Hx. }
  - exfalso. revert Hn. rewrite commit_pendings. destruct Hacc; try congruence.
    rewrite commit_pending_fill, !when_id_empty. simpl. by rewrite lookup_insert_eq.
  - destruct (on_chain_stored L Hinv _ _ _ Hc' Hx') as [Hs _].
    destruct (pending (store L) !! b_Hash x) as [ps|] eqn:Hp.
    + destruct (stored_send_pending _ _ _ Hs Ht Hp Hn) as [Hr Hh].
      destruct (receive_pending Hr) as (ps' & Hp' & Hd).
      destruct (hi_pending _ Hhis _ _ Hp') as (x' & Hx0 & _ & _ & Hd' & _).
      rewrite <- Hh, Hs in Hx0. simplify_eq. rewrite (commit_chains L b c Hap).
      rewrite <- Hd', Hd, lookup_insert_eq. eexists. split; [done|].
      rewrite sources_snoc, bool_decide_true by done. set_solver.
    + destruct (hi_spent _ Hhis _ _ _ Hc' Hx' Ht Hp) as (ch1 & H1 & H2). by eapply sources_kept.
Qed.

Lemma accepts_taken a ch h : chains (store L') !! a = Some ch → h ∈ sources ch →
  pending (store L') !! h = None.
Proof.
  intros Hc Hh.
  assert ((∃ a' ch', chains (store L) !! a' = Some ch' ∧ h ∈ sources ch') ∨
          b_Type b = BlockReceive ∧ h = b_Source b) as [(a' & ch' & Hc' & Hh')|[Ht ->]].
  { apply after_lookup in Hc as [[-> ->]|[_ Hc]]; [|by eauto].
    rewrite sources_snoc in Hh. apply elem_of_app in Hh as [Hh|Hh].
    - unfold chain_of in Hh. destruct (chains (store L) !! b_Account b) eqn:E; [by eauto|].
      by apply elem_of_nil in Hh.
    - case_bool_decide; [|by apply elem_of_nil in Hh]. apply list_elem_of_singleton in Hh. by right. }
  - pose proof (hi_taken _ Hhis _ _ _ Hc' Hh') as Hn. pose proof (accepts_pending_change h) as Hch.
    inversion Hch; simplify_eq; try congruence.
    by destruct (fresh_not_source _ _ Hc').
  - rewrite commit_pendings. destruct Hacc; try congruence.
    rewrite commit_pending_fill, when_id_empty, when_id_set by done. simpl. by rewrite lookup_delete_eq.
Qed.

Lemma accepts_history : history (store L').
Proof.
  assert (Hst : ∀ h x, blocks (store L) !! h = Some x → blocks (store L') !! h = Some x)
    by (intros; by apply (stored_kept L b c Hap Hnew)).
  destruct old_facts as [Hos Hod]. split.
  - intros a ch Hc. apply after_lookup in Hc as [[-> ->]|[_ Hc]].
    + intros pre x post E. eapply step_ok_mono; [exact Hst|].
      assert (H : steps_ok (blocks (store L)) (old ++ [b])); [|by eapply H].
      apply steps_snoc. split; [done|apply new_step].
    + intros pre x post E. eapply step_ok_mono; [exact Hst|]. by eapply (hi_steps _ Hhis).
  - intros h ps Hp. pose proof (accepts_pending_change h) as Hch. rewrite Hp in Hch.
    inversion Hch as [E|ps' -> Hof|? ?|v q x Hq Hx Ht [?|[f E]]]; simplify_eq.
    + destruct (hi_pending _ Hhis h ps) as (x & ? & ?); [done|]. eauto.
    + exists b. rewrite (commit_blocks L b c Hap), lookup_insert_eq. done.
    + exists x. split; [by apply Hst|].
      destruct (hi_pending _ Hhis _ _ Hq) as (y & Hy & ? & ? & ? & ? & _). simplify_eq.
      unfold pending_of. by rewrite Ht.
  - apply accepts_spent.
  - apply accepts_taken.
  - intros a ch Hc. apply after_lookup in Hc as [[-> ->]|[_ Hc]]; [|by eapply (hi_once _ Hhis)].
    rewrite sources_snoc. case_bool_decide as Ht; [|by rewrite app_nil_r].
    apply NoDup_app. split_and!; [done| |apply NoDup_singleton].
    intros h Hh ->%list_elem_of_singleton. apply old_sources in Hh.
    destruct (receive_pending Ht) as (ps & Hp & _). congruence.
Qed.
End rules.

(** ** Undoing a block *)
Section undone.
Context (L : Ledger) (b : Block) (c0 : AccountChain).
Context (add : option PendingSend) (del : string) (restore : option Lease) (rev : option ReputationEvent).
Context (Hinv : ledger_inv L) (Hhis : history (store L)).
Context (Hchain : chains (store L) !! b_Account b = Some (c0 ++ [b])).
Notation U := (undone L b c0 add del restore rev).
Notation receives h := (b_Type b = BlockReceive ∧ b_Source b = h).

Context (Hof : ∀ h ps, pending (store U) !! h = Some ps →
  ∃ x, blocks (store L) !! h = Some x ∧ pending_of x ps).
Context (Hgone : ∀ h x, blocks (store L) !! h = Some x → b_Type x = BlockSend → h ≠ b_Hash b →
  pending (store U) !! h = None → pending (store L) !! h = None ∧ ¬ receives h).
Context (Hkept : ∀ h, pending (store L) !! h = None → ¬ receives h → pending (store U) !! h = None).

Lemma undone_chain_old a c : chains (store U) !! a = Some c →
  ∃ c', chains (store L) !! a = Some c' ∧ (c' = c ∧ a ≠ b_Account b ∨ c' = c ++ [b] ∧ a = b_Account b).
Proof. intros [(-> & -> & _)|[? ?]]%undone_lookup; eauto. Qed.

Lemma undone_source a c h : chains (store U) !! a = Some c → h ∈ sources c →
  ∃ c', chains (store L) !! a = Some c' ∧ h ∈ sources c' ∧ ¬ receives h.
Proof.
  intros (c' & Hc & [[-> Hne]|[-> ->]])%undone_chain_old Hh; exists c' || eexists; split; try exact Hc.
  - split; [done|]. intros [Ht <-]. destruct Hne.
    eapply (source_unique L Hinv Hhis); [exact Hc|exact Hchain|exact Hh|].
    rewrite sources_snoc, bool_decide_true by done. set_solver.
  - rewrite sources_snoc. split; [set_solver|]. intros [Ht <-].
    pose proof (hi_once _ Hhis _ _ Hc) as Hnd. rewrite sources_snoc, bool_decide_true in Hnd by done.
    apply NoDup_app in Hnd as (_ & Hnd & _). apply (Hnd _ Hh). set_solver.
Qed.

Lemma undone_spent a c x : chains (store U) !! a = Some c → x ∈ c → b_Type x = BlockSend →
  pending (store U) !! b_Hash x = None →
  ∃ c', chains (store U) !! b_Destination x = Some c' ∧ b_Hash x ∈ sources c'.
Proof.
  intros Hc Hx Ht Hn. apply undone_chain_old in Hc as (c1 & Hc & Hcase).
  assert (Hx1 : x ∈ c1) by (destruct Hcase as [[-> _]|[-> _]]; set_solver).
  destruct (on_chain_stored L Hinv _ _ _ Hc Hx1) as [Hs Ha].
  assert (Hne : b_Hash x ≠ b_Hash b).
  { intros E. destruct Hcase as [[-> Hne]|[-> ->]].
    - destruct (on_chain_stored L Hinv _ _ b Hchain) as [Hb Hb']; [set_solver|]. congruence.
    - pose proof (ch_nodup _ _ _ (inv_chains L Hinv _ _ Hc)) as Hnd. rewrite fmap_app in Hnd.
      apply NoDup_app in Hnd as (_ & Hnd & _). apply (Hnd (b_Hash x)).
      + by apply list_elem_of_fmap_2.
      + rewrite E. set_solver. }
  destruct (Hgone _ _ Hs Ht Hne Hn) as [Hp Hr].
  destruct (hi_spent _ Hhis _ _ _ Hc Hx1 Ht Hp) as (c' & Hc' & Hh).
  destruct (decide (b_Destination x = b_Account b)) as [Ed|Ed].
  - rewrite Ed, Hchain in Hc'. injection Hc' as <-. rewrite sources_snoc in Hh.
    apply elem_of_app in Hh as [Hh|Hh].
    + rewrite Ed, undone_own. case_bool_decide as E0; [rewrite E0 in Hh; by apply elem_of_nil in Hh|]. eauto.
    + case_bool_decide as Et; [|by apply elem_of_nil in Hh].
      apply list_elem_of_singleton in Hh. by destruct Hr.
  - rewrite undone_other by done. eauto.
Qed.

Lemma undone_history : history (store U).
Proof.
  destruct (undone_rest L b c0 add del restore rev) as (HB & _). split; rewrite ?HB.
  - intros a c (c' & Hc & [[-> _]|[-> _]])%undone_chain_old; apply (hi_steps _ Hhis) in Hc; [done|].
    by apply steps_snoc in Hc as [? _].
  - done.
  - apply undone_spent.
  - intros a c h Hc Hh. destruct (undone_source _ _ _ Hc Hh) as (c' & Hc' & Hh' & Hr).
    apply Hkept; [|done]. by eapply (hi_taken _ Hhis).
  - intros a c (c' & Hc & [[-> _]|[-> _]])%undone_chain_old; apply (hi_once _ Hhis) in Hc; [done|].
    rewrite sources_snoc in Hc. by apply NoDup_app in Hc as [? _].
Qed.
End undone.

(** Unwinding an acceptance *)
Lemma unwound_history L b c0 l :
  ledger_inv L → history (store L) → chains (store L) !! b_Account b = Some (c0 ++ [b]) →
  b_Type b = BlockLeaseAccept → history (store (unwound L b c0 l)).
Proof.
  intros HL Hh Hc Ht. apply undone_history; try done; rewrite undone_pending; simpl.
  - intros h ps H. by apply (hi_pending _ Hh).
  - intros h x _ _ _ H. split; [done|]. intros [? _]. congruence.
  - done.
Qed.

(** ** Undoing a transfer *)

(** What [buildBlockUndo] puts back and takes away for a transfer *)
Definition restored_send (bs : gmap string Block) (b : Block) : option PendingSend :=
  match b_Type b, bs !! b_Source b with
  | BlockReceive, Some x =>
      if b_Type x =?s BlockSend then
        Some (mkPendingSend (b_Hash x) (b_Account x) (b_Destination x) (b_Amount x) (norm_asset (b_Asset x)))
      else None
  | _, _ => None
  end.
Definition withdrawn_send (b : Block) : string :=
  match b_Type b with BlockSend => b_Hash b | _ => "" end.

Definition rolled (L : Ledger) (b : Block) (c0 : AccountChain) : Ledger :=
  undone L b c0 (restored_send (blocks (store L)) b) (withdrawn_send b) None None.

Section transfer.
Context (L : Ledger) (b : Block) (c0 : AccountChain).
Context (Hinv : ledger_inv L) (Hhis : history (store L)).
Context (Hchain : chains (store L) !! b_Account b = Some (c0 ++ [b])).
Context (Ht : unwindable (b_Type b) = true).
Context (Hpen : b_Type b = BlockSend → is_Some (pending (store L) !! b_Hash b)).
Notation U := (rolled L b c0).
Notation old := (assetBalanceOnChain (Some c0)).

Lemma rolled_step : step_ok (blocks (store L)) c0 b.
Proof. by eapply (hi_steps _ Hhis _ _ Hchain c0 b []). Qed.

Lemma rolled_asset : IsValidAsset (b_Asset b) = true.
Proof. by eapply undo_asset. Qed.

Lemma rolled_circulating asset :
  circulating (store U) asset = circulating (store L) asset -
    (if b_Asset b =?s asset then b_Balance b - old asset else 0).
Proof.
  unfold rolled. rewrite undone_circulating, on_chain_snoc, (valid_norm _ rolled_asset) by done.
  case_bool_decide; lia.
Qed.

Lemma rolled_hash : b_Hash b ≠ "" ∧ blocks (store L) !! b_Hash b = Some b.
Proof.
  assert (Hb : blocks (store L) !! b_Hash b = Some b)
    by (eapply (on_chain_stored L Hinv _ _ b Hchain); set_solver).
  split; [|done]. by apply (inv_blocks L Hinv) in Hb as (_ & _ & ? & _).
Qed.

(** A pending send of a stored block, by the block *)
Lemma send_pending_exact h x ps : pending (store L) !! h = Some ps →
  blocks (store L) !! h = Some x → b_Type x = BlockSend →
  ∀ asset, pending_value asset ps = if b_Asset x =?s asset then b_Amount x else 0.
Proof.
  intros Hp Hx Htx asset. destruct (hi_pending _ Hhis _ _ Hp) as (y & Hy & _ & _ & _ & Ha & Hm).
  simplify_eq. rewrite Htx in Hm. destruct (inv_blocks L Hinv _ _ Hx) as (_ & _ & _ & _ & Hv).
  unfold pending_value. by rewrite Ha, Hm, (valid_norm _ Hv).
Qed.

Lemma rolled_in_flight asset : ∃ lost, 0 <= lost ∧ (asset ≠ "XUSD" → lost = 0) ∧
  in_flight (store U) asset = in_flight (store L) asset - lost +
    match b_Type b with
    | BlockSend | BlockReceive => if b_Asset b =?s asset then b_Balance b - old asset else 0
    | _ => 0
    end.
Proof.
  pose proof rolled_step as Hs. pose proof rolled_asset as Hv. destruct rolled_hash as [Hh Hb].
  pose proof send_pending_exact as Hval. unfold step_ok in Hs. unfold rolled, in_flight. rewrite undone_pending.
  unfold restored_send, withdrawn_send.
  destruct (b_Type b) eqn:Etb; try done; cbn [add_pending]; rewrite ?when_id_empty.
  - exists 0. split_and!; [done..|]. rewrite when_id_set by done.
    destruct (Hpen eq_refl) as [ps Hp]. rewrite (flight_delete _ _ _ ps) by done.
    rewrite (Hval _ b) by done. destruct Hs. case_bool_decide; subst; lia.
  - destruct Hs as (amount & Hbal & x & Hx & Hd & Ha & Hp & Hm). rewrite Hx.
    destruct (b_Type x) eqn:Etx; try done; simpl.
    + exists 0. split_and!; [done..|]. rewrite flight_add.
      * unfold pending_value. cbn [ps_Asset ps_Amount]. rewrite Ha, !(valid_norm _ Hv).
        case_bool_decide; subst; lia.
      * destruct (inv_blocks L Hinv _ _ Hx) as (-> & _). eapply (hi_taken _ Hhis _ _ _ Hchain).
        rewrite sources_snoc, bool_decide_true by done. set_solver.
    + exists (if b_Asset b =?s asset then amount else 0). split; [case_bool_decide; lia|].
      split; [intros; rewrite bool_decide_false by congruence; done|]. case_bool_decide; subst; lia.
  - exists 0. split_and!; [done..|]. lia.
  - exists 0. split_and!; [done..|]. lia.
Qed.

Lemma rolled_supply asset : ∃ lost, 0 <= lost ∧ (asset ≠ "XUSD" → lost = 0) ∧
  supply (store U) asset = supply (store L) asset - lost -
    match b_Type b with
    | BlockBurn => if asset =?s "XE" then - b_Amount b else 0
    | BlockMint => if asset =?s "XUSD" then b_Amount b else 0
    | _ => 0
    end.
Proof.
  destruct (rolled_in_flight asset) as (lost & H0 & H1 & HF). exists lost. split_and!; [done..|].
  unfold supply. rewrite HF, rolled_circulating. pose proof rolled_step as Hs. unfold step_ok in Hs.
  destruct (b_Type b); try done; try lia.
  - destruct Hs as [-> Ha]. rewrite Ha. repeat case_bool_decide; subst; try congruence; lia.
  - destruct Hs as [-> Ha]. rewrite Ha. repeat case_bool_decide; subst; try congruence; lia.
Qed.

Lemma rolled_pending_lookup h : pending (store U) !! h =
  if bool_decide (b_Type b = BlockSend ∧ b_Hash b = h) then None
  else match restored_send (blocks (store L)) b with
       | Some ps => if ps_SendHash ps =?s h then Some ps else pending (store L) !! h
       | None => pending (store L) !! h
       end.
Proof.
  unfold rolled. rewrite undone_pending. unfold withdrawn_send. destruct rolled_hash as [Hh _].
  destruct (decide (b_Type b = BlockSend)) as [E|E].
  - unfold restored_send. rewrite E. simpl. rewrite when_id_set by done. case_bool_decide as Eh.
    + destruct Eh as [_ ->]. by rewrite lookup_delete_eq.
    + rewrite lookup_delete_ne; [done|]. naive_solver.
  - rewrite (bool_decide_false (_ ∧ _)) by tauto.
    replace (match b_Type b with BlockSend => b_Hash b | _ => ""%string end) with ""%string
      by (by destruct (b_Type b)).
    rewrite when_id_empty. destruct (restored_send _ b) as [ps|]; [|done]. simpl.
    case_bool_decide as Eh; [by rewrite Eh, lookup_insert_eq|by rewrite lookup_insert_ne].
Qed.

(** What is put back is what the source pends. *)
Lemma restored_of ps : restored_send (blocks (store L)) b = Some ps →
  b_Type b = BlockReceive ∧ ps_SendHash ps = b_Source b ∧
  ∃ x, blocks (store L) !! b_Source b = Some x ∧ b_Type x = BlockSend ∧ pending_of x ps ∧
    is_u64 (ps_Amount ps).
Proof.
  unfold restored_send. destruct (b_Type b) eqn:E; try done.
  destruct (blocks (store L) !! b_Source b) as [x|] eqn:Hx; [|done]. case_bool_decide as Et; [|done].
  intros [= <-]. destruct (inv_blocks L Hinv _ _ Hx) as (Hh & _ & _ & [_ Hw] & Hv).
  split_and!; [done..|]. exists x. split_and!; [done..| |done].
  unfold pending_of. cbn. by rewrite Et, (valid_norm _ Hv).
Qed.

Lemma rolled_pending_ok : pending_ok (blocks (store L)) (pending (store U)).
Proof.
  intros h ps. rewrite rolled_pending_lookup. case_bool_decide; [done|].
  destruct (restored_send _ b) as [q|] eqn:Er; [|by apply (inv_pending L Hinv)].
  case_bool_decide as Eh; [|by apply (inv_pending L Hinv)]. intros [= <-]. subst h.
  apply restored_of in Er as (_ & -> & x & Hx & Htx & _ & Hu). split; [done|]. exists x.
  split; [done|]. intros ?. congruence.
Qed.

Lemma rolled_inv : ledger_inv U.
Proof.
  apply undone_inv; try done.
  - apply rolled_pending_ok.
  - intros h l. destruct (undone_rest L b c0 (restored_send (blocks (store L)) b) (withdrawn_send b) None None)
      as (_ & _ & -> & _). apply (inv_leases L Hinv).
  - destruct (rolled_supply "XE") as (lost & _ & H0 & Hs). unfold rolled in Hs. rewrite Hs, H0 by done.
    unfold xe_issue. destruct (b_Type b); try done; simpl; lia.
  - destruct (rolled_supply "XUSD") as (lost & H0 & _ & Hs). unfold rolled in Hs. rewrite Hs.
    unfold xusd_issue. destruct (b_Type b); try done; simpl; lia.
Qed.

Lemma rolled_history : history (store U).
Proof.
  apply undone_history; try done.
  - intros h ps. change (undone L b c0 _ _ None None) with U. rewrite rolled_pending_lookup.
    case_bool_decide; [done|]. destruct (restored_send _ b) as [q|] eqn:Er; [|by apply (hi_pending _ Hhis)].
    case_bool_decide as Eh; [|by apply (hi_pending _ Hhis)]. intros [= <-]. subst h.
    apply restored_of in Er as (_ & -> & x & Hx & _ & Hof & _). eauto.
  - intros h x Hx Htx Hne. change (undone L b c0 _ _ None None) with U. rewrite rolled_pending_lookup.
    rewrite bool_decide_false by naive_solver. unfold restored_send.
    destruct (b_Type b) eqn:Etb; try (intros; split; [done|]; by intros []).
    destruct (decide (h = b_Source b)) as [->|Hs].
    + rewrite Hx, bool_decide_true by done. simpl.
      destruct (inv_blocks L Hinv _ _ Hx) as (-> & _). by rewrite bool_decide_true.
    + intros Hn. split; [|naive_solver]. revert Hn. by repeat case_match; simplify_eq.
  - intros h Hn Hr. change (undone L b c0 _ _ None None) with U. rewrite rolled_pending_lookup.
    case_bool_decide; [done|]. destruct (restored_send _ b) as [q|] eqn:Er; [|done].
    apply restored_of in Er as (Etb & -> & _). rewrite bool_decide_false; [done|]. naive_solver.
Qed.
End transfer.
