(* ===== verification/LedgerPlan.v ===== *)
(** * The plan of a promotion

    Planning reads and does not write; the recursion stops; what it plans to undo
    is above the final heights; and whenever it plans to undo a send that is no
    longer pending, it has planned to undo the receive before. *)
From S2P Require Import Prelude GoLib Types Encoding LeaseMath Crypto Multisig Attestation Genesis Reputation Store Ledger Rollback Handlers Swap LedgerSpec LedgerCommit LedgerRules LedgerCalls LedgerUndo LedgerHistory.

Lemma elem_of_drop {A} (x : A) i l : x ∈ drop i l → x ∈ l.
Proof. intros H. rewrite <- (take_drop i l). set_solver. Qed.

Section plan.
Context `{C : Crypto} (e : Env).

(** ** Reading only *)
Section reads.
Context (R : Ledger → Ledger → Prop) `{!PreOrder R}.

Lemma keeps_plan_block nested refuse wrap a p b :
  (∀ h q, keeps R (nested h q)) → keeps R (plan_block e nested refuse wrap a p b).
Proof. intros Hn. unfold plan_block, GetPendingSend. keep. Qed.

Lemma keeps_plan_blocks nested refuse wrap a p bs :
  (∀ h q, keeps R (nested h q)) → keeps R (plan_blocks e nested refuse wrap a p bs).
Proof.
  intros Hn. revert p. induction bs as [|b bs IH]; intros p; cbn [plan_blocks]; [keep|].
  apply (keeps_bind _); [by apply keeps_plan_block|done].
Qed.

Lemma keeps_planRollbackFrom nested a h p :
  (∀ h q, keeps R (nested h q)) → keeps R (planRollbackFrom e nested a h p).
Proof.
  intros Hn. unfold planRollbackFrom, GetAccountChain. keep. by apply keeps_plan_blocks.
Qed.

Lemma keeps_planRollbackOfSend fuel h p : keeps R (planRollbackOfSend e fuel h p).
Proof.
  revert h p. induction fuel as [|fuel IH]; intros h p; cbn [planRollbackOfSend]; [keep|].
  unfold rollback_of_send, GetPendingSend, LGetBlock, GetBlock. keep. by apply keeps_planRollbackFrom.
Qed.
End reads.

Context (L : Ledger).

(** ** What a successful call did *)

Definition marked (p : planning) (b : Block) : planning := ({[b_Hash b]} ∪ p.1, p.2).
Definition planned (p : planning) (a : string) (b : Block) : planning := (p.1, p.2 ++ [mkStep a b]).

Definition pure_plan (nested : string → planning → LM planning) : Prop :=
  ∀ h p, keeps eq (nested h p).

Lemma pending_or_ok h r L' : mor None (GetPendingSend e h) L = (Ok r, L') →
  L' = L ∧ (is_Some r → is_Some (pending (store L) !! h)).
Proof. intros [-> [-> | ->]]%mor_read_some; by split. Qed.

Lemma plan_block_ok nested refuse wrap a p b p' L' :
  pure_plan nested → plan_block e nested refuse wrap a p b L = (Ok p', L') →
  L' = L ∧
  (b_Hash b ∈ p.1 ∧ p' = p ∨
   b_Hash b ∉ p.1 ∧ unwindable (b_Type b) = true ∧ ∃ q, p' = planned q a b ∧
     (q = marked p b ∧ (b_Type b = BlockSend → is_Some (pending (store L) !! b_Hash b)) ∨
      b_Type b = BlockSend ∧ nested (b_Hash b) (marked p b) L = (Ok q, L))).
Proof.
  intros Hn H. unfold plan_block in H. case_bool_decide as Em; [run; auto|].
  run. bool_hyps. case_bool_decide as Et; run.
  - match goal with H : mor None _ _ = _ |- _ => apply pending_or_ok in H as [-> Hp] end.
    destruct x as [ps|]; run.
    + split; [done|]. right. split_and!; [done..|]. eexists. split; [reflexivity|]. left. eauto.
    + match goal with H : nested _ _ _ = _ |- _ => pose proof (Hn _ _ _ _ _ H) as <-; rename H into Hne end.
      split; [done|]. right. split_and!; [done..|]. eexists. split; [reflexivity|]. right. done.
  - split; [done|]. right. split_and!; [done..|]. eexists. split; [reflexivity|]. by left.
Qed.

Lemma plan_blocks_cons nested refuse wrap a p b bs p' L' :
  pure_plan nested → plan_blocks e nested refuse wrap a p (b :: bs) L = (Ok p', L') →
  ∃ q, plan_block e nested refuse wrap a p b L = (Ok q, L) ∧
    plan_blocks e nested refuse wrap a q bs L = (Ok p', L').
Proof.
  intros Hn H. cbn [plan_blocks] in H. run.
  match goal with H : plan_block _ _ _ _ _ _ _ _ = _ |- _ => pose proof H as Hb end.
  apply plan_block_ok in Hb as [-> _]; [|done]. eauto.
Qed.

(** A property of plans that every block keeps, is kept by the loop. *)
Lemma plan_blocks_ind (P : planning → Prop) nested refuse wrap a bs p p' L' :
  pure_plan nested →
  (∀ b q q', b ∈ bs → P q → plan_block e nested refuse wrap a q b L = (Ok q', L) → P q') →
  P p → plan_blocks e nested refuse wrap a p bs L = (Ok p', L') → L' = L ∧ P p'.
Proof.
  intros Hn. revert p. induction bs as [|b bs IH]; intros p Hb Hp H; [by injection H as <- <-|].
  apply plan_blocks_cons in H as (q & H1 & H2); [|done]. eapply IH in H2; [done| |].
  - intros x r r' Hx. apply Hb. set_solver.
  - eapply Hb; [|done..]. set_solver.
Qed.

(** What was read of the block a nested plan is for *)
Definition nothing_received (h : string) : Prop :=
  is_Some (pending (store L) !! h) ∨ blocks (store L) !! h = None ∨
  ∃ x, blocks (store L) !! h = Some x ∧
    (b_Destination x = "" ∨
     position (is_receive_of h) (default [] (chains (store L) !! b_Destination x)) = None).

Definition readable_height (a : string) (i : nat) : Prop :=
  fault e (CGetFinalHeight a) = None → default 0 (finalHeight (store L) !! a) <= Z.of_nat i.

Lemma FinalHeight_ok a i err L' u :
  (let! fh := FinalHeight e a in mfail_if (Z.of_nat i + 1 <=? fh) (err fh)) L = (Ok u, L') →
  readable_height a i ∧ L' = L.
Proof.
  intros H. run. match goal with H : FinalHeight _ _ _ = _ |- _ => apply mor_read_ok in H as [Hf ->] end.
  bool_hyps. split; [|done]. intros Hr. rewrite <- Hf by done. lia.
Qed.

Lemma planRollbackFrom_ok nested a h p p' L' :
  pure_plan nested → planRollbackFrom e nested a h p L = (Ok p', L') →
  L' = L ∧
  (position (is_receive_of h) (default [] (chains (store L) !! a)) = None ∧ p' = p ∨
   ∃ c i, chains (store L) !! a = Some c ∧ position (is_receive_of h) c = Some i ∧
     readable_height a i ∧
     plan_blocks e nested (unsupported a) id a p (reverse (drop i c)) L = (Ok p', L)).
Proof.
  intros Hn H. unfold planRollbackFrom, GetAccountChain in H. run. call_step.
  destruct (chains (store L) !! a) as [c|] eqn:Hc; simpl in *; [|by run; auto].
  case_bool_decide as E; [run; subst; auto|].
  destruct (position (is_receive_of h) c) as [i|] eqn:Hi; [|run; auto]. run.
  match goal with H : FinalHeight _ _ _ = _ |- _ => apply mor_read_ok in H as [Hf ->] end. bool_hyps.
  match goal with H : plan_blocks _ _ _ _ _ _ _ _ = _ |- _ => pose proof H as Hp end.
  apply (keeps_plan_blocks eq) in Hp as <-; [|done]. split; [done|]. right. exists c, i.
  split_and!; try done. intros Hr. rewrite <- Hf by done. lia.
Qed.

Lemma pure_send fuel : pure_plan (planRollbackOfSend e fuel).
Proof. intros h p. apply keeps_planRollbackOfSend. apply _. Qed.
#[local] Hint Resolve pure_send : core.

Lemma planRollbackOfSend_ok fuel h p p' L' :
  planRollbackOfSend e (S fuel) h p L = (Ok p', L') →
  L' = L ∧
  ((fault e (CGetBlock h) = None → nothing_received h) ∧ p' = p ∨
   ∃ x c i, blocks (store L) !! h = Some x ∧ chains (store L) !! b_Destination x = Some c ∧
     position (is_receive_of h) c = Some i ∧ readable_height (b_Destination x) i ∧
     plan_blocks e (planRollbackOfSend e fuel) (unsupported (b_Destination x)) id (b_Destination x) p
       (reverse (drop i c)) L = (Ok p', L)).
Proof.
  intros H. cbn [planRollbackOfSend] in H. unfold rollback_of_send in H. run.
  match goal with H : mor None _ _ = _ |- _ => apply pending_or_ok in H as [-> Hp] end.
  destruct x as [ps|]; run; [split; [done|]; left; split; [left; eauto|done]|].
  match goal with H : LGetBlock _ _ _ = _ |- _ => unfold LGetBlock in H; pose proof H as Hr;
    apply mor_read_ok in Hr as [Hb _]; apply mor_read_some in H as [-> Hx] end.
  destruct x as [x|]; run.
  - destruct Hx as [?|Hx]; [done|]. symmetry in Hx. case_bool_decide as Ed.
    + run. split; [done|]. left. split; [|done]. right; right. eauto.
    + apply planRollbackFrom_ok in H as [-> [[Hn ->]|(c & i & ? & ? & ? & ?)]];
        [| |done]; (split; [done|]).
      * left. split; [|done]. right; right. eauto.
      * right. eauto 10.
  - split; [done|]. left. split; [|done]. intros Hf. right; left. by rewrite Hb.
Qed.

(** ** The marks grow *)
Definition grows (p p' : planning) : Prop := p.1 ⊆ p'.1 ∧ p.2 `prefix_of` p'.2.

#[local] Instance grows_preorder : PreOrder grows.
Proof.
  split; [by intros p; split|]. intros p q r [? ?] [? ?]. split; [set_solver|by etrans].
Qed.

Definition nested_grows (nested : string → planning → LM planning) : Prop :=
  ∀ h p p' L', nested h p L = (Ok p', L') → grows p p'.

Lemma plan_block_grows nested refuse wrap a p b p' L' :
  pure_plan nested → nested_grows nested →
  plan_block e nested refuse wrap a p b L = (Ok p', L') → grows p p' ∧ b_Hash b ∈ p'.1.
Proof.
  intros Hn Hg H. apply plan_block_ok in H as [_ [[Hm ->]|(Hm & _ & q & -> & Hq)]]; [done..| |done].
  assert (Hgq : grows (marked p b) q) by (destruct Hq as [[-> _]|[_ Hq]]; [done|by eapply Hg]).
  destruct Hgq as [Hs Hp]. split; [split|]; simpl in *; [set_solver| |set_solver].
  etrans; [exact Hp|]. by apply prefix_app_r.
Qed.

Lemma plan_blocks_grows nested refuse wrap a p bs p' L' :
  pure_plan nested → nested_grows nested →
  plan_blocks e nested refuse wrap a p bs L = (Ok p', L') →
  grows p p' ∧ ∀ b, b ∈ bs → b_Hash b ∈ p'.1.
Proof.
  intros Hn Hg. revert p. induction bs as [|b bs IH]; intros p H.
  { injection H as <- <-. split; [done|]. intros b Hb. by apply elem_of_nil in Hb. }
  apply plan_blocks_cons in H as (q & H1 & H2); [|done].
  apply plan_block_grows in H1 as [Hg1 Hm]; [|done..]. apply IH in H2 as [Hg2 Hms].
  split; [by etrans|]. intros x [->|Hx]%elem_of_cons; [|by apply Hms]. by apply Hg2.
Qed.

Lemma nested_grows_send fuel : nested_grows (planRollbackOfSend e fuel).
Proof.
  induction fuel as [|fuel IH]; intros h p p' L' H; [discriminate H|].
  apply planRollbackOfSend_ok in H as [_ [[_ ->]|(x & c & i & _ & _ & _ & _ & H)]]; [done|].
  by eapply plan_blocks_grows in H as [? _].
Qed.
#[local] Hint Resolve nested_grows_send : core.

(** ** The recursion stops *)

Lemma elem_of_chain_hashes s a c b : chains s !! a = Some c → b ∈ c → b_Hash b ∈ chain_hashes s.
Proof.
  intros Hc Hb. unfold chain_hashes. apply elem_of_union_list.
  exists (list_to_set (b_Hash <$> c)). split.
  - apply list_elem_of_fmap. exists (a, c). split; [done|]. by apply elem_of_map_to_list.
  - apply elem_of_list_to_set. by apply list_elem_of_fmap_2.
Qed.

(** The blocks a plan has not marked *)
Notation left_to p := (size (chain_hashes (store L) ∖ p.1)).

Lemma left_marked p a c b : chains (store L) !! a = Some c → b ∈ c → b_Hash b ∉ p.1 →
  (left_to (marked p b) < left_to p)%nat.
Proof.
  intros Hc Hb Hn. apply subset_size. pose proof (elem_of_chain_hashes _ _ _ _ Hc Hb). set_solver.
Qed.

Lemma left_grows p q : grows p q → (left_to q ≤ left_to p)%nat.
Proof. intros [Hs _]. apply subseteq_size. set_solver. Qed.

(** Two nested planners that agree while at most [n] blocks are left *)
Definition agree (n : nat) (f g : string → planning → LM planning) : Prop :=
  ∀ h p, (left_to p < n)%nat → f h p L = g h p L.

Lemma plan_block_agree n f g refuse wrap a c p b :
  agree n f g → chains (store L) !! a = Some c → b ∈ c → (left_to p < S n)%nat →
  plan_block e f refuse wrap a p b L = plan_block e g refuse wrap a p b L.
Proof.
  intros Hag Hc Hb Hn. unfold plan_block. case_bool_decide as Em; [done|].
  pose proof (left_marked p a c b Hc Hb Em) as Hlt. unfold mbind_. destruct (mfail_if _ _ L) as [[u|err] L1] eqn:E; [|done].
  assert (L1 = L) as -> by (unfold mfail_if in E; destruct (negb _); by injection E).
  case_bool_decide; [|done]. destruct (mor None (GetPendingSend e (b_Hash b)) L) as [[[ps|]|err] L1] eqn:E1; [done| |done].
  apply pending_or_ok in E1 as [-> _]. unfold mwrap. unfold marked in Hlt. by rewrite Hag by (simpl in *; lia).
Qed.

Lemma plan_blocks_agree n f g refuse wrap a c p bs :
  pure_plan f → nested_grows f → agree n f g → chains (store L) !! a = Some c →
  (∀ b, b ∈ bs → b ∈ c) → (left_to p < S n)%nat →
  plan_blocks e f refuse wrap a p bs L = plan_blocks e g refuse wrap a p bs L.
Proof.
  intros Hp Hg Hag Hc. revert p. induction bs as [|b bs IH]; intros p Hbs Hn; [done|].
  cbn [plan_blocks]. unfold mbind_.
  rewrite <- (plan_block_agree n f g) with (c := c) by (done || apply Hbs; set_solver).
  destruct (plan_block e f refuse wrap a p b L) as [[q|err] L1] eqn:E; [|done].
  pose proof E as [-> _]%plan_block_ok; [|done].
  apply plan_block_grows in E as [Hq _]; [|done..]. apply left_grows in Hq.
  apply IH; [intros; apply Hbs; set_solver|lia].
Qed.

Lemma planRollbackFrom_agree n f g a h p :
  pure_plan f → nested_grows f → agree n f g → (left_to p < S n)%nat →
  planRollbackFrom e f a h p L = planRollbackFrom e g a h p L.
Proof.
  intros Hp Hg Hag Hn. unfold planRollbackFrom, mbind_.
  destruct (GetAccountChain e a L) as [[ch|err] L1] eqn:E; [|done].
  apply sread_ok in E as [-> ->]. destruct (chains (store L) !! a) as [c|] eqn:Hc; [|done]. simpl.
  case_bool_decide; [done|]. destruct (position _ c) as [i|]; [|done].
  destruct (FinalHeight e a L) as [[fh|err] L1] eqn:E; [|done].
  apply mor_read_ok in E as [_ ->]. unfold mfail_if. destruct (_ <=? _); [done|].
  unfold mret_. apply (plan_blocks_agree n) with (c := c); try done. intros b Hb.
  rewrite elem_of_reverse in Hb. by eapply elem_of_drop.
Qed.

Lemma rollback_agree n f g h p :
  pure_plan f → nested_grows f → agree n f g → (left_to p < S n)%nat →
  rollback_of_send e f h p L = rollback_of_send e g h p L.
Proof.
  intros Hp Hg Hag Hn. unfold rollback_of_send, mbind_.
  destruct (mor None (GetPendingSend e h) L) as [[[ps|]|err] L1] eqn:E; [done| |done].
  apply pending_or_ok in E as [-> _]. destruct (LGetBlock e h L) as [[[x|]|err] L1] eqn:E; [|done..].
  apply mor_read_some in E as [-> _]. case_bool_decide; [done|]. by eapply (planRollbackFrom_agree n).
Qed.

(** Unfolding the recursion as often as there are blocks left is enough: what is
    below is not reached. *)
Lemma enough_agrees n deepest : agree n (planRollbackOfSend e n) (Nat.iter n (rollback_of_send e) deepest).
Proof.
  induction n as [|n IH]; intros h p Hl; [lia|].
  change (rollback_of_send e (planRollbackOfSend e n) h p L = rollback_of_send e (Nat.iter n (rollback_of_send e) deepest) h p L).
  by apply (rollback_agree n).
Qed.

Lemma left_fuel (p : planning) : (left_to p < enough_fuel L)%nat.
Proof.
  unfold enough_fuel. pose proof (subseteq_size (chain_hashes (store L) ∖ p.1) (chain_hashes (store L)) ltac:(set_solver)). lia.
Qed.

(** Two planners that agree plan the same swap. *)
Lemma swap_plan_agree f g account c idx old :
  pure_plan f → nested_grows f → agree (enough_fuel L) f g → chains (store L) !! account = Some c →
  swap_plan e f account c idx old L = swap_plan e g account c idx old L.
Proof.
  intros Hp Hg Hag Hc. unfold swap_plan, mbind_.
  rewrite <- (plan_blocks_agree (enough_fuel L) f g) with (c := c); try done.
  - destruct (plan_blocks _ _ _ _ _ _ _ L) as [[[marks plan]|err] L1] eqn:E; [|done].
    apply (keeps_plan_blocks eq) in E as <-; [|done]. case_bool_decide; [|done]. unfold mwrap, planCascade, mbind_.
    destruct (mor None (GetPendingSend e (b_Hash old)) L) as [[[ps|]|err] L1] eqn:E; [done| |done].
    apply pending_or_ok in E as [-> _]. by rewrite Hag by apply left_fuel.
  - intros b Hb. rewrite elem_of_reverse in Hb. by eapply elem_of_drop.
  - pose proof (left_fuel (∅, [])). lia.
Qed.

Lemma swap_plan_unfolds fuel deepest account c idx old :
  chains (store L) !! account = Some c → (enough_fuel L ≤ fuel)%nat →
  swap_plan e (Nat.iter fuel (rollback_of_send e) deepest) account c idx old L =
  swap_plan e (planRollbackOfSend e (enough_fuel L)) account c idx old L.
Proof.
  intros Hc Hf. symmetry. replace fuel with (enough_fuel L + (fuel - enough_fuel L))%nat by lia.
  rewrite Nat.iter_add. apply (swap_plan_agree _ _ _ c); [apply pure_send|apply nested_grows_send|apply enough_agrees|done].
Qed.

(** ** What is planned *)

(** A block that may go: a transfer on a chain, above the final height *)
Definition removable (st : cascadeStep) : Prop :=
  ∃ c i, chains (store L) !! st_account st = Some c ∧ c !! i = Some (st_b st) ∧
    readable_height (st_account st) i ∧ unwindable (b_Type (st_b st)) = true.

(** The receive of a send that is no longer pending goes first. *)
Definition receive_planned (h : string) (steps : list cascadeStep) : Prop :=
  is_Some (pending (store L) !! h) ∨
  ∃ st, st ∈ steps ∧ b_Type (st_b st) = BlockReceive ∧ b_Source (st_b st) = h.

Definition sends_ok (steps : list cascadeStep) : Prop :=
  ∀ before st after, steps = before ++ st :: after → b_Type (st_b st) = BlockSend →
    receive_planned (b_Hash (st_b st)) before.

Lemma sends_snoc steps st : sends_ok steps →
  (b_Type (st_b st) = BlockSend → receive_planned (b_Hash (st_b st)) steps) →
  sends_ok (steps ++ [st]).
Proof.
  intros Hs Hn before x after E Ht. destruct after as [|y after _] using rev_ind.
  - apply app_inj_tail in E as [-> ->]. by apply Hn.
  - rewrite app_comm_cons, app_assoc in E. apply app_inj_tail in E as [-> _]. by eapply Hs.
Qed.

Lemma receive_planned_mono h steps steps' :
  steps ⊆ steps' → receive_planned h steps → receive_planned h steps'.
Proof. intros Hs [?|(st & ? & ?)]; [by left|]. right. exists st. set_solver. Qed.

(** The steps [before] belong to a plan made earlier with the same marks. *)
Record plan_inv (before : list cascadeStep) (p : planning) : Prop := {
  pl_steps : ∀ st, st ∈ p.2 → removable st;
  pl_marked : ∀ a c b, chains (store L) !! a = Some c → b ∈ c → b_Hash b ∈ p.1 →
    b_Type b ≠ BlockSend → mkStep a b ∈ before ++ p.2;
  pl_sends : sends_ok (before ++ p.2) }.

Section planned.
Context (Hinv : ledger_inv L) (Hhis : history (store L)).
Context (Hreads : ∀ h, fault e (CGetBlock h) = None).
Context (before : list cascadeStep).

Definition nested_ok (nested : string → planning → LM planning) : Prop :=
  ∀ a c b p p', chains (store L) !! a = Some c → b ∈ c → b_Type b = BlockSend →
    plan_inv before p → nested (b_Hash b) p L = (Ok p', L) →
    plan_inv before p' ∧ receive_planned (b_Hash b) (before ++ p'.2).

Lemma same_block a a' c c' b b' :
  chains (store L) !! a = Some c → b ∈ c → chains (store L) !! a' = Some c' → b' ∈ c' →
  b_Hash b' = b_Hash b → b' = b ∧ a' = a.
Proof.
  intros Hc Hb Hc' Hb' E. destruct (on_chain_stored L Hinv _ _ _ Hc Hb) as [H1 <-].
  destruct (on_chain_stored L Hinv _ _ _ Hc' Hb') as [H2 <-]. rewrite E, H1 in H2. by simplify_eq.
Qed.

Lemma elem_of_marked h p b : h ∈ (marked p b).1 → h = b_Hash b ∨ h ∈ p.1.
Proof. unfold marked. simpl. set_solver. Qed.

(** Marking a send, before its step is added *)
Lemma marked_inv p a c b : chains (store L) !! a = Some c → b ∈ c → b_Type b = BlockSend →
  plan_inv before p → plan_inv before (marked p b).
Proof.
  intros Hc Hb Ht [Hs Hm Hse]. split; [done| |done]. intros a' c' b' Hc' Hb' Hh Ht'.
  apply (Hm _ _ _ Hc' Hb'); [|done]. apply elem_of_marked in Hh as [Hh|Hh]; [|done].
  destruct (same_block _ _ _ _ _ _ Hc Hb Hc' Hb' Hh) as [-> _]. done.
Qed.

Lemma planned_inv q a c i b : chains (store L) !! a = Some c → c !! i = Some b →
  readable_height a i → unwindable (b_Type b) = true →
  (b_Type b = BlockSend → receive_planned (b_Hash b) (before ++ q.2)) →
  (∀ st, st ∈ q.2 → removable st) → sends_ok (before ++ q.2) →
  (∀ a' c' b', chains (store L) !! a' = Some c' → b' ∈ c' → b_Hash b' ∈ q.1 →
     b_Type b' ≠ BlockSend → b' = b ∨ mkStep a' b' ∈ before ++ q.2) →
  plan_inv before (planned q a b).
Proof.
  intros Hc Hi Hh Hu Hr Hs Hse Hm. pose proof (list_elem_of_lookup_2 _ _ _ Hi) as Hb. split; simpl.
  - intros st [?|Hst]%elem_of_app; [by apply Hs|]. apply list_elem_of_singleton in Hst as ->.
    by exists c, i.
  - intros a' c' b' Hc' Hb' Hq Ht. rewrite app_assoc. apply elem_of_app.
    destruct (Hm _ _ _ Hc' Hb' Hq Ht) as [->|?]; [right|by left].
    destruct (same_block _ _ _ _ _ _ Hc Hb Hc' Hb' eq_refl) as [_ ->]. set_solver.
  - rewrite app_assoc. by apply sends_snoc.
Qed.

Lemma plan_block_inv nested refuse wrap a c i p b p' :
  pure_plan nested → nested_ok nested →
  chains (store L) !! a = Some c → c !! i = Some b → readable_height a i → plan_inv before p →
  plan_block e nested refuse wrap a p b L = (Ok p', L) → plan_inv before p'.
Proof.
  intros Hn Hok Hc Hi Hh Hp H. pose proof (list_elem_of_lookup_2 _ _ _ Hi) as Hb.
  apply plan_block_ok in H as [_ [[_ ->]|(Hm & Hu & q & -> & Hq)]]; [done| |done].
  assert (plan_inv before q ∧ receive_planned (b_Hash b) (before ++ q.2) ∨
          b_Type b ≠ BlockSend ∧ q = marked p b) as [[Hq' Hr]|[Ht ->]].
  { destruct Hq as [[-> Hps]|[Ht Hq]].
    - destruct (decide (b_Type b = BlockSend)) as [Ht|Ht]; [left|by right].
      split; [by eapply marked_inv|]. left. by apply Hps.
    - left. eapply Hok; [exact Hc|done..| |exact Hq]. by eapply marked_inv. }
  - eapply planned_inv; try done; [by apply Hq'..|]. intros. right. by eapply (pl_marked _ _ Hq').
  - eapply planned_inv; try done; try apply Hp. intros a' c' b' Hc' Hb' Hq' Ht'.
    apply elem_of_marked in Hq' as [Hq'|Hq'].
    + left. by destruct (same_block _ _ _ _ _ _ Hc Hb Hc' Hb' Hq').
    + right. by eapply (pl_marked _ _ Hp).
Qed.

Lemma readable_le a i j : (i ≤ j)%nat → readable_height a i → readable_height a j.
Proof. intros Hij Hh Hf. specialize (Hh Hf). lia. Qed.

Lemma plan_blocks_inv nested refuse wrap a c i p p' L' :
  pure_plan nested → nested_ok nested →
  chains (store L) !! a = Some c → readable_height a i → plan_inv before p →
  plan_blocks e nested refuse wrap a p (reverse (drop i c)) L = (Ok p', L') → plan_inv before p'.
Proof.
  intros Hn Hok Hc Hh Hp H. eapply plan_blocks_ind in H as [_ H]; [exact H|done| |done].
  intros b q q' Hb Hq Hqq. rewrite elem_of_reverse in Hb. apply list_elem_of_lookup in Hb as [j Hj].
  rewrite lookup_drop in Hj. eapply plan_block_inv; try done. eapply readable_le; [|done]. lia.
Qed.

Lemma position_spec f c i : position f c = Some i → ∃ b, c !! i = Some b ∧ f b = true.
Proof.
  revert i. induction c as [|b c IH]; intros i; simpl; [done|]. destruct (f b) eqn:E.
  - intros [= <-]. eauto.
  - destruct (position f c) as [j|]; [|done]. intros [= <-]. by apply IH.
Qed.

Lemma position_none f c b : position f c = None → b ∈ c → f b = false.
Proof.
  induction c as [|x c IH]; simpl; [by intros _ ?%elem_of_nil|]. destruct (f x) eqn:E; [done|].
  destruct (position f c); [done|]. intros _ [->|Hb]%elem_of_cons; [done|by apply IH].
Qed.

(** A send on a chain is pending, or the chain of its destination receives it. *)
Lemma send_received a c b : chains (store L) !! a = Some c → b ∈ c → b_Type b = BlockSend →
  nothing_received (b_Hash b) → is_Some (pending (store L) !! b_Hash b).
Proof.
  intros Hc Hb Ht Hn. destruct (pending (store L) !! b_Hash b) as [ps|] eqn:E; [by eexists|].
  destruct (on_chain_stored L Hinv _ _ _ Hc Hb) as [Hs _].
  destruct (hi_spent _ Hhis _ _ _ Hc Hb Ht E) as (c' & Hc' & Hsrc).
  destruct Hn as [Hn|[Hn|(x & Hx & Hd)]]; [by rewrite E in Hn|congruence|].
  rewrite Hs in Hx. injection Hx as <-. exfalso. destruct Hd as [Hd|Hd].
  - destruct (chain_step L Hhis _ _ _ Hc Hb) as (pre & post & _ & Hst).
    unfold step_ok in Hst. rewrite Ht in Hst. by destruct Hst.
  - rewrite Hc' in Hd. simpl in Hd. apply elem_of_sources in Hsrc as (r & Hr & Htr & Hsr).
    pose proof (position_none _ _ _ Hd Hr) as Hf. unfold is_receive_of in Hf.
    by rewrite Htr, Hsr, !bool_decide_true in Hf.
Qed.

Lemma nested_ok_send fuel : nested_ok (planRollbackOfSend e fuel).
Proof.
  induction fuel as [|fuel IH]; intros a c b p p' Hc Hb Ht Hp H; [discriminate H|].
  apply planRollbackOfSend_ok in H as [_ [[Hn ->]|(x & c' & i & Hx & Hc' & Hi & Hh & H)]].
  - split; [done|]. left. eapply send_received; eauto.
  - pose proof H as Hg. eapply plan_blocks_inv in H; try done. split; [done|]. right.
    apply plan_blocks_grows in Hg as [_ Hg]; [|done..].
    apply position_spec in Hi as (r & Hr & Hrec). unfold is_receive_of in Hrec. bool_hyps.
    exists (mkStep (b_Destination x) r). split_and!; [|done..].
    eapply (pl_marked _ _ H); [done|by eapply list_elem_of_lookup_2| |congruence].
    apply Hg. rewrite elem_of_reverse. apply (list_elem_of_lookup_2 _ 0). by rewrite lookup_drop, Nat.add_0_r.
Qed.
End planned.

(** ** The whole plan *)
Section whole.
Context (Hinv : ledger_inv L) (Hhis : history (store L)).
Context (Hreads : ∀ h, fault e (CGetBlock h) = None).

Lemma plan_inv_nil : plan_inv [] (∅, []).
Proof. split; [by intros ? ?%elem_of_nil|set_solver|by intros [] ???]. Qed.

Lemma plan_inv_next marks plan : plan_inv [] (marks, plan) → plan_inv plan (marks, []).
Proof.
  intros [Hs Hm Hse]. split; simpl in *; [by intros ? ?%elem_of_nil| |by rewrite app_nil_r].
  intros a c b Hc Hb. rewrite app_nil_r. by apply (Hm a c).
Qed.

Lemma planCascade_inv fuel a c b before marks marks' plan L' :
  chains (store L) !! a = Some c → b ∈ c → b_Type b = BlockSend → plan_inv before (marks, []) →
  planCascade e (planRollbackOfSend e fuel) (b_Hash b) marks L = (Ok (marks', plan), L') →
  L' = L ∧ plan_inv before (marks', plan) ∧ receive_planned (b_Hash b) (before ++ plan).
Proof.
  intros Hc Hb Ht Hp H. unfold planCascade in H. run.
  match goal with H : mor None _ _ = _ |- _ => apply pending_or_ok in H as [-> Hps] end.
  destruct x as [ps|]; run.
  - injection H as <- <-. split_and!; [done..|]. left. by apply Hps.
  - pose proof (pure_send _ _ _ _ _ _ H) as <-. split; [done|].
    by apply (nested_ok_send Hinv Hhis Hreads before fuel a c b (marks, [])).
Qed.

Lemma swap_plan_ok fuel account c idx old plan L' :
  chains (store L) !! account = Some c → c !! idx = Some old → readable_height account idx →
  unwindable (b_Type old) = true → swap_plan e (planRollbackOfSend e fuel) account c idx old L = (Ok plan, L') →
  L' = L ∧ (∀ st, st ∈ plan → removable st) ∧ sends_ok plan ∧
  ∃ steps, plan = steps ++ [mkStep account old].
Proof.
  intros Hc Hi Hh Hu H. pose proof (list_elem_of_lookup_2 _ _ _ Hi) as Hb. unfold swap_plan in H. run.
  match goal with H : plan_blocks _ _ _ _ _ _ _ _ = (Ok ?p, _) |- _ =>
    rename H into H1; destruct p as [marks steps]; pose proof H1 as HL end.
  apply (keeps_plan_blocks eq) in HL as <-; [|apply pure_send].
  apply (plan_blocks_inv Hinv Hhis Hreads []) in H1; [|apply pure_send|by apply nested_ok_send|done|
    by apply (readable_le _ idx); [lia|]|apply plan_inv_nil].
  assert (Hold : removable (mkStep account old)) by by exists c, idx.
  case_bool_decide as Ht; run.
  - match goal with H : planCascade _ _ _ _ _ = (Ok ?p, _) |- _ =>
      rename H into H2; destruct p as [marks' steps'] end. run.
    eapply planCascade_inv in H2 as (-> & H2 & Hr); [|done..|by apply plan_inv_next].
    split_and!; [done| | |by eexists].
    + intros st Hst. apply elem_of_app in Hst as [Hst|Hst%list_elem_of_singleton]; [|by subst].
      apply elem_of_app in Hst as [Hst|Hst]; [by apply (pl_steps _ _ H1)|by apply (pl_steps _ _ H2)].
    + apply sends_snoc; [apply (pl_sends _ _ H2)|done].
  - split_and!; [done| | |by eexists].
    + intros st [Hst|Hst%list_elem_of_singleton]%elem_of_app; [by apply (pl_steps _ _ H1)|by subst].
    + apply sends_snoc; [apply (pl_sends _ _ H1)|done].
Qed.
End whole.
End plan.
