(* ===== verification/VoteFacts.v ===== *)
(** * Votes and quorums

    What a tally returns, why two tallies of one election agree, and what a
    representative may sign: its final votes follow a lock that never changes. *)
From S2P Require Import Prelude GoLib Types Encoding LeaseMath Crypto Multisig Attestation Genesis Reputation Store Ledger Rollback Handlers Restart AddBlock Swap Quorum Vote LedgerSpec LedgerCommit LedgerRules LedgerCalls.

(** ** Weights of sets of representatives *)
Section weight.
Context (snap : gmap string Z) (Hpos : ∀ a w, snap !! a = Some w → 0 <= w).

Definition weight_of (X : gset string) : Z := map_sum (λ a w, if bool_decide (a ∈ X) then w else 0) snap.
Notation total := (map_sum (λ _ w, w) snap).

Lemma map_sum_le (f g : string → Z → Z) (m : gmap string Z) :
  (∀ k v, m !! k = Some v → f k v <= g k v) → map_sum f m <= map_sum g m.
Proof.
  induction m as [|k v m Hk IH] using map_ind; intros H; [by rewrite !map_sum_empty|].
  rewrite !map_sum_insert_fresh by done. pose proof (H k v (lookup_insert_eq _ _ _)).
  enough (map_sum f m <= map_sum g m) by lia. apply IH. intros k' v' Hk'. apply H.
  rewrite lookup_insert_ne; [done|congruence].
Qed.

Lemma weight_mono X Y : X ⊆ Y → weight_of X <= weight_of Y.
Proof.
  intros HXY. apply map_sum_le. intros a w Hw. apply Hpos in Hw.
  repeat case_bool_decide; try lia. set_solver.
Qed.

(** Two sets weigh together at most the whole and what they share. *)
Lemma weight_overlap X Y : weight_of X + weight_of Y <= total + weight_of (X ∩ Y).
Proof.
  unfold weight_of. rewrite <- !map_sum_add. apply map_sum_le. intros a w Hw. apply Hpos in Hw.
  repeat case_bool_decide; try lia; set_solver.
Qed.

Lemma weight_add a X : a ∉ X → weight_of ({[a]} ∪ X) = get_weight snap a + weight_of X.
Proof.
  clear Hpos. intros Ha. unfold weight_of, get_weight. induction snap as [|k w m Hk IH] using map_ind.
  { by rewrite !map_sum_empty, lookup_empty. }
  rewrite !map_sum_insert_fresh, IH by done. destruct (decide (k = a)) as [->|Hne].
  - rewrite lookup_insert_eq, Hk. simpl. rewrite bool_decide_true, bool_decide_false by set_solver. lia.
  - rewrite lookup_insert_ne by done.
    destruct (decide (k ∈ X)); [rewrite !bool_decide_true by set_solver|rewrite !bool_decide_false by set_solver]; lia.
Qed.

Lemma weight_empty : weight_of ∅ = 0.
Proof.
  clear Hpos. unfold weight_of. induction snap as [|k w m Hk IH] using map_ind; [apply map_sum_empty|].
  rewrite map_sum_insert_fresh, IH by done. rewrite bool_decide_false by set_solver. lia.
Qed.

(** What [quorumNumerator] of the whole means *)
Definition quorum_of (X : gset string) : Prop := total * quorumNumerator <= weight_of X * quorumDenominator.

(** Two quorums share more than 33 % of the weight. *)
Lemma quorum_overlap X Y : quorum_of X → quorum_of Y → total * 34 <= weight_of (X ∩ Y) * 100.
Proof. pose proof (weight_overlap X Y). unfold quorum_of, quorumNumerator, quorumDenominator. lia. Qed.

(** So two quorums share a representative outside any lighter set. *)
Lemma quorum_honest X Y B : quorum_of X → quorum_of Y → weight_of B * 100 < total * 34 →
  ∃ a, a ∈ X ∧ a ∈ Y ∧ a ∉ B.
Proof.
  intros HX HY HB. destruct (set_choose_or_empty ((X ∩ Y) ∖ B)) as [[a Ha]|Hsub]; [set_solver|].
  pose proof (weight_mono (X ∩ Y) B ltac:(intros a Ha; destruct (decide (a ∈ B)); set_solver)).
  pose proof (quorum_overlap X Y HX HY). lia.
Qed.
End weight.

(** ** The tally *)
Section tally.
Context `{C : Crypto} (V : VoteEnv).
Notation e := (ve_env V).

Lemma on_ledger_read {A} (m : LM A) n r n' : keeps eq m →
  on_ledger m n = (r, n') → n' = n ∧ m (n_ledger n) = (r, n_ledger n).
Proof.
  intros Hm H. unfold on_ledger in H. destruct (m (n_ledger n)) as [r1 L1] eqn:E.
  pose proof (Hm _ _ _ E) as <-. injection H as <- <-. split; [by destruct n|done].
Qed.

(** Whether a final vote counts: its block is held and belongs to the position *)
Definition counted (n : Node) (account previous : string) (v : Vote) : bool :=
  v_Final v &&
  match fst (GetBlockOrStaged e (v_BlockHash v) (n_ledger n)) with
  | Ok (Some b) => (b_Account b =?s account) && (b_Previous b =?s previous)
  | _ => false
  end.

Lemma counted_final n account previous v (x : bool) : counted n account previous v && x → v_Final v = true ∧ x = true.
Proof. unfold counted. by destruct (v_Final v), x, (fst _) as [[?|]|]; rewrite ?andb_false_r. Qed.

(** The weight of the votes that satisfy a test *)
Definition votes_weight (f : Vote → bool) (vs : list Vote) : Z :=
  foldr (λ v acc, (if f v then v_Weight v else 0) + acc) 0 vs.

Lemma votes_weight_cons f v vs :
  votes_weight f (v :: vs) = (if f v then v_Weight v else 0) + votes_weight f vs.
Proof. done. Qed.

Lemma tally_votes_ok account previous vs wb cs n wb' cs' n' :
  tally_votes V account previous vs wb cs n = (Ok (wb', cs'), n') →
  n' = n ∧ cs' = list_to_set (v_BlockHash <$> vs) ∪ cs ∧
  ∀ h, get_weight wb' h = get_weight wb h +
    votes_weight (λ v, counted n account previous v && (v_BlockHash v =?s h)) vs.
Proof.
  revert wb cs. induction vs as [|v vs IH]; intros wb cs H.
  { injection H as <- <- <-. split_and!; [done|set_solver|]. intros h. simpl. lia. }
  cbn [tally_votes] in H. cbn [fmap list_fmap list_to_set]. setoid_rewrite votes_weight_cons.
  unfold counted at 1.
  destruct (v_Final v); cbn [negb andb] in *.
  - unfold mbind_ in H. destruct (on_ledger _ n) as [[b|err] n1] eqn:Hb; [|discriminate].
    apply on_ledger_read in Hb as [-> Hb]; [|by keep]. rewrite Hb. cbn [fst].
    apply IH in H as (-> & -> & Hw). split_and!; [done|set_solver|]. intros h. rewrite Hw.
    destruct b as [b|]; [destruct (_ && _) eqn:Ec|]; cbn [andb]; try lia.
    rewrite get_weight_insert. clear Ec. case_bool_decide; subst; lia.
  - apply IH in H as (-> & -> & Hw). split_and!; [done|set_solver|]. intros h. rewrite Hw. lia.
Qed.

(** ** The winner *)

(** No two hashes of a list reach the threshold. *)
Definition one_quorum (wb : gmap string Z) (t : Z) (hs : list string) : Prop :=
  ∀ h h', h ∈ hs → h' ∈ hs → t <= get_weight wb h * quorumDenominator →
    t <= get_weight wb h' * quorumDenominator → h = h'.

Lemma one_quorum_tail wb t h hs : one_quorum wb t (h :: hs) → one_quorum wb t hs.
Proof. intros H h1 h2 H1 H2. apply H; set_solver. Qed.

Lemma find_winner_ok account previous pf wb t cs hs n r n' : NoDup hs → one_quorum wb t hs →
  find_winner V account previous pf wb t cs hs n = (Ok (Some r), n') →
  ∃ h, h ∈ hs ∧ t <= get_weight wb h * quorumDenominator ∧
    pickWinner V account previous pf cs h n = (Ok (qr_WinnerHash r), n').
Proof.
  intros Hnd Huq. revert n. induction hs as [|h hs IH]; intros n H; [discriminate|].
  apply NoDup_cons in Hnd as [Hh Hnd]. specialize (IH Hnd (one_quorum_tail _ _ _ _ Huq)).
  cbn [find_winner] in H. destruct (t <=? _) eqn:Et.
  - run. destruct (negb _) eqn:Ew; run.
    + injection H as <-. exists h. split_and!; [set_solver|lia|done].
    + apply IH in H as (h' & Hh' & Hw & _). assert (h = h') as <- by (apply Huq; [set_solver..|lia|done]). done.
  - apply IH in H as (h' & Hh' & ?). exists h'. split; [set_solver|done].
Qed.

(** The hash with the quorum, or a substitute when that block cannot be promoted *)
Lemma pickWinner_ok account previous pf cs h n w n' :
  pickWinner V account previous pf cs h n = (Ok w, n') →
  w = h ∨ pf = true ∧ ∃ n1, qm_promotable V account previous h n = (Ok false, n1).
Proof.
  unfold pickWinner. intros H. destruct ((h =?s "") || negb pf) eqn:E; run; [by left|].
  case_match; run; [by left|]. right. destruct pf; [|by rewrite orb_true_r in E]. eauto.
Qed.

(** ** Elections

    The votes a node holds for a position *)
Definition ballots (n : Node) (account previous : string) : list Vote :=
  votes_for account previous (store (n_ledger n)).

(** The representatives whose final vote for a hash is counted *)
Definition voters (n : Node) (account previous h : string) : gset string :=
  list_to_set (RepAccount <$> filter (λ v, counted n account previous v && (v_BlockHash v =?s h)) (ballots n account previous)).

(** A contested position whose votes carry the weights of the recorded snapshot, one
    final vote for each representative *)
Record election (n : Node) (account previous : string) (snap : gmap string Z) := {
  el_conflict : ∃ c, fst (LGetConflict e account previous (n_ledger n)) = Ok (Some c) ∧
    c_TotalWeight c = map_sum (λ _ w, w) snap;
  el_positive : 0 < map_sum (λ _ w, w) snap;
  el_natural : ∀ a w, snap !! a = Some w → 0 <= w;
  el_weights : ∀ v, v ∈ ballots n account previous → v_Final v = true → v_Weight v = get_weight snap (RepAccount v);
  el_once : NoDup (RepAccount <$> filter (λ v, v_Final v) (ballots n account previous)) }.

Lemma votes_weight_of snap (f : Vote → bool) vs :
  (∀ v, v ∈ vs → f v → v_Weight v = get_weight snap (RepAccount v)) →
  NoDup (RepAccount <$> filter (λ v, f v) vs) →
  votes_weight f vs = weight_of snap (list_to_set (RepAccount <$> filter (λ v, f v) vs)).
Proof.
  induction vs as [|v vs IH]; intros Hw Hnd; [by rewrite weight_empty|].
  rewrite votes_weight_cons, filter_cons in *. destruct (decide (f v)) as [Hf|Hf].
  - cbn [fmap list_fmap list_to_set] in *. apply NoDup_cons in Hnd as [Ha Hnd].
    rewrite weight_add by (by rewrite elem_of_list_to_set). rewrite IH; [|intros; apply Hw; [by right|done]|done].
    rewrite (Hw v (list_elem_of_here _ _) Hf). by destruct (f v).
  - rewrite IH; [|intros; apply Hw; [by right|done]|done]. destruct (f v); [by destruct Hf|lia].
Qed.

Lemma filter_once {A B} (g : A → B) (P Q : A → Prop) `{∀ x, Decision (P x), ∀ x, Decision (Q x)} l :
  (∀ x, P x → Q x) → NoDup (g <$> filter Q l) → NoDup (g <$> filter P l).
Proof.
  intros HPQ Hnd. eapply sublist_NoDup; [done|]. apply fmap_sublist. clear Hnd. induction l as [|x l IH]; [done|].
  rewrite !filter_cons. destruct (decide (P x)), (decide (Q x)); try naive_solver; by constructor.
Qed.

Lemma NoDup_fmap_elem {A B} (g : A → B) l x y : NoDup (g <$> l) → x ∈ l → y ∈ l → g x = g y → x = y.
Proof.
  intros Hnd [i Hi]%list_elem_of_lookup [j Hj]%list_elem_of_lookup Heq.
  enough (i = j) by congruence.
  eapply NoDup_lookup; [done|by rewrite list_lookup_fmap, Hi|by rewrite list_lookup_fmap, Hj, Heq].
Qed.

Section elected.
Context (n : Node) (account previous : string) (snap : gmap string Z).
Hypothesis Hel : election n account previous snap.

Lemma voters_weight h : weight_of snap (voters n account previous h) =
  votes_weight (λ v, counted n account previous v && (v_BlockHash v =?s h)) (ballots n account previous).
Proof.
  symmetry. apply votes_weight_of.
  - intros v Hv Hc. apply (el_weights _ _ _ _ Hel); [done|]. by apply counted_final in Hc as [? _].
  - eapply filter_once, (el_once _ _ _ _ Hel). intros v [-> _]%counted_final. done.
Qed.

Lemma elem_of_voters h a : a ∈ voters n account previous h →
  ∃ v, v ∈ ballots n account previous ∧ v_Final v = true ∧ v_BlockHash v = h ∧ RepAccount v = a.
Proof.
  unfold voters. rewrite elem_of_list_to_set, list_elem_of_fmap. intros (v & -> & Hv).
  apply list_elem_of_filter in Hv as [Hc Hv]. exists v.
  apply counted_final in Hc as [Hf Hh%bool_decide_eq_true]. done.
Qed.

(** A representative backs one hash. *)
Lemma final_once v v' : v ∈ ballots n account previous → v' ∈ ballots n account previous →
  v_Final v = true → v_Final v' = true → RepAccount v = RepAccount v' → v = v'.
Proof.
  intros Hv Hv' Hf Hf' Heq. pose proof (el_once _ _ _ _ Hel) as Hnd.
  apply (NoDup_fmap_elem RepAccount _ _ _ Hnd); [..|done]; apply list_elem_of_filter; split; by rewrite ?Hf, ?Hf'.
Qed.

Lemma one_voter h h' : h ≠ h' → voters n account previous h ∩ voters n account previous h' = ∅.
Proof.
  intros Hne. apply set_eq. intros a. split; [|set_solver]. intros [Ha Ha']%elem_of_intersection.
  apply elem_of_voters in Ha as (v & Hv & Hf & Hh & Hr), Ha' as (v' & Hv' & Hf' & Hh' & Hr').
  rewrite (final_once v v') in Hh by congruence. congruence.
Qed.

Lemma one_winner h h' : quorum_of snap (voters n account previous h) →
  quorum_of snap (voters n account previous h') → h = h'.
Proof.
  intros H H'. destruct (decide (h = h')) as [|Hne]; [done|].
  pose proof (quorum_overlap snap (el_natural _ _ _ _ Hel) _ _ H H') as Ho.
  rewrite (one_voter _ _ Hne), weight_empty in Ho. pose proof (el_positive _ _ _ _ Hel). lia.
Qed.

Lemma prev_final_read (b : bool) r n1 :
  (if b then mret_ true else on_ledger (IsFinalized e account previous)) n = (Ok r, n1) → n1 = n.
Proof.
  clear Hel. intros H. destruct b; run; [done|].
  by apply on_ledger_read in H as [-> _]; [|apply (keeps_IsFinalized _ eq)].
Qed.

(** A tally with a result has counted the votes and then looked for the winner. *)
Lemma finalTally_some r n' : finalTally V account previous n = (Ok (Some r), n') →
  ∃ wb pf cs, (∀ h, get_weight wb h = weight_of snap (voters n account previous h)) ∧
    find_winner V account previous pf wb (map_sum (λ _ w, w) snap * quorumNumerator) cs
      (sort_strings (map_to_list wb).*1) n = (Ok (Some r), n').
Proof.
  intros H. unfold finalTally in H. run.
  match goal with H : on_ledger (GetVotesByConflict _ _ _) _ = _ |- _ => rename H into Hvs end.
  apply on_ledger_read in Hvs as [-> Hvs]; [|apply (keeps_sread _ eq)].
  apply sread_ok in Hvs as [-> _].
  match goal with H : tally_votes _ _ _ _ _ _ _ = (Ok ?p, _) |- _ => rename H into Htv; destruct p as [wb cs] end.
  apply tally_votes_ok in Htv as (-> & -> & Hw). run.
  match goal with H : LGetConflictN _ _ _ _ = _ |- _ => rename H into Hc end.
  apply on_ledger_read in Hc as [-> Hc]; [|unfold LGetConflict; by keep].
  destruct (el_conflict _ _ _ _ Hel) as (c & Hc' & Ht). rewrite Hc in Hc'. injection Hc' as ->.
  pose proof (el_positive _ _ _ _ Hel). unfold conflict_total in *.
  rewrite (proj2 (Z.ltb_lt _ _)) in * by lia.
  match goal with H : on_ledger (mret_ _) _ = _ |- _ => apply on_ledger_read in H as [-> [=<-]]; [|by keep] end.
  rewrite (proj2 (Z.eqb_neq _ _)) in H by lia. run.
  match goal with H : (if _ then mret_ true else _) _ = _ |- _ => apply prev_final_read in H as -> end.
  case_match; run; simplify_eq. rewrite <- Ht. eexists wb, _, _. split; [|done].
  intros h. by rewrite Hw, voters_weight.
Qed.

Lemma finalTally_ok r n' : finalTally V account previous n = (Ok (Some r), n') →
  ∃ h, quorum_of snap (voters n account previous h) ∧
    (qr_WinnerHash r = h ∨ ∃ n1, qm_promotable V account previous h n = (Ok false, n1)).
Proof.
  intros (wb & pf & cs & Hw & H)%finalTally_some. apply find_winner_ok in H as (h & _ & Hq & Hp).
  - exists h. rewrite Hw in Hq. split; [done|]. apply pickWinner_ok in Hp as [|[_ ?]]; eauto.
  - eapply NoDup_Permutation_proper; [apply sort_strings_perm|]. apply NoDup_fst_map_to_list.
  - intros h h' _ _ Hh Hh'. rewrite Hw in Hh, Hh'. by apply one_winner.
Qed.
End elected.
End tally.
