(* ===== verification/LedgerRestart.v ===== *)
(** * A restart is invisible

    [NewLedger] on the store of a well-formed ledger rebuilds the balances, the
    delegations and the voting weights that ledger had, and leaves the store
    alone; on an empty store it writes the genesis block. *)
From S2P Require Import Prelude GoLib Types Encoding LeaseMath Crypto Multisig Attestation Genesis Reputation Store Ledger Rollback Handlers Restart AddBlock LedgerSpec LedgerCommit LedgerRules LedgerCalls LedgerUndo.

(** ** Voting weight *)

(** The weight the chains of the accounts in [P] delegate *)
Definition delegated_by (P : gset string) (s : StoreState) (rep : string) : Z :=
  map_sum (λ a c, if bool_decide (a ∈ P) then chain_weight rep c else 0) (chains s).

Lemma delegated_by_empty s rep : delegated_by ∅ s rep = 0.
Proof. apply map_sum_0. intros a c _. by rewrite bool_decide_false by set_solver. Qed.

Lemma delegated_by_add P s rep a : a ∉ P →
  delegated_by ({[a]} ∪ P) s rep = delegated_by P s rep + from_option (chain_weight rep) 0 (chains s !! a).
Proof.
  intros Ha. unfold delegated_by. destruct (chains s !! a) as [c|] eqn:E; simpl.
  - rewrite !(map_sum_delete _ _ _ _ E), (bool_decide_true (a ∈ {[a]} ∪ P)) by set_solver.
    rewrite (bool_decide_false (a ∈ P)) by done.
    rewrite (map_sum_ext _ (λ a c, if bool_decide (a ∈ P) then chain_weight rep c else 0)); [lia|].
    intros k v [Hk _]%lookup_delete_Some. by rewrite (bool_decide_ext _ (k ∈ P)) by set_solver.
  - rewrite (map_sum_ext _ (λ a c, if bool_decide (a ∈ P) then chain_weight rep c else 0)); [lia|].
    intros k v Hk. rewrite (bool_decide_ext _ (k ∈ P)); [done|].
    assert (k ≠ a) by congruence. set_solver.
Qed.

Section restart.
Context `{C : Crypto} (e : Env).

(** What rebuilding the delegations leaves alone *)
Record same_but_delegation (L L' : Ledger) : Prop := {
  sd_store : store L' = store L;
  sd_balances : assetBalances L' = assetBalances L;
  sd_underflow : delegationUnderflow L' = delegationUnderflow L;
  sd_cascade : activeCascade L' = activeCascade L }.

Lemma rebuild_delegation_step P s a rep L L1 u :
  store L = s → rep ≠ "" → from_option chain_rep rep (chains s !! a) = rep → a ∉ P →
  (∀ r, r ≠ "" → get_weight (weights L) r = delegated_by P s r) →
  rebuild_delegation e (a, rep) L = (Ok u, L1) →
  same_but_delegation L L1 ∧ delegation L1 = <[a := rep]> (delegation L) ∧
  ∀ r, r ≠ "" → get_weight (weights L1) r = delegated_by ({[a]} ∪ P) s r.
Proof.
  intros <- Hr Hc Ha Hw H. unfold rebuild_delegation, GetAccountChain in H. rewrite bool_decide_false in H by done.
  calls.
  all: split; [by split|]; split; [done|]; intros r Hne; rewrite delegated_by_add by done; simpl in *.
  - match goal with H : chains _ !! a = Some _ |- _ => rewrite H in * end. simpl in *.
    unfold chain_weight. rewrite get_weight_insert, !Hw by done. rewrite Hc.
    destruct (decide (r = rep)) as [->|Hd].
    + rewrite !bool_decide_true by done. done.
    + rewrite !bool_decide_false by congruence. lia.
  - match goal with H : chains _ !! a = None |- _ => rewrite H end. rewrite Hw by done. simpl. lia.
Qed.

Lemma rebuild_delegation_loop s ds P L L1 u :
  store L = s → NoDup ds.*1 →
  (∀ a r, (a, r) ∈ ds → r ≠ "" ∧ a ∉ P ∧ from_option chain_rep r (chains s !! a) = r) →
  (∀ r, r ≠ "" → get_weight (weights L) r = delegated_by P s r) →
  mfor (rebuild_delegation e) ds L = (Ok u, L1) →
  same_but_delegation L L1 ∧ delegation L1 = list_to_map ds ∪ delegation L ∧
  ∀ r, r ≠ "" → get_weight (weights L1) r = delegated_by (list_to_set ds.*1 ∪ P) s r.
Proof.
  revert P L. induction ds as [|[a rep] ds IH]; intros P L Hs Hnd Hds Hw H; cbn [mfor] in H.
  { run. split; [done|]. cbn. rewrite (left_id_L ∅ (∪)). split; [done|].
    intros r Hr. by rewrite (left_id_L ∅ (∪)), Hw. }
  apply NoDup_cons in Hnd as [Ha Hnd]. apply mbind_ok in H as (u0 & L0 & H0 & H).
  destruct (Hds a rep ltac:(set_solver)) as (Hr & HP & Hc).
  eapply (rebuild_delegation_step P s) in H0 as ([E1 E2 E3 E4] & Ed & Hw1); [|done..].
  eapply (IH ({[a]} ∪ P)) in H as ([F1 F2 F3 F4] & Fd & Hw2); [|congruence|done| |done].
  - split; [split; congruence|]. split.
    + rewrite Fd, Ed, <- insert_union_r by (by apply not_elem_of_list_to_map_1). by rewrite insert_union_l.
    + intros r Hne. rewrite Hw2 by done. f_equal. set_solver.
  - intros x r Hx. destruct (Hds x r ltac:(set_solver)) as (? & ? & ?). split_and!; [done| |done].
    intros [->%elem_of_singleton|?]%elem_of_union; [|done].
    apply Ha, list_elem_of_fmap. by exists (a, r).
Qed.

Lemma rebuildDelegation_ok L L1 u :
  ledger_inv L → rebuildDelegation e (blankLedger (store L)) = (Ok u, L1) →
  same_but_delegation (blankLedger (store L)) L1 ∧ delegation L1 = delegation L ∧
  ∀ r, r ≠ "" → get_weight (weights L1) r = delegated (store L) r.
Proof.
  intros HL H. unfold rebuildDelegation in H. calls. simpl in *.
  assert (Hrep : ∀ a r, delegations (store L) !! a = Some r →
    r ≠ "" ∧ from_option chain_rep r (chains (store L) !! a) = r).
  { intros a r Ha. rewrite (inv_delegations L HL) in Ha. pose proof (inv_reps L HL a r Ha).
    split; [done|]. pose proof (inv_delegation L HL a) as E. unfold get_str in E. rewrite Ha in E.
    by destruct (chains (store L) !! a). }
  eapply (rebuild_delegation_loop (store L) _ ∅) in H as (HS & Hd & Hw); [|done|apply NoDup_fst_map_to_list| |].
  - split; [done|]. split.
    + rewrite Hd. simpl. rewrite (right_id_L ∅ (∪)), list_to_map_to_list. apply (inv_delegations L HL).
    + intros r Hr. rewrite Hw by done. apply map_sum_ext. intros a c Hc.
      case_bool_decide as Hin; [done|]. unfold chain_weight. rewrite bool_decide_false; [done|].
      pose proof (inv_delegation L HL a) as E. rewrite Hc in E. simpl in E. rewrite <- E.
      unfold get_str. rewrite <- (inv_delegations L HL).
      destruct (delegations (store L) !! a) as [x|] eqn:Ed; [|done]. destruct Hin.
      apply elem_of_union_l, elem_of_list_to_set, list_elem_of_fmap.
      exists (a, x). split; [done|by apply elem_of_map_to_list].
  - intros a r Ha%elem_of_map_to_list. destruct (Hrep a r Ha). split_and!; [done|set_solver|done].
  - intros r _. by rewrite delegated_by_empty.
Qed.

(** ** Balances *)

Lemma rebuild_balance_fold ls m c asset :
  (∀ h l, ls h = Some l → l_Stake l = 0) → Forall (λ b, is_u64 (b_Balance b)) c →
  (∀ k v, m !! k = Some v → is_u64 v) →
  default 0 (foldl (rebuild_balance ls) m c !! asset) =
  foldl (λ bal b, if norm_asset (b_Asset b) =?s asset then b_Balance b else bal) (default 0 (m !! asset)) c.
Proof.
  intros Hls Hc. revert m. induction Hc as [|b c Hb Hc IH]; intros m Hm; [done|]. simpl.
  assert (Hin : ∀ k v, <[norm_asset (b_Asset b) := b_Balance b]> m !! k = Some v → is_u64 v).
  { intros k v [[_ <-]|[_ ?]]%lookup_insert_Some; eauto. }
  assert (Hx : default 0 (rebuild_balance ls m b !! asset) =
    (if norm_asset (b_Asset b) =?s asset then b_Balance b else default 0 (m !! asset)) ∧
    ∀ k v, rebuild_balance ls m b !! k = Some v → is_u64 v).
  { assert (Hlk : ∀ k, default 0 (<[norm_asset (b_Asset b) := b_Balance b]> m !! k) =
      if norm_asset (b_Asset b) =?s k then b_Balance b else default 0 (m !! k)).
    { intros k. case_bool_decide as E; [subst; by rewrite lookup_insert_eq|by rewrite lookup_insert_ne]. }
    unfold rebuild_balance. case_bool_decide; [|by rewrite Hlk].
    destruct (ls (b_Source b)) as [l|] eqn:El; [|by rewrite Hlk]. rewrite (Hls _ _ El).
    assert (Hu : is_u64 (default 0 (<[norm_asset (b_Asset b):=b_Balance b]> m !! "XUSD"))).
    { destruct (_ !! "XUSD") eqn:E; [by eapply Hin|done]. }
    unfold u64_add. rewrite Z.add_0_r, u64_small by done. split.
    - destruct (decide (asset = "XUSD")) as [->|Hne]; [by rewrite lookup_insert_eq, <- Hlk|].
      by rewrite lookup_insert_ne.
    - intros k v [[_ <-]|[_ ?]]%lookup_insert_Some; eauto. }
  destruct Hx as [Hx Hu]. rewrite IH by done. by rewrite Hx.
Qed.

(** The balances of [a] held in memory are those of its chain. *)
Definition balances_ok (s : StoreState) (L : Ledger) (a : string) : Prop :=
  ∀ asset, getAssetBalance L a asset = assetBalanceOnChain (chains s !! a) asset.

Lemma rebuild_balances_step s a L L1 u :
  store L = s → (∀ h l, leases s !! h = Some l → l_Stake l = 0) →
  (∀ a c, chains s !! a = Some c → Forall (λ b, is_u64 (b_Balance b)) c) →
  (chains s !! a = None → balances_ok s L a) →
  rebuild_balances e a L = (Ok u, L1) →
  balances_ok s L1 a ∧ ∃ m, L1 = with_balances m L ∧ ∀ x, x ≠ a → m !! x = assetBalances L !! x.
Proof.
  intros <- Hls Hc Hn H. unfold rebuild_balances, GetAccountChain in H. calls; simpl in *.
  - split.
    + intros asset. unfold getAssetBalance. simpl. rewrite lookup_insert_eq.
      rewrite rebuild_balance_fold; [|intros h y; unfold lease_or_none; destruct (fault e _); by eauto|by eapply Hc|].
      * match goal with H : chains _ !! a = Some _ |- _ => by rewrite H end.
      * intros k v Hk. by rewrite lookup_empty in Hk.
    + eexists. split; [done|]. intros x Hx. by rewrite lookup_insert_ne.
  - split; [by apply Hn|]. exists (assetBalances L1). split; [by destruct L1|done].
Qed.

Lemma rebuild_balances_loop s accs L L1 u :
  store L = s → (∀ h l, leases s !! h = Some l → l_Stake l = 0) →
  (∀ a c, chains s !! a = Some c → Forall (λ b, is_u64 (b_Balance b)) c) →
  (∀ a, balances_ok s L a ∨ a ∈ accs) → (∀ a, chains s !! a = None → balances_ok s L a) →
  mfor (rebuild_balances e) accs L = (Ok u, L1) →
  (∀ a, balances_ok s L1 a) ∧ ∃ m, L1 = with_balances m L.
Proof.
  revert L. induction accs as [|x accs IH]; intros L Hs Hls Hc Hok Hn H; cbn [mfor] in H.
  { run. split; [|exists (assetBalances L1); by destruct L1].
    intros a. destruct (Hok a) as [?|[]%not_elem_of_nil]. done. }
  apply mbind_ok in H as (u0 & L0 & H0 & H).
  eapply (rebuild_balances_step s) in H0 as (Hx & m & -> & Hm); [|by eauto..].
  assert (Hother : ∀ a, a ≠ x → balances_ok s L a → balances_ok s (with_balances m L) a).
  { intros a Ha Hb asset. rewrite <- Hb. unfold getAssetBalance. simpl. by rewrite Hm. }
  eapply IH in H as (Hall & m' & ->); [|done..| |].
  - split; [done|]. by exists m'.
  - intros a. destruct (decide (a = x)) as [->|Ha]; [by left|].
    destruct (Hok a) as [?|Hin]; [left; by apply Hother|right; set_solver].
  - intros a Ha. destruct (decide (a = x)) as [->|Hne]; [done|]. apply Hother; auto.
Qed.

(** ** What follows does not touch the accounting *)

Lemma keeps_chain_or_nil a : keeps core_eq (chain_or_nil e a).
Proof. unfold chain_or_nil. keep. Qed.
#[local] Hint Resolve keeps_chain_or_nil : keeps.

Lemma core_foldl {A} (f : Ledger → A → Ledger) l L : (∀ L x, f L x ≈ L) → foldl f L l ≈ L.
Proof.
  intros Hf. revert L. induction l as [|x l IH]; intros L; [done|]. simpl. by rewrite IH.
Qed.

Lemma keeps_keysets : keeps core_eq (rebuildKeysets e).
Proof.
  unfold rebuildKeysets. keep. apply keeps_modify. intros L. symmetry. apply core_foldl.
  intros L0 b. by repeat case_match.
Qed.

Lemma keeps_account_keys : keeps core_eq (rebuildAccountKeys e).
Proof.
  unfold rebuildAccountKeys. keep. apply keeps_modify. intros L. symmetry. apply core_foldl.
  intros L0 b. by repeat case_match.
Qed.

Lemma keeps_replay ev : keeps core_eq (mmodify (rep_apply e ev)).
Proof. apply keeps_modify. intros L. symmetry. apply core_rep_apply. Qed.
#[local] Hint Resolve keeps_replay : keeps.

Lemma keeps_reputation : keeps core_eq (rebuildReputation e).
Proof.
  unfold rebuildReputation, replay_lease, replay_cancel, lookupLeaseForceSettleTimestamp,
    lookupLeaseSettleTimestamp, closing_time. keep. by apply keeps_modify.
Qed.

Lemma keeps_count : keeps core_eq (initBlockCount e).
Proof. unfold initBlockCount. keep; by apply keeps_modify. Qed.

Lemma prune_nothing L r L' : ledger_inv L → pruneChainlessAccounts e L = (r, L') → r = Ok () ∧ L' = L.
Proof.
  intros HL. unfold pruneChainlessAccounts, mbind_, mgets.
  assert (Hf : ∀ a, a ∈ Frontiers (store L) → prune_account e a L = (Ok (), L)).
  { intros a Ha. apply list_elem_of_fmap in Ha as ([a' f] & -> & Hf%elem_of_map_to_list). simpl.
    destruct (inv_frontiers L HL a' f Hf) as [c Hc].
    unfold prune_account, mtry, GetAccountChain, sread. destruct (fault e _); [done|]. rewrite Hc.
    destruct c; [|done]. by destruct (ch_nonempty _ _ _ (inv_chains L HL _ _ Hc)). }
  induction (Frontiers (store L)) as [|a l IH]; simpl.
  { by intros [= <- <-]. }
  unfold mbind_. rewrite Hf by set_solver. apply IH. set_solver.
Qed.

(** ** A later start *)

Lemma rebuilt_inv L L1 L2 u :
  ledger_inv L → same_but_delegation (blankLedger (store L)) L1 → delegation L1 = delegation L →
  (∀ r, r ≠ "" → get_weight (weights L1) r = delegated (store L) r) →
  rebuildAssetBalances e L1 = (Ok u, L2) →
  store L2 = store L ∧ ledger_inv L2 ∧ delegation L2 = delegation L.
Proof.
  intros HL [E1 E2 E3 E4] Hd Hw H. unfold rebuildAssetBalances in H. run. simpl in *.
  eapply (rebuild_balances_loop (store L)) in H as (Hb & m & ->); [|done|..].
  - split_and!; [done| |done]. destruct HL. split; simpl; rewrite ?E1, ?E3, ?E4, ?Hd; try done.
  - intros h l Hl. by apply (inv_leases L HL) in Hl as (_ & ? & _).
  - intros a c Hc. apply Forall_forall. intros b Hin. by eapply inv_chain_words.
  - intros a. destruct (chains (store L) !! a) as [c|] eqn:Ec.
    + right. apply list_elem_of_fmap. exists (a, Frontier c). split; [done|].
      rewrite E1. apply elem_of_map_to_list, (ch_frontier _ _ _ (inv_chains L HL _ _ Ec)).
    + left. intros asset. unfold getAssetBalance. rewrite E2, Ec. done.
  - intros a Ha asset. unfold getAssetBalance. rewrite E2, Ha. done.
Qed.

Lemma rebuild_caches_ok L u L' :
  ledger_inv L → rebuild_caches e (blankLedger (store L)) = (Ok u, L') →
  ∃ L2, store L2 = store L ∧ ledger_inv L2 ∧ delegation L2 = delegation L ∧ L' ≈ L2.
Proof.
  intros HL H. unfold rebuild_caches in H.
  apply mbind_ok in H as (u1 & L1 & H1%mwrap_ok & H). apply rebuildDelegation_ok in H1 as (HS & Hd & Hw); [|done].
  apply mbind_ok in H as (u2 & L2 & H2%mwrap_ok & H).
  eapply rebuilt_inv in H2 as (Es & HL2 & Ed); [|done..]. exists L2. split_and!; [done..|].
  apply mbind_ok in H as (u3 & L3 & H3%keeps_keysets & H).
  apply mbind_ok in H as (u4 & L4 & H4%keeps_account_keys & H).
  apply mbind_ok in H as (u5 & L5 & H5%keeps_reputation & H).
  apply mbind_ok in H as (u6 & L6 & H6%keeps_count & H).
  assert (E6 : L2 ≈ L6) by (etrans; [exact H3|]; etrans; [exact H4|]; etrans; [exact H5|exact H6]).
  apply prune_nothing in H as [_ ->]; [by symmetry|by eapply core_inv].
Qed.

Lemma later_start_ok L T L' :
  ledger_inv L → later_start e (blankLedger (store L)) = (Ok T, L') →
  ∃ L2, store L2 = store L ∧ ledger_inv L2 ∧ delegation L2 = delegation L ∧ L' ≈ L2.
Proof.
  intros HL H. unfold later_start, GetAccountChain in H. run. call_step. call_step.
  destruct (default [] _) as [|g gc] in H; [discriminate|]. run. by eapply rebuild_caches_ok.
Qed.

(** *** Without store faults it succeeds *)
Section no_faults.
Context (Hok : ∀ c, fault e c = None).

Lemma total_read {A} c (f : StoreState → A) : total (sread e c f).
Proof. intros L. unfold sread. rewrite Hok. by eexists _, _. Qed.
#[local] Hint Resolve total_read : keeps.

Lemma total_mor {A} (d : A) (m : LM A) : total (mor d m).
Proof. unfold mor. total_run. Qed.
#[local] Hint Resolve total_mor : keeps.

Lemma total_rebuild : total (rebuild_caches e).
Proof.
  unfold rebuild_caches, rebuildDelegation, rebuild_delegation, rebuildAssetBalances, rebuild_balances,
    rebuildKeysets, rebuildAccountKeys, rebuildReputation, replay_lease, replay_cancel,
    lookupLeaseForceSettleTimestamp, lookupLeaseSettleTimestamp, closing_time, initBlockCount,
    pruneChainlessAccounts, prune_account, chain_or_nil, GetAccountChain. total_run.
Qed.

Lemma later_start_total s g x c :
  LoadGenesisBlock e = Ok g → chains s !! b_Account g = Some (x :: c) →
  ∃ L', later_start e (blankLedger s) = (Ok (ApplyGenesisLeaseTiming (Some x)), L').
Proof.
  intros Hg Hc. destruct (total_rebuild (blankLedger s)) as ([] & L' & Hr). exists L'.
  unfold later_start, GetAccountChain, mbind_, mwrap, mlift, sread. rewrite Hg. simpl.
  rewrite Hok. simpl. rewrite Hc. simpl. by rewrite Hr.
Qed.

End no_faults.

(** ** The first start *)

Section first.
Context `{CL : !CryptoLaws C} (L : Ledger) (HL : ledger_inv L) (Hempty : blocks (store L) = ∅).
Notation B := (blankLedger (store L)).

Lemma empty_chains : chains (store L) = ∅.
Proof.
  apply map_empty. intros a. destruct (chains (store L) !! a) as [c|] eqn:Hc; [|done].
  apply (inv_chains L HL) in Hc. destruct c as [|b c]; [by destruct (ch_nonempty _ _ _ Hc)|].
  pose proof (ch_stored _ _ _ Hc b ltac:(set_solver)) as Hb. by rewrite Hempty in Hb.
Qed.

Lemma empty_delegations : delegations (store L) = ∅.
Proof.
  apply map_empty. intros a. rewrite (inv_delegations L HL).
  destruct (delegation L !! a) as [r|] eqn:Hr; [|done]. destruct (inv_reps L HL a r Hr).
  pose proof (inv_delegation L HL a) as E. unfold get_str in E. by rewrite Hr, empty_chains in E.
Qed.

Lemma empty_pending : pending (store L) = ∅.
Proof.
  apply map_empty. intros h. destruct (pending (store L) !! h) as [ps|] eqn:E; [|done].
  apply (inv_pending L HL) in E as (_ & b & Hb & _). by rewrite Hempty in Hb.
Qed.

Lemma empty_leases : leases (store L) = ∅.
Proof.
  apply map_empty. intros h. destruct (leases (store L) !! h) as [l|] eqn:E; [|done].
  apply (inv_leases L HL) in E as (_ & _ & b & Hb & _). by rewrite Hempty in Hb.
Qed.

Lemma empty_supply asset : supply (store L) asset = 0.
Proof. unfold supply, circulating, in_flight. by rewrite empty_chains, empty_pending. Qed.

Lemma blank_inv : ledger_inv B.
Proof.
  destruct HL. split; try done; unfold delegated; simpl; rewrite ?empty_chains; try done.
  apply empty_delegations.
Qed.

Lemma genesis_load g : LoadGenesisBlock e = Ok g → ValidateGenesisBlock g = Ok ().
Proof. unfold LoadGenesisBlock, parseGenesisBlock. intros H. run. by destruct x0. Qed.

Lemma genesis_accepted g : LoadGenesisBlock e = Ok g → block_words g →
  new_block B g ∧ accepts e true B g (append B g).
Proof.
  intros Hg Hw. pose proof (genesis_load g Hg) as Hv.
  destruct (genesis_facts g Hv) as (Ht & _ & Ha & _).
  assert (Hh : VerifyBlock "" g = Ok ()).
  { unfold ValidateGenesisBlock in Hv. run. by destruct (VerifyBlock "" g) as [[]|]. }
  apply VerifyBlock_hash in Hh as [H0 H1]. split.
  - split; [by simpl; rewrite Hempty|done..|by rewrite Ha].
  - by eapply accepts_genesis.
Qed.

Lemma first_start_ok T L' :
  (∀ g, LoadGenesisBlock e = Ok g → block_words g) → first_start e B = (Ok T, L') →
  ∃ g L1, LoadGenesisBlock e = Ok g ∧ ledger_inv L1 ∧
    L1 = apply_commit (append B g) B ∧
    (L' = L1 ∨ L' = with_store (SetFinalHeight (b_Account g) 1 (store L1)) L1).
Proof.
  intros Hw H. unfold first_start in H. calls.
  match goal with H : LoadGenesisBlock e = Ok ?x |- _ => rename x into g; rename H into Hg end.
  destruct (genesis_accepted g) as [Hnew Hacc]; [done|by apply Hw|].
  eexists g, _. split; [done|]. split; [|split; [done|]].
  - eapply accepts_inv; [apply blank_inv|done|done|]. change (store B) with (store L).
    by rewrite empty_supply.
  - match goal with H : mor _ _ _ = _ |- _ => unfold mor, mtry, swrite in H; rename H into Hs end.
    destruct (fault e _); apply pair_ok_inj in Hs as [_ <-]; [by left|by right].
Qed.

Lemma first_start_supply g : LoadGenesisBlock e = Ok g → block_words g →
  supply (store (apply_commit (append B g) B)) "XUSD" = supply (store L) "XUSD".
Proof.
  intros Hg Hw. destruct (genesis_accepted g Hg Hw) as [Hnew Hacc].
  erewrite accepts_supply; [|apply blank_inv|done|done|change (store B) with (store L); by rewrite empty_supply|done].
  change (store B) with (store L). unfold moved.
  destruct (genesis_facts g (genesis_load g Hg)) as (-> & _). rewrite bool_decide_false by done. lia.
Qed.

(** The representative of the genesis block has weight. *)
Lemma first_start_weight g : LoadGenesisBlock e = Ok g → block_words g →
  0 < sumEligible None (weights (apply_commit (append B g) B)).
Proof.
  intros Hg Hw. destruct (genesis_accepted g Hg Hw) as [Hnew Hacc]. pose proof (genesis_load g Hg) as Hv.
  set (L1 := apply_commit _ _).
  assert (HL1 : ledger_inv L1).
  { eapply accepts_inv; [apply blank_inv|done|done|]. change (store B) with (store L).
    by rewrite empty_supply. }
  assert (Hr : b_Representative g ≠ "").
  { unfold ValidateGenesisBlock, validateGenesisRepresentative in Hv. run. by bool_hyps. }
  destruct (genesis_facts g Hv) as (_ & _ & Hasset & Hbal).
  assert (Hwt : get_weight (weights L1) (b_Representative g) = GenesisSupply).
  { rewrite (inv_weights L1 HL1) by done. unfold delegated, L1.
    rewrite (commit_chains B g _ (accepts_appends _ _ _ _ _ blank_inv Hacc)).
    unfold chain_of. simpl. rewrite empty_chains, lookup_empty. simpl.
    rewrite map_sum_insert_fresh, map_sum_empty by done. unfold chain_weight, chain_rep, assetBalanceOnChain.
    simpl. rewrite (bool_decide_false (b_Representative g = "")), Hasset by done. simpl.
    rewrite !bool_decide_true by done. lia. }
  unfold get_weight in Hwt. destruct (weights L1 !! b_Representative g) as [z|] eqn:Ez; [|done].
  simpl in Hwt. subst z. unfold sumEligible.
  pose proof (map_sum_lookup_le (λ _ z, if 0 <? z then z else 0) (weights L1) _ _
    ltac:(intros ? v _; simpl; destruct (0 <? v) eqn:?; lia) Ez) as Hle.
  eapply Z.lt_le_trans; [|exact Hle]. done.
Qed.
End first.

(** ** Both starts together *)

Lemma NewLedger_ok `{CL : !CryptoLaws C} L T L' :
  ledger_inv L → (∀ g, LoadGenesisBlock e = Ok g → block_words g) →
  NewLedger e (store L) = (Ok T, L') →
  (∃ L2, store L2 = store L ∧ ledger_inv L2 ∧ delegation L2 = delegation L ∧ L' ≈ L2) ∨
  (blocks (store L) = ∅ ∧ ∃ g L1, LoadGenesisBlock e = Ok g ∧ ledger_inv L1 ∧
     L1 = apply_commit (append (blankLedger (store L)) g) (blankLedger (store L)) ∧
     (L' = L1 ∨ L' = with_store (SetFinalHeight (b_Account g) 1 (store L1)) L1)).
Proof.
  intros HL Hw H. unfold NewLedger, IsEmpty in H. run. call_step.
  destruct (bool_decide _) eqn:E in H; [right|left; by eapply later_start_ok].
  apply bool_decide_eq_true in E. simpl in E. split; [done|]. by eapply first_start_ok.
Qed.

(** Over a store that holds a genesis chain and answers every call *)
Lemma NewLedger_total `{CL : !CryptoLaws C} (Hok : ∀ k, fault e k = None) L g x c :
  ledger_inv L → LoadGenesisBlock e = Ok g → chains (store L) !! b_Account g = Some (x :: c) →
  ∃ L', NewLedger e (store L) = (Ok (ApplyGenesisLeaseTiming (Some x)), L').
Proof.
  intros HL Hg Hc. destruct (later_start_total Hok (store L) g x c Hg Hc) as [L' H]. exists L'.
  unfold NewLedger, mbind_, mwrap, sread, IsEmpty. rewrite Hok. simpl.
  rewrite bool_decide_false; [exact H|]. intros Hb. by rewrite (empty_chains L HL Hb) in Hc.
Qed.

(** A later start leaves everything as it was. *)
Lemma restarted_same `{CL : !CryptoLaws C} L L' T :
  ledger_inv L → chains (store L) ≠ ∅ → NewLedger e (store L) = (Ok T, L') →
  ledger_inv L' ∧
  (blocks (store L'), chains (store L'), frontiers (store L'), pending (store L'),
   leases (store L'), finalHeight (store L'), delegation L') =
  (blocks (store L), chains (store L), frontiers (store L), pending (store L),
   leases (store L), finalHeight (store L), delegation L) ∧
  (∀ a asset, IsValidAsset asset = true → getAssetBalance L' a asset = getAssetBalance L a asset) ∧
  (∀ rep, rep ≠ "" → get_weight (weights L') rep = get_weight (weights L) rep).
Proof.
  intros HL Hne H. unfold NewLedger, IsEmpty in H. run. call_step.
  destruct (bool_decide _) eqn:E in H.
  { apply bool_decide_eq_true in E. by destruct (Hne (empty_chains L HL E)). }
  apply later_start_ok in H as (L2 & Es & HL2 & Ed & Ec); [|done].
  assert (HL' : ledger_inv L') by by rewrite Ec. split; [done|].
  injection Ec as E1 E2 E3 E4 E5 EF E6 E7 E8 E9 E10 E11.
  assert (Ech : chains (store L') = chains (store L)) by congruence. split; [congruence|].
  split; [intros; by rewrite (inv_balances L HL), (inv_balances L' HL'), Ech|].
  intros. unfold delegated. by rewrite (inv_weights L HL), (inv_weights L' HL'); unfold delegated; rewrite ?Ech.
Qed.

(** A start that panics has written nothing. *)
Definition same_store (L L' : Ledger) : Prop := store L' = store L.
#[local] Instance same_store_preorder : PreOrder same_store.
Proof. split; [by intros L|]. intros L1 L2 L3 H1 H2. unfold same_store in *. congruence. Qed.

Lemma keeps_store_read {A} c (f : StoreState → A) : keeps same_store (sread e c f).
Proof. intros L r L' H. unfold sread in H. by destruct (fault e c); injection H as _ <-. Qed.
#[local] Hint Resolve keeps_store_read : keeps.

Lemma keeps_store_rebuild :
  keeps same_store (rebuildDelegation e) ∧ keeps same_store (rebuildAssetBalances e).
Proof.
  unfold rebuildDelegation, rebuild_delegation, rebuildAssetBalances, rebuild_balances, GetAccountChain.
  split; keep; by apply keeps_modify.
Qed.

Lemma total_chain_or_nil a : total (chain_or_nil e a).
Proof. unfold chain_or_nil, mor. total_run. Qed.
#[local] Hint Resolve total_chain_or_nil : keeps.

Lemma rebuild_caches_err L err L' : rebuild_caches e L = (Err err, L') → store L' = store L.
Proof.
  destruct keeps_store_rebuild as [K1 K2].
  assert (Ht : total (rebuildKeysets e ;! rebuildAccountKeys e ;! rebuildReputation e ;!
                      initBlockCount e ;! pruneChainlessAccounts e)).
  { unfold rebuildKeysets, rebuildAccountKeys, rebuildReputation, replay_lease, replay_cancel,
      lookupLeaseForceSettleTimestamp, lookupLeaseSettleTimestamp, closing_time, initBlockCount,
      pruneChainlessAccounts, prune_account, mor. total_run. }
  unfold rebuild_caches. intros [H|(u1 & L1 & H1 & [H|(u2 & L2 & H2 & H)]%mbind_err)]%mbind_err.
  - by eapply (keeps_wrap _ _ _ K1).
  - apply (keeps_wrap _ _ _ K1) in H1. apply (keeps_wrap _ _ _ K2) in H. unfold same_store in *. congruence.
  - destruct (Ht L2) as (a & L3 & E). rewrite E in H. discriminate.
Qed.

Lemma commit_err_store c pb L err L' : activeCascade L = None →
  commitBlockWrite e c pb L = (Err err, L') → store L' = store L.
Proof.
  intros Hn H. unfold commitBlockWrite in H. apply mbind_err in H as [[=]|(o & L1 & Ho & H)].
  injection Ho as _ <-. apply mbind_err in H as [[=]|(o1 & L1 & Ho & H)]. injection Ho as <- <-.
  rewrite Hn in H. apply mbind_err in H as [H|(u & L1 & _ & [=])].
  unfold mwrap, swrite in H. destruct (fault e _); [by injection H as _ <-|].
  destruct (CommitBlock _ _); [discriminate|by injection H as _ <-].
Qed.

Lemma first_start_err `{CL : !CryptoLaws C} L err L' :
  ledger_inv L → blocks (store L) = ∅ → (∀ g, LoadGenesisBlock e = Ok g → block_words g) →
  first_start e (blankLedger (store L)) = (Err err, L') → store L' = store L.
Proof.
  intros HL Hempty Hw H. unfold first_start in H.
  apply mbind_err in H as [H|(g & L1 & Hg & H)].
  { unfold mwrap, mlift in H. by injection H as _ <-. }
  apply mwrap_ok, mlift_ok in Hg as [Hg ->].
  apply mbind_err in H as [H|(x & L1 & Hx & H)].
  { assert (K : keeps same_store (prepareBlockWrite e g)).
    { unfold prepareBlockWrite. keep. }
    by apply (keeps_wrap _ _ _ K) in H. }
  apply mwrap_ok, prepare_ok in Hx as [-> ->]; [|done]. cbv beta iota in H.
  apply mbind_err in H as [H|(u & L1 & Hu & H)].
  { unfold mwrap in H. destruct (commitBlockWrite _ _ _ _) as [[?|?] ?] eqn:E in H; [done|].
    injection H as _ <-. by apply commit_err_store in E. }
  apply mwrap_ok, commit_ok in Hu as [_ ->]; [|done].
  pose proof (first_start_weight L HL Hempty g Hg (Hw g Hg)) as Hpos.
  apply mbind_err in H as [H|(u1 & L1 & Hu & H)].
  { unfold mor, mtry in H. destruct (swrite _ _ _ _). discriminate. }
  assert (weights L1 = weights (apply_commit (append (blankLedger (store L)) g) (blankLedger (store L)))) as Ew.
  { unfold mor, mtry, swrite in Hu. by destruct (fault e _); apply pair_ok_inj in Hu as [_ <-]. }
  apply mbind_err in H as [[=]|(t & L2 & Ht & H)]. injection Ht as <- <-. rewrite Ew in H.
  unfold sumEligible in *. rewrite (proj2 (Z.eqb_neq _ 0)) in H by lia. discriminate.
Qed.

Lemma NewLedger_err `{CL : !CryptoLaws C} L err L' :
  ledger_inv L → (∀ g, LoadGenesisBlock e = Ok g → block_words g) →
  NewLedger e (store L) = (Err err, L') → store L' = store L.
Proof.
  intros HL Hw H. unfold NewLedger, IsEmpty in H. apply mbind_err in H as [H|(b & L1 & Hb & H)].
  { by apply (keeps_wrap _ _ _ (keeps_store_read _ _)) in H. }
  apply mwrap_ok, sread_ok in Hb as [-> ->]. destruct (bool_decide _) eqn:E in H.
  { apply bool_decide_eq_true in E. by eapply first_start_err. }
  unfold later_start in H. apply mbind_err in H as [H|(g & L1 & Hg & H)].
  { unfold mwrap, mlift in H. by injection H as _ <-. }
  apply mwrap_ok, mlift_ok in Hg as [_ ->]. apply mbind_err in H as [H|(ch & L1 & Hc & H)].
  { by apply (keeps_wrap _ _ _ (keeps_store_read _ _)) in H. }
  apply mwrap_ok, sread_ok in Hc as [-> ->].
  destruct (default [] _) in H; [by injection H as _ <-|].
  apply mbind_err in H as [H|(u & L1 & _ & [=])]. by apply rebuild_caches_err in H.
Qed.

End restart.
