(* ===== verification/LedgerRefine.v ===== *)
(** * The handlers implement the rules

    A handler that succeeds, on a ledger that satisfies the invariant, was
    allowed by the rule for its block type and made the write the rule says.
     *)
From S2P Require Import Prelude GoLib Types Encoding LeaseMath Crypto Multisig Attestation Genesis Reputation Store Ledger Rollback Handlers LedgerSpec LedgerCommit LedgerRules LedgerCalls LedgerUndo.

Section refine.
Context `{C : Crypto} (e : Env) (skip : bool) (L R : Ledger) (b : Block).
Context (Hsee : sees e b L R) (Hinv : ledger_inv R) (Hnew : new_block R b).

(** What a successful handler has done *)
Definition refines (L' : Ledger) : Prop :=
  ∃ c, accepts e skip R b c ∧ L' ≈ apply_commit c R.

Lemma debits_intro asset : b_Asset b = asset →
  b_Amount b <= getAssetBalance R (b_Account b) asset →
  b_Balance b = getAssetBalance R (b_Account b) asset - b_Amount b → debits R b.
Proof. intros <-. by split. Qed.

(** The balance check of a credit: no wrap-around, so the sum is exact. *)
Lemma credits_intro asset x : b_Asset b = asset → IsValidAsset asset = true → is_u64 x →
  getAssetBalance R (b_Account b) asset <= u64_add (getAssetBalance R (b_Account b) asset) x →
  b_Balance b = u64_add (getAssetBalance R (b_Account b) asset) x → credits R b x.
Proof.
  intros <- Hv Hx Hle Hb. unfold credits. rewrite Hb. apply u64_add_exact; [by apply inv_balance_u64|done|lia].
Qed.

Lemma credits_open x : chain_of R b = None → b_Balance b = x → credits R b x.
Proof.
  intros Hc <-. unfold credits. rewrite (inv_balances R Hinv) by apply Hnew.
  unfold chain_of in Hc. by rewrite Hc.
Qed.

Lemma starts_intro : chain_of R b = None → b_Previous b = "0" → starts R b.
Proof. by split. Qed.

(** A type that cannot open an account extends the chain it sees. *)
Lemma link_extends ch u t : b_Type b = t → (opening t → False) →
  seen_chain b R ch → check_link ch b = Ok u → extends R b.
Proof.
  intros <- Ho Hc H. eapply check_link_ok in H as [?|[_ ?]]; [done|by destruct Ho|done].
Qed.

Lemma link_either ch u : seen_chain b R ch → check_link ch b = Ok u → starts R b ∨ extends R b.
Proof. intros Hc H. eapply check_link_ok in H as [?|[? _]]; [by right|by left|done]. Qed.

Lemma seen_either ch u v : seen_chain b R ch →
  check_previous ch b = Ok u → check_timestamp ch b = Ok v → starts R b ∨ extends R b.
Proof. intros Hc Hp Ht. eapply check_link_seen in Ht as [?|[? _]]; [by right|by left|done..]. Qed.

Lemma seen_uncontested h : uncontested e L h → uncontested e R h.
Proof. unfold uncontested. by rewrite (see_blocks _ _ _ _ Hsee), (see_conflicts _ _ _ _ Hsee). Qed.

Let Hasset : IsValidAsset (b_Asset b) = true := nb_asset R b Hnew.

#[local] Hint Resolve debits_intro credits_open starts_intro link_extends link_either seen_either seen_uncontested
  : ledger.
#[local] Hint Extern 1 (opening _ → False) => exact (λ x, x) : ledger.

(** Step through a handler; the blocks it read are those of [R]. *)
Ltac handler H :=
  calls;
  repeat match goal with
  | H : blocks (store L) !! _ = _ |- _ => rewrite (see_blocks _ _ _ _ Hsee) in H
  end.

(** The state it leaves: the write, and updates outside the accounting *)
Ltac written := first [eassumption | etrans; [|eassumption]; auto with ledger].

Lemma send_refines L' u :
  b_Type b = BlockSend → validateAndAddSend e b L = (Ok u, L') → refines L'.
Proof.
  intros Ht H. unfold validateAndAddSend in H. handler H.
  eexists. split; [|written]. constructor; eauto with ledger.
Qed.

Lemma burn_refines L' u :
  b_Type b = BlockBurn → validateAndAddBurn e b L = (Ok u, L') → refines L'.
Proof.
  intros Ht H. unfold validateAndAddBurn in H. handler H.
  eexists. split; [|written]. constructor; eauto with ledger.
Qed.

Lemma receive_refines L' u :
  b_Type b = BlockReceive → validateAndAddReceive e b L = (Ok u, L') → refines L'.
Proof.
  intros Ht H. unfold validateAndAddReceive in H. handler H.
  all: eexists; split; [eapply accepts_receive|written]; eauto with ledger.
  all: apply (credits_intro (b_Asset b)); [done|apply Hnew|by eapply inv_pending|done..].
Qed.

Lemma mint_refines L' u :
  b_Type b = BlockMint → validateAndAddMint e b L = (Ok u, L') → refines L'.
Proof.
  intros Ht H. unfold validateAndAddMint in H. handler H.
  all: eexists; split; [eapply accepts_mint|written]; eauto with ledger.
  apply (credits_intro (b_Asset b)); [done|apply Hnew|apply Hnew|done..].
Qed.

Lemma genesis_refines L' u :
  b_Type b = BlockGenesis → validateAndAddGenesis e b L = (Ok u, L') → refines L'.
Proof.
  intros Ht H. unfold validateAndAddGenesis, addBlockLocked in H. handler H.
  eexists. split; [eapply accepts_genesis|written]; eauto. unfold IsEmpty in *. bool_hyps.
  by rewrite <- (see_blocks _ _ _ _ Hsee).
Qed.

Lemma multisig_open_refines L' u :
  b_Type b = BlockMultisigOpen → validateAndAddMultisigOpen e b L = (Ok u, L') → refines L'.
Proof.
  intros Ht H. unfold validateAndAddMultisigOpen in H. handler H.
  2:{ done. }
  eexists. split; [eapply accepts_multisig_open|written]; eauto.
  all: [> congruence|by split].
Qed.

Lemma multisig_update_refines L' u :
  b_Type b = BlockMultisigUpdate → validateAndAddMultisigUpdate e b L = (Ok u, L') → refines L'.
Proof.
  intros Ht H. unfold validateAndAddMultisigUpdate in H. handler H.
  eexists. split; [eapply accepts_multisig_update|written]; eauto with ledger.
  unfold credits. lia.
Qed.

Lemma certified_intro h lookup cert provider :
  h ≠ "" → certificateLookupFn e = Some lookup → lookup h = Some cert →
  ci_Provider cert = provider → certified e h provider cert.
Proof. unfold certified. eauto. Qed.

Lemma cert_expiry_intro x t : negb (x =? 0) && (x <? t) = false → x = 0 ∨ t <= x.
Proof. lia. Qed.

Lemma access_key_intro (key : list Z) :
  DecodeString (b_AccessPubKey b) = Ok key → zlen key = 32 →
  ∃ key, DecodeString (b_AccessPubKey b) = Ok key ∧ zlen key = 32.
Proof. eauto. Qed.

Lemma lease_block_intro lb : b_Source b ≠ "" → blocks (store R) !! b_Source b = Some lb →
  b_Type lb = BlockLease → lease_block R b lb.
Proof. intros; unfold lease_block; auto. Qed.

Lemma lease_in_intro st l : leases (store R) !! b_Source b = Some l → l_State l = st →
  lease_in R b st l.
Proof. by split. Qed.

#[local] Hint Resolve certified_intro cert_expiry_intro access_key_intro lease_block_intro
  lease_in_intro : ledger.

Lemma lease_refines L' u :
  b_Type b = BlockLease → validateAndAddLease e b L = (Ok u, L') → refines L'.
Proof.
  intros Ht H. unfold validateAndAddLease in H. handler H. all: simplify_eq.
  all: eexists; split; [eapply accepts_lease|written]; eauto 4 with ledger.
Qed.

Lemma lease_intro (st : LeaseState) c pre :
  bc_ExpectLeaseHash c = b_Source b → bc_ExpectLeaseState c = st → b_Source b ≠ "" →
  check_lease pre c (leases (store R) !! bc_ExpectLeaseHash c) = Ok () → ∃ l, lease_in R b st l.
Proof.
  intros Hh <- Hne H. apply check_lease_ok in H as (l & Hl & Hs); [|congruence].
  exists l. rewrite Hh in Hl. by split.
Qed.

(** The lease a successful write expected *)
Ltac expected_lease H :=
  match type of H with check_lease _ ?c _ = _ =>
    let l := fresh "l" in let Hl := fresh "Hl" in
    destruct (lease_intro (bc_ExpectLeaseState c) c _ eq_refl eq_refl ltac:(done) H) as [l Hl];
    cbn [bc_ExpectLeaseState fill] in Hl
  end.

Lemma lease_accept_refines L' u :
  b_Type b = BlockLeaseAccept → validateAndAddLeaseAccept e b skip L = (Ok u, L') → refines L'.
Proof.
  intros Ht H. unfold validateAndAddLeaseAccept in H. handler H.
  match goal with H : check_lease _ _ _ = _ |- _ => expected_lease H end.
  eexists. split; [eapply accepts_lease_accept|written]; eauto 4 with ledger.
Qed.

Lemma lease_force_settle_refines L' u :
  b_Type b = BlockLeaseForceSettle → validateAndAddLeaseForceSettle e b skip L = (Ok u, L') →
  refines L'.
Proof.
  intros Ht H. unfold validateAndAddLeaseForceSettle in H. handler H.
  eexists. split; [eapply accepts_lease_force_settle|written]; eauto 4 with ledger.
  apply (credits_intro "XUSD"); [done|done|by eapply inv_pending|done..].
Qed.

Lemma lease_settle_refines L' u :
  b_Type b = BlockLeaseSettle → validateAndAddLeaseSettle e b skip L = (Ok u, L') → refines L'.
Proof.
  intros Ht H. unfold validateAndAddLeaseSettle in H. handler H.
  match goal with H : commitBlockWrite _ _ _ _ = _ |- _ =>
    apply (see_commit _ _ _ _ Hsee) in H as [_ ?]; [|apply credit_appends; by eapply (inv_leases R Hinv)] end.
  simplify_eq.
  destruct (pending (store R) !! b_Source b) as [ps|] eqn:Hp; [|done].
  eexists. split; [eapply accepts_lease_settle|written]; eauto 4 with ledger.
  apply (credits_intro "XE"); [done|done|apply Hnew|done..].
Qed.

Lemma lease_renew_refines L' u :
  b_Type b = BlockLeaseRenew → validateAndAddLeaseRenew e b skip L = (Ok u, L') → refines L'.
Proof.
  intros Ht H. unfold validateAndAddLeaseRenew in H. handler H.
  destruct (safeAdd _ _) as [n ok] eqn:Hs. calls.
  destruct (pending (store R) !! b_Source b) as [ps|] eqn:Hp; [|done].
  eexists. split; [eapply accepts_lease_renew|written]; eauto 4 with ledger.
  all: try congruence.
  exists n. subst ok. done.
Qed.
End refine.

Section dispatch.
Context `{C : Crypto} (e : Env) (skip : bool) (b : Block).

(** The ledger a block is judged against: the current one, or for a
    cancellation the one without the acceptance it overrides *)
Definition judged (L L1 : Ledger) : Prop :=
  L1 ≈ L ∨ b_Type b = BlockLeaseCancel ∧ ∃ provider, accept_unwound e L (b_Source b) provider L1.

Lemma judged_neutral L L1 : judged L L1 → neutral L L1.
Proof.
  intros [E|(_ & p & H)]; [by apply core_neutral; symmetry|by eapply accept_unwound_neutral].
Qed.

Lemma new_block_blocks L L1 : blocks (store L1) = blocks (store L) → new_block L b → new_block L1 b.
Proof. intros E [????]. by split; rewrite ?E. Qed.

(** A refund is exact: it never exceeds the supply. *)
Lemma cancel_credit L lb ps :
  ledger_inv L → supply (store L) "XUSD" < two64 → b_Asset b = "XUSD" →
  blocks (store L) !! b_Source b = Some lb → b_Type lb = BlockLease →
  pending (store L) !! b_Source b = Some ps →
  b_Balance b = u64_add (getAssetBalance L (b_Account b) "XUSD") (b_Amount lb) →
  credits L b (b_Amount lb).
Proof.
  intros HL Hcap Ha Hb Ht Hp Hbal. unfold credits. rewrite Hbal, Ha. apply u64_small.
  destruct (lease_escrow L b HL lb ps) as (Hx & Hu & Hle); [done..|].
  pose proof (supply_covers L HL (b_Account b) _ ps "XUSD" valid_XUSD Hp) as Hs.
  rewrite Hx in Hs. specialize (Hs eq_refl).
  pose proof (inv_balance_u64 L HL (b_Account b) "XUSD" valid_XUSD).
  apply (inv_blocks L HL) in Hb as (_ & _ & _ & [_ ?] & _). unfold is_u64 in *. lia.
Qed.

Lemma cancel_refund_refines L L' lb u :
  ledger_inv L → new_block L b → supply (store L) "XUSD" < two64 →
  b_Type b = BlockLeaseCancel → b_Asset b = "XUSD" → lease_block L b lb →
  b_Account lb = b_Account b → cancel_refund e b lb L = (Ok u, L') → refines e skip L b L'.
Proof.
  intros HL Hnew Hcap Ht Ha (Hs & Hb & Htl) Hacc H.
  pose proof (sees_self e b L (inv_cascade L HL)) as Hsee.
  unfold cancel_refund in H. calls.
  destruct (pending (store L) !! b_Source b) as [ps|] eqn:Hp; [|done].
  match goal with H : check_lease _ _ _ = _ |- _ =>
    apply check_lease_ok in H as (l & Hl & Hst); [|done] end.
  eexists. split; [eapply (accepts_lease_cancel _ _ _ _ lb l ps)|
    etrans; [apply core_rep_apply|eassumption]]; try done.
  - by eapply (link_extends _ _ _ _ _ Ht).
  - by eapply cancel_credit.
Qed.

Lemma cancel_guard_judged L L1 u :
  ledger_inv L → b_Type b = BlockLeaseCancel →
  cancel_guard e b (leases (store L) !! b_Source b) L = (Ok u, L1) → judged L L1.
Proof.
  intros HL Ht Hg. unfold cancel_guard in Hg.
  destruct (leases (store L) !! b_Source b) as [l|] eqn:Hl; [|left; by run].
  destruct (_ && _) eqn:Es; [|left; by run]. bool_hyps. eapply resolve_spec in Hg; [|done..].
  right. destruct Hg as [(? & ? & _)|[_ ?]]; eauto; discriminate.
Qed.

Lemma lease_cancel_refines L L' u :
  ledger_inv L → new_block L b → supply (store L) "XUSD" < two64 →
  b_Type b = BlockLeaseCancel → validateAndAddLeaseCancel e b L = (Ok u, L') →
  ∃ L1, judged L L1 ∧ refines e skip L1 b L'.
Proof.
  intros HL Hnew Hcap Ht H. pose proof (sees_self e b L (inv_cascade L HL)) as Hsee.
  unfold validateAndAddLeaseCancel in H. calls.
  match goal with H : cancel_guard _ _ _ _ = (_, ?L1) |- _ => rename H into Hg, L1 into K end.
  exists K. pose proof (cancel_guard_judged _ _ _ HL Ht Hg) as HJ.
  split; [done|]. destruct (judged_neutral _ _ HJ HL) as (HL1 & HB & _ & HS).
  eapply cancel_refund_refines; eauto.
  - by eapply new_block_blocks.
  - by rewrite HS.
  - unfold lease_block. by rewrite HB.
Qed.

(** The handler of a block type *)
Definition handler : LM unit :=
  match b_Type b with
  | BlockSend => validateAndAddSend e b
  | BlockReceive => validateAndAddReceive e b
  | BlockGenesis => validateAndAddGenesis e b
  | BlockLease => validateAndAddLease e b
  | BlockLeaseAccept => validateAndAddLeaseAccept e b skip
  | BlockLeaseSettle => validateAndAddLeaseSettle e b skip
  | BlockLeaseCancel => validateAndAddLeaseCancel e b
  | BlockLeaseForceSettle => validateAndAddLeaseForceSettle e b skip
  | BlockLeaseRenew => validateAndAddLeaseRenew e b skip
  | BlockMultisigOpen => validateAndAddMultisigOpen e b
  | BlockMultisigUpdate => validateAndAddMultisigUpdate e b
  | BlockBurn => validateAndAddBurn e b
  | BlockMint => validateAndAddMint e b
  | BlockOther _ => mfail errUnknownBlockType
  end.

Lemma dispatch_handler L :
  dispatchValidateAndAdd e b skip L = (verifyBlockCredential e b ;! handler) L.
Proof. unfold dispatchValidateAndAdd, handler. by destruct (b_Type b). Qed.

(** A handler that succeeds, on what it sees, follows a rule. *)
Lemma handlers_seen L R L' u :
  sees e b L R → ledger_inv R → new_block R b → b_Type b ≠ BlockLeaseCancel →
  handler L = (Ok u, L') → refines e skip R b L'.
Proof.
  intros Hsee HR Hnew Hnc H. unfold handler in H. destruct (b_Type b) eqn:Ht; try done.
  - by eapply send_refines.
  - by eapply receive_refines.
  - by eapply mint_refines.
  - by eapply genesis_refines.
  - by eapply burn_refines.
  - by eapply lease_refines.
  - by eapply lease_accept_refines.
  - by eapply lease_settle_refines.
  - by eapply lease_force_settle_refines.
  - by eapply lease_renew_refines.
  - by eapply multisig_open_refines.
  - by eapply multisig_update_refines.
Qed.

(** Every successful dispatch follows a rule. *)
Lemma handlers_refine L L' u :
  ledger_inv L → new_block L b → supply (store L) "XUSD" < two64 →
  handler L = (Ok u, L') → ∃ L1, judged L L1 ∧ refines e skip L1 b L'.
Proof.
  intros HL Hnew Hcap H. destruct (decide (b_Type b = BlockLeaseCancel)) as [Ht|Ht].
  - unfold handler in H. rewrite Ht in H. by eapply lease_cancel_refines.
  - exists L. split; [by left|]. eapply handlers_seen; try done. by apply sees_self, inv_cascade.
Qed.
End dispatch.
