(* ===== verification/LedgerTrace.v ===== *)
(** * A node at work

    [addBlock] on a well-formed ledger either changes nothing the accounting
    sees (a refused, a known or a staged block), or makes the write of one rule.
    Hence every ledger reached by any sequence of calls, successful or not, of
    restarts and of confirmations is well formed and its supply is accounted
    for. *)
From S2P Require Import Prelude GoLib Types Encoding LeaseMath Crypto Multisig Attestation Genesis Reputation Store Ledger Rollback Handlers Restart AddBlock Quorum LedgerSpec LedgerCommit LedgerRules LedgerCalls LedgerUndo LedgerRestart LedgerRefine.

(** The ledger [NewLedger] starts from on an empty store *)
Definition emptyLedger : Ledger :=
  mkLedger emptyStore ∅ ∅ false ∅ 0 0 ∅ ∅ ∅ None [].

(** What a node does with its ledger, with the environment it finds: a call of
    [AddBlock] ([AddSyncedBlock] when the flag is set), a restart of the process,
    and the confirmation of a block that is on its chain. *)
Inductive action :=
| Add (e : Env) (b : Block) (synced : bool)
| Start (e : Env)
| Confirm (e : Env) (account winner : string).

Section trace.
Context `{C : Crypto}.

(** A start that panics has written nothing ([NewLedger_err]) and is repeated
    until it succeeds. *)
Definition run_action (L : Ledger) (a : action) : Ledger :=
  match a with
  | Add e b synced => (addBlock e b synced L).2
  | Start e => match NewLedger e (store L) with (Ok _, L') => L' | (Err _, _) => L end
  | Confirm e account winner => (advance_final e account winner L).2
  end.
Definition run_actions (acts : list action) (L : Ledger) : Ledger := foldl run_action L acts.

(** The amounts in the blocks are 64-bit numbers, as their Go types say. *)
Definition typed (a : action) : Prop :=
  match a with
  | Add _ b _ => block_words b
  | Start e => match LoadGenesisBlock e with Ok g => block_words g | Err _ => True end
  | Confirm _ _ _ => True
  end.

(** The amounts of all mint blocks a sequence of actions offers, also of those that
    are refused or offered again: a bound on the XUSD it can have minted *)
Definition mint_amount (b : Block) : Z :=
  match b_Type b with BlockMint => b_Amount b | _ => 0 end.
Definition minted (a : action) : Z := match a with Add _ b _ => mint_amount b | _ => 0 end.
Definition mints (acts : list action) : Z := foldr (λ a acc, minted a + acc) 0 acts.

(** ** Calls outside the accounting *)

Section outside.
Context (e : Env).

Lemma keeps_core_modify (f : Ledger → Ledger) : (∀ L, f L ≈ L) → keeps core_eq (mmodify f).
Proof. intros H L r L1 [= _ <-]. by symmetry. Qed.

(** Checking a signature fills the caches of keys and keysets. *)
Section credential.
Context (R : Ledger → Ledger → Prop) `{!PreOrder R}.
Context (Hkey : ∀ a k L, R L (setAccountKey a k L)) (Hks : ∀ a ks L, R L (setKeyset a ks L)).

Lemma keeps_caches (f : Ledger → Ledger) : (∀ L, R L (f L)) → keeps R (mmodify f).
Proof. intros H L r L1 [= _ <-]. apply H. Qed.

Lemma keeps_account_key a : keeps R (GetAccountKey e a).
Proof.
  intros L r L1 H. unfold GetAccountKey in H. destruct (accountKeys L !! a).
  - by injection H as _ <-.
  - revert L r L1 H. change (keeps R (mtry (GetAccountChain e a) (λ r,
        match r with
        | Ok (Some chain) =>
            let found := foldl (λ f b, if b_PubKey b =?s "" then f else b_PubKey b) ""%string chain in
            if found =?s "" then mret_ ""%string
            else mmodify (setAccountKey a found) ;! mret_ found
        | _ => mret_ ""%string
        end))).
    unfold GetAccountChain. keep. by apply keeps_caches.
Qed.

Lemma keeps_resolve_keyset a : keeps R (resolveMissingKeyset e a).
Proof. unfold resolveMissingKeyset, GetAccountChain. keep. by apply keeps_caches. Qed.
#[local] Hint Resolve keeps_account_key keeps_resolve_keyset : keeps.

Lemma keeps_credential b : keeps R (verifyBlockCredential e b).
Proof. unfold verifyBlockCredential. keep. Qed.
End credential.

Lemma core_credential b : keeps core_eq (verifyBlockCredential e b).
Proof. apply (keeps_credential _); reflexivity. Qed.
#[local] Hint Resolve core_credential : keeps.

Lemma keeps_swrite c f :
  (∀ s s', f s = Ok s' → blocks s' = blocks s ∧ chains s' = chains s ∧ pending s' = pending s ∧
     frontiers s' = frontiers s ∧ leases s' = leases s ∧ finalHeight s' = finalHeight s ∧
     delegations s' = delegations s) →
  keeps core_eq (swrite e c f).
Proof.
  intros Hf L r L1 H. unfold swrite in H. destruct (fault e c); [by injection H as _ <-|].
  destruct (f (store L)) as [s|] eqn:E; injection H as _ <-; [|done].
  apply Hf in E as (E1 & E2 & E3 & E4 & E5 & EF & E6). unfold core_eq, core. simpl.
  by rewrite E1, E2, E3, E4, E5, EF, E6.
Qed.

Lemma keeps_save_conflict c : keeps core_eq (save_conflict e c).
Proof. apply keeps_swrite. by intros s s' [= <-]. Qed.

Lemma keeps_save_staged h b : keeps core_eq (swrite e (CSaveStagedBlock h) (λ s, Ok (SaveStagedBlock b s))).
Proof. apply keeps_swrite. by intros s s' [= <-]. Qed.

Lemma keeps_snapshot : keeps core_eq (snapshotWeights e).
Proof. intros L r L1 H. unfold snapshotWeights in H. destruct (eligibleAllowlist _ _). by injection H as _ <-. Qed.
#[local] Hint Resolve keeps_save_conflict keeps_save_staged keeps_snapshot : keeps.

Lemma keeps_record a p x y : keeps core_eq (recordConflict e a p x y).
Proof. unfold recordConflict, GetConflict. keep. Qed.

Lemma keeps_staged_pending op msg h : keeps core_eq (staged_pending e op msg h).
Proof. unfold staged_pending, GetPendingSend. keep. Qed.

Lemma keeps_notify c : keeps core_eq (notify_conflict e c).
Proof. unfold notify_conflict. keep. by apply keeps_core_modify. Qed.
#[local] Hint Resolve keeps_record keeps_staged_pending keeps_notify : keeps.

Lemma keeps_validate_staged b v : keeps core_eq (ValidateStagedBlock e b v).
Proof. unfold ValidateStagedBlock, staged_debit, staged_balance. keep. Qed.
#[local] Hint Resolve keeps_validate_staged : keeps.

Lemma keeps_stage b ch h : keeps core_eq (stage_conflict e b ch h).
Proof. unfold stage_conflict, GetConflict. keep. Qed.

(** ** Handlers that fail *)

Lemma err_keeps_send b : err_keeps core_eq (validateAndAddSend e b).
Proof. unfold validateAndAddSend. keep. Qed.
Lemma err_keeps_burn b : err_keeps core_eq (validateAndAddBurn e b).
Proof. unfold validateAndAddBurn. keep. Qed.
Lemma err_keeps_receive b : err_keeps core_eq (validateAndAddReceive e b).
Proof. unfold validateAndAddReceive. keep. Qed.
Lemma err_keeps_mint b : err_keeps core_eq (validateAndAddMint e b).
Proof. unfold validateAndAddMint. keep. Qed.
Lemma err_keeps_genesis b : err_keeps core_eq (validateAndAddGenesis e b).
Proof. unfold validateAndAddGenesis, addBlockLocked. keep. Qed.
Lemma err_keeps_multisig_open b : err_keeps core_eq (validateAndAddMultisigOpen e b).
Proof. unfold validateAndAddMultisigOpen. keep. Qed.
Lemma err_keeps_multisig_update b : err_keeps core_eq (validateAndAddMultisigUpdate e b).
Proof. unfold validateAndAddMultisigUpdate. keep. Qed.
Lemma err_keeps_lease b : err_keeps core_eq (validateAndAddLease e b).
Proof. unfold validateAndAddLease. keep. Qed.
Lemma err_keeps_lease_accept b skip : err_keeps core_eq (validateAndAddLeaseAccept e b skip).
Proof. unfold validateAndAddLeaseAccept. keep. Qed.
Lemma err_keeps_lease_settle b skip : err_keeps core_eq (validateAndAddLeaseSettle e b skip).
Proof. unfold validateAndAddLeaseSettle. keep. Qed.
Lemma err_keeps_lease_force_settle b skip : err_keeps core_eq (validateAndAddLeaseForceSettle e b skip).
Proof. unfold validateAndAddLeaseForceSettle. keep. Qed.
Lemma err_keeps_lease_renew b skip : err_keeps core_eq (validateAndAddLeaseRenew e b skip).
Proof. unfold validateAndAddLeaseRenew. keep. Qed.
Lemma err_keeps_refund b lb : err_keeps core_eq (cancel_refund e b lb).
Proof. unfold cancel_refund. keep. Qed.

Ltac read_fails H := apply read_err in H as [->|(? & ? & H)]; [by left| |by keep].

Lemma cancel_err b L err L' :
  ledger_inv L → b_Type b = BlockLeaseCancel →
  validateAndAddLeaseCancel e b L = (Err err, L') → judged e b L L'.
Proof.
  intros HL Ht H. pose proof (inv_cascade L HL) as Hn. unfold validateAndAddLeaseCancel in H.
  do 5 read_fails H. run.
  match goal with H : getLeaseOverlay _ _ _ = _ |- _ => apply lease_read_ok in H as [-> _]; [|done] end.
  apply mbind_err in H as [H|(? & K & Hg & H)].
  - unfold cancel_guard in H. destruct (leases (store L) !! b_Source b) as [l|] eqn:Hl; [|discriminate].
    destruct (_ && _) eqn:Es.
    + bool_hyps. eapply resolve_spec in H; [|done..]. destruct H as [(? & _ & ->)|[? _]]; [by left|discriminate].
    + left. symmetry. by eapply (keeps_fail_if core_eq) in H.
  - apply err_keeps_refund in H. eapply cancel_guard_judged in Hg; [|done..].
    destruct Hg as [Hg|(_ & p & Hg)]; [left; etrans; [by symmetry|done]|right].
    split; [done|]. exists p. by eapply accept_unwound_core.
Qed.

Lemma err_keeps_handler b skip : b_Type b ≠ BlockLeaseCancel → err_keeps core_eq (handler e skip b).
Proof.
  intros Hnc. unfold handler. destruct (b_Type b); try done;
    [apply err_keeps_send|apply err_keeps_receive|apply err_keeps_mint|apply err_keeps_genesis
    |apply err_keeps_burn|apply err_keeps_lease|apply err_keeps_lease_accept
    |apply err_keeps_lease_settle|apply err_keeps_lease_force_settle|apply err_keeps_lease_renew
    |apply err_keeps_multisig_open|apply err_keeps_multisig_update|].
  by intros L err L1 [= _ <-].
Qed.

(** ** One call *)

Lemma judged_core b L L0 L1 : L ≈ L0 → judged e b L L1 → judged e b L0 L1.
Proof.
  intros E [H|(Ht & p & H)]; [left; by etrans|right].
  split; [done|]. exists p. by eapply accept_unwound_core_l.
Qed.

Lemma judged_core_r b L L1 L2 : judged e b L L1 → L1 ≈ L2 → judged e b L L2.
Proof.
  intros [H|(Ht & p & H)] E; [left; etrans; [by symmetry|done]|right].
  split; [done|]. exists p. by eapply accept_unwound_core.
Qed.

(** The block was added: it was judged acceptable and its write was made. *)
Definition committed (skip : bool) (L : Ledger) (b : Block) (L' : Ledger) : Prop :=
  ∃ L1 c, judged e b L L1 ∧ accepts e skip L1 b c ∧ L' ≈ apply_commit c L1.

Lemma core_new_block L L0 b : L ≈ L0 → new_block L b → new_block L0 b.
Proof. intros E. apply new_block_blocks. by injection E. Qed.

Lemma dispatch_outcome b skip L r L' :
  ledger_inv L → new_block L b → supply (store L) "XUSD" < two64 →
  dispatchValidateAndAdd e b skip L = (r, L') →
  (∃ err, r = Err err ∧ judged e b L L') ∨ (r = Ok () ∧ committed skip L b L').
Proof.
  intros HL Hnew Hcap H. rewrite dispatch_handler in H. unfold mbind_ at 1 in H.
  destruct (verifyBlockCredential e b L) as [[u|err] K] eqn:E;
    pose proof (core_credential b _ _ _ E) as HK; [|injection H as <- <-; left; eexists; by split; [|left]].
  pose proof (core_inv _ _ HK HL) as HL1. pose proof (core_new_block _ _ _ HK Hnew) as Hnew1.
  rewrite (core_supply _ _ _ HK) in Hcap. destruct r as [[]|err].
  - right. split; [done|]. destruct (handlers_refine e skip b K L' ()) as (L1 & HJ & c & Ha & Hc); try done.
    exists L1, c. split; [|done]. eapply judged_core; [|done]. by symmetry.
  - left. exists err. split; [done|]. apply judged_core with K; [by symmetry|].
    destruct (decide (b_Type b = BlockLeaseCancel)) as [Ht|Ht].
    + unfold handler in H. rewrite Ht in H. by eapply cancel_err.
    + left. symmetry. by eapply err_keeps_handler.
Qed.

Context `{CL : !CryptoLaws C}.

Lemma prepared_words b : block_words b → block_words (prepared b).
Proof. intros H. unfold prepared. by destruct (attested_type _). Qed.

(** What a call has done: nothing the accounting sees, except that a refused
    cancellation may have unwound an acceptance; or the write of one rule. *)
Definition outcome (skip : bool) (L : Ledger) (b : Block) (r : result unit) (L' : Ledger) : Prop :=
  judged e b L L' ∧ (∀ u, r = Ok u → L' ≈ L) ∨
  r = Ok () ∧ new_block L b ∧ committed skip L b L'.

Lemma outcome_same skip L b r L' : L ≈ L' → outcome skip L b r L'.
Proof. intros E. left. split; [by left|by symmetry in E]. Qed.

(** A step outside the accounting: it fails, or the call goes on. *)
Lemma outcome_read {A} skip b (m : LM A) k L L1 r L' :
  keeps core_eq m → L ≈ L1 → mbind_ m k L1 = (r, L') →
  (∀ x L2, m L1 = (Ok x, L2) → L ≈ L2 → k x L2 = (r, L') → outcome skip L b r L') →
  outcome skip L b r L'.
Proof.
  intros Hm E1 H Hk. unfold mbind_ in H. destruct (m L1) as [[x|x] L2] eqn:E.
  - eapply Hk; [done| |done]. etrans; [done|]. by eapply Hm.
  - injection H as <- <-. apply outcome_same. etrans; [done|]. by eapply Hm.
Qed.

#[local] Hint Resolve core_credential keeps_stage : keeps.

Ltac outside H E x Hx :=
  match type of H with _ ?K = _ =>
    let K' := fresh "K" in
    refine (outcome_read _ _ _ _ _ K _ _ _ E H _); [by keep|]; clear H E; intros x K' Hx E H
  end.

Lemma addBlock_outcome_from b skip L K r L' :
  ledger_inv L → block_words b → supply (store L) "XUSD" < two64 → L ≈ K →
  addBlock e b skip K = (r, L') → outcome skip L (prepared b) r L'.
Proof.
  intros HL Hw Hcap E H. unfold addBlock in H. apply prepared_words in Hw.
  generalize dependent (prepared b). clear b. intros b Hw H.
  outside H E x Hx. clear x Hx.
  outside H E x Hv. apply mwrap_ok, mlift_ok in Hv as [Hv _]. destruct x.
  outside H E x Hx. clear x Hx.
  outside H E x Hx. clear x Hx.
  outside H E x Hx. apply mwrap_ok, block_read_ok in Hx as [-> ->].
  destruct (blocks (store _) !! b_Hash b) eqn:Hfresh.
  { injection H as <- <-. by apply outcome_same. }
  assert (Hnone : blocks (store L) !! b_Hash b = None) by (injection E; congruence). clear Hfresh.
  outside H E x Hx. clear x Hx.
  outside H E ch Hx. clear Hx.
  destruct (negb _).
  { apply outcome_same. etrans; [done|]. by eapply keeps_stage. }
  outside H E cs Hx. clear Hx.
  outside H E x Hx. clear x Hx.
  outside H E x Hx. clear x Hx.
  outside H E x Hx. destruct x. apply mfail_if_ok in Hx as [Hasset ->]. bool_hyps.
  assert (Hnew : new_block L b).
  { apply VerifyBlock_hash in Hv as [??]. by split. }
  unfold mtry in H. destruct (dispatchValidateAndAdd _ _ _ _) as [r1 K9] eqn:Hd.
  eapply dispatch_outcome in Hd; [|by eapply core_inv|by eapply core_new_block
    |by rewrite <- (core_supply _ _ _ E)].
  destruct Hd as [(err & -> & HJ)|(-> & L1 & c & HJ & Hacc & HC)].
  - left. assert (K9 = L' ∧ ∃ err, r = Err err) as [<- [err' ->]].
    { destruct (err =?s _); injection H as <- <-; eauto. }
    split; [|done]. eapply judged_core; [|done]. by symmetry.
  - right. assert (HE : r = Ok () ∧ K9 ≈ L').
    { destruct (blockAddedCallback e); by injection H as <- <-. }
    destruct HE as [-> HE]. split_and!; [done..|]. exists L1, c. split_and!; [|done|].
    + eapply judged_core; [|done]. by symmetry.
    + etrans; [by symmetry|done].
Qed.

Lemma addBlock_outcome b skip L r L' :
  ledger_inv L → block_words b → supply (store L) "XUSD" < two64 →
  addBlock e b skip L = (r, L') → outcome skip L (prepared b) r L'.
Proof. intros HL Hw Hc H. by eapply (addBlock_outcome_from b skip L L). Qed.

(** *** Consequences for one call *)

Lemma committed_facts skip L b L' :
  ledger_inv L → new_block L b → supply (store L) "XUSD" < two64 → committed skip L b L' →
  ledger_inv L' ∧ blocks (store L') = <[b_Hash b := b]> (blocks (store L)) ∧
  moved L b "XUSD" <= xusd_issue b ∧
  ∀ asset, IsValidAsset asset = true →
    supply (store L') asset = supply (store L) asset + moved L b asset.
Proof.
  intros HL Hnew Hcap (L1 & c & HJ & Ha & HC).
  destruct (judged_neutral e b L L1 HJ HL) as (HL1 & HB & HP & HS).
  assert (Hnew1 : new_block L1 b) by by eapply new_block_blocks.
  assert (Hcap1 : supply (store L1) "XUSD" < two64) by by rewrite HS.
  destruct (core_neutral (apply_commit c L1) L') as (HL' & HB' & _ & HS');
    [by symmetry|by eapply accepts_inv|].
  assert (HM : ∀ asset, moved L1 b asset = moved L b asset).
  { intros asset. unfold moved, escrow_of, price_of. by rewrite HB, HP. }
  split_and!; [done| | |].
  - rewrite HB', <- HB. apply commit_blocks. by eapply accepts_appends.
  - rewrite <- HM. by eapply moved_xusd.
  - intros asset Hv. rewrite HS' by done. erewrite accepts_supply by done.
    by rewrite HS, HM by done.
Qed.

Lemma outcome_facts skip L b r L' :
  ledger_inv L → supply (store L) "XUSD" < two64 → outcome skip L b r L' →
  ledger_inv L' ∧
  (blocks (store L') = blocks (store L) ∧
     (∀ asset, IsValidAsset asset = true → supply (store L') asset = supply (store L) asset) ∨
   r = Ok () ∧ blocks (store L) !! b_Hash b = None ∧
     blocks (store L') = <[b_Hash b := b]> (blocks (store L)) ∧
     moved L b "XUSD" <= xusd_issue b ∧
     ∀ asset, IsValidAsset asset = true →
       supply (store L') asset = supply (store L) asset + moved L b asset).
Proof.
  intros HL Hcap [[HJ _]|(-> & Hnew & HC)].
  - destruct (judged_neutral e b L L' HJ HL) as (? & ? & _ & ?). auto.
  - destruct (committed_facts _ _ _ _ HL Hnew Hcap HC) as (? & ? & ? & ?).
    split; [done|right]. split_and!; [done|apply Hnew|done..].
Qed.

End outside.

(** ** Any sequence of calls *)

Lemma empty_inv : ledger_inv emptyLedger.
Proof.
  split; try done; try (intros ?? H; rewrite lookup_empty in H; done).
Qed.

Context `{CL : !CryptoLaws C}.

Lemma prepared_issue b : xusd_issue (prepared b) = mint_amount b.
Proof. unfold prepared, xusd_issue, mint_amount. by destruct (attested_type _). Qed.

Lemma mint_amount_nonneg b : block_words b → 0 <= mint_amount b.
Proof. intros [_ [? _]]. unfold mint_amount. by destruct (b_Type b). Qed.

Lemma minted_nonneg a : typed a → 0 <= minted a.
Proof. destruct a; [apply mint_amount_nonneg|done|done]. Qed.

(** Finality does not enter the accounting. *)
Lemma inv_finalHeight a h L : ledger_inv L → blocks (store L) ≠ ∅ →
  ledger_inv (with_store (SetFinalHeight a h (store L)) L).
Proof.
  intros [H1 H2 H3] Hne. split; try done. intros b c Hc. by destruct (H3 b c Hc).
Qed.

Lemma start_inv e L :
  ledger_inv L → typed (Start e) →
  ledger_inv (run_action L (Start e)) ∧
  supply (store (run_action L (Start e))) "XUSD" = supply (store L) "XUSD".
Proof.
  intros HL Hw. simpl in *. destruct (NewLedger e (store L)) as [[T|err] L'] eqn:H; [|done].
  pose proof (NewLedger_ok e L T L' HL ltac:(intros g Hg; by rewrite Hg in Hw) H) as H0.
  destruct H0 as [(L2 & Es & HL2 & _ & E)|(Hb & g & L1 & Hg & HL1 & -> & H0)].
  - split; [by rewrite E|]. by rewrite (core_supply _ _ _ E), Es.
  - rewrite Hg in Hw. pose proof (first_start_supply e L HL Hb g Hg Hw) as Hs.
    destruct H0 as [->| ->]; [done|]. split; [|exact Hs]. apply inv_finalHeight; [done|].
    rewrite (commit_blocks _ g); [apply insert_non_empty|].
    eapply accepts_appends; [by apply blank_inv|]. by apply genesis_accepted.
Qed.

Lemma advance_final_ok e a w L r L' :
  advance_final e a w L = (r, L') →
  L' = L ∨ ∃ h c, chains (store L) !! a = Some c ∧ c ≠ [] ∧ L' = with_store (SetFinalHeight a h (store L)) L ∧
    (fault e (CGetFinalHeight a) = None → default 0 (finalHeight (store L) !! a) < h).
Proof.
  intros H. unfold advance_final, mtry in H. destruct (GetBlockHeight e a w L) as [rh L1] eqn:Eh.
  pose proof (keeps_height e eq a w _ _ _ Eh) as <-.
  destruct rh as [h|err]; [|injection H as _ <-; by left].
  assert (∃ c, chains (store L) !! a = Some c ∧ c ≠ []) as (c & Hc & Hne).
  { unfold GetBlockHeight, GetAccountChain in Eh. calls. eexists. split; [done|]. by intros ->. }
  unfold FinalHeight, mor, mtry, mbind_, sread, swrite, mwrap in H.
  destruct (fault e (CGetFinalHeight a)) eqn:Ef in H; simpl in H.
  all: match type of H with context [if ?b then _ else _] => destruct b eqn:El in H end;
    [|injection H as _ <-; by left].
  all: destruct (fault e (CSetFinalHeight a)); injection H as _ <-; [by left|right].
  all: exists h, c; split_and!; [done..|]; intros Hf; bool_hyps; first [congruence|done].
Qed.

Lemma confirm_inv e a w L :
  ledger_inv L → ledger_inv (run_action L (Confirm e a w)) ∧
  supply (store (run_action L (Confirm e a w))) "XUSD" = supply (store L) "XUSD".
Proof.
  intros HL. simpl. destruct (advance_final e a w L) as [r L'] eqn:H. simpl.
  apply advance_final_ok in H as [->|(h & c & Hc & Hne & -> & _)]; [done|]. split; [|done].
  apply inv_finalHeight; [done|]. intros Hb. by rewrite (empty_chains L HL Hb) in Hc.
Qed.

Lemma add_inv e b skip L n :
  ledger_inv L → block_words b → supply (store L) "XUSD" <= n → n < two64 →
  ledger_inv (run_action L (Add e b skip)) ∧
  supply (store (run_action L (Add e b skip))) "XUSD" <= n + mint_amount b.
Proof.
  intros HL Hw Hn Hlt. simpl. destruct (addBlock e b skip L) as [r L'] eqn:H. simpl.
  eapply addBlock_outcome in H; [|done..|lia].
  eapply outcome_facts in H as [HL' H]; [|done|lia]. split; [done|].
  pose proof (mint_amount_nonneg _ Hw).
  destruct H as [[_ HS]|(_ & _ & _ & Hm & HS)]; rewrite HS by done; [lia|].
  rewrite prepared_issue in Hm. lia.
Qed.

Lemma run_action_inv L a n :
  ledger_inv L → typed a → supply (store L) "XUSD" <= n → n < two64 →
  ledger_inv (run_action L a) ∧ supply (store (run_action L a)) "XUSD" <= n + minted a.
Proof.
  intros HL Ha Hn Hlt. destruct a as [e b skip|e|e ac w].
  - by apply add_inv.
  - destruct (start_inv e L HL Ha) as [? ->]. split; [done|]. simpl. lia.
  - destruct (confirm_inv e ac w L HL) as [? ->]. split; [done|]. simpl. lia.
Qed.

Lemma mints_snoc acts a : mints (acts ++ [a]) = mints acts + minted a.
Proof. unfold mints. induction acts as [|x acts IH]; simpl; lia. Qed.

Lemma run_actions_snoc acts a L : run_actions (acts ++ [a]) L = run_action (run_actions acts L) a.
Proof. unfold run_actions. by rewrite foldl_app. Qed.

Lemma run_actions_inv acts :
  Forall typed acts → mints acts < two64 →
  ledger_inv (run_actions acts emptyLedger) ∧
  supply (store (run_actions acts emptyLedger)) "XUSD" <= mints acts.
Proof.
  induction acts as [|a acts IH] using rev_ind; intros Hw Hm.
  { split; [apply empty_inv|]. done. }
  apply Forall_app in Hw as [Hw Ha]. apply Forall_cons in Ha as [Ha _]. rewrite mints_snoc in *.
  pose proof (minted_nonneg _ Ha). destruct IH as [HL Hs]; [done|lia|].
  rewrite run_actions_snoc. apply run_action_inv; [done..|lia].
Qed.

End trace.
