(* ===== verification/VoteFrame.v ===== *)
(** * The ledger leaves the votes alone

    No operation of the ledger, a promotion included, changes the stored votes or
    the final votes a representative has locked. *)
From S2P Require Import Prelude GoLib Types Encoding LeaseMath Crypto Multisig Attestation Genesis Reputation Store Ledger Rollback Handlers Restart AddBlock Swap Quorum Vote LedgerSpec LedgerCommit LedgerRules LedgerCalls LedgerUndo LedgerPlan LedgerRefine LedgerTrace.

Definition box (L : Ledger) : gmap (string * string * string) Vote * gmap (string * string) string :=
  (votes (store L), finalVotes (store L)).
Definition box_eq (L L' : Ledger) : Prop := box L' = box L.

#[export] Instance box_eq_preorder : PreOrder box_eq.
Proof. split; [done|]. intros L1 L2 L3 H12 H23. unfold box_eq in *. congruence. Qed.

Section frame.
Context `{C : Crypto} (e : Env).

Lemma box_modify (f : Ledger → Ledger) : (∀ L, box (f L) = box L) → keeps box_eq (mmodify f).
Proof. intros Hf L r L1 [= _ <-]. apply Hf. Qed.

Lemma box_swrite c f : (∀ s s', f s = Ok s' → votes s' = votes s ∧ finalVotes s' = finalVotes s) →
  keeps box_eq (swrite e c f).
Proof.
  intros Hf L r L1 H. unfold swrite in H. destruct (fault e c); [by injection H as _ <-|].
  destruct (f (store L)) as [s|] eqn:E; injection H as _ <-; [|done].
  apply Hf in E as [E1 E2]. unfold box_eq, box. simpl. by rewrite E1, E2.
Qed.

Lemma write_reps_box ws s : votes (foldl (write_rep e) s ws) = votes s ∧
  finalVotes (foldl (write_rep e) s ws) = finalVotes s.
Proof.
  revert s. induction ws as [|w ws IH]; intros s; [done|]. simpl. destruct (IH (write_rep e s w)) as [-> ->].
  unfold write_rep. by repeat case_match.
Qed.
Lemma box_rep_apply ev L : box (rep_apply e ev L) = box L.
Proof. unfold box, rep_apply. simpl. by rewrite !(proj1 (write_reps_box _ _)), !(proj2 (write_reps_box _ _)). Qed.
Lemma box_rep_revert ev L : box (rep_revert e ev L) = box L.
Proof. unfold box, rep_revert. simpl. by rewrite !(proj1 (write_reps_box _ _)), !(proj2 (write_reps_box _ _)). Qed.

Lemma box_run_apply a L : box (run_apply e a L) = box L.
Proof.
  unfold run_apply.
  assert (Hd : ∀ K, box (undo_delegation a K) = box K) by (intros K; unfold undo_delegation; by repeat case_match).
  destruct (ma_repRevert a); rewrite ?box_rep_revert, Hd; unfold subAssetBalance;
    repeat case_match; done.
Qed.

Lemma box_applies aps L : box (foldl (λ L a, run_apply e a L) L aps) = box L.
Proof. revert L. induction aps as [|a aps IH]; intros L; [done|]. simpl. by rewrite IH, box_run_apply. Qed.

Lemma box_after_commit c pb L : box (after_commit c pb L) = box L.
Proof.
  unfold after_commit, updateDelegation. destruct (bc_AssetCredit c), (bc_PutAccountKey c =?s "");
    repeat case_match; done.
Qed.

Lemma CommitBlock_box c s s' : CommitBlock c s = Ok s' → votes s' = votes s ∧ finalVotes s' = finalVotes s.
Proof. intros H. unfold CommitBlock in H. by run. Qed.

Lemma CommitCascade_box us c s s' : CommitCascade us c s = Ok s' → votes s' = votes s ∧ finalVotes s' = finalVotes s.
Proof.
  intros H. unfold CommitCascade in H. run. destruct (CommitBlock c _) eqn:E; [|discriminate].
  injection H as <-. apply CommitBlock_box in E as [-> ->]. clear. revert s. induction us as [|u us IH]; intros s; [done|].
  simpl. by destruct (IH (CommitUndo u s)) as [-> ->].
Qed.

Lemma box_commit c pb : keeps box_eq (commitBlockWrite e c pb).
Proof.
  unfold commitBlockWrite. keep.
  all: first [apply box_swrite; intros ??; first [apply CommitBlock_box|apply CommitCascade_box]
             |apply box_modify; intros ?; rewrite ?box_after_commit; try done].
  unfold deactivateCascade. apply (box_applies _ L).
Qed.

Lemma box_undo a b : keeps box_eq (undoBlockApply e a b).
Proof.
  intros L r L1 H. unfold undoBlockApply, mbind_ in H.
  destruct (GetAccountChain e a L) as [[ch|x] L2] eqn:Ec;
    apply (keeps_sread e eq) in Ec as <-; [|by injection H as _ <-].
  destruct (buildBlockUndo _ _ _ _ _) as [[[u ap]|x] L2] eqn:Eb;
    apply (keeps_buildBlockUndo e eq) in Eb as <-; [|by injection H as _ <-]. unfold swrite in H.
  destruct (fault e _); injection H as _ <-; [done|]. unfold box_eq. by rewrite box_run_apply.
Qed.
End frame.

#[export] Hint Resolve box_commit box_undo : keeps.
#[export] Hint Extern 1 (keeps box_eq (mmodify _)) =>
  apply box_modify; intros; first [apply box_rep_apply | apply box_rep_revert | reflexivity] : keeps.
#[export] Hint Extern 1 (keeps box_eq (swrite _ _ _)) => apply box_swrite; by intros ? ? [= <-] : keeps.

Section handlers.
Context `{C : Crypto} (e : Env).

Lemma box_resolve h p : keeps box_eq (resolveCancelWinsOverAccept e h p).
Proof. unfold resolveCancelWinsOverAccept. keep. Qed.
#[local] Hint Resolve box_resolve : keeps.

Lemma box_credential b : keeps box_eq (verifyBlockCredential e b).
Proof. by apply (keeps_credential e _). Qed.
#[local] Hint Resolve box_credential : keeps.

Lemma box_dispatch b skip : keeps box_eq (dispatchValidateAndAdd e b skip).
Proof.
  unfold dispatchValidateAndAdd, validateAndAddSend, validateAndAddReceive, validateAndAddGenesis,
    validateAndAddLease, validateAndAddLeaseAccept, validateAndAddLeaseSettle, validateAndAddLeaseCancel,
    validateAndAddLeaseForceSettle, validateAndAddLeaseRenew, validateAndAddMultisigOpen,
    validateAndAddMultisigUpdate, validateAndAddBurn, validateAndAddMint, addBlockLocked, cancel_guard, cancel_refund.
  keep. discriminate.
Qed.
#[local] Hint Resolve box_dispatch : keeps.

Lemma box_validate_staged b v : keeps box_eq (ValidateStagedBlock e b v).
Proof. unfold ValidateStagedBlock, staged_pending, staged_debit, staged_balance. keep. Qed.
#[local] Hint Resolve box_validate_staged : keeps.

Lemma box_snapshot : keeps box_eq (snapshotWeights e).
Proof. intros L r L1 H. unfold snapshotWeights in H. destruct (eligibleAllowlist _ _). by injection H as _ <-. Qed.
#[local] Hint Resolve box_snapshot : keeps.

Lemma box_stage b ch h : keeps box_eq (stage_conflict e b ch h).
Proof. unfold stage_conflict, recordConflict, save_conflict, notify_conflict, GetConflict. keep. Qed.
#[local] Hint Resolve box_stage : keeps.

Lemma box_addBlock b skip : keeps box_eq (addBlock e b skip).
Proof. unfold addBlock. keep. Qed.

Lemma box_plan fuel a ch i b : keeps box_eq (swap_plan e (planRollbackOfSend e fuel) a ch i b).
Proof. 
  unfold swap_plan, planCascade. keep; try apply (keeps_plan_blocks e box_eq); intros;
    by apply (keeps_planRollbackOfSend e box_eq).
Qed.

Lemma box_build cb sn p : keeps box_eq (build_cascade e cb sn p).
Proof. revert cb sn. induction p as [|st p IH]; intros cb sn; simpl; unfold build_step; keep. Qed.
#[local] Hint Resolve box_plan box_build : keeps.

Lemma box_swap a old new b : keeps box_eq (swapBlockLocked e a old new b).
Proof.
  unfold swapBlockLocked. keep. intros L r L1 Ha. unfold activateCascade in Ha. case_match; by injection Ha as _ <-.
Qed.
End handlers.

(** ** Starting *)
Section start.
Context `{C : Crypto} (e : Env).

Lemma foldl_box (f : Ledger → Block → Ledger) c L :
  (∀ L b, box (f L b) = box L) → box (foldl f L c) = box L.
Proof. intros Hf. revert L. induction c as [|b c IH]; intros L; [done|]. simpl. by rewrite IH. Qed.

Lemma box_chain_or_nil a : keeps box_eq (chain_or_nil e a).
Proof. unfold chain_or_nil. keep. Qed.
#[local] Hint Resolve box_chain_or_nil : keeps.

Lemma box_folded (f : Ledger → Block → Ledger) c :
  (∀ L b, box (f L b) = box L) → keeps box_eq (mmodify (λ L, foldl f L c)).
Proof. intros Hf. apply box_modify. intros L. by apply foldl_box. Qed.

Lemma box_rebuild : keeps box_eq (rebuild_caches e).
Proof.
  unfold rebuild_caches, rebuildKeysets, rebuildAccountKeys, pruneChainlessAccounts, prune_account, rebuildDelegation,
    rebuild_delegation, rebuildAssetBalances, rebuild_balances, rebuildReputation, replay_lease, replay_cancel,
    lookupLeaseForceSettleTimestamp, lookupLeaseSettleTimestamp, closing_time, initBlockCount, GetAccountChain.
  keep; apply box_folded; intros; by repeat case_match.
Qed.

Lemma box_start s : box (NewLedger e s).2 = (votes s, finalVotes s).
Proof.
  destruct (NewLedger e s) as [r L] eqn:E. change (box_eq (blankLedger s) L). unfold NewLedger in E.
  refine ((_ : keeps box_eq _) _ _ _ E). clear E. pose proof box_rebuild.
  unfold first_start, later_start, GetAccountChain. keep.
Qed.
End start.

#[export] Hint Resolve box_dispatch box_validate_staged box_addBlock box_swap : keeps.
