(* ===== verification/VoteLock.v ===== *)
(** * A representative keeps its word

    The first final vote of a representative for a position is a lock: it is never
    replaced, and every final vote the node signs afterwards names the locked block,
    or a block that is already final. *)
From S2P Require Import Prelude GoLib Types Encoding LeaseMath Crypto Multisig Attestation Genesis Reputation Store Ledger Rollback Handlers Restart AddBlock Swap Quorum Vote LedgerSpec LedgerCommit LedgerRules LedgerCalls LedgerUndo LedgerPlan LedgerRefine LedgerTrace VoteFacts VoteFrame.

Lemma keeps_weaken {S A} (R R' : S → S → Prop) (m : M S A) :
  (∀ s s', R s s' → R' s s') → keeps R m → keeps R' m.
Proof. intros HR Hm s r s' H. by eapply HR, Hm. Qed.

Lemma keeps_or {S A} (R : S → S → Prop) `{!PreOrder R} (d : A) (m : M S A) : keeps R m → keeps R (mor d m).
Proof. intros Hm. unfold mor. keep. Qed.

Lemma keeps_get {S} (R : S → S → Prop) `{!PreOrder R} : keeps R mget.
Proof. by intros s r s' [= _ <-]. Qed.
#[export] Hint Resolve keeps_get : keeps.

(** ** Settling a conflict signs nothing *)

Definition box_sub (L L' : Ledger) : Prop :=
  finalVotes (store L') = finalVotes (store L) ∧ votes (store L') ⊆ votes (store L).

#[export] Instance box_sub_preorder : PreOrder box_sub.
Proof. split; [done|]. intros L1 L2 L3 [H1 H2] [H3 H4]. split; [congruence|by etrans]. Qed.

Lemma box_eq_sub {A} (m : LM A) : keeps box_eq m → keeps box_sub m.
Proof. apply keeps_weaken. intros L L' H. injection H as H1 H2. unfold box_sub. by rewrite H1, H2. Qed.

Lemma with_ledger_id n : with_ledger (n_ledger n) n = n.
Proof. by destruct n. Qed.

Definition quiet (n n' : Node) : Prop :=
  box_sub (n_ledger n) (n_ledger n') ∧ pendingVotes n' = pendingVotes n ∧
  ∃ evs, outbox n' = outbox n ++ evs ∧ ∀ v, EvVote v ∉ evs.

#[export] Instance quiet_preorder : PreOrder quiet.
Proof.
  split.
  - intros n. split; [done|]. split; [done|]. exists []. split; [by rewrite app_nil_r|set_solver].
  - intros n1 n2 n3 (H1 & P1 & e1 & O1 & E1) (H2 & P2 & e2 & O2 & E2). split; [by etrans|].
    split; [congruence|]. exists (e1 ++ e2). split; [by rewrite O2, O1, app_assoc|set_solver].
Qed.

Lemma quiet_ledger {A} (m : LM A) : keeps box_sub m → keeps quiet (on_ledger m).
Proof.
  intros Hm n r n' H. unfold on_ledger in H. destruct (m (n_ledger n)) as [x L] eqn:E. injection H as _ <-.
  split; [by eapply Hm|]. split; [done|]. exists []. split; [by rewrite app_nil_r|set_solver].
Qed.

Lemma quiet_modify (f : Node → Node) :
  (∀ n, n_ledger (f n) = n_ledger n ∧ pendingVotes (f n) = pendingVotes n ∧ outbox (f n) = outbox n) →
  keeps quiet (mmodify f).
Proof.
  intros Hf n r n' [= _ <-]. destruct (Hf n) as (H1 & H2 & H3). split; [by rewrite H1|].
  split; [done|]. exists []. split; [by rewrite app_nil_r|set_solver].
Qed.

Lemma quiet_emit ev : (∀ v, ev ≠ EvVote v) → keeps quiet (mmodify (emit ev)).
Proof.
  intros Hv n r n' [= _ <-]. split; [done|]. split; [done|]. exists [ev]. split; [done|].
  intros v Hin%list_elem_of_singleton. by apply (Hv v).
Qed.

(** [keep] for a computation of the node *)
Ltac node_step :=
  match goal with
  | |- keeps ?R (mor _ _) => apply (keeps_or R)
  | |- keeps ?R (ignored _) => unfold ignored
  | |- keeps quiet (on_ledger _) => apply quiet_ledger
  | |- keeps quiet (mmodify (emit _)) => by apply quiet_emit
  | |- keeps quiet (mmodify _) => by apply quiet_modify
  | |- keeps box_sub (dispatchValidateAndAdd _ _ _) => apply box_eq_sub, box_dispatch
  | |- keeps box_sub (swapBlockLocked _ _ _ _ _) => apply box_eq_sub, box_swap
  | |- keeps box_sub (ValidateStagedBlock _ _ _) => apply box_eq_sub, box_validate_staged
  | _ => keep_step
  end.
Ltac node_keep := repeat node_step.

Section quorum.
Context `{C : Crypto} (V : VoteEnv).
Notation e := (ve_env V).

Lemma box_vote_weight rep : keeps box_sub (GetVoteWeight e rep).
Proof. intros L r L1 H. unfold GetVoteWeight in H. destruct (eligibleAllowlist _ _). by injection H as _ <-. Qed.
Lemma box_total_weight : keeps box_sub (GetTotalDelegatedWeight e).
Proof. intros L r L1 H. unfold GetTotalDelegatedWeight in H. destruct (eligibleAllowlist _ _). by injection H as _ <-. Qed.
#[local] Hint Resolve box_vote_weight box_total_weight : keeps.

Lemma sub_swrite c f : (∀ s s', f s = Ok s' → finalVotes s' = finalVotes s ∧ votes s' ⊆ votes s) →
  keeps box_sub (swrite e c f).
Proof.
  intros Hf L r L1 H. unfold swrite in H. destruct (fault e c); [by injection H as _ <-|].
  destruct (f (store L)) as [s|] eqn:E; injection H as _ <-; [|done]. by apply Hf in E.
Qed.

Lemma box_delete_votes a p : keeps box_sub (delete_votes V a p).
Proof. apply sub_swrite. intros s s' [= <-]. split; [done|]. apply map_filter_subseteq. Qed.
#[local] Hint Resolve box_delete_votes : keeps.
#[local] Hint Extern 1 (keeps box_sub (swrite _ _ _)) => apply sub_swrite; by intros ? ? [= <-] : keeps.

Lemma quiet_promotable a p h : keeps quiet (qm_promotable V a p h).
Proof.
  unfold qm_promotable, promotable_staged, staged_parent_balance, GetAssetBalanceAtBlock, GetStagedBlock. node_keep.
Qed.
#[local] Hint Resolve quiet_promotable : keeps.

Lemma quiet_tally a p vs wb cs : keeps quiet (tally_votes V a p vs wb cs).
Proof. revert wb cs. induction vs as [|v vs IH]; intros wb cs; simpl; node_keep; apply IH. Qed.

Lemma quiet_best a p b hs : keeps quiet (best_candidate V a p b hs).
Proof. revert b. induction hs as [|h hs IH]; intros b; simpl; node_keep. Qed.
#[local] Hint Resolve quiet_tally quiet_best : keeps.

Lemma quiet_find a p pf wb t cs hs : keeps quiet (find_winner V a p pf wb t cs hs).
Proof. induction hs as [|h hs IH]; simpl; unfold pickWinner; node_keep. Qed.
#[local] Hint Resolve quiet_find : keeps.

Lemma quiet_finalTally a p : keeps quiet (finalTally V a p).
Proof.
  unfold finalTally, GetVotesByConflict, LGetConflictN, LGetConflict, conflict_total, withhold_log, shouldLogWithhold.
  node_keep.
Qed.

Lemma quiet_cleanup r : keeps quiet (cleanupResolvedConflict V r).
Proof. unfold cleanupResolvedConflict, delete_staged, rejectBlocks, RemoveConflict. node_keep. Qed.
#[local] Hint Resolve quiet_finalTally quiet_cleanup : keeps.

Lemma quiet_swap_losers r b hs : keeps quiet (swap_losers V r b hs).
Proof. induction hs as [|h hs IH]; simpl; unfold LGetBlock; node_keep. Qed.
#[local] Hint Resolve quiet_swap_losers : keeps.

Lemma quiet_promote r b : keeps quiet (promote_winner V r b).
Proof. unfold promote_winner, staged_parent_balance, GetAssetBalanceAtBlock, appendStagedWinner. node_keep. Qed.
#[local] Hint Resolve quiet_promote : keeps.

Lemma quiet_confirm r : keeps quiet (confirmConflict V r).
Proof. unfold confirmConflict, GetStagedBlock, advance_final, observeFinalityAdvance, finalizeBlock. node_keep. Qed.
#[local] Hint Resolve quiet_confirm : keeps.

Lemma quiet_retally a p : keeps quiet (Retally V a p).
Proof. unfold Retally. node_keep. Qed.
#[local] Hint Resolve quiet_retally : keeps.

Lemma quiet_notify v : keeps quiet (notify_quorum V v).
Proof. unfold notify_quorum, OnVote. node_keep. Qed.
#[local] Hint Resolve quiet_notify : keeps.

Lemma quiet_drop_orphaned c : keeps quiet (dropConflictIfOrphaned V c).
Proof.
  assert (Hr : ∀ hs, keeps box_sub (any_rejected V hs)).
  { induction hs as [|h hs IH]; simpl; unfold GetBlockStatus; keep. }
  unfold dropConflictIfOrphaned, conflictOrphanedByRollback, RemoveConflict. node_keep; apply Hr.
Qed.

Lemma quiet_drop_resolved c : keeps quiet (dropConflictIfResolved V c).
Proof. unfold dropConflictIfResolved, FinalizedChildHash. node_keep. Qed.
#[local] Hint Resolve quiet_drop_orphaned quiet_drop_resolved : keeps.

Lemma quiet_prune : keeps quiet (pruneOrphanedConflicts V).
Proof. unfold pruneOrphanedConflicts, GetAllConflicts. node_keep. Qed.

Lemma quiet_evict c : keeps quiet (evictPhantomsAndResolve V c).
Proof.
  assert (Hs : ∀ hs, keeps box_sub (split_held V hs)).
  { induction hs as [|h hs IH]; simpl; keep. }
  unfold evictPhantomsAndResolve, splitPhantomsByVoteWeight, GetVotesByConflict, resolve_single, trim,
    save_conflict, RemoveConflict. node_keep; apply Hs.
Qed.
End quorum.

(** ** The step of a node that votes with a key *)
Section lock.
Context `{C : Crypto} (kp : KeyPair).

Definition lock_of (n : Node) (account prev : string) : option string :=
  finalVotes (store (n_ledger n)) !! (account, prev).

(** The stored final votes of the node are the locked ones, and none is buffered. *)
Record own_votes (n : Node) : Prop := {
  ov_pending : pendingVotes n = ∅;
  ov_locked : ∀ account prev v,
    votes (store (n_ledger n)) !! (account, prev, PubKeyHex kp) = Some v → v_Final v = true →
    lock_of n account prev = Some (v_BlockHash v) }.

(** A final vote of the node is for the locked block. *)
Definition locked_vote (n : Node) (v : Vote) : Prop :=
  v_RepPubKey v = PubKeyHex kp → v_Final v = true →
  lock_of n (v_ConflictAccount v) (v_ConflictPrev v) = Some (v_BlockHash v).

(** Votes signed for another reason *)
Context (P : Vote → Prop).

Record honest (n n' : Node) : Prop := {
  ho_locks : finalVotes (store (n_ledger n)) ⊆ finalVotes (store (n_ledger n'));
  ho_own : own_votes n';
  ho_sent : ∃ evs, outbox n' = outbox n ++ evs ∧ ∀ v, EvVote v ∈ evs → locked_vote n' v ∨ P v }.

(** Steps that are honest from a state with a property, which stays *)
Definition under (Q : Node → Prop) (n n' : Node) : Prop := own_votes n → Q n → honest n n' ∧ Q n'.
Notation always := (λ _, True).

Lemma locked_mono n n' v : finalVotes (store (n_ledger n)) ⊆ finalVotes (store (n_ledger n')) →
  locked_vote n v → locked_vote n' v.
Proof. intros Hs Hv H1 H2. unfold lock_of. eapply lookup_weaken; [by apply Hv|done]. Qed.

Lemma honest_refl n : own_votes n → honest n n.
Proof. intros H. split; [done..|]. exists []. split; [by rewrite app_nil_r|set_solver]. Qed.

Lemma honest_trans n1 n2 n3 : honest n1 n2 → honest n2 n3 → honest n1 n3.
Proof.
  intros [L12 _ (e1 & O1 & E1)] [L23 H3 (e2 & O2 & E2)]. split; [by etrans|done|].
  exists (e1 ++ e2). split; [by rewrite O2, O1, app_assoc|]. intros v [Hv|Hv]%elem_of_app; [|by apply E2].
  destruct (E1 v Hv); [left|by right]. by eapply locked_mono.
Qed.

#[export] Instance under_preorder Q : PreOrder (under Q).
Proof.
  split; [intros n Hn HQ; split; [by apply honest_refl|done]|]. intros n1 n2 n3 H12 H23 Hn HQ.
  destruct (H12 Hn HQ) as [H1 H2]. destruct (H23 (ho_own _ _ H1) H2) as [H3 H4].
  split; [by eapply honest_trans|done].
Qed.

(** Properties that only depend on the locks *)
Definition lock_mono (Q : Node → Prop) : Prop := ∀ n n',
  finalVotes (store (n_ledger n)) ⊆ finalVotes (store (n_ledger n')) → Q n → Q n'.

Lemma under_always Q n n' : lock_mono Q → under always n n' → under Q n n'.
Proof. intros HQ H Hn HQn. destruct (H Hn I) as [H1 _]. split; [done|]. eapply HQ, HQn. apply H1. Qed.

Lemma under_of {A} Q (m : NM A) : lock_mono Q → keeps (under always) m → keeps (under Q) m.
Proof. intros HQ. apply keeps_weaken. intros n n'. by apply under_always. Qed.

Lemma always_of {A} Q (m : NM A) : (∀ n, Q n) → keeps (under Q) m → keeps (under always) m.
Proof. intros HQ. apply keeps_weaken. intros n n' H Hn _. by split; [apply H|]. Qed.

Lemma quiet_honest n n' : quiet n n' → under always n n'.
Proof.
  intros ([Hf Hv] & Hp & evs & Ho & Hev) Hn _. split; [|done]. split.
  - by rewrite Hf.
  - split; [rewrite Hp; apply Hn|]. intros a p v Hl Hfin. unfold lock_of. rewrite Hf.
    eapply Hn; [|done]. by eapply lookup_weaken.
  - exists evs. split; [done|]. intros v Hin. by destruct (Hev v).
Qed.

Lemma quiet_under Q n n' : lock_mono Q → quiet n n' → under Q n n'.
Proof. intros HQ H. by apply under_always, quiet_honest. Qed.

Lemma honest_quiet {A} Q (m : NM A) : lock_mono Q → keeps quiet m → keeps (under Q) m.
Proof. intros HQ. apply keeps_weaken. intros n n'. by apply quiet_under. Qed.

(** A vote for the locked block, or one that is not final *)
Notation for_lock v := (λ n, locked_vote n v).

Lemma for_lock_mono v : lock_mono (for_lock v).
Proof. intros n n'. apply locked_mono. Qed.

Lemma lock_of_mono a p h : lock_mono (λ n, lock_of n a p = Some h).
Proof. intros n n' Hs H. unfold lock_of. by eapply lookup_weaken. Qed.

Lemma always_mono : lock_mono always.
Proof. done. Qed.

Section voting.
Context (V : VoteEnv).
Notation e := (ve_env V).

Lemma put_honest v : keeps (under (for_lock v)) (on_ledger (put_vote V v)).
Proof.
  intros n r n' H Hown Hv. unfold on_ledger, put_vote, swrite in H.
  destruct (fault e _); injection H as _ <-; [rewrite with_ledger_id; split; [by apply honest_refl|done]|].
  split; [|done]. split; [done| |].
  - split; [apply Hown|]. intros a p w. unfold lock_of. simpl. intros [[[= <- <- Hk] <-]|[_ Hw]]%lookup_insert_Some; [|by apply Hown].
    by apply Hv.
  - exists []. split; [by rewrite app_nil_r|set_solver].
Qed.

Lemma emit_honest v : keeps (under (for_lock v)) (emit_vote V v).
Proof.
  intros n r n' H Hown Hv. unfold emit_vote in H. destruct (ve_emitter V); injection H as _ <-.
  2:{ split; [by apply honest_refl|done]. }
  split; [|done]. split; [done|destruct Hown; by split|]. exists [EvVote v]. split; [done|].
  intros v' [= ->]%list_elem_of_singleton. by left.
Qed.

(** The lock is taken once. *)
Lemma take_lock a p h n r n' : own_votes n → on_ledger (PutFinalVoteIfAbsent V a p h) n = (r, n') →
  honest n n' ∧ ∀ locked, r = Ok locked → lock_of n' a p = Some locked.
Proof.
  intros Hown H. unfold on_ledger, PutFinalVoteIfAbsent, mbind_, sread in H.
  destruct (fault e _); [injection H as <- <-; rewrite with_ledger_id; by split; [apply honest_refl|]|].
  unfold id in H. destruct (finalVotes _ !! _) as [x|] eqn:E.
  { injection H as <- <-. rewrite with_ledger_id. split; [by apply honest_refl|]. by intros locked [= <-]. }
  injection H as <- <-. unfold lock_of. split; [split|].
  - simpl. by apply insert_subseteq.
  - split; [apply Hown|]. intros a' p' v Hv Hf. apply (ov_locked _ Hown) in Hv; [|done]. unfold lock_of in *. simpl.
    apply lookup_insert_Some. right. split; [congruence|done].
  - exists []. split; [by rewrite app_nil_r|set_solver].
  - intros locked [= <-]. simpl. by rewrite lookup_insert_eq.
Qed.

(** What a built vote says *)
Definition says (a p h : string) (f : bool) (v : Vote) : Prop :=
  v_RepPubKey v = PubKeyHex kp ∧ v_ConflictAccount v = a ∧ v_ConflictPrev v = p ∧ v_BlockHash v = h ∧ v_Final v = f.

Lemma quiet_weight a p rep : keeps quiet (vote_weight V a p rep).
Proof.
  unfold vote_weight, LGetConflictN, LGetConflict. pose proof (box_vote_weight V). node_keep.
Qed.

Lemma honest_build {A} R `{!PreOrder R} a p h f (k : option Vote → NM A) :
  keeps R (vote_weight V a p (Address kp)) → (∀ v, says a p h f v → keeps R (k (Some v))) → keeps R (k None) →
  keeps R (mbind_ (buildVote V kp a p h f) k).
Proof.
  intros HR Hs Hn. unfold buildVote. intros n r n' H. unfold mbind_ at 1 2 in H.
  destruct (vote_weight V a p (Address kp) n) as [[w|] n1] eqn:Ew; apply HR in Ew;
    [|by injection H as _ <-].
  etrans; [done|]. cbv [mret_] in H. destruct (voteSigningBytes _); [|by eapply Hn]. by eapply Hs, H.
Qed.

#[local] Hint Resolve for_lock_mono lock_of_mono always_mono : keeps.
#[local] Hint Resolve quiet_retally quiet_notify quiet_weight box_vote_weight box_total_weight : keeps.

(** A vote of the node for its lock, or one that is not final, may be stored and sent. *)
Lemma cast_honest {A} Q v (m : NM A) : (∀ n, Q n → locked_vote n v) → lock_mono Q →
  keeps (under (for_lock v)) m → keeps (under Q) m.
Proof.
  intros HQ Hm Hk n r n' H Hown HQn. destruct (Hk n r n' H Hown (HQ n HQn)) as [H1 _]. split; [done|].
  eapply Hm, HQn. apply H1.
Qed.

Lemma says_locked a p h v n : says a p h true v → lock_of n a p = Some h → locked_vote n v.
Proof. by intros (_ & <- & <- & <- & _) H _ _. Qed.
Lemma says_open a p h v n : says a p h false v → locked_vote n v.
Proof. intros (_ & _ & _ & _ & H) _ H'. congruence. Qed.
#[local] Hint Resolve says_locked says_open : keeps.

Ltac read_only := apply honest_quiet; [solve [auto with keeps]|].
Ltac cast_own := eapply cast_honest; [|solve [auto with keeps]|].
Ltac vote_step :=
  match goal with
  | |- keeps (under _) (mor _ _) => apply (keeps_or _)
  | |- keeps (under _) (mbind_ (buildVote _ _ _ _ _ _) _) =>
      apply honest_build; [apply _|read_only; apply quiet_weight|intros|]
  | |- keeps (under _) (on_ledger (put_vote _ ?v)) =>
      eapply (cast_honest _ v); [eauto with keeps|solve [auto with keeps]|apply put_honest]
  | |- keeps (under _) (emit_vote _ ?v) =>
      eapply (cast_honest _ v); [eauto with keeps|solve [auto with keeps]|apply emit_honest]
  | |- keeps (under _) (on_ledger _) => read_only; solve [node_keep]
  | |- keeps (under _) (mmodify _) => read_only; solve [node_keep]
  | |- keeps (under _) (notify_quorum _ _) => read_only; apply quiet_notify
  | _ => keep_step
  end.
Ltac vote_keep := repeat vote_step.

Lemma box_deps b : keeps box_sub (depsFinalized V b).
Proof.
  assert (Hall : ∀ ds, keeps box_sub (all_finalized V ds)).
  { induction ds as [|d ds IH]; simpl; pose proof (keeps_IsFinalized e box_sub); keep. }
  unfold depsFinalized, blockDependencies, accountOfBlock, LGetBlock. keep.
Qed.
#[local] Hint Resolve box_deps : keeps.

Lemma emitFinalLocked_honest a p h : keeps (under always) (emitFinalLocked V kp a p h).
Proof.
  intros n r n' H Hown _. unfold emitFinalLocked, mtry at 1 in H.
  destruct (on_ledger _ n) as [x n1] eqn:E. apply take_lock in E as [H1 Hl]; [|done].
  enough (honest n1 n') by (split; [by eapply honest_trans|done]).
  destruct x as [locked|err]; [|injection H as _ <-; apply honest_refl, H1].
  specialize (Hl locked eq_refl). revert H. match goal with |- ?m n1 = _ → _ => enough
    (HK : keeps (under (λ n, lock_of n a p = Some locked)) m) by (intros H; by apply (HK _ _ _ H (ho_own _ _ H1) Hl)) end.
  unfold GetVote. vote_keep.
Qed.

Lemma reemit_honest a p x : keeps (under (λ n, lock_of n a p = Some (v_BlockHash x))) (reemit_final V kp a p x).
Proof. unfold reemit_final, backoff_over, stamp_revote. vote_keep. Qed.

(** A vote the node reads back *)
Lemma own_read {A} a p (k : option Vote → NM A) :
  (∀ x, match x with
        | Some v => v_Final v = true → keeps (under (λ n, lock_of n a p = Some (v_BlockHash v))) (k x)
        | None => True end) →
  (∀ x, match x with Some v => v_Final v = false | None => True end → keeps (under always) (k x)) →
  keeps (under always) (mbind_ (mor None (on_ledger (GetVote V a p (PubKeyHex kp)))) k).
Proof.
  intros Hf Ho n r n' H Hown _. unfold mbind_, mor, mtry, on_ledger, GetVote, sread, mret_ in H.
  destruct (fault e _); rewrite with_ledger_id in H; [by eapply (Ho None)|].
  destruct (votes _ !! _) as [v|] eqn:Ev; [|by eapply (Ho None)].
  destruct (v_Final v) eqn:Ef; [|by eapply (Ho (Some v))].
  destruct (Hf (Some v) Ef _ _ _ H Hown) as [H1 _]; [by apply Hown|done].
Qed.

Lemma quiet_note key cs : keeps quiet (note_held V key cs).
Proof. induction cs as [|h cs IH]; simpl; node_keep. Qed.
#[local] Hint Resolve quiet_note : keeps.

Lemma quiet_gather a p seed : keeps quiet (gatherCandidates V a p seed).
Proof. unfold gatherCandidates, GetVotesByConflict, LGetConflictN, LGetConflict. node_keep. Qed.
Lemma quiet_converge a p : keeps quiet (convergeWeights V a p).
Proof.
  unfold convergeWeights, GetVotesByConflict, electionTotalWeight, LGetConflictN, LGetConflict, conflict_total. node_keep.
Qed.
#[local] Hint Resolve quiet_gather quiet_converge : keeps.

Lemma maybeLock_honest a p h : keeps (under always) (maybeLockLocked V kp a p h).
Proof.
  pose proof (emitFinalLocked_honest a p). unfold maybeLockLocked. apply (keeps_bind _).
  - read_only. apply quiet_converge.
  - unfold stabilityWindowRemaining, scheduleStabilityRedrive. vote_keep.
Qed.

Lemma preference_honest a p h : keeps (under always) (vote_preference V kp a p h).
Proof. unfold vote_preference, GetVote, backoff_over, stamp_revote. vote_keep. Qed.

Lemma box_eligible c cs : keeps box_sub (eligible_candidates V c cs).
Proof. induction cs as [|h cs IH]; simpl; keep. Qed.
#[local] Hint Resolve maybeLock_honest preference_honest box_eligible : keeps.

Lemma choose_honest a p seed : keeps (under always) (choose_and_vote V kp a p seed).
Proof.
  unfold choose_and_vote, noteHeldCandidatesLocked, LGetConflictN, LGetConflict.
  apply (keeps_bind _); [read_only; apply quiet_gather|]. vote_keep.
  read_only. apply quiet_note.
Qed.
#[local] Hint Resolve choose_honest emitFinalLocked_honest : keeps.

Lemma box_resolved a p : keeps box_sub (positionResolved V a p).
Proof. unfold positionResolved. keep. Qed.
#[local] Hint Resolve box_resolved : keeps.

Context (Hkey : ve_keyPair V = Some kp).

Lemma castVoteLocked_honest a p seed : keeps (under always) (castVoteLocked V a p seed).
Proof.
  unfold castVoteLocked. rewrite Hkey.
  apply (keeps_bind _); [vote_keep|intros w]. case_match; [vote_keep|].
  apply (keeps_bind _); [vote_keep|intros resolved]. case_match; [vote_keep|]. apply own_read.
  - intros [v|]; [|done]. intros Hf. destruct v as [???????]; simpl in Hf; subst. apply reemit_honest.
  - intros x Hx. repeat case_match; simplify_eq/=; unfold GetFinalVote; vote_keep.
Qed.
#[local] Hint Resolve castVoteLocked_honest : keeps.

(** *** Votes from the network *)

Lemma receiveInner_honest v : keeps (under (for_lock v)) (receiveVoteInner V v).
Proof.
  unfold receiveVoteInner, GetVote.
  assert (Hw : ∀ a p rep, keeps (under (for_lock v)) (vote_weight V a p rep))
    by (intros; read_only; apply quiet_weight).
  vote_keep; try apply Hw.
  all: apply (put_honest (with_weight _ v)).
Qed.

(** A vote that fails the checks fails them again: none is buffered. *)
Lemma never_buffered v L err L1 : ValidateVote V v L = (Err err, L1) →
  fst (isConflictNotFound V v L1) = Ok false.
Proof.
  intros H. unfold ValidateVote, isConflictNotFound, mbind_, mwrap, mlift, mfail_if, rfail_if, GetVoteWeight in *.
  destruct (verified_signature v) as [[]|]; simpl in *; [|done..].
  destruct (eligibleAllowlist e (weights L)) as [set open] eqn:Ea.
  set (w := if repEligible _ _ then _ else _) in *. destruct (w <=? 0) eqn:Ew; simpl in *.
  { injection H as _ <-. simpl. rewrite Ea. fold w. by rewrite Ew. }
  destruct (v_Timestamp v <? 0) eqn:Et; simpl in *.
  { injection H as _ <-. simpl. rewrite Ea. fold w. by rewrite Ew. }
  destruct (voteWindowNanos <? _) eqn:Ed; simpl in *; [|discriminate].
  injection H as _ <-. simpl. rewrite Ea. fold w. by rewrite Ew.
Qed.

Lemma box_validate v : keeps box_sub (ValidateVote V v).
Proof. unfold ValidateVote. keep. Qed.
Lemma box_not_found v : keeps box_sub (isConflictNotFound V v).
Proof. unfold isConflictNotFound, LGetConflict. keep. Qed.
#[local] Hint Resolve box_validate box_not_found : keeps.

(** *** Repeating what is final *)

Definition same_store (L L' : Ledger) : Prop := store L' = store L.
#[export] Instance same_store_preorder : PreOrder same_store.
Proof. split; [done|]. intros L1 L2 L3. unfold same_store. congruence. Qed.
Notation stored s := (λ n, store (n_ledger n) = s).

Lemma same_store_sub {A} (m : LM A) : keeps same_store m → keeps box_sub m.
Proof. apply keeps_weaken. intros L L' H. unfold box_sub. by rewrite H. Qed.

Lemma stored_honest {A} s (m : LM A) : keeps same_store m → keeps (under (stored s)) (on_ledger m).
Proof.
  intros Hm n r n' H Hown Hs. split.
  - by eapply quiet_honest; [eapply quiet_ledger, H; by apply same_store_sub|..].
  - unfold on_ledger in H. destruct (m (n_ledger n)) as [x L] eqn:E. injection H as _ <-. simpl.
    apply Hm in E. by rewrite E.
Qed.

Lemma finalizedChildAt_store a p L L' : store L = store L' →
  fst (finalizedChildAt V a p L) = fst (finalizedChildAt V a p L').
Proof.
  intros Hs. unfold finalizedChildAt, GetChain, FinalHeight, mor, mtry, mbind_, GetAccountChain, sread, mret_.
  destruct (fault (ve_env V) (CGetAccountChain a)), (fault (ve_env V) (CGetFinalHeight a)); simpl; by rewrite ?Hs.
Qed.

Lemma store_vote_weight rep : keeps same_store (GetVoteWeight e rep).
Proof. intros L r L1 H. unfold GetVoteWeight in H. destruct (eligibleAllowlist _ _). by injection H as _ <-. Qed.
#[local] Hint Resolve store_vote_weight : keeps.

Lemma child_read a p : keeps eq (finalizedChildAt V a p).
Proof. unfold finalizedChildAt, GetChain. keep. Qed.

Lemma stored_weight s a p rep : keeps (under (stored s)) (vote_weight V a p rep).
Proof.
  unfold vote_weight, LGetConflictN, LGetConflict. repeat first [apply stored_honest; solve [keep] | keep_step].
Qed.

Lemma emit_other s v : P v → keeps (under (stored s)) (emit_vote V v).
Proof.
  intros HP n r n' H Hown Hs. unfold emit_vote in H. destruct (ve_emitter V); injection H as _ <-.
  2:{ split; [by apply honest_refl|done]. }
  split; [|done]. split; [done|destruct Hown; by split|]. exists [EvVote v]. split; [done|].
  intros v' [= ->]%list_elem_of_singleton. by right.
Qed.

Lemma stored_modify s (f : Node → Node) :
  (∀ n, n_ledger (f n) = n_ledger n ∧ pendingVotes (f n) = pendingVotes n ∧ outbox (f n) = outbox n) →
  keeps (under (stored s)) (mmodify f).
Proof.
  intros Hf n r n' H Hown Hs. split.
  - by eapply quiet_honest; [eapply (quiet_modify f)|..].
  - injection H as _ <-. by rewrite (proj1 (Hf n)).
Qed.

(** A block that is final may be voted for again. *)
Lemma reaffirm_honest a p n r n' :
  (∀ w v, fst (finalizedChildAt V a p (n_ledger n)) = Ok w → w ≠ ""%string → says a p w true v → P v) →
  reaffirmFromState V a p n = (r, n') → own_votes n → honest n n'.
Proof.
  intros HP H Hown. set (s := store (n_ledger n)).
  enough (HK : keeps (under (stored s)) (reaffirmFromState V a p)) by (by apply (HK _ _ _ H)).
  clear H. unfold reaffirmFromState. rewrite Hkey. case_match; [keep|].
  apply (keeps_bind _); [apply stored_honest, store_vote_weight|intros w]. case_match; [keep|].
  unfold backoff_over, stamp_revote. apply (keeps_bind _); [keep|intros due]. case_match; [keep|].
  apply (keeps_bind _); [by apply stored_modify|intros _].
  intros n1 x n2 Hr Hn1 Hs. unfold mbind_ at 1 in Hr. destruct (on_ledger _ n1) as [c n3] eqn:Ec.
  apply on_ledger_read in Ec as [-> Ec]; [|apply child_read]. destruct c as [c|];
    [|injection Hr as _ <-; split; [by apply honest_refl|done]].
  assert (HPc : ∀ v, c ≠ ""%string → says a p c true v → P v).
  { intros v. apply HP. rewrite (finalizedChildAt_store a p _ (n_ledger n1)) by done. by rewrite Ec. }
  revert Hn1 Hs. refine ((_ : keeps (under (stored s)) _) _ _ _ Hr). destruct (c =?s "") eqn:Hc; [keep|]. bool_hyps.
  apply honest_build; [apply _|apply stored_weight|intros v Hv; by apply emit_other, HPc|keep].
Qed.

Lemma store_validate v : keeps same_store (ValidateVote V v).
Proof. unfold ValidateVote. keep. Qed.
Lemma store_resolved a p : keeps same_store (positionResolved V a p).
Proof. unfold positionResolved. keep. Qed.
Lemma store_not_found v : keeps same_store (isConflictNotFound V v).
Proof. unfold isConflictNotFound, LGetConflict. keep. Qed.

(** A read from a state leads to one that is as good. *)
Lemma honest_read {A} (m : LM A) n r n' : keeps same_store m → own_votes n → on_ledger m n = (r, n') →
  honest n n' ∧ store (n_ledger n') = store (n_ledger n) ∧ m (n_ledger n) = (r, n_ledger n').
Proof.
  intros Hm Hown H. destruct (stored_honest _ m Hm _ _ _ H Hown eq_refl) as [H1 H2].
  split; [done|]. split; [done|]. unfold on_ledger in H. destruct (m (n_ledger n)). by injection H as <- <-.
Qed.

Lemma ReceiveVote_honest v n r n' :
  (∀ w x, fst (finalizedChildAt V (v_ConflictAccount v) (v_ConflictPrev v) (n_ledger n)) = Ok w →
     w ≠ ""%string → says (v_ConflictAccount v) (v_ConflictPrev v) w true x → P x) →
  locked_vote n v → ReceiveVote V v n = (r, n') → own_votes n → honest n n'.
Proof.
  intros HP Hv H Hown. unfold ReceiveVote, mtry at 1 in H.
  destruct (on_ledger (ValidateVote V v) n) as [x n1] eqn:Ev.
  apply honest_read in Ev as (H1 & Hs1 & Ev); [|apply store_validate|done].
  eapply honest_trans; [done|]. pose proof (ho_own _ _ H1) as Hown1.
  destruct x as [u|err]; unfold mbind_ at 1 in H.
  - destruct (on_ledger _ n1) as [x n2] eqn:Er. apply honest_read in Er as (H2 & Hs2 & Er); [|apply store_resolved|done].
    eapply honest_trans; [done|]. pose proof (ho_own _ _ H2) as Hown2.
    destruct x as [[]|err]; [| |by injection H as _ <-; apply honest_refl].
    + eapply reaffirm_honest; [|done..]. intros w x Hw. apply HP.
      by rewrite (finalizedChildAt_store _ _ _ (n_ledger n2)) by congruence.
    + assert (Hl : locked_vote n2 v) by (eapply locked_mono; [etrans; [apply H1|apply H2]|done]).
      refine (proj1 ((_ : keeps (under (for_lock v)) _) _ _ _ H Hown2 Hl)). apply (keeps_bind _); [apply receiveInner_honest|]. intros _. apply under_of; [apply for_lock_mono|].
      apply castVoteLocked_honest.
  - destruct (on_ledger _ n1) as [x n2] eqn:Er. apply honest_read in Er as (H2 & Hs2 & Er); [|apply store_not_found|done].
    eapply honest_trans; [done|]. pose proof (ho_own _ _ H2) as Hown2.
    apply never_buffered in Ev. rewrite Er in Ev. simpl in Ev. subst x. injection H as _ <-. by apply honest_refl.
Qed.

(** Nothing is buffered, so a flush hands nothing on. *)
Lemma flush_honest a p : keeps (under always) (flushPendingVotes V a p).
Proof.
  intros n r n' H Hown _. pose proof (ov_pending _ Hown) as Hp. unfold flushPendingVotes, mbind_, mgets, mmodify in H.
  rewrite Hp, lookup_empty in H. simpl in H. injection H as _ <-. split; [|done].
  destruct Hown as [_ Hl]. split; [done|split; [by apply delete_empty|done]|].
  exists []. split; [by rewrite app_nil_r|set_solver].
Qed.
#[local] Hint Resolve flush_honest : keeps.

Lemma OnConflict_honest c : keeps (under always) (OnConflict V c).
Proof. unfold OnConflict. vote_keep. Qed.
Lemma OnBlockAdded_honest b : keeps (under always) (OnBlockAdded V b).
Proof. unfold OnBlockAdded, CastVote. vote_keep. Qed.
Lemma redrive_honest key a p : keeps (under always) (fire_redrive V key a p).
Proof. unfold fire_redrive, CastVote. vote_keep. Qed.
Lemma Close_honest : keeps (under always) Close.
Proof. unfold Close. vote_keep. Qed.

Lemma pull_honest a p : keeps (under always) (pullVotesFor V a p).
Proof. unfold pullVotesFor, backoff_over, stamp_revote. vote_keep. Qed.
#[local] Hint Resolve pull_honest : keeps.

Lemma sweepFrontiers_honest : keeps (under always) (sweepFrontiersOnce V).
Proof.
  unfold sweepFrontiersOnce, hasVoteWeight, evictStalePullStamps. rewrite Hkey.
  unfold sweep_account, GetChain, pullChainVotes, CastVote. vote_keep.
Qed.

Lemma sweepConflicts_honest :
  keeps (under always) (sweepStaleConflicts V (Some (λ a p, castVoteLocked V a p []))).
Proof.
  unfold sweepStaleConflicts, GetAllConflicts, sweep_conflict.
  pose proof (quiet_drop_resolved V). pose proof (quiet_drop_orphaned V). pose proof (quiet_evict V).
  pose proof (quiet_finalTally V). pose proof (quiet_confirm V).
  repeat first [vote_step | read_only; solve [auto with keeps]].
Qed.
End voting.

Lemma honest_retally V a p : keeps (under always) (Retally V a p).
Proof. apply honest_quiet; [done|apply quiet_retally]. Qed.
Lemma honest_prune V : keeps (under always) (pruneOrphanedConflicts V).
Proof. apply honest_quiet; [done|apply quiet_prune]. Qed.
Lemma honest_add e b skip : keeps (under always) (on_ledger (addBlock e b skip)).
Proof. apply honest_quiet; [done|]. apply quiet_ledger, box_eq_sub, box_addBlock. Qed.
End lock.

Lemma honest_weaken `{C : Crypto} kp (P P' : Vote → Prop) n n' : (∀ v, P v → P' v) → honest kp P n n' → honest kp P' n n'.
Proof.
  intros HP [H1 H2 (evs & Ho & Hs)]. split; [done..|]. exists evs. split; [done|].
  intros v [Hv|Hv]%Hs; auto.
Qed.

(** ** The life of a node

    Every way a node comes to vote or to settle, one call at a time: its timers,
    the callbacks of its ledger, blocks and votes from the network, a restart. *)
Inductive input :=
| ICast (account prev : string)
| IReceive (v : Vote)
| IConflict (c : Conflict)
| IBlockAdded (b : Block)
| IRedrive (key account prev : string)
| IClose
| ISweepFrontiers
| ISweepConflicts
| IPrune
| IRetally (account prev : string)
| IAdd (b : Block) (skip : bool)
| IRestart.

Section node.
Context `{C : Crypto} (kp : KeyPair).

(** The ledger is read from the store again, the managers start empty. *)
Definition restarted (V : VoteEnv) : NM unit := λ n,
  let '(r, L) := NewLedger (ve_env V) (store (n_ledger n)) in
  (match r with Ok _ => Ok () | Err err => Err err end, mkNode L 0 0 ∅ ∅ ∅ ∅ ∅ ∅ ∅ false (outbox n)).

Definition serve (V : VoteEnv) (i : input) : NM unit :=
  match i with
  | ICast account prev => CastVote V account prev []
  | IReceive v => ReceiveVote V v
  | IConflict c => OnConflict V c
  | IBlockAdded b => OnBlockAdded V b
  | IRedrive key account prev => fire_redrive V key account prev
  | IClose => Close
  | ISweepFrontiers => sweepFrontiersOnce V
  | ISweepConflicts => sweepStaleConflicts V (Some (λ account prev, CastVote V account prev []))
  | IPrune => pruneOrphanedConflicts V
  | IRetally account prev => Retally V account prev
  | IAdd b skip => on_ledger (addBlock (ve_env V) b skip)
  | IRestart => restarted V
  end.

(** One call of a node with the key [kp], which nobody else signs with *)
Definition vote_step (n n' : Node) : Prop := ∃ V i r,
  ve_keyPair V = Some kp ∧ serve V i n = (r, n') ∧
  match i with IReceive v => locked_vote kp n v | _ => True end.

(** The final block of a position *)
Definition final_child (n : Node) (account prev : string) : string :=
  finalized_child ((prev =?s "") || (prev =?s "0")) prev (default 0 (finalHeight (store (n_ledger n)) !! account)) 0
    (default [] (chains (store (n_ledger n)) !! account)).

(** The block of a vote was final at its position at some time of a run. *)
Definition was_final (n0 n : Node) (v : Vote) : Prop := ∃ m,
  rtc vote_step n0 m ∧ rtc vote_step m n ∧ final_child m (v_ConflictAccount v) (v_ConflictPrev v) = v_BlockHash v.

Lemma finalized_child_zero open prev i c : 0 <= i → finalized_child open prev 0 i c = ""%string.
Proof.
  revert i. induction c as [|b c IH]; intros i Hi; [done|]. simpl. case_match; [|apply IH; lia].
  rewrite (proj2 (Z.leb_gt _ _)) by lia. done.
Qed.

Lemma child_is_final V n a p w : fst (finalizedChildAt V a p (n_ledger n)) = Ok w → w ≠ ""%string →
  final_child n a p = w.
Proof.
  unfold finalizedChildAt, GetChain, FinalHeight, mor, mtry, mbind_, GetAccountChain, sread, mret_, final_child.
  destruct (fault (ve_env V) (CGetAccountChain a)), (fault (ve_env V) (CGetFinalHeight a)); simpl; intros [= <-] Hw; try done.
  by rewrite finalized_child_zero in Hw by lia.
Qed.

Lemma step_honest n n' : vote_step n n' → own_votes kp n → honest kp (was_final n n') n n'.
Proof.
  intros (V & i & r & Hk & H & Hi) Hown. destruct i; simpl in H.
  2:{ eapply honest_weaken; [|eapply (ReceiveVote_honest kp (λ x, final_child n (v_ConflictAccount x) (v_ConflictPrev x) = v_BlockHash x)); try done].
      - intros x Hx. exists n. split_and!; [done| |done]. apply rtc_once. exists V, (IReceive v), r. done.
      - intros w x Hw Hne (_ & -> & -> & -> & _). by eapply child_is_final. }
  11:{ unfold restarted in H. pose proof (box_start (ve_env V) (store (n_ledger n))) as Hb.
       destruct (NewLedger _ _) as [x L]. injection H as _ <-. injection Hb as Hv Hf. split; unfold lock_of; simpl.
       - by rewrite Hf.
       - split; [done|]. unfold lock_of. simpl. rewrite Hv, Hf. apply Hown.
       - exists []. split; [by rewrite app_nil_r|set_solver]. }
  all: refine (proj1 ((_ : keeps (under kp _ (λ _, True)) _) _ _ _ H Hown I)).
  - by apply castVoteLocked_honest.
  - by apply OnConflict_honest.
  - by apply OnBlockAdded_honest.
  - by apply redrive_honest.
  - apply Close_honest.
  - by apply sweepFrontiers_honest.
  - by apply sweepConflicts_honest.
  - apply honest_prune.
  - apply honest_retally.
  - apply honest_add.
Qed.

Lemma run_honest n0 n : own_votes kp n0 → rtc vote_step n0 n → honest kp (was_final n0 n) n0 n.
Proof.
  intros Hown H. revert Hown. induction H as [n|n n1 n2 H1 H2 IH]; intros Hown; [by apply honest_refl|].
  apply step_honest in H1 as Hs; [|done]. eapply honest_trans.
  - eapply honest_weaken, Hs. intros v (m & Ha & Hb & Hv). exists m. split_and!; [done|by etrans|done].
  - eapply honest_weaken, IH, Hs. intros v (m & Ha & Hb & Hv). exists m.
    split_and!; [by eapply rtc_l|done..].
Qed.
End node.
