(* ===== verification/LedgerSwap.v ===== *)
(** * Promoting a block keeps the ledger

    The undos of a plan take the last blocks off their chains one by one; each
    leaves a well-formed ledger that remembers its history.  The overlay a
    promotion builds is that ledger, and the one write of the winner is the write
    a handler would make on it. *)
From S2P Require Import Prelude GoLib Types Encoding LeaseMath Crypto Multisig Attestation Genesis Reputation Store Ledger Rollback Handlers Restart AddBlock Swap Quorum LedgerSpec LedgerCommit LedgerRules LedgerCalls LedgerUndo LedgerHistory LedgerPlan LedgerRefine LedgerTrace.

(** ** Rolling a ledger back *)

Inductive rolls (L : Ledger) : list cascadeStep → Ledger → Prop :=
| rolls_nil : rolls L [] L
| rolls_snoc steps R b c0 : rolls L steps R →
    chains (store R) !! b_Account b = Some (c0 ++ [b]) →
    rolls L (steps ++ [mkStep (b_Account b) b]) (rolled R b c0).

(** What a roll back leaves alone *)
Definition same_records (L R : Ledger) : Prop :=
  blocks (store R) = blocks (store L) ∧ finalHeight (store R) = finalHeight (store L) ∧
  leases (store R) = leases (store L) ∧ conflicts (store R) = conflicts (store L) ∧
  activeCascade R = activeCascade L ∧ delegationUnderflow R = delegationUnderflow L.

Lemma rolled_records L b c0 : same_records L (rolled L b c0).
Proof.
  destruct (undone_rest L b c0 (restored_send (blocks (store L)) b) (withdrawn_send b) None None)
    as (? & ? & ? & ? & ? & ?). by split_and!.
Qed.

Section rolls.
Context `{C : Crypto} (e : Env) (L : Ledger) (Hinv : ledger_inv L) (Hhis : history (store L)).

Notation chain_at R a := (default [] (chains (store R) !! a)).

Record rolled_back (steps : list cascadeStep) (R : Ledger) : Prop := {
  ro_inv : ledger_inv R;
  ro_history : history (store R);
  ro_records : same_records L R;
  ro_prefix : ∀ a, chain_at R a `prefix_of` chain_at L a;
  ro_supply : supply (store R) "XUSD" <= supply (store L) "XUSD";
  ro_gone : ∀ st, st ∈ steps → st_b st ∉ chain_at R (st_account st);
  ro_final : ∀ a, fault e (CGetFinalHeight a) = None →
    take (Z.to_nat (default 0 (finalHeight (store L) !! a))) (chain_at L a) `prefix_of` chain_at R a }.

Lemma rolled_back_nil : rolled_back [] L.
Proof. split; try done. - by intros ? ?%elem_of_nil. - intros a _. apply prefix_take. Qed.

Lemma chain_nonempty R a c : ledger_inv R → chains (store R) !! a = Some c → c ≠ [].
Proof. intros HR Hc. by eapply ch_nonempty, inv_chains. Qed.

(** A block of a rolled back chain is at the same place of the original. *)
Lemma prefix_block steps R a c b : rolled_back steps R → chains (store R) !! a = Some c → b ∈ c →
  ∃ c', chains (store L) !! a = Some c' ∧ b ∈ c' ∧ c `prefix_of` c'.
Proof.
  clear Hinv Hhis. intros HR Hc Hb. pose proof (ro_prefix _ _ HR a) as Hp. rewrite Hc in Hp. simpl in Hp.
  destruct (chains (store L) !! a) as [c'|].
  - exists c'. split_and!; [done| |done]. destruct Hp as [k Hk]. simpl in Hk. subst. set_solver.
  - destruct Hp as [k Hk]. destruct c; [by apply elem_of_nil in Hb|discriminate].
Qed.

Lemma nodup_lookup (c : AccountChain) i j b : NoDup (b_Hash <$> c) →
  c !! i = Some b → c !! j = Some b → i = j.
Proof.
  intros Hn Hi Hj. eapply (NoDup_lookup (b_Hash <$> c)); [done|..];
    by rewrite list_lookup_fmap, ?Hi, ?Hj.
Qed.

Lemma same_source c r r' : NoDup (sources c) → r ∈ c → r' ∈ c → b_Type r = BlockReceive →
  b_Type r' = BlockReceive → b_Source r = b_Source r' → r = r'.
Proof.
  intros Hn Hr Hr' Ht Ht' Es. unfold sources in Hn.
  assert (Hf : r ∈ filter (λ b, b_Type b = BlockReceive) c) by by apply list_elem_of_filter.
  assert (Hf' : r' ∈ filter (λ b, b_Type b = BlockReceive) c) by by apply list_elem_of_filter.
  apply list_elem_of_lookup in Hf as [i Hi], Hf' as [j Hj].
  assert (i = j) as ->; [|congruence]. eapply NoDup_lookup; [done|..]; rewrite list_lookup_fmap.
  - by rewrite Hi.
  - rewrite Hj, Es. done.
Qed.

(** A planned send is pending when its turn comes. *)
Lemma send_still_pending steps R a c0 b : rolled_back steps R → (∀ st, st ∈ steps → removable e L st) →
  chains (store R) !! a = Some (c0 ++ [b]) → b_Type b = BlockSend →
  receive_planned L (b_Hash b) steps → is_Some (pending (store R) !! b_Hash b).
Proof.
  intros HR Hrem Hc Ht Hp. destruct (pending (store R) !! b_Hash b) as [ps|] eqn:E; [by eexists|].
  exfalso. destruct (hi_spent _ (ro_history _ _ HR) _ _ b Hc ltac:(set_solver) Ht E) as (c' & Hc' & Hs).
  apply elem_of_sources in Hs as (r & Hr & Htr & Hsr).
  destruct (prefix_block _ _ _ _ _ HR Hc' Hr) as (c1 & Hc1 & Hr1 & _). destruct Hp as [[ps Hps]|(st & Hst & Hts & Hss)].
  - rewrite (hi_taken _ Hhis _ _ (b_Hash b) Hc1) in Hps; [done|]. apply elem_of_sources. eauto.
  - destruct (Hrem _ Hst) as (c2 & i & Hc2 & Hi & _). apply list_elem_of_lookup_2 in Hi.
    assert (b_Destination b = st_account st) as E1.
    { eapply (source_unique L Hinv Hhis); [exact Hc1|exact Hc2|..]; apply elem_of_sources; eauto. }
    rewrite E1, Hc2 in Hc1. injection Hc1 as <-.
    assert (r = st_b st) as ->. { eapply same_source; [by eapply (hi_once _ Hhis)|done..|congruence]. }
    apply (ro_gone _ _ HR _ Hst). rewrite <- E1, Hc'. done.
Qed.

Lemma rolled_chain_prefix R b c0 a : chains (store R) !! b_Account b = Some (c0 ++ [b]) →
  chain_at (rolled R b c0) a = if a =?s b_Account b then c0 else chain_at R a.
Proof.
  intros Hc. unfold rolled. case_bool_decide as E.
  - rewrite E, undone_own. by case_bool_decide.
  - by rewrite undone_other.
Qed.

Lemma rolled_back_snoc steps R b c0 : rolled_back steps R → (∀ st, st ∈ steps → removable e L st) →
  removable e L (mkStep (b_Account b) b) → chains (store R) !! b_Account b = Some (c0 ++ [b]) →
  (b_Type b = BlockSend → receive_planned L (b_Hash b) steps) →
  rolled_back (steps ++ [mkStep (b_Account b) b]) (rolled R b c0).
Proof.
  intros HR Hrem (c & i & Hc & Hi & Hh & Hu) HcR Hs. simpl in *.
  assert (Hpen : b_Type b = BlockSend → is_Some (pending (store R) !! b_Hash b))
    by (intros; by eapply send_still_pending; eauto).
  pose proof (ro_inv _ _ HR) as HRi. pose proof (ro_history _ _ HR) as HRh.
  assert (Hpre : c0 ++ [b] `prefix_of` c).
  { pose proof (ro_prefix _ _ HR (b_Account b)) as H. by rewrite Hc, HcR in H. }
  assert (Hnd : NoDup (b_Hash <$> c)) by by eapply ch_nodup, (inv_chains L Hinv).
  split.
  - by apply rolled_inv.
  - by apply rolled_history.
  - destruct (ro_records _ _ HR) as (? & ? & ? & ? & ? & ?), (rolled_records R b c0) as (? & ? & ? & ? & ? & ?).
    unfold same_records. split_and!; congruence.
  - intros a. rewrite rolled_chain_prefix by done. case_bool_decide as E; [|by apply (ro_prefix _ _ HR)].
    rewrite E, Hc. simpl. etrans; [|exact Hpre]. by apply prefix_app_r.
  - destruct (rolled_supply R b c0 HRi HRh HcR Hu Hpen "XUSD") as (lost & Hl & _ & ->).
    pose proof (ro_supply _ _ HR). destruct (undo_stored R b c0 HRi HcR b) as ([_ Hw] & _); [set_solver|].
    unfold is_u64 in Hw. simpl. destruct (b_Type b); simpl; lia.
  - intros st Hst. rewrite rolled_chain_prefix by done. apply elem_of_app in Hst as [Hst|Hst].
    + pose proof (ro_gone _ _ HR _ Hst) as Hg. case_bool_decide as E; [|done].
      rewrite E, HcR in Hg. simpl in Hg. set_solver.
    + apply list_elem_of_singleton in Hst as ->. simpl. rewrite bool_decide_true by done.
      pose proof (ch_nodup _ _ _ (inv_chains R HRi _ _ HcR)) as H. rewrite fmap_app, NoDup_app in H.
      destruct H as (_ & H & _). intros Hb. apply (H (b_Hash b)); [by apply list_elem_of_fmap_2|set_solver].
  - intros a Hf. rewrite rolled_chain_prefix by done. pose proof (ro_final _ _ HR a Hf) as Hp.
    case_bool_decide as E; [|done]. subst a. rewrite Hc, HcR in *. simpl in *. specialize (Hh Hf).
    assert (i = length c0) as ->.
    { eapply nodup_lookup; [done..|]. eapply prefix_lookup_Some; [|done].
      by rewrite lookup_app_r, Nat.sub_diag by lia. }
    destruct Hpre as [k ->]. rewrite <- app_assoc. rewrite take_app_le by lia. apply prefix_take.
Qed.
End rolls.

(** ** Building the overlay *)

Lemma xusd_leases e s s' c : leases s = leases s' → xusdBalanceOnChain e s c = xusdBalanceOnChain e s' c.
Proof. intros E. unfold xusdBalanceOnChain, lease_or_none. by rewrite E. Qed.

(** The undo of a transfer at the end of its chain in [R], built on [L] *)
Section build_undo.
Context (e : Env) (L R : Ledger) (b : Block) (c0 : AccountChain).
Context (Hreads : ∀ h, fault e (CGetBlock h) = None).
Context (HR : ledger_inv R) (Hsame : same_records L R).
Context (Hchain : chains (store R) !! b_Account b = Some (c0 ++ [b])).
Context (Hu : unwindable (b_Type b) = true).

Notation transfer_undo := (block_undo b c0 (restored_send (blocks (store R)) b) (withdrawn_send b) None).
Notation transfer_apply := (block_apply b c0 None).

Lemma transfer_parts p L1 : undo_parts e b L = (Ok p, L1) →
  p = mkUndoParts (withdrawn_send b) (restored_send (blocks (store R)) b) "" "" "" 0 None None ∧ L1 = L.
Proof.
  destruct Hsame as (-> & _). intros H. unfold undo_parts in H. unfold withdrawn_send, restored_send.
  destruct (b_Type b); try done; run; try done.
  match goal with H : LGetBlock _ _ _ = _ |- _ => apply mor_read_ok in H as [-> ->]; [|done] end.
  by destruct (blocks (store L) !! b_Source b).
Qed.

Lemma buildBlockUndo_transfer r L1 :
  buildBlockUndo e (b_Account b) b (Some (c0 ++ [b])) L = (Ok r, L1) →
  r = (transfer_undo, transfer_apply) ∧ L1 = L.
Proof.
  intros H. unfold buildBlockUndo in H. cbn [default from_option id] in H. run.
  match goal with H : undo_parts _ _ _ = _ |- _ => apply transfer_parts in H as [-> ->] end.
  cbn [up_deletePendingID up_addPending up_deleteLeaseHash up_deleteKeysetAccount up_reducePendingID
    up_reducePendingAmount up_restoreLease up_assetDebit] in *.
  rewrite removelast_last, (valid_norm _ (undo_asset R b c0 HR Hchain)).
  rewrite (xusd_leases e (store L) (store R)) by (symmetry; apply Hsame).
  rewrite (parent_balance_eq e R b c0 HR Hchain). done.
Qed.
End build_undo.

(** The overlay [cb], built on [L], stands for the ledger [R]. *)
Section built.
Context (e : Env) (L : Ledger).

Definition overlay_chain (cb : cascadeBuild) (a : string) : option AccountChain :=
  match cb_chains cb !! a with
  | Some ch => if bool_decide (ch = []) then None else Some ch
  | None => chains (store L) !! a
  end.
Definition overlay_pending (cb : cascadeBuild) (h : string) : option PendingSend :=
  match cb_addPending cb !! h with
  | Some ps => Some ps
  | None => if bool_decide (h ∈ cb_delPending cb) then None else pending (store L) !! h
  end.
Definition overlay_rep (cb : cascadeBuild) (a : string) : string :=
  match cb_delegation cb !! a with Some r => r | None => get_str (delegation L) a end.

(** The ledger the cascade's undos and closures lead to *)
Definition undos_store (cb : cascadeBuild) : StoreState := foldl (λ s u, CommitUndo u s) (store L) (cb_undos cb).
Definition undos_ledger (cb : cascadeBuild) : Ledger :=
  with_store (undos_store cb) (foldl (λ K m, run_apply e m K) L (cb_memApplies cb)).

Record built (w : string) (cb : cascadeBuild) (R : Ledger) : Prop := {
  bt_winner : cb_winnerHash cb = w;
  bt_chains : ∀ a, chains (store R) !! a = overlay_chain cb a;
  bt_pending : ∀ h, pending (store R) !! h = overlay_pending cb h;
  bt_rep : ∀ a, get_str (delegation R) a = overlay_rep cb a;
  bt_leases : cb_restoreLease cb = ∅ ∧ cb_deleteLease cb = ∅;
  bt_undos : ∀ u, u ∈ cb_undos cb → bu_RestoreLease u = None ∧ bu_DeleteLeaseHash u = "";
  bt_applies : ∀ m, m ∈ cb_memApplies cb → ma_repRevert m = None;
  bt_ledger : undos_ledger cb ≈ R }.

Lemma built_new w : built w (newCascadeBuild w) L.
Proof.
  split; try done.
  - by intros u ?%elem_of_nil.
  - by intros m ?%elem_of_nil.
Qed.

(** A closure without a reputation event works on the memory only. *)
Lemma run_apply_store m s K : ma_repRevert m = None →
  run_apply e m (with_store s K) = with_store s (run_apply e m K).
Proof.
  intros Hr. unfold run_apply. rewrite Hr. unfold subAssetBalance.
  destruct (ma_deleteKeysetAccount m =?s ""), (ma_deleteAccountKeyAccount m =?s ""),
    (ma_deleteAccount m), (ma_assetDebit m); simpl; try reflexivity; by case_match.
Qed.

Lemma with_store_twice s s' K : with_store s (with_store s' K) = with_store s K.
Proof. done. Qed.

Section step.
Context (w : string) (cb : cascadeBuild) (R : Ledger) (b : Block) (c0 : AccountChain).
Context (Hb : built w cb R) (HR : ledger_inv R).
Context (Hchain : chains (store R) !! b_Account b = Some (c0 ++ [b])).
Notation add := (restored_send (blocks (store R)) b).
Notation undo := (block_undo b c0 add (withdrawn_send b) None).
Notation apply_ := (block_apply b c0 None).
Notation cb' := (addUndo cb undo apply_).

Lemma addUndo_chains : cb_chains cb' = <[b_Account b := c0]> (cb_chains cb).
Proof. unfold addUndo. cbn [bu_AddPending bu_DeletePendingID bu_RestoreLease bu_DeleteLeaseHash block_undo].
  by destruct add, (withdrawn_send b =?s ""). Qed.

Lemma addUndo_rest :
  cb_winnerHash cb' = cb_winnerHash cb ∧ cb_undos cb' = cb_undos cb ++ [undo] ∧
  cb_memApplies cb' = cb_memApplies cb ++ [apply_] ∧ cb_restoreLease cb' = cb_restoreLease cb ∧
  cb_deleteLease cb' = cb_deleteLease cb ∧
  cb_delegation cb' = <[b_Account b := chain_rep c0]> (cb_delegation cb).
Proof. unfold addUndo. cbn [bu_AddPending bu_DeletePendingID bu_RestoreLease bu_DeleteLeaseHash block_undo].
  by destruct add, (withdrawn_send b =?s ""). Qed.

(** At most one of the two changes of the pending sends is made. *)
Lemma restored_withdrawn ps : add = Some ps → withdrawn_send b = "".
Proof. unfold restored_send, withdrawn_send. by destruct (b_Type b). Qed.

Lemma addUndo_pending h : overlay_pending cb' h =
  add_pending add (when_id (withdrawn_send b) (delete (withdrawn_send b)) (pending (store R))) !! h.
Proof.
  unfold addUndo, when_id. cbn [bu_AddPending bu_DeletePendingID bu_RestoreLease bu_DeleteLeaseHash block_undo].
  destruct add as [ps|] eqn:Ea.
  - rewrite (restored_withdrawn ps Ea). simpl. unfold overlay_pending. simpl.
    destruct (decide (ps_SendHash ps = h)) as [->|Hne].
    + by rewrite !lookup_insert_eq.
    + rewrite !lookup_insert_ne, (bt_pending _ _ _ Hb) by done. unfold overlay_pending.
      destruct (cb_addPending cb !! h); [done|]. erewrite bool_decide_ext; [done|set_solver].
  - destruct (withdrawn_send b =?s "") eqn:Ew; simpl; unfold overlay_pending; simpl.
    + by rewrite (bt_pending _ _ _ Hb).
    + destruct (decide (withdrawn_send b = h)) as [->|Hne].
      * rewrite !lookup_delete_eq, bool_decide_true by set_solver. done.
      * rewrite !lookup_delete_ne, (bt_pending _ _ _ Hb) by done. unfold overlay_pending.
        destruct (cb_addPending cb !! h); [done|]. erewrite bool_decide_ext; [done|set_solver].
Qed.

Lemma undos_snoc : undos_ledger cb' ≈ rolled R b c0.
Proof.
  destruct addUndo_rest as (_ & Eu & Em & _). unfold undos_ledger, undos_store. rewrite Eu, Em, !foldl_app. simpl.
  fold (undos_store cb).
  rewrite <- run_apply_store, <- (with_store_twice _ (undos_store cb)) by done.
  change (foldl _ L (cb_memApplies cb)) with (foldl (λ K m, run_apply e m K) L (cb_memApplies cb)).
  change (with_store (undos_store cb) _) with (undos_ledger cb).
  change (undos_store cb) with (store (undos_ledger cb)).
  etrans; [apply run_apply_undone|]. apply undone_core. apply (bt_ledger _ _ _ Hb).
Qed.

Lemma built_step : built w cb' (rolled R b c0).
Proof.
  destruct addUndo_rest as (Ew & Eu & Em & Er & Ed & Edel). split.
  - rewrite Ew. apply Hb.
  - intros a. unfold overlay_chain. rewrite addUndo_chains. unfold rolled.
    destruct (decide (a = b_Account b)) as [->|Hne].
    + by rewrite lookup_insert_eq, undone_own.
    + rewrite lookup_insert_ne, undone_other by done. apply (bt_chains _ _ _ Hb).
  - intros h. unfold rolled. by rewrite addUndo_pending, undone_pending.
  - intros a. unfold overlay_rep. rewrite Edel. unfold rolled.
    destruct (undone_delegation R b c0 add (withdrawn_send b) None None HR Hchain) as [-> _].
    unfold get_str. destruct (decide (a = b_Account b)) as [->|Hne].
    + rewrite lookup_insert_eq. case_bool_decide as E; [by rewrite lookup_delete_eq, E|by rewrite lookup_insert_eq].
    + rewrite lookup_insert_ne by done. pose proof (bt_rep _ _ _ Hb a) as H. unfold overlay_rep, get_str in H.
      rewrite <- H. case_bool_decide; [by rewrite lookup_delete_ne|by rewrite lookup_insert_ne].
  - rewrite Er, Ed. apply Hb.
  - intros u. rewrite Eu. intros [Hu|Hu]%elem_of_app; [by apply Hb|]. by apply list_elem_of_singleton in Hu as ->.
  - intros m. rewrite Em. intros [Hu|Hu]%elem_of_app; [by apply Hb|]. by apply list_elem_of_singleton in Hu as ->.
  - apply undos_snoc.
Qed.
End step.
End built.

Section build.
Context `{C : Crypto} (e : Env) (L : Ledger) (Hinv : ledger_inv L) (Hhis : history (store L)).
Context (Hreads : ∀ h, fault e (CGetBlock h) = None).
Context (w : string).

Lemma frontier_last a b chain K r K1 : buildBlockUndo e a b (Some chain) K = (Ok r, K1) →
  ∃ c0 f, chain = c0 ++ [f] ∧ b_Hash f = b_Hash b.
Proof.
  intros H. unfold buildBlockUndo in H. run. bool_hyps.
  match goal with H : is_frontier _ _ = _ |- _ => revert H end.
  unfold is_frontier. simpl. destruct chain as [|f c0 _] using rev_ind; [done|].
  rewrite last_snoc. intros H. bool_hyps. eauto.
Qed.

(** The chain a step is built against is the one [R] has. *)
Lemma snapshot_ok cb R a err1 err2 snap L1 :
  built e L w cb R → snap ≠ [] →
  match cb_chains cb !! a with
  | Some snap => mret_ snap
  | None =>
      let! s := mwrap err1 (GetAccountChain e a) in
      match s with None => mfail err2 | Some s => mret_ s end
  end L = (Ok snap, L1) → chains (store R) !! a = Some snap ∧ L1 = L.
Proof.
  intros Hb Hne H. rewrite (bt_chains _ _ _ _ _ Hb). unfold overlay_chain.
  destruct (cb_chains cb !! a) as [ch|]; run.
  - by rewrite bool_decide_false.
  - unfold GetAccountChain in *; call_step. destruct (chains (store L) !! a); by run.
Qed.

Lemma build_step_ok steps cb R st cb' snaps' L' :
  built e L w cb R → rolled_back e L steps R → removable e L st →
  build_step e cb (cb_chains cb) st L = (Ok (cb', snaps'), L') →
  ∃ c0, L' = L ∧ st_account st = b_Account (st_b st) ∧
    chains (store R) !! b_Account (st_b st) = Some (c0 ++ [st_b st]) ∧
    snaps' = cb_chains cb' ∧ built e L w cb' (rolled R (st_b st) c0).
Proof.
  intros Hb HR (c & i & Hc & Hi & _ & Hu) H. apply list_elem_of_lookup_2 in Hi.
  destruct (on_chain_stored L Hinv _ _ _ Hc Hi) as [_ Ha].
  unfold build_step in H. run.
  match goal with H : buildBlockUndo _ _ _ _ _ = _ |- _ =>
    rename H into Hbu; pose proof Hbu as (c0 & f & -> & Ef)%frontier_last end.
  match goal with H : (match cb_chains cb !! _ with Some _ => _ | None => _ end) _ = _ |- _ =>
    apply (snapshot_ok _ R) in H as [HcR ->]; [|done|by destruct c0] end.
  assert (f = st_b st) as ->.
  { destruct (prefix_block e L _ _ _ _ f HR HcR ltac:(set_solver)) as (c' & Hc' & Hf' & _).
    by destruct (same_block L Hinv _ _ _ _ _ _ Hc Hi Hc' Hf' Ef). }
  rewrite <- Ha in *. pose proof (ro_inv _ _ _ _ HR) as HRi.
  apply (buildBlockUndo_transfer e L R _ _ Hreads HRi (ro_records _ _ _ _ HR) HcR Hu) in Hbu as [-> ->].
  run. injection H as <- <-. exists c0. split_and!; [done..| |].
  - by rewrite addUndo_chains.
  - apply built_step; [done|by eapply ro_inv|done].
Qed.

Lemma sends_prefix steps more : sends_ok L (steps ++ more) → sends_ok L steps.
Proof.
  intros Hs before st after -> Ht. apply (Hs before st (after ++ more)); [|done].
  by rewrite <- app_assoc.
Qed.

Lemma build_cascade_ok plan steps cb R cb' L' :
  built e L w cb R → rolled_back e L steps R → rolls L steps R →
  (∀ st, st ∈ steps ++ plan → removable e L st) → sends_ok L (steps ++ plan) →
  build_cascade e cb (cb_chains cb) plan L = (Ok cb', L') →
  L' = L ∧ ∃ R', built e L w cb' R' ∧ rolled_back e L (steps ++ plan) R' ∧ rolls L (steps ++ plan) R'.
Proof.
  revert steps cb R. induction plan as [|st plan IH]; intros steps cb R Hb HR Hro Hrem Hs H.
  { injection H as <- <-. rewrite app_nil_r. eauto. }
  cbn [build_cascade] in H. run. destruct x as [cb1 snaps1].
  match goal with H : build_step _ _ _ _ _ = _ |- _ =>
    eapply build_step_ok in H as (c0 & -> & Ea & Hc & -> & Hb1); [|done..|apply Hrem; set_solver] end.
  rewrite (cons_middle st steps plan), app_assoc in *.
  destruct st as [a b]. simpl in *. subst a. eapply IH; try done.
  - eapply rolled_back_snoc; try done.
    + intros st Hst. apply Hrem. set_solver.
    + apply Hrem. set_solver.
    + intros Ht. rewrite <- app_assoc in Hs. simpl in Hs. by apply (Hs steps (mkStep (b_Account b) b) plan).
  - by constructor.
Qed.
End build.

(** ** The write *)

(** Two ledgers with one accounting, as one ledger with two values for each
    other field *)
Ltac core_equal E :=
  match type of E with ?L ≈ ?R =>
    destruct L as [[] ], R as [[] ]; unfold core_eq, core in E; simpl in E;
    injection E as -> -> -> -> -> -> -> -> -> -> -> ->
  end.

#[export] Instance setAssetBalance_core a y v : Proper (core_eq ==> core_eq) (setAssetBalance a y v).
Proof. intros L R E. by core_equal E. Qed.

#[export] Instance addAssetBalance_core a y v : Proper (core_eq ==> core_eq) (addAssetBalance a y v).
Proof. intros L R E. by core_equal E. Qed.

#[export] Instance updateDelegation_core a v b : Proper (core_eq ==> core_eq) (updateDelegation a v b).
Proof.
  intros L R E. unfold updateDelegation. core_equal E. simpl.
  unfold getAssetBalance. simpl. destruct (_ =?s ""); [done|]. by destruct (_ <? 0).
Qed.

(** The write on equal accountings gives equal accountings. *)
#[export] Instance after_commit_core c v : Proper (core_eq ==> core_eq) (after_commit c v).
Proof.
  intros L R E. unfold after_commit. apply updateDelegation_core.
  assert (H : setAssetBalance (bc_Account c) (norm_asset (b_Asset (bc_Block c))) (b_Balance (bc_Block c))
      (with_blockCount (i64_add (blockCount L) 1) L) ≈
    setAssetBalance (bc_Account c) (norm_asset (b_Asset (bc_Block c))) (b_Balance (bc_Block c))
      (with_blockCount (i64_add (blockCount R) 1) R)) by (apply setAssetBalance_core, E).
  destruct (bc_PutAccountKey c =?s ""), (bc_AssetCredit c); [by apply addAssetBalance_core|done| |].
  - apply addAssetBalance_core. by rewrite !core_setAccountKey.
  - by rewrite !core_setAccountKey.
Qed.

#[export] Instance apply_commit_core c : Proper (core_eq ==> core_eq) (apply_commit c).
Proof.
  intros L R E. unfold apply_commit.
  assert (get_str (delegation L) = get_str (delegation R) ∧
          getAssetBalance L = getAssetBalance R) as [-> ->].
  { unfold getAssetBalance. by injection E as _ _ _ _ _ _ _ -> -> _ _ _. }
  apply after_commit_core. by core_equal E.
Qed.

Lemma commit_undo_core u s s' X X' :
  with_store s X ≈ with_store s' X' → with_store (CommitUndo u s) X ≈ with_store (CommitUndo u s') X'.
Proof.
  destruct s, s', X, X'. intros E. unfold core_eq, core in E. simpl in E.
  by injection E as -> -> -> -> -> -> -> -> -> -> -> ->.
Qed.

Lemma commit_undos_core us s s' X X' : with_store s X ≈ with_store s' X' →
  with_store (foldl (λ s u, CommitUndo u s) s us) X ≈ with_store (foldl (λ s u, CommitUndo u s) s' us) X'.
Proof. revert s s'. induction us as [|u us IH]; intros s s' E; [done|]. by apply IH, commit_undo_core. Qed.

Lemma applies_core e ms K K' : K ≈ K' →
  foldl (λ K m, run_apply e m K) K ms ≈ foldl (λ K m, run_apply e m K) K' ms.
Proof. revert K K'. induction ms as [|m ms IH]; intros K K' E; [done|]. by apply IH, run_apply_core. Qed.

Lemma applies_store e ms s K : (∀ m, m ∈ ms → ma_repRevert m = None) →
  foldl (λ K m, run_apply e m K) (with_store s K) ms =
  with_store s (foldl (λ K m, run_apply e m K) K ms).
Proof.
  revert K. induction ms as [|m ms IH]; intros K Hm; [done|]. simpl.
  rewrite run_apply_store by (apply Hm; set_solver). apply IH. set_solver.
Qed.

Lemma run_apply_cascade e m o K : ma_repRevert m = None →
  run_apply e m (with_cascade o K) = with_cascade o (run_apply e m K).
Proof.
  intros Hr. unfold run_apply. rewrite Hr. unfold subAssetBalance.
  destruct (ma_deleteKeysetAccount m =?s ""), (ma_deleteAccountKeyAccount m =?s ""),
    (ma_deleteAccount m), (ma_assetDebit m); simpl; try reflexivity; by case_match.
Qed.

Lemma applies_cascade e ms o K : (∀ m, m ∈ ms → ma_repRevert m = None) →
  foldl (λ K m, run_apply e m K) (with_cascade o K) ms =
  with_cascade o (foldl (λ K m, run_apply e m K) K ms).
Proof.
  revert K. induction ms as [|m ms IH]; intros K Hm; [done|]. simpl.
  rewrite run_apply_cascade by (apply Hm; set_solver). apply IH. set_solver.
Qed.

(** An overlay built on a ledger stands for the same on an equal one. *)
Lemma built_core e L K w cb R : K ≈ L → built e L w cb R → built e K w cb R.
Proof.
  intros E [H1 H2 H3 H4 H5 H6 H7 H8]. pose proof E as E0. injection E0 as E1 E2 E3 E4 E5 E6 E7 E8 E9 E10 E11 E12.
  split; try done.
  - intros a. rewrite H2. unfold overlay_chain. by rewrite E2.
  - intros h. rewrite H3. unfold overlay_pending. by rewrite E3.
  - intros a. rewrite H4. unfold overlay_rep. by rewrite E9.
  - etrans; [|exact H8]. unfold undos_ledger, undos_store. rewrite <- !applies_store by done.
    apply applies_core, commit_undos_core. by destruct K, L.
Qed.

(** ** What the winner's handler sees *)
Section seen.
Context (e : Env) (K : Ledger) (w : string) (cb : cascadeBuild) (R : Ledger) (nb : Block).
Notation K0 := (with_cascade None K).
Context (Hact : activeCascade K = Some cb) (Hb : built e K0 w cb R).
Context (HK : ledger_inv K0) (HR : ledger_inv R).
Context (Hrec : blocks (store R) = blocks (store K) ∧ leases (store R) = leases (store K) ∧
                conflicts (store R) = conflicts (store K)).
Context (Hw : b_Hash nb = w) (Hopen : b_Previous nb = "0" → opening (b_Type nb)).

Lemma overlay_balance y : IsValidAsset y = true →
  getAssetBalanceOverlay e K (b_Account nb) y = getAssetBalance R (b_Account nb) y.
Proof.
  intros Hv. unfold getAssetBalanceOverlay. rewrite Hact, (inv_balances R HR) by done.
  rewrite (bt_chains _ _ _ _ _ Hb). unfold overlay_chain.
  destruct (cb_chains cb !! b_Account nb) as [ch|] eqn:Hch.
  - rewrite (valid_norm _ Hv). assert (HcR : ch ≠ [] → chains (store R) !! b_Account nb = Some ch).
    { intros Hne. rewrite (bt_chains _ _ _ _ _ Hb). unfold overlay_chain. by rewrite Hch, bool_decide_false. }
    assert (Hx : xusdBalanceOnChain e (store K) (Some ch) = assetBalanceOnChain (Some ch) "XUSD").
    { apply on_chain_XUSD_stake.
      - intros b Hin. destruct (decide (ch = [])) as [->|Hne]; [by apply elem_of_nil in Hin|].
        eapply (on_chain_stored R HR) in Hin as [Hs _]; [|by apply HcR].
        by apply (inv_blocks R HR) in Hs as (_ & _ & _ & [? _] & _).
      - destruct Hrec as (_ & <- & _). intros h l Hl. by apply (inv_leases R HR) in Hl as (_ & ? & _). }
    case_bool_decide as E; [rewrite E, Hx|]; (case_bool_decide as E0; [by rewrite E0|done]).
  - apply (inv_balances K0 HK).
Qed.

Lemma cascade_lease_same h us l : h ≠ "" →
  (∀ u, u ∈ us → bu_RestoreLease u = None ∧ bu_DeleteLeaseHash u = "") → cascade_lease h us l = l.
Proof.
  intros Hh. unfold cascade_lease. revert l. induction us as [|u us IH]; intros l Hu; [done|]. simpl.
  destruct (Hu u ltac:(set_solver)) as [-> ->]. rewrite bool_decide_false by done. apply IH. set_solver.
Qed.

Lemma lease_checked pre c : 
  check_lease pre c (cascade_lease (bc_ExpectLeaseHash c) (cb_undos cb) (leases (store K) !! bc_ExpectLeaseHash c))
    = Ok () → check_lease pre c (leases (store R) !! bc_ExpectLeaseHash c) = Ok ().
Proof.
  destruct Hrec as (_ & -> & _). unfold check_lease. case_bool_decide; [done|].
  rewrite cascade_lease_same; [done|done|]. apply (bt_undos _ _ _ _ _ Hb).
Qed.

Lemma CommitCascade_ok us c s s' : CommitCascade us c s = Ok s' →
  (∃ pre, check_lease pre c (cascade_lease (bc_ExpectLeaseHash c) us (leases s !! bc_ExpectLeaseHash c)) = Ok ()) ∧
  s' = commit_effect c (foldl (λ s u, CommitUndo u s) s us).
Proof.
  intros H. unfold CommitCascade in H. run.
  match goal with H : check_lease _ _ _ = Ok ?u |- _ => destruct u; split; [eauto|] end.
  destruct (CommitBlock c _) as [s1|] eqn:E; [|discriminate]. injection H as <-.
  unfold CommitBlock in E. by run.
Qed.

Lemma commit_effect_core c s X : with_store s X ≈ R →
  with_store (commit_effect c s) X ≈ with_store (commit_effect c (store R)) R.
Proof. intros E. destruct s, X, R as [[] ]. unfold core_eq, core in E. simpl in E. by injection E as -> -> -> -> -> -> -> -> -> -> -> ->. Qed.

Lemma cascade_state c v :
  after_commit c v (deactivateCascade (foldl (λ L m, run_apply e m L)
    (with_store (commit_effect c (undos_store K cb)) K) (cb_memApplies cb))) ≈
  after_commit c v (with_store (commit_effect c (store R)) R).
Proof.
  apply after_commit_core. rewrite applies_store by apply (bt_applies _ _ _ _ _ Hb).
  unfold deactivateCascade. change (with_cascade None (with_store ?s ?X)) with (with_store s (with_cascade None X)).
  rewrite <- applies_cascade by apply (bt_applies _ _ _ _ _ Hb).
  apply commit_effect_core. apply (bt_ledger _ _ _ _ _ Hb).
Qed.

(** The one write of a promotion is the winner's write on the ledger the
    overlay stands for. *)
Lemma cascade_commit c K1 u : appends R nb c →
  commitBlockWrite e c (getAssetBalance R (b_Account nb) "XE") K = (Ok u, K1) →
  (∃ pre, check_lease pre c (leases (store R) !! bc_ExpectLeaseHash c) = Ok ()) ∧ K1 ≈ apply_commit c R.
Proof.
  intros Hap H. unfold commitBlockWrite, overlayDelegationRep, mbind_, mgets in H. rewrite Hact in H.
  cbn [bc_Block with_rep] in H. rewrite (ap_block _ _ _ Hap), (bt_winner _ _ _ _ _ Hb), bool_decide_true in H by done.
  change (match cb_delegation cb !! bc_Account c with
          | Some r => r | None => get_str (delegation K) (bc_Account c) end)
    with (overlay_rep K0 cb (bc_Account c)) in H.
  rewrite <- (bt_rep _ _ _ _ _ Hb) in H. unfold mwrap, swrite in H.
  destruct (fault e _); [discriminate|]. destruct (CommitCascade _ _ _) as [s|] eqn:Ec; [|discriminate].
  apply CommitCascade_ok in Ec as [[pre Hl] ->]. unfold mmodify in H. injection H as _ <-. split.
  - exists pre. by apply lease_checked.
  - unfold apply_commit. rewrite (ap_block _ _ _ Hap). cbn [bc_Account with_rep]. rewrite (ap_account _ _ _ Hap).
    apply cascade_state.
Qed.

Lemma sees_cascade : sees e nb K R.
Proof.
  destruct Hrec as (HB & HLs & HC). destruct (bt_leases _ _ _ _ _ Hb) as [HL1 HL2]. split; try done.
  - intros v L1 H. unfold getAccountChainOverlay in H. rewrite Hact in H. unfold seen_chain, chain_of.
    rewrite (bt_chains _ _ _ _ _ Hb). unfold overlay_chain.
    destruct (cb_chains cb !! b_Account nb) as [ch|].
    + injection H as <- <-. split; [done|]. right. exists ch. split; [done|].
      case_bool_decide as E; [right; by rewrite E|by left].
    + apply sread_ok in H as [-> ->]. split; [done|]. simpl.
      destruct (chains (store K) !! b_Account nb) as [ch|]; [right|by left]. eauto.
  - intros h v L1 H. unfold getPendingSendOverlay in H. rewrite Hact in H.
    rewrite (bt_pending _ _ _ _ _ Hb). unfold overlay_pending.
    destruct (cb_addPending cb !! h); [by injection H as <- <-|].
    case_bool_decide; [by injection H as <- <-|]. by apply sread_ok in H.
  - intros h v L1 H. unfold getLeaseOverlay in H. rewrite Hact, HL1, HL2, lookup_empty in H.
    rewrite bool_decide_false in H by set_solver. rewrite HLs. by apply sread_ok in H.
  - intros h err L1 H. unfold getLeaseOverlay in H. rewrite Hact, HL1, HL2, lookup_empty in H.
    rewrite bool_decide_false in H by set_solver. unfold GetLease, sread in H.
    destruct (fault e _); [|discriminate]. by injection H as _ <-.
  - apply overlay_balance.
  - apply cascade_commit.
Qed.
End seen.

(** ** A promotion *)
Section swap.
Context `{C : Crypto} (e : Env).

(** What a promotion of [nb] for the block [oldHash] does: it undoes the blocks
    of a plan, and makes the write of the winner's rule on what is left. *)
Definition promoted (L : Ledger) (account oldHash : string) (nb : Block) (L' : Ledger) : Prop :=
  ∃ steps old R c, let plan := steps ++ [mkStep account old] in
    b_Hash old = oldHash ∧ (∀ st, st ∈ plan → removable e L st) ∧ rolls L plan R ∧
    rolled_back e L plan R ∧ accepts e true R nb c ∧ L' ≈ apply_commit c R.

(** The promotions the theorems are about.  The winner is not stored yet, so it was
    never on a chain, not even one it was later replaced on; at the start of a chain
    it has an opening type; it is not a cancellation, which would commit the unwinding
    of an acceptance outside the cascade; and the replaced block is a send, a receive,
    a burn or a mint.  [SwapBlock] itself checks none of this: it undoes a replaced
    block of any type, and the undo of a lease operation is not exact. *)
Record promotable (L : Ledger) (oldHash : string) (nb : Block) : Prop := {
  pm_new : new_block L nb;
  pm_open : b_Previous nb = "0" → opening (b_Type nb);
  pm_cancel : b_Type nb ≠ BlockLeaseCancel;
  pm_old : ∀ x, blocks (store L) !! oldHash = Some x → unwindable (b_Type x) = true }.

Definition caches_only (L L' : Ledger) : Prop := L ≈ L' ∧ conflicts (store L) = conflicts (store L').

#[local] Instance caches_preorder : PreOrder caches_only.
Proof. split; [done|]. intros L1 L2 L3 [? ?] [? ?]. split; [by etrans|congruence]. Qed.

Lemma caches_credential b : keeps caches_only (verifyBlockCredential e b).
Proof. by apply (keeps_credential e caches_only). Qed.

(** The winner's handler behind the overlay *)
Lemma dispatch_promoted L w cb R plan nb L' u :
  ledger_inv L → built e L w cb R → rolled_back e L plan R → b_Hash nb = w →
  new_block L nb → (b_Previous nb = "0" → opening (b_Type nb)) → b_Type nb ≠ BlockLeaseCancel →
  dispatchValidateAndAdd e nb true (with_cascade (Some cb) L) = (Ok u, L') →
  ∃ c, accepts e true R nb c ∧ L' ≈ apply_commit c R.
Proof.
  intros HL Hb HR Hw Hnew Hop Hnc H. rewrite dispatch_handler in H. run.
  match goal with H : verifyBlockCredential _ _ _ = (_, ?K1) |- _ =>
    rename H into Hv, K1 into K; apply caches_credential in Hv as [HK HKc] end.
  destruct (ro_records _ _ _ _ HR) as (HB & _ & HLs & HC & _).
  pose proof HK as HKf. injection HKf as EB _ _ _ EL _ _ _ _ _ _ EA. simpl in *.
  assert (HK0 : with_cascade None K ≈ L).
  { pose proof (inv_cascade L HL) as Ha. unfold core_eq, core in HK |- *. simpl in *. rewrite Ha.
    injection HK as -> -> -> -> -> -> -> -> -> -> -> _. done. }
  eapply handlers_seen in H; [exact H| |by eapply ro_inv|by eapply new_block_blocks|done].
  eapply (sees_cascade e K w cb); try done.
  - by eapply built_core.
  - by rewrite HK0.
  - by eapply ro_inv.
  - split_and!; congruence.
Qed.

Lemma deactivated L : activeCascade L = None → deactivateCascade L = L.
Proof. destruct L. simpl. by intros ->. Qed.

(** From the plan on *)
Lemma promote_ok L account old oldHash nb steps cb L1 L2 L' u v :
  let plan := steps ++ [mkStep account old] in
  ledger_inv L → history (store L) → (∀ h, fault e (CGetBlock h) = None) → promotable L oldHash nb →
  (∀ st, st ∈ plan → removable e L st) → sends_ok L plan →
  build_cascade e (newCascadeBuild (b_Hash nb)) ∅ plan L = (Ok cb, L1) →
  activateCascade cb L1 = (Ok v, L2) → dispatchValidateAndAdd e nb true L2 = (Ok u, L') →
  b_Hash old = oldHash → promoted L account oldHash nb (deactivateCascade L').
Proof.
  intros plan HL Hh Hf [Hnew Hop Hnc _] Hrem Hs Hb Ha Hd Eo.
  apply (build_cascade_ok e L HL Hh Hf (b_Hash nb) plan [] (newCascadeBuild (b_Hash nb)) L) in Hb as (-> & R & Hb & HR & Hro); try done;
    [|apply built_new|by apply rolled_back_nil|constructor].
  unfold activateCascade in Ha. rewrite (inv_cascade L HL) in Ha. injection Ha as _ <-.
  eapply dispatch_promoted in Hd as (c & Hacc & HC); [|done..].
  assert (HA : activeCascade L' = None).
  { injection HC as _ _ _ _ _ _ _ _ _ _ _ ->. rewrite commit_cascade. by eapply inv_cascade, ro_inv. }
  rewrite deactivated by done. by exists steps, old, R, c.
Qed.

(** A promotion that succeeds *)
Lemma swapBlockLocked_ok L account oldHash nb L' u :
  ledger_inv L → history (store L) → (∀ h, fault e (CGetBlock h) = None) → promotable L oldHash nb →
  swapBlockLocked e account oldHash (b_Hash nb) nb L = (Ok u, L') → promoted L account oldHash nb L'.
Proof.
  intros HL Hh Hf Hpm H. unfold swapBlockLocked in H. run.
  match goal with H : GetAccountChain _ _ _ = _ |- _ => unfold GetAccountChain in H end. call_step.
  destruct (chains (store L) !! account) as [chain|] eqn:Hc; [|discriminate].
  destruct (position _ chain) as [idx|] eqn:Hi; [|discriminate].
  apply position_spec in Hi as (old & Hi & Eh). bool_hyps. rewrite Hi in H. run.
  match goal with H : FinalHeight _ _ _ = _ |- _ => apply mor_read_ok in H as [Hfh ->] end. bool_hyps.
  match goal with H : swap_plan _ _ _ _ _ _ _ = _ |- _ =>
    eapply swap_plan_ok in H as (-> & Hrem & Hsends & steps & ->); [|done..| |] end.
  - apply mtry_inv in H as (r1 & K & Hd & H). unfold mmodify, mbind_ in H.
    destruct r1 as [w|err]; [|discriminate]. injection H as _ <-. by eapply promote_ok.
  - intros Hr. rewrite <- Hfh by done. lia.
  - eapply (pm_old _ _ _ Hpm). eapply (on_chain_stored L HL); [exact Hc|]. by eapply list_elem_of_lookup_2.
Qed.

Lemma SwapBlock_ok L account oldHash nb L' u :
  ledger_inv L → history (store L) → (∀ h, fault e (CGetBlock h) = None) → promotable L oldHash nb →
  SwapBlock e account oldHash (b_Hash nb) nb L = (Ok u, L') → promoted L account oldHash nb L'.
Proof. intros HL Hh Hf Hpm H. unfold SwapBlock in H. run. call_step. by eapply swapBlockLocked_ok. Qed.

(** One that fails has changed nothing. *)
Lemma dispatch_err b skip : b_Type b ≠ BlockLeaseCancel → err_keeps core_eq (dispatchValidateAndAdd e b skip).
Proof.
  intros Hnc L err L1. rewrite dispatch_handler. revert L err L1.
  change (err_keeps core_eq (verifyBlockCredential e b ;! handler e skip b)).
  apply (err_keeps_bind _); [apply core_credential|intros _; by apply err_keeps_handler].
Qed.

Lemma keeps_build_cascade (R : Ledger → Ledger → Prop) `{!PreOrder R} cb snaps plan :
  keeps R (build_cascade e cb snaps plan).
Proof.
  revert cb snaps. induction plan as [|st plan IH]; intros cb snaps; cbn [build_cascade]; [keep|].
  unfold build_step. keep.
Qed.

Lemma keeps_swap_plan (R : Ledger → Ledger → Prop) `{!PreOrder R} fuel account chain idx old :
  keeps R (swap_plan e (planRollbackOfSend e fuel) account chain idx old).
Proof.
  unfold swap_plan, planCascade. keep; [|apply keeps_planRollbackOfSend; apply _].
  apply (keeps_plan_blocks _ _). intros. apply keeps_planRollbackOfSend; apply _.
Qed.

Ltac reads H := apply read_err in H as [->|(? & _ & H)]; [done| |by keep].

Lemma swap_err L account oldHash newHash nb err L' :
  activeCascade L = None → b_Type nb ≠ BlockLeaseCancel →
  swapBlockLocked e account oldHash newHash nb L = (Err err, L') → L ≈ L'.
Proof.
  intros Hn Hnc H. unfold swapBlockLocked in H.
  reads H. case_match; [|by injection H as _ <-]. case_match; [|by injection H as _ <-].
  do 2 reads H. case_match; [|by injection H as _ <-]. reads H.
  apply read_err in H as [->|(plan & _ & H)]; [done| |apply keeps_swap_plan; apply _].
  apply read_err in H as [->|(cb & _ & H)]; [done| |apply keeps_build_cascade; apply _].
  unfold mwrap, activateCascade, mbind_ in H. rewrite Hn in H. unfold mtry in H.
  destruct (dispatchValidateAndAdd _ _ _ _) as [r K] eqn:Hd. unfold mmodify in H.
  destruct r as [u|err']; [discriminate|]. injection H as _ <-. apply dispatch_err in Hd; [|done].
  unfold core_eq, core, deactivateCascade in *. simpl in *. rewrite Hn.
  by injection Hd as -> -> -> -> -> -> -> -> -> -> -> _.
Qed.

Lemma SwapBlock_err L account oldHash newHash nb err L' :
  activeCascade L = None → b_Type nb ≠ BlockLeaseCancel →
  SwapBlock e account oldHash newHash nb L = (Err err, L') → L ≈ L'.
Proof.
  intros Hn Hnc H. unfold SwapBlock in H. apply read_err in H as [->|(? & _ & H)]; [done| |by keep].
  by eapply swap_err.
Qed.
End swap.
