(* ===== verification/LedgerReorg.v ===== *)
(** * Reorganisations

    A node that also promotes the winners of conflicts: every ledger it reaches,
    by any sequence of calls, restarts, confirmations and promotions, is well
    formed and remembers its history. *)
From S2P Require Import Prelude GoLib Types Encoding LeaseMath Crypto Multisig Attestation Genesis Reputation Store Ledger Rollback Handlers Restart AddBlock Swap Quorum LedgerSpec LedgerCommit LedgerRules LedgerCalls LedgerUndo LedgerHistory LedgerPlan LedgerRestart LedgerRefine LedgerTrace LedgerSwap.

Section promoted.
Context `{C : Crypto} (e : Env) (L : Ledger) (account oldHash : string) (nb : Block) (L' : Ledger).
Context (Hinv : ledger_inv L) (Hnew : new_block L nb).
Context (Hp : promoted e L account oldHash nb L').

Notation chain_at K a := (default [] (chains (store K) !! a)).

(** Every chain but the winner's is what the roll back left. *)
Lemma promoted_chains : ∃ steps old R, b_Hash old = oldHash ∧
  let plan := steps ++ [mkStep account old] in
  removable e L (mkStep account old) ∧ rolled_back e L plan R ∧
  chains (store L') = <[b_Account nb := chain_at R (b_Account nb) ++ [nb]]> (chains (store R)) ∧
  finalHeight (store L') = finalHeight (store R).
Proof.
  destruct Hp as (steps & old & R & c & Eo & Hrem & _ & HR & Hacc & HC).
  exists steps, old, R. split; [done|]. split; [apply Hrem; set_solver|]. split; [done|].
  injection HC as _ -> _ _ _ -> _ _ _ _ _ _. split.
  - apply commit_chains. eapply accepts_appends; [|done]. by eapply ro_inv.
  - unfold apply_commit. by rewrite store_after_commit.
Qed.

Lemma promoted_gone x : x ∈ chain_at L' account → b_Hash x ≠ oldHash.
Proof.
  destruct promoted_chains as (steps & old & R & Eo & (c' & i & Hc' & Hi & _) & HR & -> & _).
  simpl in *. apply list_elem_of_lookup_2 in Hi. pose proof (on_chain_stored L Hinv _ _ _ Hc' Hi) as [Hs _].
  assert (HxR : x ∈ chain_at R account → b_Hash x ≠ oldHash).
  { intros Hx E. apply (ro_gone _ _ _ _ HR (mkStep account old)); [set_solver|]. simpl.
    destruct (chains (store R) !! account) as [cR|] eqn:HcR; [|by apply elem_of_nil in Hx]. simpl in *.
    destruct (prefix_block e L _ _ _ _ _ HR HcR Hx) as (cL & HcL & HxL & _).
    destruct (same_block L Hinv _ _ _ _ _ _ Hc' Hi HcL HxL) as [-> _]; [congruence|done]. }
  destruct (decide (b_Account nb = account)) as [->|Hne]; [|by rewrite lookup_insert_ne].
  rewrite lookup_insert_eq. simpl. intros [Hx|Hx]%elem_of_app; [by apply HxR|].
  apply list_elem_of_singleton in Hx as ->. intros E. rewrite <- Eo in E. rewrite <- E in Hs.
  by rewrite (nb_fresh _ _ Hnew) in Hs.
Qed.

Lemma promoted_winner : ∃ c, chains (store L') !! b_Account nb = Some (c ++ [nb]) ∧
  c `prefix_of` chain_at L (b_Account nb).
Proof.
  destruct promoted_chains as (steps & old & R & _ & _ & HR & -> & _). eexists.
  rewrite lookup_insert_eq. split; [done|apply HR].
Qed.

Lemma promoted_others a : a ≠ b_Account nb → chain_at L' a `prefix_of` chain_at L a.
Proof.
  destruct promoted_chains as (steps & old & R & _ & _ & HR & -> & _). intros Ha.
  rewrite lookup_insert_ne by done. apply HR.
Qed.

Lemma promoted_final a : fault e (CGetFinalHeight a) = None →
  finalHeight (store L') = finalHeight (store L) ∧
  take (Z.to_nat (default 0 (finalHeight (store L) !! a))) (chain_at L a) `prefix_of` chain_at L' a.
Proof.
  destruct promoted_chains as (steps & old & R & _ & _ & HR & -> & ->). intros Hf.
  destruct (ro_records _ _ _ _ HR) as (_ & HF & _). split; [done|].
  pose proof (ro_final _ _ _ _ HR a Hf) as H. destruct (decide (b_Account nb = a)) as [->|Hne].
  - rewrite lookup_insert_eq. simpl. by apply prefix_app_r.
  - by rewrite lookup_insert_ne.
Qed.
Context (Hcap : supply (store L) "XUSD" < two64).

(** The ledger after a promotion *)
Lemma promoted_inv : ledger_inv L' ∧ history (store L') ∧
  supply (store L') "XUSD" <= supply (store L) "XUSD" + xusd_issue nb.
Proof.
  destruct Hp as (steps & old & R & c & _ & _ & _ & HR & Hacc & HC).
  pose proof (ro_inv _ _ _ _ HR) as HRi. pose proof (ro_supply _ _ _ _ HR) as HS.
  assert (HnR : new_block R nb) by (eapply new_block_blocks; [apply (ro_records _ _ _ _ HR)|done]).
  split_and!.
  - rewrite HC. eapply accepts_inv; [done..|lia].
  - eapply core_history; [by symmetry|]. eapply accepts_history; try done. by eapply ro_history.
  - rewrite (core_supply _ _ _ HC). erewrite accepts_supply by (done || lia).
    pose proof (moved_xusd e true R nb c HRi Hacc). lia.
Qed.
End promoted.

(** ** The history along the actions *)
Section history.
Context `{C : Crypto} `{CL : !CryptoLaws C}.

Lemma empty_history : history emptyStore.
Proof. split; intros *; simpl; by rewrite lookup_empty. Qed.

Lemma final_history a h s : history s → history (SetFinalHeight a h s).
Proof. by apply history_same. Qed.

Lemma judged_history e b L L1 : ledger_inv L → history (store L) → judged e b L L1 → history (store L1).
Proof.
  intros HL Hh [E|(_ & p & acc & c0 & l & <- & Hc & Ht & <- & Hl & _ & _ & HU)].
  - eapply core_history; [by symmetry|done].
  - eapply core_history; [by symmetry|]. by apply unwound_history.
Qed.

Lemma outcome_history e skip L b r L' : ledger_inv L → history (store L) →
  outcome e skip L b r L' → history (store L').
Proof.
  intros HL Hh [[HJ _]|(_ & Hnew & L1 & c & HJ & Hacc & HC)]; [by eapply judged_history|].
  pose proof (judged_history _ _ _ _ HL Hh HJ) as Hh1.
  destruct (judged_neutral e b L L1 HJ HL) as (HL1 & HB & _).
  eapply core_history; [by symmetry|]. eapply accepts_history; try done. by eapply new_block_blocks.
Qed.

Lemma start_history e L : ledger_inv L → history (store L) → typed (Start e) →
  history (store (run_action L (Start e))).
Proof.
  intros HL Hh Hw. simpl in *. destruct (NewLedger e (store L)) as [[T|err] L'] eqn:H; [|done].
  pose proof (NewLedger_ok e L T L' HL ltac:(intros g Hg; by rewrite Hg in Hw) H) as H0.
  destruct H0 as [(L2 & Es & _ & _ & E)|(Hb & g & L1 & Hg & HL1 & -> & H0)].
  - eapply core_history; [by symmetry|]. by rewrite Es.
  - rewrite Hg in Hw. destruct (genesis_accepted e L Hb g Hg Hw) as [Hnew Hacc].
    assert (history (store (apply_commit (append (blankLedger (store L)) g) (blankLedger (store L)))))
      by (eapply accepts_history; [by apply blank_inv| |done..]; done).
    destruct H0 as [->| ->]; [done|]. by apply final_history.
Qed.

Lemma run_action_history L a n : ledger_inv L → history (store L) → typed a →
  supply (store L) "XUSD" <= n → n < two64 → history (store (run_action L a)).
Proof.
  intros HL Hh Ha Hn Hlt. destruct a as [e b skip|e|e ac w]; [|by apply start_history|].
  - simpl. destruct (addBlock e b skip L) as [r L'] eqn:H. simpl.
    eapply addBlock_outcome in H; [|done..|lia]. by eapply outcome_history.
  - simpl. destruct (advance_final e ac w L) as [r L'] eqn:H. simpl.
    apply advance_final_ok in H as [->|(h & c & _ & _ & -> & _)]; [done|]. by apply final_history.
Qed.
End history.

(** ** A node that reorganises *)

Inductive event :=
| Act (a : action)
| Promote (e : Env) (account oldHash : string) (nb : Block).

Definition event_minted (ev : event) : Z :=
  match ev with Act a => minted a | Promote _ _ _ nb => mint_amount nb end.
Definition events_minted (evs : list event) : Z := foldr (λ ev acc, event_minted ev + acc) 0 evs.

Section events.
Context `{C : Crypto}.

Definition run_event (L : Ledger) (ev : event) : Ledger :=
  match ev with
  | Act a => run_action L a
  | Promote e account oldHash nb => (SwapBlock e account oldHash (b_Hash nb) nb L).2
  end.
Definition run_events (evs : list event) (L : Ledger) : Ledger := foldl run_event L evs.

(** What a promotion is called with: a winner that fits, while blocks can be read.
    Planning takes a block that cannot be read for one that is not there, and would
    leave out the account that received it. *)
Definition admissible (L : Ledger) (ev : event) : Prop :=
  match ev with
  | Act a => typed a
  | Promote e _ oldHash nb => (∀ h, fault e (CGetBlock h) = None) ∧ promotable L oldHash nb
  end.
Fixpoint all_admissible (L : Ledger) (evs : list event) : Prop :=
  match evs with
  | [] => True
  | ev :: evs => admissible L ev ∧ all_admissible (run_event L ev) evs
  end.

Context `{CL : !CryptoLaws C}.

(** A state that promotions can start from *)
Record sound (n : Z) (L : Ledger) : Prop := {
  so_inv : ledger_inv L;
  so_history : history (store L);
  so_supply : supply (store L) "XUSD" <= n }.

Lemma mint_issue b : xusd_issue b = mint_amount b.
Proof. done. Qed.

Lemma promote_sound e account oldHash nb L n r L' :
  sound n L → n < two64 → (∀ h, fault e (CGetBlock h) = None) → promotable L oldHash nb →
  SwapBlock e account oldHash (b_Hash nb) nb L = (r, L') → sound (n + mint_amount nb) L'.
Proof.
  intros [HL Hh Hn] Hlt Hf Hp H. pose proof (mint_amount_nonneg nb (nb_words _ _ (pm_new _ _ _ Hp))).
  destruct r as [[]|err].
  - eapply SwapBlock_ok in H; [|done..].
    apply promoted_inv in H as (HL' & Hh' & HS); [|apply Hp|lia]. rewrite mint_issue in HS.
    split; [done..|lia].
  - apply SwapBlock_err in H; [|by apply inv_cascade|apply Hp].
    split; [by rewrite <- H|by eapply core_history|rewrite <- (core_supply _ _ _ H); lia].
Qed.

Lemma run_event_sound L ev n : sound n L → admissible L ev → n < two64 →
  sound (n + event_minted ev) (run_event L ev).
Proof.
  intros HS Ha Hlt. destruct ev as [a|e account oldHash nb]; simpl in *.
  - destruct HS as [HL Hh Hn]. destruct (run_action_inv L a n) as [? ?]; [done..|].
    split; [done| |done]. by eapply run_action_history.
  - destruct Ha as [Hf Hp]. destruct (SwapBlock e account oldHash (b_Hash nb) nb L) as [r L'] eqn:H.
    by eapply promote_sound.
Qed.

Lemma event_minted_nonneg L ev : admissible L ev → 0 <= event_minted ev.
Proof.
  destruct ev; simpl; [apply minted_nonneg|]. intros [_ Hp]. apply mint_amount_nonneg, Hp.
Qed.

Lemma events_minted_nonneg L evs : all_admissible L evs → 0 <= events_minted evs.
Proof.
  revert L. induction evs as [|ev evs IH]; intros L; [done|]. intros [Ha Hs].
  apply event_minted_nonneg in Ha. apply IH in Hs.
  change (events_minted (ev :: evs)) with (event_minted ev + events_minted evs). lia.
Qed.

Lemma run_events_sound evs L n : sound n L → all_admissible L evs → n + events_minted evs < two64 →
  sound (n + events_minted evs) (run_events evs L).
Proof.
  revert L n. induction evs as [|ev evs IH]; intros L n HS Ha Hlt; [simpl; by rewrite Z.add_0_r|].
  change (events_minted (ev :: evs)) with (event_minted ev + events_minted evs) in *.
  change (run_events (ev :: evs) L) with (run_events evs (run_event L ev)). destruct Ha as [Ha Hs]. pose proof (events_minted_nonneg _ _ Hs) as H0.
  pose proof (event_minted_nonneg _ _ Ha) as H1.
  rewrite Z.add_assoc in *. apply IH; [|done|done]. apply run_event_sound; [done..|]. lia.
Qed.

Lemma empty_sound : sound 0 emptyLedger.
Proof. split; [apply empty_inv|apply empty_history|done]. Qed.

Lemma acts_admissible acts L : Forall typed acts → all_admissible L (Act <$> acts).
Proof. revert L. induction acts as [|a acts IH]; intros L; [done|]. by intros [? ?]%Forall_cons; split; [|apply IH]. Qed.

Lemma admissible_app L evs evs' : all_admissible L evs → all_admissible (run_events evs L) evs' →
  all_admissible L (evs ++ evs').
Proof. revert L. induction evs as [|ev evs IH]; intros L; [done|]. intros [? ?] ?. split; [done|by apply IH]. Qed.

Lemma run_events_acts acts L : run_events (Act <$> acts) L = run_actions acts L.
Proof. revert L. induction acts as [|a acts IH]; intros L; [done|apply IH]. Qed.

Lemma acts_sound acts : Forall typed acts → mints acts < two64 →
  sound (mints acts) (run_actions acts emptyLedger).
Proof.
  intros Hw Hm. assert (E : events_minted (Act <$> acts) = mints acts).
  { clear. induction acts as [|a acts IH]; [done|]. change (minted a + events_minted (Act <$> acts) = minted a + mints acts). by rewrite IH. }
  rewrite <- (run_events_acts acts). rewrite <- E in *. apply (run_events_sound _ _ 0); [apply empty_sound| |done].
  by apply acts_admissible.
Qed.

End events.
