(* ===== verification/LedgerSafety.v ===== *)
(** * What a ledger never does

    How chains, pending sends and leases evolve under [addBlock]: chains only
    grow (but for an acceptance that is unwound before it is final), a send is
    spent once, a finished lease stays finished. *)
From S2P Require Import Prelude GoLib Types Encoding LeaseMath Crypto Multisig Attestation Genesis Reputation Store Ledger Rollback Handlers Restart AddBlock Quorum LedgerSpec LedgerCommit LedgerRules LedgerCalls LedgerUndo LedgerRestart LedgerRefine LedgerTrace.

(** ** The life of a lease *)

Inductive lease_step : LeaseState → LeaseState → Prop :=
| step_accept : lease_step LeaseCreated LeaseAccepted
| step_cancel : lease_step LeaseCreated LeaseCancelled
| step_settle : lease_step LeaseAccepted LeaseSettled
| step_unfulfil : lease_step LeaseAccepted LeaseUnfulfilled
| step_unwind : lease_step LeaseAccepted LeaseCreated.

Lemma lease_step_terminal s s' : Terminal s = true → rtc lease_step s s' → s' = s.
Proof. intros Ht H. destruct H as [|??? H _]; [done|]. by destruct H. Qed.

(** [l] has become [l'], and nothing has changed if it had finished. *)
Definition lease_moves (l l' : Lease) : Prop :=
  rtc lease_step (l_State l) (l_State l') ∧ (Terminal (l_State l) = true → l' = l).

#[export] Instance lease_moves_preorder : PreOrder lease_moves.
Proof.
  split; [by intros l; split|]. intros x y z [H1 T1] [H2 T2]. split; [by etrans|].
  intros Ht. specialize (T1 Ht) as ->. by apply T2.
Qed.

Lemma lease_moves_once l l' : lease_step (l_State l) (l_State l') → lease_moves l l'.
Proof.
  intros H. split; [by apply rtc_once|]. intros Ht. by destruct H.
Qed.

Lemma lease_moves_live l l' : l_State l = LeaseAccepted → l_State l' = LeaseAccepted → lease_moves l l'.
Proof. intros H H'. split; [by rewrite H, H'|]. by rewrite H. Qed.

(** ** The relation between two ledgers, one call apart or many *)

(** The finalized blocks of a chain *)
Definition final_height (L : Ledger) (a : string) : Z := default 0 (finalHeight (store L) !! a).
Definition finalized (L : Ledger) (a : string) (c : AccountChain) : AccountChain :=
  take (Z.to_nat (final_height L a)) c.

Lemma take_prefix_mono {A} n n' (l l' l'' : list A) :
  (n <= n')%nat → take n l `prefix_of` l' → take n' l' `prefix_of` l'' → take n l `prefix_of` l''.
Proof.
  intros Hn [k ->] H. etrans; [|exact H]. rewrite take_app.
  rewrite (take_ge (take n l)) by (rewrite length_take; lia). by apply prefix_app_r.
Qed.

(** [F] says for which accounts the final height could be read. *)
Record evolves (F : string → Prop) (L L' : Ledger) : Prop := {
  ev_blocks : ∀ h x, blocks (store L) !! h = Some x → blocks (store L') !! h = Some x;
  ev_pending : ∀ h ps', pending (store L') !! h = Some ps' →
    blocks (store L) !! h = None ∨ is_Some (pending (store L) !! h);
  ev_leases : ∀ h l, leases (store L) !! h = Some l →
    ∃ l', leases (store L') !! h = Some l' ∧ lease_moves l l';
  ev_heights : ∀ a, F a → final_height L a <= final_height L' a;
  ev_chains : ∀ a c, chains (store L) !! a = Some c → F a →
    ∃ c', chains (store L') !! a = Some c' ∧ finalized L a c `prefix_of` c' }.

Lemma evolves_mono (F F' : string → Prop) L L' :
  (∀ a, F' a → F a) → evolves F L L' → evolves F' L L'.
Proof. intros HF [?????]. split; eauto. Qed.

Lemma evolves_core F L L' : L ≈ L' → evolves F L L'.
Proof.
  intros E. injection E as E1 E2 E3 E4 E5 EF E6 E7 E8 E9 E10 E11.
  split; unfold final_height; rewrite <- ?E1, <- ?E2, <- ?E3, <- ?E5, <- ?EF; [by eauto..| |done|].
  - intros h l Hl. exists l. by split.
  - intros a c Hc _. exists c. split; [done|]. apply prefix_take.
Qed.

#[export] Instance evolves_trans F : Transitive (evolves F).
Proof.
  intros L1 L2 L3 [B1 P1 S1 F1 C1] [B2 P2 S2 F2 C2]. split.
  - eauto.
  - intros h ps H. destruct (P2 h ps H) as [Hn|[ps2 H2]]; [|by eapply P1].
    left. destruct (blocks (store L1) !! h) eqn:E; [|done]. apply B1 in E. congruence.
  - intros h l Hl. destruct (S1 h l Hl) as (l2 & H2 & M2). destruct (S2 h l2 H2) as (l3 & H3 & M3).
    exists l3. split; [done|by etrans].
  - intros a Ha. etrans; eauto.
  - intros a c Hc Hf. destruct (C1 a c Hc Hf) as (c2 & Hc2 & T2).
    destruct (C2 a c2 Hc2 Hf) as (c3 & Hc3 & T3). exists c3. split; [done|].
    unfold finalized in *. eapply take_prefix_mono; [|done..]. pose proof (F1 a Hf). lia.
Qed.

Section evolves.
Context `{C : Crypto} (e : Env).
Notation readable := (λ a, fault e (CGetFinalHeight a) = None).

(** *** Unwinding an acceptance *)
Lemma unwound_evolves L h p L1 :
  ledger_inv L → accept_unwound e L h p L1 → evolves readable L L1.
Proof.
  intros HL (acc & c0 & l & <- & Hc & Ht & <- & Hl & Hst & HF & HU).
  apply transitivity with (unwound L acc c0 l); [|apply evolves_core; by symmetry].
  assert (HR : blocks (store (unwound L acc c0 l)) = blocks (store L) ∧
    finalHeight (store (unwound L acc c0 l)) = finalHeight (store L)) by (split; apply undone_rest).
  destruct HR as [HB HH]. split.
  - by rewrite HB.
  - intros k ps H. right. unfold unwound in H. rewrite undone_pending in H. by eexists.
  - intros k l0 Hk. rewrite (unwound_leases L acc c0 l HL Hl).
    destruct (decide (k = b_Source acc)) as [->|Hne].
    + rewrite lookup_insert_eq. simplify_eq. eexists. split; [done|].
      apply lease_moves_once. rewrite Hst. constructor.
    + rewrite lookup_insert_ne by done. by exists l0.
  - intros a _. unfold final_height. by rewrite HH.
  - intros a c Ha Hf. rewrite (unwound_chains L acc c0 l HL Hc Ht). destruct (decide (a = b_Account acc)) as [->|Hne].
    + rewrite lookup_insert_eq. simplify_eq. eexists. split; [done|].
      specialize (HF Hf). unfold zlen, finalized, final_height in *. rewrite take_app_le by lia. apply prefix_take.
    + rewrite lookup_insert_ne by done. exists c. split; [done|apply prefix_take].
Qed.

(** *** The write of a rule *)
Section commit.
Context (skip : bool) (L : Ledger) (b : Block) (c : BlockCommit).
Context (HL : ledger_inv L) (Hnew : new_block L b) (Hacc : accepts e skip L b c).

Lemma commit_heights : finalHeight (store (apply_commit c L)) = finalHeight (store L).
Proof. unfold apply_commit. by rewrite store_after_commit. Qed.

Lemma commit_pending_old h ps :
  commit_pending c (pending (store L)) !! h = Some ps → h = b_Hash b ∨ is_Some (pending (store L) !! h).
Proof.
  destruct Hacc; unfold append, commit_pending; simpl; rewrite ?when_id_empty;
    rewrite ?when_id_set by (done || by apply H1); try by eauto.
  all: try (intros [[<- _]|[_ H']]%lookup_insert_Some; by eauto).
  all: try (intros [_ H']%lookup_delete_Some; by eauto).
  intros H'. right. destruct (decide (h = b_Source b)) as [->|Hne]; [by eauto|].
  rewrite lookup_alter_ne in H' by done. by eauto.
Qed.

Lemma fresh_lease : leases (store L) !! b_Hash b = None.
Proof.
  destruct (leases (store L) !! b_Hash b) eqn:E; [|done].
  apply (inv_leases L HL) in E as (_ & _ & x & Hx & _). by rewrite (nb_fresh L b Hnew) in Hx.
Qed.

Lemma lease_alter_moves (m : gmap string Lease) f h k l :
  m !! k = Some l → (k = h → lease_moves l (f l)) →
  ∃ l', alter f h m !! k = Some l' ∧ lease_moves l l'.
Proof.
  intros Hl Hf. destruct (decide (k = h)) as [->|Hne].
  - rewrite lookup_alter_eq, Hl. simpl. eauto.
  - rewrite lookup_alter_ne by done. by exists l.
Qed.

Lemma lease_put_moves (m : gmap string Lease) h n k l :
  m !! k = Some l → (k = h → lease_moves l n) → ∃ l', <[h := n]> m !! k = Some l' ∧ lease_moves l l'.
Proof.
  intros Hl Hf. destruct (decide (k = h)) as [->|Hne].
  - rewrite lookup_insert_eq. eauto.
  - rewrite lookup_insert_ne by done. by exists l.
Qed.

Lemma commit_leases_move k l : leases (store L) !! k = Some l →
  ∃ l', commit_leases c (leases (store L)) !! k = Some l' ∧ lease_moves l l'.
Proof.
  intros Hk. destruct Hacc; unfold commit_leases; simpl; rewrite ?when_id_empty;
    rewrite ?when_id_set by (done || by apply H1); try (by exists l).
  all: repeat match goal with H : lease_in _ _ _ _ |- _ => destruct H as [Hl Hst] end.
  - apply lease_put_moves; [done|]. intros ->. by rewrite fresh_lease in Hk.
  - apply lease_put_moves; [done|]. intros ->. simplify_eq. apply lease_moves_once.
    rewrite Hst. constructor.
  - apply lease_alter_moves; [done|]. intros ->. simplify_eq. apply lease_moves_once.
    rewrite Hst. constructor.
  - apply lease_alter_moves; [done|]. intros ->. simplify_eq. apply lease_moves_once.
    rewrite Hst. constructor.
  - apply lease_alter_moves; [done|]. intros ->. simplify_eq. apply lease_moves_once.
    rewrite Hst. constructor.
  - apply lease_put_moves; [done|].
    destruct (inv_leases L HL _ _ Hl) as (-> & _). intros ->. simplify_eq. by apply lease_moves_live.
Qed.

Lemma commit_evolves : evolves readable L (apply_commit c L).
Proof.
  assert (Hap : appends L b c) by by eapply accepts_appends. split.
  - intros h x Hx. by apply (stored_kept L b c Hap Hnew).
  - intros h ps. rewrite commit_pendings. intros [->|H]%commit_pending_old; [left; apply Hnew|by right].
  - intros h l. rewrite commit_leases_eq. apply commit_leases_move.
  - intros a _. unfold final_height. by rewrite commit_heights.
  - intros a ch Hc _. rewrite (commit_chains L b c Hap).
    destruct (decide (a = b_Account b)) as [->|Hne].
    + rewrite lookup_insert_eq. eexists. split; [done|]. unfold chain_of. rewrite Hc. simpl.
      etrans; [apply prefix_take|]. by apply prefix_app_r.
    + rewrite lookup_insert_ne by done. exists ch. split; [done|apply prefix_take].
Qed.
End commit.

Lemma judged_evolves b L L1 : ledger_inv L → judged e b L L1 → evolves readable L L1.
Proof.
  intros HL [E|(_ & p & H)]; [apply evolves_core; by symmetry|by eapply unwound_evolves].
Qed.

Lemma addBlock_evolves `{CL : !CryptoLaws C} b skip L r L' :
  ledger_inv L → block_words b → supply (store L) "XUSD" < two64 →
  addBlock e b skip L = (r, L') → evolves readable L L'.
Proof.
  intros HL Hw Hcap H. eapply addBlock_outcome in H; [|done..].
  destruct H as [[HJ _]|(_ & Hnew & L1 & c & HJ & Ha & HC)]; [by eapply judged_evolves|].
  destruct (judged_neutral e _ L L1 HJ HL) as (HL1 & HB & _).
  etrans; [by eapply judged_evolves|]. etrans; [|apply evolves_core; by symmetry].
  eapply commit_evolves; [done|by eapply new_block_blocks|done].
Qed.

(** A call leaves the final heights as they are. *)
Lemma core_heights L L' : L ≈ L' → finalHeight (store L) = finalHeight (store L').
Proof. intros E. by injection E. Qed.

Lemma judged_heights b L L1 : judged e b L L1 → finalHeight (store L1) = finalHeight (store L).
Proof.
  intros [E|(_ & p & acc & c0 & l & _ & _ & _ & _ & _ & _ & _ & HU)]; [by apply core_heights|].
  rewrite (core_heights _ _ HU). apply undone_rest.
Qed.

Lemma addBlock_heights `{CL : !CryptoLaws C} b skip L r L' :
  ledger_inv L → block_words b → supply (store L) "XUSD" < two64 →
  addBlock e b skip L = (r, L') → finalHeight (store L') = finalHeight (store L).
Proof.
  intros HL Hw Hcap H. eapply addBlock_outcome in H; [|done..].
  destruct H as [[HJ _]|(_ & _ & L1 & c & HJ & _ & HC)]; [by eapply judged_heights|].
  rewrite (core_heights _ _ HC), commit_heights. by eapply judged_heights.
Qed.
End evolves.

(** ** Many calls *)
Section many.
Context `{C : Crypto} `{CL : !CryptoLaws C}.

(** The final height of [a] could be read in every action. *)
Definition act_env (a : action) : Env :=
  match a with Add e _ _ => e | Start e => e | Confirm e _ _ => e end.
Definition all_readable (acts : list action) (a : string) : Prop :=
  Forall (λ x, fault (act_env x) (CGetFinalHeight a) = None) acts.

(** Stores that agree on what [evolves] looks at *)
Lemma evolves_store F L L' : store L' = store L → evolves F L L'.
Proof.
  intros E. split; unfold final_height; rewrite ?E; [by eauto..| |done|].
  - intros h l Hl. exists l. by split.
  - intros a c Hc _. exists c. split; [done|apply prefix_take].
Qed.

Lemma start_evolves F e L : ledger_inv L → typed (Start e) → evolves F L (run_action L (Start e)).
Proof.
  intros HL Hw. simpl in *. destruct (NewLedger e (store L)) as [[T|err] L'] eqn:H; [|by apply evolves_store].
  pose proof (NewLedger_ok e L T L' HL ltac:(intros g Hg; by rewrite Hg in Hw) H) as H0.
  destruct H0 as [(L2 & Es & _ & _ & E)|(Hb & g & L1 & _ & _ & EL & H0)].
  - apply transitivity with L2; [by apply evolves_store|apply evolves_core; by symmetry].
  - clear H. split.
    + intros h x. by rewrite Hb.
    + intros h ps _. left. by rewrite Hb.
    + intros h l. by rewrite (empty_leases L HL Hb).
    + intros a _. unfold final_height. rewrite (inv_final L HL Hb), lookup_empty.
      assert (Hf : finalHeight (store L1) = ∅) by (rewrite EL, commit_heights; by apply (inv_final L HL)).
      destruct H0 as [->| ->]; simpl; rewrite Hf; [by rewrite lookup_empty|].
      destruct (decide (a = b_Account g)) as [->|Hne]; [by rewrite lookup_insert_eq|].
      by rewrite lookup_insert_ne, lookup_empty.
    + intros a c. by rewrite (empty_chains L HL Hb).
Qed.

Lemma confirm_evolves e a w L :
  evolves (λ x, fault e (CGetFinalHeight x) = None) L (run_action L (Confirm e a w)).
Proof.
  simpl. destruct (advance_final e a w L) as [r L'] eqn:H. simpl.
  apply advance_final_ok in H as [->|(h & c & Hc & Hne & -> & Hh)]; [by apply evolves_store|].
  split; [by eauto..| | |].
  - intros k l Hl. exists l. by split.
  - intros x Hx. unfold final_height. simpl. destruct (decide (x = a)) as [->|Hd].
    + rewrite lookup_insert_eq. specialize (Hh Hx). simpl. lia.
    + by rewrite lookup_insert_ne.
  - intros x ch Hx _. exists ch. split; [done|apply prefix_take].
Qed.

Lemma action_evolves L x :
  ledger_inv L → typed x → supply (store L) "XUSD" < two64 →
  evolves (λ a, fault (act_env x) (CGetFinalHeight a) = None) L (run_action L x).
Proof.
  intros HL Hw Hcap. destruct x as [e b skip|e|e ac w].
  - simpl. destruct (addBlock e b skip L) as [r L'] eqn:H. by eapply addBlock_evolves.
  - by apply start_evolves.
  - apply confirm_evolves.
Qed.

Lemma run_actions_evolve before acts :
  Forall typed (before ++ acts) → mints (before ++ acts) < two64 →
  evolves (all_readable acts) (run_actions before emptyLedger) (run_actions (before ++ acts) emptyLedger).
Proof.
  induction acts as [|x acts IH] using rev_ind; intros Hw Hm.
  { rewrite app_nil_r. by apply evolves_core. }
  rewrite app_assoc in *. apply Forall_app in Hw as [Hw Hx]. apply Forall_cons in Hx as [Hx _].
  rewrite mints_snoc in Hm. pose proof (minted_nonneg _ Hx).
  destruct (run_actions_inv (before ++ acts)) as [HL Hs]; [done|lia|].
  etrans; [eapply evolves_mono; [|apply IH; [done|lia]]|].
  { intros a Ha. by apply Forall_app in Ha as [? _]. }
  rewrite run_actions_snoc.
  eapply evolves_mono; [|apply action_evolves; [done|done|lia]].
  intros a Ha. apply Forall_app in Ha as [_ Ha]. by apply Forall_cons in Ha as [? _].
Qed.
End many.
