(* ===== verification/LedgerAuth.v ===== *)
(** * Only the owner of an account extends its chain

    The key a block is checked against is the one the opening block of its
    account declared, found in a cache or on the chain; both only ever hold
    keys that derive the account's address. *)
From S2P Require Import Prelude GoLib Types Encoding LeaseMath Crypto Multisig Attestation Genesis Reputation Store Ledger Rollback Handlers Restart AddBlock Quorum LedgerSpec LedgerCommit LedgerRules LedgerCalls LedgerUndo LedgerRestart LedgerRefine LedgerTrace.

Section auth.
Context `{C : Crypto} (e : Env).

(** A declared key derives the address [a]. *)
Definition declares (a : string) (b : Block) : Prop :=
  b_PubKey b = "" ∨ DeriveAddress (b_PubKey b) = Ok a.

Record keys_ok (L : Ledger) : Prop := {
  ko_cascade : activeCascade L = None;
  ko_cache : ∀ a k, accountKeys L !! a = Some k → DeriveAddress k = Ok a;
  ko_chain : ∀ a c, chains (store L) !! a = Some c → Forall (declares a) c }.

Definition keeps_keys (L L' : Ledger) : Prop := keys_ok L → keys_ok L'.

#[export] Instance keeps_keys_preorder : PreOrder keeps_keys.
Proof. split; [by intros L ?|]. intros L1 L2 L3 H12 H23 H. auto. Qed.

(** A commit that stores declared keys only *)
Definition commit_declares (c : BlockCommit) : Prop :=
  (bc_PutAccountKey c = "" ∨ DeriveAddress (bc_PutAccountKey c) = Ok (bc_Account c)) ∧
  Forall (declares (bc_Account c)) (bc_Chain c).

Lemma keys_ok_same L L' :
  accountKeys L' = accountKeys L → chains (store L') = chains (store L) →
  activeCascade L' = activeCascade L → keys_ok L → keys_ok L'.
Proof. intros E1 E2 E3 [???]. split; rewrite ?E1, ?E2, ?E3; done. Qed.

Lemma after_commit_keys c pb L :
  accountKeys (after_commit c pb L) =
    (if bc_PutAccountKey c =?s "" then accountKeys L
     else <[bc_Account c := bc_PutAccountKey c]> (accountKeys L)) ∧
  chains (store (after_commit c pb L)) = chains (store L) ∧
  activeCascade (after_commit c pb L) = activeCascade L.
Proof.
  unfold after_commit, updateDelegation. destruct (bc_AssetCredit c), (bc_PutAccountKey c =?s "");
    repeat case_match; done.
Qed.

Lemma keys_commit c pb : commit_declares c → keeps keeps_keys (commitBlockWrite e c pb).
Proof.
  intros [Hk Hc] L r L1 H HL. pose proof (ko_cascade L HL) as Hn.
  unfold commitBlockWrite, mbind_, mgets in H. rewrite Hn in H. unfold mwrap, swrite in H.
  destruct (fault e _); [by injection H as _ <-|].
  destruct (CommitBlock _ _) as [s|] eqn:Es; [|by injection H as _ <-].
  injection H as _ <-. unfold CommitBlock in Es. run.
  match goal with |- keys_ok (after_commit ?c' ?p ?K) =>
    destruct (after_commit_keys c' p K) as (E1 & E2 & E3) end.
  split; rewrite ?E1, ?E2, ?E3; simpl; [done| |].
  - intros a k. destruct (bc_PutAccountKey c =?s "") eqn:Ek; [apply HL|]. bool_hyps.
    intros [[<- <-]|[_ Hx]]%lookup_insert_Some; [by destruct Hk|by apply HL].
  - intros a ch [[<- <-]|[_ Hx]]%lookup_insert_Some; [done|by apply HL].
Qed.

Lemma prepare_declares b L c pb L2 :
  declares (b_Account b) b → keys_ok L → prepareBlockWrite e b L = (Ok (c, pb), L2) →
  L2 = L ∧ commit_declares c.
Proof.
  intros Hb HL E. apply prepare_ok in E as [E ->]; [|apply HL]. injection E as -> ->. split; [done|].
  split; simpl; [done|]. apply Forall_app. split; [|by constructor].
  destruct (chain_of L b) eqn:Ec; [by apply HL|constructor].
Qed.

Lemma keys_prepare {A} b (k : BlockCommit * Z → LM A) :
  declares (b_Account b) b →
  (∀ c pb, commit_declares c → keeps keeps_keys (k (c, pb))) →
  keeps keeps_keys (mbind_ (prepareBlockWrite e b) k).
Proof.
  intros Hb Hk L r L1 H HL. unfold mbind_ in H.
  destruct (prepareBlockWrite e b L) as [[[c pb]|x] L2] eqn:E.
  - apply prepare_declares in E as [-> Hc]; [by eapply Hk|done..].
  - injection H as <- <-. by eapply (keeps_prepare e keeps_keys).
Qed.

Lemma fill_declares c add del put st ca un ks eh es cr top amt d :
  commit_declares c → commit_declares (fill c add del put st ca un ks eh es cr top amt d).
Proof. done. Qed.

Lemma keys_modify (f : Ledger → Ledger) :
  (∀ L, accountKeys (f L) = accountKeys L ∧ chains (store (f L)) = chains (store L) ∧
        activeCascade (f L) = activeCascade L) → keeps keeps_keys (mmodify f).
Proof.
  intros Hf L r L1 H HL. injection H as _ <-. destruct (Hf L) as (?&?&?). by eapply keys_ok_same.
Qed.

Lemma keys_rep_apply ev : keeps keeps_keys (mmodify (rep_apply e ev)).
Proof.
  apply keys_modify. intros L. split; [done|]. split; [|done].
  pose proof (core_rep_apply e ev L) as E. by injection E.
Qed.

Lemma keys_setKeyset a ks : keeps keeps_keys (mmodify (setKeyset a ks)).
Proof. by apply keys_modify. Qed.

Lemma keys_swrite c f :
  (∀ s s', f s = Ok s' → chains s' = chains s) → keeps keeps_keys (swrite e c f).
Proof.
  intros Hf L r L1 H HL. unfold swrite in H. destruct (fault e c); [by injection H as _ <-|].
  destruct (f (store L)) as [s|] eqn:E; injection H as _ <-; [|done].
  apply Hf in E. by apply (keys_ok_same L).
Qed.

End auth.

#[export] Hint Resolve keys_commit fill_declares keys_rep_apply keys_setKeyset : keeps.

(** [keep], with the commit of a declared block *)
Ltac keep_keys := repeat first [apply keys_prepare; [done|] | keep_step].

Section handlers.
Context `{C : Crypto} (e : Env) (b : Block) (skip : bool).
Context (Hb : declares (b_Account b) b).

Lemma keys_send : keeps keeps_keys (validateAndAddSend e b).
Proof. unfold validateAndAddSend. keep_keys. Qed.
Lemma keys_burn : keeps keeps_keys (validateAndAddBurn e b).
Proof. unfold validateAndAddBurn. keep_keys. Qed.
Lemma keys_receive : keeps keeps_keys (validateAndAddReceive e b).
Proof. unfold validateAndAddReceive. keep_keys. Qed.
Lemma keys_mint : keeps keeps_keys (validateAndAddMint e b).
Proof. unfold validateAndAddMint. keep_keys. Qed.
Lemma keys_genesis : keeps keeps_keys (validateAndAddGenesis e b).
Proof. unfold validateAndAddGenesis, addBlockLocked. keep_keys. Qed.
Lemma keys_multisig_open : keeps keeps_keys (validateAndAddMultisigOpen e b).
Proof. unfold validateAndAddMultisigOpen. keep_keys. Qed.
Lemma keys_multisig_update : keeps keeps_keys (validateAndAddMultisigUpdate e b).
Proof. unfold validateAndAddMultisigUpdate. keep_keys. Qed.
Lemma keys_lease : keeps keeps_keys (validateAndAddLease e b).
Proof. unfold validateAndAddLease. keep_keys. Qed.
Lemma keys_lease_accept : keeps keeps_keys (validateAndAddLeaseAccept e b skip).
Proof. unfold validateAndAddLeaseAccept. keep_keys. Qed.
Lemma keys_lease_settle : keeps keeps_keys (validateAndAddLeaseSettle e b skip).
Proof. unfold validateAndAddLeaseSettle. keep_keys. Qed.
Lemma keys_lease_force_settle : keeps keeps_keys (validateAndAddLeaseForceSettle e b skip).
Proof. unfold validateAndAddLeaseForceSettle. keep_keys. Qed.
Lemma keys_lease_renew : keeps keeps_keys (validateAndAddLeaseRenew e b skip).
Proof. unfold validateAndAddLeaseRenew. keep_keys. Qed.
End handlers.

Section calls.
Context `{C : Crypto} (e : Env).

(** *** Unwinding an acceptance *)

Lemma buildBlockUndo_shape a b ch L u ap L1 :
  buildBlockUndo e a b ch L = (Ok (u, ap), L1) →
  bu_Account u = a ∧ bu_Chain u = removelast (default [] ch) ∧ L1 = L.
Proof.
  intros H. pose proof (keeps_buildBlockUndo e eq _ _ _ _ _ _ H) as <-.
  unfold buildBlockUndo in H. run. simplify_eq. done.
Qed.

Lemma Forall_removelast {A} (P : A → Prop) l : Forall P l → Forall P (removelast l).
Proof.
  destruct l as [|x l _] using rev_ind; [done|]. rewrite removelast_last. by intros [? _]%Forall_app.
Qed.

Lemma run_apply_keys a L :
  (∀ k v, accountKeys (run_apply e a L) !! k = Some v → accountKeys L !! k = Some v) ∧
  chains (store (run_apply e a L)) = chains (store L) ∧
  activeCascade (run_apply e a L) = activeCascade L.
Proof.
  unfold run_apply.
  set (K := undo_delegation a _).
  assert (HK : (∀ k v, accountKeys K !! k = Some v → accountKeys L !! k = Some v) ∧
    chains (store K) = chains (store L) ∧ activeCascade K = activeCascade L).
  { subst K. destruct (ma_deleteKeysetAccount a =?s ""), (ma_deleteAccountKeyAccount a =?s ""),
      (ma_deleteAccount a), (ma_assetDebit a) as [d|]; unfold subAssetBalance; repeat case_match;
      (split; [|done]); intros k v Hk; try exact Hk; simpl in Hk;
      by apply lookup_delete_Some in Hk as [_ ?]. }
  destruct (ma_repRevert a) as [ev|]; [|done].
  pose proof (core_rep_revert e ev K) as E. destruct HK as (H1 & H2 & H3).
  split; [done|]. split; [|done]. rewrite <- H2. by injection E.
Qed.

Lemma keys_undo a b : keeps keeps_keys (undoBlockApply e a b).
Proof.
  intros L r L1 H HL. unfold undoBlockApply, mbind_ in H.
  destruct (GetAccountChain e a L) as [[ch|x] L2] eqn:Ec;
    [|apply (keeps_sread e eq) in Ec as <-; by injection H as _ <-].
  apply sread_ok in Ec as [-> ->].
  destruct (buildBlockUndo _ _ _ _ _) as [[[u ap]|x] L2] eqn:Eb;
    [|apply (keeps_buildBlockUndo e eq) in Eb as <-; by injection H as _ <-].
  apply buildBlockUndo_shape in Eb as (Ea & Eu & ->). unfold swrite in H.
  destruct (fault e _); [by injection H as _ <-|]. injection H as _ <-.
  destruct (run_apply_keys ap (with_store (CommitUndo u (store L)) L)) as (H1 & H2 & H3).
  split; [by rewrite H3; apply HL| |].
  - intros k v Hk. apply H1 in Hk. by apply HL.
  - intros k c. rewrite H2. simpl. rewrite Ea. destruct (bu_DeleteAccount u).
    + intros [_ Hk]%lookup_delete_Some. by apply HL.
    + intros [[<- <-]|[_ Hk]]%lookup_insert_Some; [|by apply HL].
      rewrite Eu. apply Forall_removelast. destruct (chains (store L) !! a) eqn:E; [by apply HL|constructor].
Qed.
#[local] Hint Resolve keys_undo : keeps.

Lemma keys_resolve h p : keeps keeps_keys (resolveCancelWinsOverAccept e h p).
Proof. unfold resolveCancelWinsOverAccept. keep. Qed.
#[local] Hint Resolve keys_resolve : keeps.

Lemma keys_cancel b : declares (b_Account b) b → keeps keeps_keys (validateAndAddLeaseCancel e b).
Proof. intros Hb. unfold validateAndAddLeaseCancel, cancel_guard, cancel_refund. keep_keys. Qed.

(** *** Finding the key *)

Lemma last_declared a c k :
  Forall (declares a) c →
  foldl (λ f b, if b_PubKey b =?s "" then f else b_PubKey b) ""%string c = k → k ≠ "" →
  DeriveAddress k = Ok a.
Proof.
  induction c as [|b c IH] using rev_ind; intros Hc; [simpl; congruence|].
  apply Forall_app in Hc as [Hc Hb]. apply Forall_cons in Hb as [Hb _].
  rewrite foldl_app. simpl. case_bool_decide as E; [by apply IH|]. intros <- _. by destruct Hb.
Qed.

Lemma GetAccountKey_ok a L r L1 : keys_ok L → GetAccountKey e a L = (r, L1) →
  keys_ok L1 ∧ ∀ k, r = Ok k → k ≠ "" → DeriveAddress k = Ok a.
Proof.
  intros HL H. unfold GetAccountKey in H. destruct (accountKeys L !! a) as [pub|] eqn:Ek.
  { injection H as <- <-. split; [done|]. intros k [= <-] _. by apply HL. }
  apply mtry_inv in H as (r1 & L2 & H1 & H2).
  pose proof (keeps_sread e eq _ _ _ _ _ H1) as <-.
  destruct r1 as [[c|]|]; [|injection H2 as <- <-; naive_solver..].
  apply sread_ok in H1 as [Hc _]. symmetry in Hc. cbv zeta in H2.
  case_bool_decide as E; [injection H2 as <- <-; naive_solver|].
  injection H2 as <- <-. pose proof (ko_chain L HL a c Hc) as HD.
  split; [|intros k [= <-] Hk; by eapply last_declared].
  split; [apply HL| |apply HL]. simpl. intros a' k [[<- <-]|[_ Hk]]%lookup_insert_Some; [|by apply HL].
  by eapply last_declared.
Qed.

Lemma keys_account_key a : keeps keeps_keys (GetAccountKey e a).
Proof. intros L r L1 H HL. by eapply GetAccountKey_ok. Qed.

Lemma keys_resolve_keyset a : keeps keeps_keys (resolveMissingKeyset e a).
Proof. unfold resolveMissingKeyset. keep. Qed.
#[local] Hint Resolve keys_account_key keys_resolve_keyset : keeps.

Lemma keys_credential b : keeps keeps_keys (verifyBlockCredential e b).
Proof. unfold verifyBlockCredential. keep. Qed.

(** A block without multisig signatures is signed by a key of its account. *)
Definition owner_signed (b : Block) : Prop :=
  ∃ k, DeriveAddress k = Ok (b_Account b) ∧ VerifyBlockSignatureWith b k = Ok ().

Lemma declaration_ok b : ValidatePubKeyDeclaration b = Ok () → declares (b_Account b) b.
Proof.
  unfold ValidatePubKeyDeclaration, declares. intros H. repeat case_match; run; bool_hyps; [by left| |by left].
  right. by destruct (DeriveAddress _); simpl in *; simplify_eq.
Qed.

Lemma open_declaration b : ValidatePubKeyDeclaration b = Ok () → b_Signatures b = [] →
  b_Previous b = "0" → DeriveAddress (b_PubKey b) = Ok (b_Account b).
Proof.
  intros H Hs Hp. pose proof H as [E|E]%declaration_ok; [|done].
  unfold ValidatePubKeyDeclaration in H. rewrite Hs, Hp, E in H. discriminate.
Qed.

Lemma credential_owner b L u L1 :
  keys_ok L → verifyBlockCredential e b L = (Ok u, L1) → b_Signatures b = [] → owner_signed b.
Proof.
  intros HL H Hs. unfold verifyBlockCredential in H. rewrite Hs in H.
  change (negb (bool_decide (@nil BlockSignature = []))) with false in H. cbv iota in H. run.
  repeat match goal with H : mlift _ _ = _ |- _ => apply mlift_ok in H as [? ->] end.
  repeat match goal with x : unit |- _ => destruct x end.
  case_bool_decide as Hp; run; eexists; (split; [|done]).
  - by apply open_declaration.
  - bool_hyps. match goal with H : GetAccountKey _ _ _ = _ |- _ => apply GetAccountKey_ok in H as [_ Hk] end;
      auto.
Qed.

(** *** Conflicts *)

Lemma keys_save_conflict c : keeps keeps_keys (save_conflict e c).
Proof. apply keys_swrite. by intros s s' [= <-]. Qed.
Lemma keys_save_staged h b : keeps keeps_keys (swrite e (CSaveStagedBlock h) (λ s, Ok (SaveStagedBlock b s))).
Proof. apply keys_swrite. by intros s s' [= <-]. Qed.
Lemma keys_snapshot : keeps keeps_keys (snapshotWeights e).
Proof.
  intros L r L1 H HL. unfold snapshotWeights in H. destruct (eligibleAllowlist _ _). injection H as _ <-.
  by apply (keys_ok_same L).
Qed.
Lemma keys_event ev : keeps keeps_keys (mmodify (with_event ev)).
Proof. by apply keys_modify. Qed.
#[local] Hint Resolve keys_credential keys_save_conflict keys_save_staged keys_snapshot keys_event : keeps.

Lemma keys_stage b ch h : keeps keeps_keys (stage_conflict e b ch h).
Proof.
  unfold stage_conflict, ValidateStagedBlock, staged_pending, staged_debit, staged_balance,
    recordConflict, notify_conflict, GetConflict. keep.
Qed.

Lemma keys_dispatch b skip : declares (b_Account b) b → keeps keeps_keys (dispatchValidateAndAdd e b skip).
Proof.
  intros Hb. unfold dispatchValidateAndAdd. keep;
    auto using keys_send, keys_receive, keys_mint, keys_genesis, keys_burn, keys_lease,
      keys_lease_accept, keys_lease_settle, keys_lease_force_settle, keys_lease_renew, keys_cancel,
      keys_multisig_open, keys_multisig_update.
  discriminate.
Qed.

(** *** One call *)

Lemma VerifyBlock_declares nid b : VerifyBlock nid b = Ok () → declares (b_Account b) b.
Proof.
  intros H. apply declaration_ok. unfold VerifyBlock in H. run.
  by match goal with H : ValidatePubKeyDeclaration b = Ok ?u |- _ => destruct u end.
Qed.

(** What happens once the signed bytes of a block have been checked *)
Lemma addBlock_keys b skip L r L' :
  keys_ok L → addBlock e b skip L = (r, L') →
  keys_ok L' ∧ (blocks (store L) !! b_Hash (prepared b) = None → r = Ok () →
                b_Signatures (prepared b) = [] → owner_signed (prepared b)).
Proof.
  intros HL H. unfold addBlock in H. revert H. generalize (prepared b). clear b. intros b H.
  unfold mbind_ at 1, mfail_if at 1, mlift at 1, rfail_if at 1 in H.
  destruct (_ <? _); [by injection H as <- <-|].
  unfold mbind_ at 1, mwrap at 1, mlift at 1 in H. destruct (VerifyBlock _ b) as [[]|] eqn:Hv; [|by injection H as <- <-].
  apply VerifyBlock_declares in Hv. cbn [result_map_err] in H.
  unfold mbind_ at 1, mlift at 1 in H. destruct (check_pow e b) as [[]|]; [|by injection H as <- <-].
  unfold mbind_ at 1, mlift at 1 in H. destruct (check_window e b skip) as [[]|]; [|by injection H as <- <-].
  unfold mbind_ at 1, mwrap at 1 in H. destruct (GetBlock e _ L) as [[x|] L2] eqn:Eg;
    pose proof (keeps_sread e eq _ _ _ _ _ Eg) as <-; [|by injection H as <- <-].
  cbn [result_map_err] in H. apply block_read_ok in Eg as [-> _].
  destruct (blocks (store L) !! b_Hash b) eqn:Eb; [by injection H as <- <-|].
  unfold mbind_ at 1 in H. destruct (verifyBlockCredential e b L) as [[u|] L2] eqn:Ec.
  2:{ injection H as <- <-. split; [by eapply keys_credential|done]. }
  split; [|intros _ _ Hs; by eapply credential_owner].
  apply keys_credential in Ec. specialize (Ec HL). revert H Ec.
  match goal with |- ?m L2 = _ → _ => enough (HK : keeps keeps_keys m) by (intros ??; by eapply HK) end.
  keep; auto using keys_stage, keys_dispatch.
Qed.
End calls.

(** ** Starting *)
Section start.
Context `{C : Crypto} (e : Env).

Lemma keys_blank L : keys_ok L → keys_ok (blankLedger (store L)).
Proof. intros [_ _ H]. by split. Qed.

#[local] Hint Extern 1 (keeps keeps_keys (mmodify _)) => by apply keys_modify : keeps.

Lemma keys_chain_or_nil a : keeps keeps_keys (chain_or_nil e a).
Proof. unfold chain_or_nil. keep. Qed.
#[local] Hint Resolve keys_chain_or_nil : keeps.

Lemma foldl_other_keys (f : Ledger → Block → Ledger) c L :
  (∀ L b, accountKeys (f L b) = accountKeys L ∧ chains (store (f L b)) = chains (store L) ∧
          activeCascade (f L b) = activeCascade L) →
  accountKeys (foldl f L c) = accountKeys L ∧ chains (store (foldl f L c)) = chains (store L) ∧
  activeCascade (foldl f L c) = activeCascade L.
Proof.
  intros Hf. revert L. induction c as [|b c IH]; intros L; [done|]. simpl.
  destruct (IH (f L b)) as (-> & -> & ->). apply Hf.
Qed.

Lemma keys_keysets : keeps keeps_keys (rebuildKeysets e).
Proof.
  unfold rebuildKeysets. keep. apply keys_modify. intros L. apply foldl_other_keys.
  intros L0 b. by repeat case_match.
Qed.

(** The keys read off a chain derive its account. *)
Lemma keys_account_keys : keeps keeps_keys (rebuildAccountKeys e).
Proof.
  unfold rebuildAccountKeys. apply (keeps_bind _); [keep|]. intros s. apply (keeps_for _).
  intros x L r L1 H HL.
  unfold mbind_ in H. destruct (chain_or_nil e x L) as [[c|] L2] eqn:Ec.
  2:{ injection H as _ <-. by eapply keys_chain_or_nil. }
  injection H as _ <-. assert (L2 = L ∧ Forall (declares x) c) as [-> Hd].
  { unfold chain_or_nil, mor, mtry, mbind_, GetAccountChain, sread, mret_ in Ec.
    destruct (fault e _); injection Ec as <- <-; [done|]. split; [done|].
    destruct (chains (store L) !! x) eqn:E; [|constructor]. by apply (ko_chain _ HL) in E. }
  clear Ec. revert L HL. induction Hd as [|b l Hb Hd IH]; intros L HL; [done|]. simpl. apply IH.
  destruct (b_PubKey b =?s "") eqn:Ek; [done|]. bool_hyps. destruct HL as [H1 H2 H3].
  split; [done| |done]. simpl. intros a k [[<- <-]|[_ Hk]]%lookup_insert_Some; [by destruct Hb|by eauto].
Qed.

Lemma keys_ghost acc :
  keeps keeps_keys (swrite e (CCommitUndo acc) (λ s, Ok (CommitUndo (ghost_undo acc) s))).
Proof.
  intros L r L1 H HL. unfold swrite in H. destruct (fault e _); injection H as _ <-; [done|].
  destruct HL as [H1 H2 H3]. split; [done..|]. simpl.
  intros a c [_ Hc]%lookup_delete_Some. by eauto.
Qed.
#[local] Hint Resolve keys_ghost : keeps.

Lemma keys_prune : keeps keeps_keys (pruneChainlessAccounts e).
Proof.
  unfold pruneChainlessAccounts, prune_account, GetAccountChain. keep.
Qed.

Lemma keys_rebuild : keeps keeps_keys (rebuild_caches e).
Proof.
  unfold rebuild_caches. keep; auto using keys_keysets, keys_account_keys, keys_prune.
  - unfold rebuildDelegation, rebuild_delegation, GetAccountChain. keep.
  - unfold rebuildAssetBalances, rebuild_balances, GetAccountChain. keep.
  - unfold rebuildReputation, replay_lease, replay_cancel, lookupLeaseForceSettleTimestamp,
      lookupLeaseSettleTimestamp, closing_time. keep.
  - unfold initBlockCount. keep.
Qed.

Lemma keys_start L T L' : keys_ok L → NewLedger e (store L) = (Ok T, L') → keys_ok L'.
Proof.
  intros HL%keys_blank H. unfold NewLedger in H. run. call_step. destruct (IsEmpty _).
  - unfold first_start in H. run. call_step.
    match goal with H : LoadGenesisBlock e = Ok ?x |- _ => rename x into g; rename H into Hg end.
    assert (Hd : declares (b_Account g) g).
    { unfold LoadGenesisBlock, parseGenesisBlock, ValidateGenesisBlock in Hg. run.
      eapply (VerifyBlock_declares ""). by destruct (VerifyBlock "" g) as [[]|]. }
    destruct x1 as [c pb]. apply prepare_declares in H1 as [-> Hc]; [|done..].
    revert HL. refine ((_ : keeps keeps_keys _) _ _ _ H).
    keep. unfold mor. keep. apply keys_swrite. by intros ?? [= <-].
  - revert HL. refine ((_ : keeps keeps_keys (later_start e)) _ _ _ H).
    unfold later_start, GetAccountChain. keep; apply keys_rebuild.
Qed.

End start.

Section trace.
Context `{C : Crypto}.

Lemma run_actions_keys acts : keys_ok (run_actions acts emptyLedger).
Proof.
  induction acts as [|x acts IH] using rev_ind; [by split|]. rewrite run_actions_snoc.
  destruct x as [e b skip|e|e a w]; simpl.
  - destruct (addBlock _ _ _ _) as [r L'] eqn:E. by eapply addBlock_keys in E as [? _].
  - destruct (NewLedger _ _) as [[T|err] L'] eqn:E; [by eapply keys_start|done].
  - destruct (advance_final _ _ _ _) as [r L'] eqn:E. simpl.
    apply advance_final_ok in E as [->|(h & c & _ & _ & -> & _)]; [done|]. by apply (keys_ok_same (run_actions acts emptyLedger)).
Qed.
End trace.
