(* ===== verification/Scenario.v ===== *)
(** * A concrete network

    Two accounts, a genesis block, a mint, transfers and a lease, built with the
    toy primitives of [Crypto.Toy].  The runs evaluate the definitions of the
    ledger on real blocks and instantiate its theorems. *)
From S2P Require Import Prelude GoLib Types Encoding LeaseMath Crypto Multisig Attestation Genesis Reputation Store Ledger Rollback Handlers Restart AddBlock Quorum LedgerSpec LedgerCommit LedgerRules LedgerCalls LedgerUndo LedgerRestart LedgerRefine LedgerTrace.

(** Evaluate a closed goal; the context is not looked at, so no other run is
    evaluated. *)
Ltac by_run := vm_compute; reflexivity.

Ltac by_dec := apply (bool_decide_unpack _); vm_compute; exact I.

(** A run with a known result, without evaluating the state it leaves *)
Lemma run_result {A B} (p : A * B) (a : A) : fst p = a → p = (a, snd p).
Proof. intros <-. by destruct p. Qed.

Definition alice : KeyPair := KeyPairFromSeed [1].
Definition bob : KeyPair := KeyPairFromSeed [2].
Definition carol : KeyPair := KeyPairFromSeed [3].
Definition addrA : string := Eval vm_compute in Address alice.
Definition addrB : string := Eval vm_compute in Address bob.

Definition zero_block : Block :=
  mkBlock BlockSend "" "0" 0 0 "XUSD" "" "" 0 "" 0 0 0 0 "" 0 0 0 0 0 0 "" None [] "" "" "" 0 [] ""
    0 0 0.

(** An unsigned block *)
Definition draft (t : BlockType) (account previous : string) (balance time : Z) (asset rep dest : string)
    (amount : Z) (source : string) : Block :=
  mkBlock t account previous balance time asset rep dest amount source 0 0 0 0 "" 0 0 0 0 0 0 ""
    None [] "" "" "" 0 [] "" 0 0 0.

Definition with_lease (v m d dur : Z) (cert : string) (lockedR : Z) (atts : list TimekeeperAttestation)
    (b : Block) : Block :=
  mkBlock (b_Type b) (b_Account b) (b_Previous b) (b_Balance b) (b_Timestamp b) (b_Asset b)
    (b_Representative b) (b_Destination b) (b_Amount b) (b_Source b) v m d dur "" 0 0 0 0 0 0 ""
    None [] "" "" "" 0 atts cert lockedR 0 0.

Definition sealed (kp : KeyPair) (b : Block) : Block :=
  match SignBlock "net" b kp with Ok b => b | Err _ => zero_block end.

Definition attest (h : string) (t : Z) : list TimekeeperAttestation :=
  match SignAttestation h t carol with Ok a => [a] | Err _ => [] end.

Definition cert : string := "c0ffee".

Definition genesis_block : Block :=
  Eval vm_compute in
  match SignBlock "" (draft BlockGenesis addrA "0" GenesisSupply 0 "XE" addrA "" 0 "") alice with
  | Ok b => b | Err _ => zero_block end.

Definition net_env : Env :=
  mkEnv 0 0 "net" 5000000000 DefaultLeaseTiming
    (Some (Some (mkTimekeeperConfig [PubKeyHex carol] 1)))
    (Some (Some [addrA]))
    (Some (λ h, if h =?s cert then Some (mkCertificateInfo addrB (2 ^ 62) 1000) else None))
    None None None (Ok genesis_block) false true (λ _, false) (λ _, None).

(** The network identifier does not enter the genesis hash. *)
Definition genesis_env : Env :=
  mkEnv 0 0 "" 5000000000 DefaultLeaseTiming None None None None None None (Ok genesis_block)
    false true (λ _, false) (λ _, None).

Definition hA0 : string := Eval vm_compute in b_Hash genesis_block.

Definition mint_block : Block :=
  Eval vm_compute in sealed alice (draft BlockMint addrA hA0 1000000000 10 "XUSD" "" "" 1000000000 "").
Definition send_block : Block :=
  Eval vm_compute in
  sealed alice (draft BlockSend addrA (b_Hash mint_block) 999999000 20 "XUSD" "" addrB 1000 "").
Definition receive_block : Block :=
  Eval vm_compute in
  sealed bob (draft BlockReceive addrB "0" 1000 30 "XUSD" addrA "" 0 (b_Hash send_block)).

Definition price : Z :=
  Eval vm_compute in
  match LeaseCost DefaultLeaseTiming 1 1024 1 3600 1000 with Ok v => v | Err _ => 0 end.

Definition lease_offer : Block :=
  Eval vm_compute in
  sealed alice (with_lease 1 1024 1 3600 cert 0 []
    (draft BlockLease addrA (b_Hash send_block) (999999000 - price) 40 "XUSD" "" addrB price "")).
Definition accept_block : Block :=
  Eval vm_compute in
  sealed bob (with_lease 0 0 0 0 cert 7 (attest (b_Hash lease_offer) 5000000000)
    (draft BlockLeaseAccept addrB (b_Hash receive_block) 1000 50 "XUSD" "" "" 0 (b_Hash lease_offer))).
Definition renew_block : Block :=
  Eval vm_compute in
  sealed alice (with_lease 0 0 0 3600 cert 7 (attest (b_Hash lease_offer) 6000000000)
    (draft BlockLeaseRenew addrA (b_Hash lease_offer) (999999000 - 2 * price) 60 "XUSD" "" "" price
       (b_Hash lease_offer))).
Definition cancel_block : Block :=
  Eval vm_compute in
  sealed alice (draft BlockLeaseCancel addrA (b_Hash renew_block) (999999000 - price) 70 "XUSD" "" "" 0
    (b_Hash lease_offer)).

Definition at_net (b : Block) : action := Add net_env b true.

(** The first start writes the genesis block; a later one reads the store back. *)
Definition opening_acts : list action :=
  [Start genesis_env; at_net mint_block; at_net send_block; at_net receive_block].
Definition lease_acts : list action := opening_acts ++ [at_net lease_offer; at_net accept_block].
Definition renew_acts : list action := lease_acts ++ [Start net_env; at_net renew_block].

(** A send that states a balance it does not leave *)
Definition poor_send : Block :=
  Eval vm_compute in
  sealed alice (draft BlockSend addrA (b_Hash lease_offer) 7 70 "XUSD" "" addrB 5 "").

(** A cancellation that states a wrong balance *)
Definition wrong_cancel : Block :=
  Eval vm_compute in
  sealed alice (draft BlockLeaseCancel addrA (b_Hash lease_offer) 5 70 "XUSD" "" "" 0 (b_Hash lease_offer)).

Definition cancel_acts : list action := renew_acts ++ [at_net cancel_block].

Definition final_acts : list action := lease_acts ++ [Confirm net_env addrA (b_Hash send_block)].

(** The ledger before a block of the scenario, and the same with alice's first
    three blocks final *)
Definition before_cancel : Ledger := run_actions renew_acts emptyLedger.
Definition after_lease : Ledger := run_actions lease_acts emptyLedger.
Definition final_lease : Ledger := run_actions final_acts emptyLedger.

#[export] Instance block_words_dec b : Decision (block_words b).
Proof. unfold block_words, is_u64, is_i64. apply _. Defined.

#[export] Instance typed_dec (x : action) : Decision (typed x).
Proof. destruct x; simpl; try apply _. destruct (LoadGenesisBlock e); apply _. Defined.

Lemma cancel_words : Forall typed cancel_acts.
Proof. by_dec. Qed.

Lemma renew_words : Forall typed renew_acts.
Proof. pose proof cancel_words as H. by apply Forall_app in H as [H _]. Qed.

Lemma lease_words : Forall typed lease_acts.
Proof. pose proof renew_words as H. by apply Forall_app in H as [H _]. Qed.

Lemma final_words : Forall typed final_acts.
Proof. apply Forall_app. split; [apply lease_words|by repeat constructor]. Qed.

Lemma before_cancel_inv : ledger_inv before_cancel.
Proof. apply run_actions_inv; [apply renew_words|by vm_compute]. Qed.

Lemma after_lease_inv : ledger_inv after_lease.
Proof. apply run_actions_inv; [apply lease_words|by vm_compute]. Qed.

Lemma final_lease_inv : ledger_inv final_lease.
Proof. apply run_actions_inv; [apply final_words|by vm_compute]. Qed.
