(* ===== verification/LedgerTheorems.v ===== *)
(** * The theorems about the ledger, with concrete instances

    Statements for any sequence of starts, [AddBlock] and [AddSyncedBlock]
    calls and confirmations from an empty store, and for one call on any well-formed ledger; each is
    instantiated on the network of [Scenario.v]. *)
From S2P Require Import Prelude GoLib Types Encoding LeaseMath Crypto Multisig Attestation Genesis Reputation Store Ledger Rollback Handlers Restart AddBlock Quorum LedgerSpec LedgerCommit LedgerRules LedgerCalls LedgerUndo LedgerHistory LedgerRestart LedgerRefine LedgerTrace LedgerReorg LedgerSafety LedgerAuth Scenario.

Section theorems.
Context `{C : Crypto} `{CL : !CryptoLaws C}.

(** C1: conservation of value.  After any sequence of actions, accepted or
    refused, the XE on all chains and in flight is exactly what the genesis,
    settlement and burn blocks on the chains account for, and the XUSD on all
    chains and in flight never exceeds what the mint blocks on the chains issued, nor
    the sum of the mint blocks offered in the sequence (which must be below 2^64). *)
Theorem reachable_supply acts :
  Forall typed acts → mints acts < two64 →
  let s := store (run_actions acts emptyLedger) in
  circulating s "XE" + in_flight s "XE" = issued xe_issue s ∧
  circulating s "XUSD" + in_flight s "XUSD" <= issued xusd_issue s ∧
  circulating s "XUSD" + in_flight s "XUSD" <= mints acts.
Proof.
  intros Hw Hm s. destruct (run_actions_inv acts Hw Hm) as [HL Hs].
  split_and!; [apply (inv_xe _ HL)|apply (inv_xusd _ HL)|exact Hs].
Qed.

(** C4: voting weight is stake.  After any sequence of actions the weight of every
    representative is the sum of the XE balances of the accounts whose latest
    named representative it is, no subtraction of weight ever underflowed, and
    the delegations held in memory are those persisted in the store. *)
Theorem reachable_weights acts rep :
  Forall typed acts → mints acts < two64 → rep ≠ "" →
  let L := run_actions acts emptyLedger in
  get_weight (weights L) rep =
    map_sum (λ _ c, if chain_rep c =?s rep then assetBalanceOnChain (Some c) "XE" else 0)
      (chains (store L)) ∧
  delegationUnderflow L = 0 ∧ delegations (store L) = delegation L.
Proof.
  intros Hw Hm Hr L. destruct (run_actions_inv acts Hw Hm) as [HL _].
  split_and!; [by apply (inv_weights _ HL)|apply (inv_underflow _ HL)|apply (inv_delegations _ HL)].
Qed.

(** C5: the chain of every account is a hash chain.  After any sequence of actions
    each chain starts at an opening block, every block names the hash of the one
    before it and is not older, hashes do not repeat, the stored frontier is the
    last hash, and the balance held in memory is the last one the chain states. *)
Theorem reachable_chains acts a c asset :
  Forall typed acts → mints acts < two64 →
  let L := run_actions acts emptyLedger in
  chains (store L) !! a = Some c → IsValidAsset asset = true →
  linked "0" c ∧ (∀ b, head c = Some b → opening (b_Type b)) ∧
  Sorted (λ x y, b_Timestamp x <= b_Timestamp y) c ∧ NoDup (b_Hash <$> c) ∧
  frontiers (store L) !! a = Some (Frontier c) ∧
  (∀ b, b ∈ c → b_Account b = a ∧ blocks (store L) !! b_Hash b = Some b) ∧
  getAssetBalance L a asset = assetBalanceOnChain (Some c) asset.
Proof.
  intros Hw Hm L Hc Hv. destruct (run_actions_inv acts Hw Hm) as [HL _]. fold L in HL.
  destruct (inv_chains L HL a c Hc). rewrite (inv_balances L HL), Hc by done.
  split_and!; eauto.
Qed.

(** C6: every transfer is exact, and delivered once.  On every chain of a reachable
    ledger the balance a send, receive, burn or mint states is, as an integer, the
    balance before it minus or plus the amount, where a receive credits the amount
    of the stored block it names, which was addressed to its account.  What is
    pending is the trace of a stored block, a send with exactly its amount.  And a
    send on a chain is pending, or was received on the chain of its destination; no
    block is received twice, on one chain or on two. *)
Theorem reachable_transfers acts :
  Forall typed acts → mints acts < two64 →
  let s := store (run_actions acts emptyLedger) in
  (∀ a c pre b post, chains s !! a = Some c → c = pre ++ b :: post → step_ok (blocks s) pre b) ∧
  (∀ h ps, pending s !! h = Some ps → ∃ x, blocks s !! h = Some x ∧ pending_of x ps) ∧
  (∀ a c b, chains s !! a = Some c → b ∈ c → b_Type b = BlockSend →
     is_Some (pending s !! b_Hash b) ∨
     ∃ c', chains s !! b_Destination b = Some c' ∧ b_Hash b ∈ sources c') ∧
  (∀ a c, chains s !! a = Some c → NoDup (sources c)) ∧
  (∀ a a' c c' h, chains s !! a = Some c → chains s !! a' = Some c' → h ∈ sources c →
     pending s !! h = None ∧ (h ∈ sources c' → a = a')).
Proof.
  intros Hw Hm s. destruct (acts_sound acts Hw Hm) as [HL Hh _]. split_and!.
  - intros a c pre b post Hc E. exact (hi_steps _ Hh a c Hc pre b post E).
  - apply (hi_pending _ Hh).
  - intros a c b Hc Hb Ht. destruct (pending s !! b_Hash b) eqn:Hp; [left; by eexists|right]. by eapply (hi_spent _ Hh).
  - apply (hi_once _ Hh).
  - intros a a' c c' h Hc Hc' Hs. split; [exact (hi_taken _ Hh a c h Hc Hs)|]. intros Hs'. by eapply (source_unique _ HL Hh).
Qed.

(** C2: [addBlock] implements the rules of the protocol.  On a well-formed ledger
    a call either leaves everything the accounting reads as it was (a refused
    cancellation may have unwound a non-final acceptance), or it succeeds, the
    block was new, and the ledger is the one the rule for the block's type
    prescribes. *)
Theorem addBlock_refines e b skip L r L' :
  ledger_inv L → block_words b → supply (store L) "XUSD" < two64 →
  addBlock e b skip L = (r, L') → outcome e skip L (prepared b) r L'.
Proof. intros. by eapply addBlock_outcome. Qed.

(** C3: what a call does to the supply.  Either no block is stored and the supply
    of both assets is unchanged, or the block is stored and the supply of each
    asset changes by exactly what its type allows: a mint, a burn, the genesis
    grant, the emission and the burnt escrow of a settlement, the difference
    between price and escrow at a cancellation, and nothing for any other type. *)
Theorem addBlock_supply e b skip L r L' :
  ledger_inv L → block_words b → supply (store L) "XUSD" < two64 →
  addBlock e b skip L = (r, L') →
  blocks (store L') = blocks (store L) ∧
    (∀ asset, IsValidAsset asset = true → supply (store L') asset = supply (store L) asset) ∨
  r = Ok () ∧ blocks (store L) !! b_Hash (prepared b) = None ∧
    blocks (store L') = <[b_Hash (prepared b) := prepared b]> (blocks (store L)) ∧
    ∀ asset, IsValidAsset asset = true →
      supply (store L') asset = supply (store L) asset + moved L (prepared b) asset.
Proof.
  intros HL Hw Hcap H. eapply addBlock_outcome in H; [|done..].
  eapply outcome_facts in H as [_ [H|(? & ? & ? & _ & ?)]]; [by left|by right|done..].
Qed.

(** C20: a refused block changes nothing: when a call fails and the block is not a
    lease cancellation, chains, balances, pending sends, leases, delegations and
    weights are untouched. *)
Theorem addBlock_error_atomic e b skip L err L' :
  ledger_inv L → block_words b → supply (store L) "XUSD" < two64 →
  b_Type b ≠ BlockLeaseCancel → addBlock e b skip L = (Err err, L') → L' ≈ L.
Proof.
  intros HL Hw Hcap Ht H. eapply addBlock_outcome in H; [|done..].
  destruct H as [[[H|(Hc & _)] _]|(H & _)]; [done| |discriminate].
  destruct Ht. unfold prepared in Hc. by destruct (attested_type _).
Qed.

(** C13: a send is spent once.  If after some calls a block is stored and nothing
    is pending under its hash, nothing is ever pending under it again. *)
Theorem spent_once before acts h :
  Forall typed (before ++ acts) → mints (before ++ acts) < two64 →
  is_Some (blocks (store (run_actions before emptyLedger)) !! h) →
  pending (store (run_actions before emptyLedger)) !! h = None →
  pending (store (run_actions (before ++ acts) emptyLedger)) !! h = None.
Proof.
  intros Hw Hm [b Hb] Hp. pose proof (run_actions_evolve before acts Hw Hm) as E.
  destruct (pending (store (run_actions (before ++ acts) emptyLedger)) !! h) as [ps|] eqn:Eq; [|done].
  apply (ev_pending _ _ _ E) in Eq as [Hn|[x Hx]]; congruence.
Qed.

(** C14: the life of a lease.  Over any further calls a lease keeps existing and
    its state moves along created, accepted, settled, unfulfilled and cancelled
    (back to created only when an acceptance is unwound); a lease that is
    settled, cancelled or unfulfilled never changes again. *)
Theorem lease_lifecycle before acts h l :
  Forall typed (before ++ acts) → mints (before ++ acts) < two64 →
  leases (store (run_actions before emptyLedger)) !! h = Some l →
  ∃ l', leases (store (run_actions (before ++ acts) emptyLedger)) !! h = Some l' ∧
    rtc lease_step (l_State l) (l_State l') ∧ (Terminal (l_State l) = true → l' = l).
Proof.
  intros Hw Hm Hl. pose proof (run_actions_evolve before acts Hw Hm) as E.
  destruct (ev_leases _ _ _ E h l Hl) as (l' & Hl' & Hmv). by exists l'.
Qed.

(** [addBlock] respects finality: on a well-formed ledger, if the final height
    of an account can be read, the finalized blocks at the beginning of its chain
    are the beginning of its chain after the call, whatever the call does. *)
Theorem addBlock_finality e b skip L r L' a c :
  ledger_inv L → block_words b → supply (store L) "XUSD" < two64 →
  chains (store L) !! a = Some c → fault e (CGetFinalHeight a) = None →
  addBlock e b skip L = (r, L') →
  finalHeight (store L') = finalHeight (store L) ∧
  ∃ c', chains (store L') !! a = Some c' ∧
    take (Z.to_nat (default 0 (finalHeight (store L) !! a))) c `prefix_of` c'.
Proof.
  intros HL Hw Hcap Hc Hf H. assert (evolves (λ a, fault e (CGetFinalHeight a) = None) L L') as E
    by by eapply addBlock_evolves.
  split; [by eapply addBlock_heights|by apply (ev_chains _ _ _ E)].
Qed.

(** C19: only the owner of an account extends its chain: whatever calls came
    before, a block without multisig signatures that a call accepts as new is
    signed, over its hash, by a key that derives the address of its account. *)
Theorem addBlock_authentic acts e b skip L' :
  let L := run_actions acts emptyLedger in
  addBlock e b skip L = (Ok (), L') →
  blocks (store L) !! b_Hash (prepared b) = None → b_Signatures (prepared b) = [] →
  ∃ k, DeriveAddress k = Ok (b_Account (prepared b)) ∧
       VerifyBlockSignatureWith (prepared b) k = Ok ().
Proof.
  intros L H Hn Hs. apply addBlock_keys in H as [_ H]; [by apply H|apply run_actions_keys].
Qed.

(** C16: Finality over the life of the node: across any further actions, restarts
    and confirmations included, in which the final height of an account can be
    read, it does not decrease and the blocks below it stay at the beginning of
    the account's chain. *)
Theorem finality_kept before acts a c :
  Forall typed (before ++ acts) → mints (before ++ acts) < two64 → all_readable acts a →
  let L := run_actions before emptyLedger in
  let L' := run_actions (before ++ acts) emptyLedger in
  chains (store L) !! a = Some c →
  final_height L a <= final_height L' a ∧
  ∃ c', chains (store L') !! a = Some c' ∧ finalized L a c `prefix_of` c'.
Proof.
  intros Hw Hm Hr L L' Hc. pose proof (run_actions_evolve before acts Hw Hm) as E.
  split; [by apply (ev_heights _ _ _ E)|by apply (ev_chains _ _ _ E)].
Qed.

(** C17: A restart succeeds on what the node itself has written, and brings the
    ledger back: over the store of a well-formed ledger that has a genesis chain,
    when the store answers, the constructor returns, and the accounts, balances,
    weights, delegations, pending sends, leases and final heights are those from
    before. *)
Theorem restart_restores e L g x c :
  ledger_inv L → (∀ k, fault e k = None) → LoadGenesisBlock e = Ok g →
  chains (store L) !! b_Account g = Some (x :: c) →
  ∃ L', NewLedger e (store L) = (Ok (ApplyGenesisLeaseTiming (Some x)), L') ∧ ledger_inv L' ∧
    (blocks (store L'), chains (store L'), frontiers (store L'), pending (store L'),
     leases (store L'), finalHeight (store L'), delegation L') =
    (blocks (store L), chains (store L), frontiers (store L), pending (store L),
     leases (store L), finalHeight (store L), delegation L) ∧
    (∀ a asset, IsValidAsset asset = true → getAssetBalance L' a asset = getAssetBalance L a asset) ∧
    (∀ rep, rep ≠ "" → get_weight (weights L') rep = get_weight (weights L) rep).
Proof.
  intros HL Hok Hg Hc. destruct (NewLedger_total e Hok L g x c HL Hg Hc) as [L' H].
  exists L'. split; [exact H|]. eapply restarted_same; [done|done| |exact H]. intros E. by rewrite E in Hc.
Qed.

End theorems.

(** ** Instances *)

Lemma reachable_supply_witness :
  circulating (store (run_actions cancel_acts emptyLedger)) "XE" +
  in_flight (store (run_actions cancel_acts emptyLedger)) "XE" = GenesisSupply.
Proof.
  destruct (reachable_supply cancel_acts cancel_words) as [H _]; [by_run|].
  rewrite H. by_run.
Defined.

Lemma reachable_weights_witness :
  get_weight (weights before_cancel) addrA = GenesisSupply ∧ delegationUnderflow before_cancel = 0.
Proof.
  destruct (reachable_weights renew_acts addrA renew_words) as (H & Hu & _); [by_run|done|].
  split; [|exact Hu]. etrans; [exact H|]. by_run.
Defined.

Lemma reachable_chains_witness :
  linked "0" [receive_block; accept_block] ∧
  getAssetBalance before_cancel addrB "XUSD" =
    assetBalanceOnChain (Some [receive_block; accept_block]) "XUSD".
Proof.
  destruct (reachable_chains renew_acts addrB [receive_block; accept_block] "XUSD" renew_words)
    as (H & _ & _ & _ & _ & _ & Hb); [by_run..|]. by split.
Defined.

Lemma reachable_transfers_witness :
  pending (store before_cancel) !! b_Hash send_block = None ∧
  ∃ amount, b_Balance receive_block = assetBalanceOnChain (Some []) "XUSD" + amount ∧
    taken_from (blocks (store before_cancel)) receive_block amount.
Proof.
  destruct (reachable_transfers renew_acts renew_words) as (Hs & _ & _ & _ & Ht); [by_run|]. split.
  - apply (Ht addrB addrB [receive_block; accept_block] [receive_block; accept_block]); [by_run|by_run|by_dec].
  - apply (Hs addrB [receive_block; accept_block] [] receive_block [accept_block]); [by_run|reflexivity].
Defined.

Lemma addBlock_refines_witness :
  outcome net_env true before_cancel (prepared cancel_block) (Ok ())
    (snd (addBlock net_env cancel_block true before_cancel)).
Proof.
  apply (addBlock_refines net_env cancel_block true before_cancel); [apply before_cancel_inv|..].
  - by_dec.
  - by_run.
  - apply run_result. by_run.
Defined.

Lemma addBlock_supply_witness :
  supply (store (snd (addBlock net_env cancel_block true before_cancel))) "XUSD" =
  supply (store before_cancel) "XUSD" - price.
Proof.
  destruct (addBlock_supply net_env cancel_block true before_cancel (Ok ())
    (snd (addBlock net_env cancel_block true before_cancel))) as [[H _]|(_ & _ & _ & H)];
    [apply before_cancel_inv|by_dec|by_run|apply run_result; by_run| |].
  - assert (size (blocks (store (snd (addBlock net_env cancel_block true before_cancel)))) ≠
            size (blocks (store before_cancel))) as Hn by (vm_compute; discriminate).
    destruct (Hn (f_equal size H)).
  - rewrite (H "XUSD" eq_refl). by_run.
Defined.

Lemma addBlock_error_atomic_witness :
  ∃ err, fst (addBlock net_env poor_send true after_lease) = Err err ∧
    snd (addBlock net_env poor_send true after_lease) ≈ after_lease.
Proof.
  eexists. assert (fst (addBlock net_env poor_send true after_lease) = Err _) as E by by_run.
  split; [exact E|]. apply run_result in E.
  apply (addBlock_error_atomic net_env poor_send true after_lease) in E;
    [exact E|apply after_lease_inv|by_dec|by_run|discriminate].
Defined.

Lemma spent_once_witness :
  pending (store (run_actions (opening_acts ++ [at_net lease_offer; at_net accept_block]) emptyLedger))
    !! b_Hash send_block = None.
Proof.
  apply (spent_once opening_acts [at_net lease_offer; at_net accept_block]); [apply lease_words|..].
  all: vm_compute; try reflexivity. by eexists.
Defined.

Lemma lease_lifecycle_witness :
  ∃ l l', leases (store (run_actions lease_acts emptyLedger)) !! b_Hash lease_offer = Some l ∧
    l_State l = LeaseAccepted ∧
    leases (store (run_actions (lease_acts ++ [at_net renew_block; at_net cancel_block]) emptyLedger))
      !! b_Hash lease_offer = Some l' ∧
    rtc lease_step (l_State l) (l_State l').
Proof.
  eexists. assert (leases (store (run_actions lease_acts emptyLedger)) !! b_Hash lease_offer = Some _)
    as Hl by by_run.
  destruct (λ Hw Hm, lease_lifecycle lease_acts [at_net renew_block; at_net cancel_block] _ _ Hw Hm Hl)
    as (l' & Hl' & Hs & _); [by_dec|by_run|].
  exists l'. split; [exact Hl|]. split; [reflexivity|]. split; [exact Hl'|exact Hs].
Defined.

Lemma addBlock_finality_witness :
  ∃ c', chains (store (snd (addBlock net_env renew_block true final_lease))) !! addrA = Some c' ∧
    [genesis_block; mint_block; send_block] `prefix_of` c'.
Proof.
  destruct (addBlock_finality net_env renew_block true final_lease (Ok ())
    (snd (addBlock net_env renew_block true final_lease)) addrA
    [genesis_block; mint_block; send_block; lease_offer]) as [_ H];
    [apply final_lease_inv|by_dec|by_run..|apply run_result; by_run|].
  assert (finalHeight (store final_lease) !! addrA = Some 3) as Hf by by_run.
  rewrite Hf in H. exact H.
Defined.

Lemma addBlock_authentic_witness :
  ∃ k, DeriveAddress k = Ok addrA ∧ VerifyBlockSignatureWith (prepared cancel_block) k = Ok ().
Proof.
  apply (addBlock_authentic renew_acts net_env cancel_block true
    (snd (addBlock net_env cancel_block true (run_actions renew_acts emptyLedger))));
    [apply run_result|..]; by_run.
Defined.

Lemma finality_kept_witness :
  ∃ c', chains (store (run_actions (final_acts ++ [Start net_env; at_net renew_block]) emptyLedger))
    !! addrA = Some c' ∧ [genesis_block; mint_block; send_block] `prefix_of` c'.
Proof.
  destruct (finality_kept final_acts [Start net_env; at_net renew_block] addrA
    [genesis_block; mint_block; send_block; lease_offer]) as [_ H]; [by_dec|by_run|by repeat constructor|by_run|].
  assert (finalized (run_actions final_acts emptyLedger) addrA
    [genesis_block; mint_block; send_block; lease_offer] = [genesis_block; mint_block; send_block])
    as Hf by by_run.
  rewrite <- Hf. exact H.
Defined.

Lemma restart_restores_witness :
  ∃ L', NewLedger net_env (store before_cancel) = (Ok (ApplyGenesisLeaseTiming (Some genesis_block)), L') ∧
    getAssetBalance L' addrA "XUSD" = 999999000 - 2 * price.
Proof.
  destruct (restart_restores net_env before_cancel genesis_block genesis_block
    [mint_block; send_block; lease_offer; renew_block]) as (L' & H & _ & _ & Hb & _);
    [apply before_cancel_inv|reflexivity|by_run..|].
  exists L'. split; [exact H|]. etrans; [apply Hb; reflexivity|by_run].
Defined.
