(* ===== verification/ReorgTheorems.v ===== *)
(** * The theorems about promotions, with a concrete fork

    What [SwapBlock] does to a well-formed ledger, and what holds after any
    sequence of actions and promotions. *)
From S2P Require Import Prelude GoLib Types Encoding LeaseMath Crypto Multisig Attestation Genesis Reputation Store Ledger Rollback Handlers Restart AddBlock Swap Quorum LedgerSpec LedgerCommit LedgerRules LedgerCalls LedgerUndo LedgerHistory LedgerPlan LedgerRestart LedgerRefine LedgerTrace LedgerSwap LedgerReorg Scenario.

Section theorems.
Context `{C : Crypto} `{CL : !CryptoLaws C}.

(** C7: Conservation across reorganisations.  After any sequence of calls, restarts,
    confirmations and promotions, where each promotion replaces a send, receive, burn
    or mint by a block that was never stored and is not a lease cancellation (and
    opens its chain by an opening type), while the store can read blocks, and the
    mint blocks offered add up to less than 2^64: the XE on all chains and in flight
    is exactly what the blocks on the chains issued, the XUSD at most the sum of the
    mint blocks offered, every representative has the weight delegated to it, and
    every balance in memory is the one its chain states. *)
Theorem reorg_conserves evs :
  all_admissible emptyLedger evs → events_minted evs < two64 →
  let L := run_events evs emptyLedger in
  let s := store L in
  circulating s "XE" + in_flight s "XE" = issued xe_issue s ∧
  circulating s "XUSD" + in_flight s "XUSD" <= issued xusd_issue s ∧
  circulating s "XUSD" + in_flight s "XUSD" <= events_minted evs ∧
  (∀ rep, rep ≠ "" → get_weight (weights L) rep = delegated s rep) ∧
  (∀ a asset, getAssetBalance L a asset = assetBalanceOnChain (chains s !! a) asset).
Proof.
  intros Ha Hm L s. destruct (run_events_sound evs emptyLedger 0 empty_sound Ha Hm) as [HL _ HS].
  split_and!; [apply (inv_xe _ HL)|apply (inv_xusd _ HL)|exact HS|apply (inv_weights _ HL)|
    apply (inv_balances _ HL)].
Qed.

(** C9: What a promotion does, for a winner that was never stored and is not a lease
    cancellation (of an opening type if it opens a chain), in place of a send,
    receive, burn or mint, while the store can read blocks.  If it succeeds, it has
    undone the blocks of its plan one after the
    other and made the winner's write on the rest: the ledger is well formed, the
    replaced block is no longer on its chain, the winner ends the chain of its
    account, and every other chain is a beginning of what it was. *)
Theorem SwapBlock_promotes e L account oldHash nb L' :
  ledger_inv L → history (store L) → supply (store L) "XUSD" < two64 →
  (∀ h, fault e (CGetBlock h) = None) → promotable L oldHash nb →
  SwapBlock e account oldHash (b_Hash nb) nb L = (Ok (), L') →
  ledger_inv L' ∧ history (store L') ∧ promoted e L account oldHash nb L' ∧
  (∀ x, x ∈ default [] (chains (store L') !! account) → b_Hash x ≠ oldHash) ∧
  (∃ c, chains (store L') !! b_Account nb = Some (c ++ [nb]) ∧
     c `prefix_of` default [] (chains (store L) !! b_Account nb)) ∧
  (∀ a, a ≠ b_Account nb →
     default [] (chains (store L') !! a) `prefix_of` default [] (chains (store L) !! a)).
Proof.
  intros HL Hh Hcap Hf Hp H. apply SwapBlock_ok in H; [|done..].
  destruct (promoted_inv e L account oldHash nb L' (pm_new _ _ _ Hp) H Hcap) as (HL' & Hh' & _).
  pose proof (pm_new _ _ _ Hp) as Hnew. split_and!; [done..| | |].
  - intros x. by apply (promoted_gone e L account oldHash nb L').
  - by apply (promoted_winner e L account oldHash nb L').
  - by apply (promoted_others e L account oldHash nb L').
Qed.

(** C10: No promotion of a winner that was never stored and is not a lease
    cancellation, in place of a send, receive, burn or mint, removes a finalized
    block while the store can read blocks: whatever [SwapBlock] returns, the blocks up
    to the final height of an account, when it can be read, are the beginning of its
    chain afterwards, and the final heights are the same.  A final height that cannot
    be read counts as 0 in the code and protects nothing. *)
Theorem SwapBlock_finality e L account oldHash nb r L' a :
  ledger_inv L → history (store L) → (∀ h, fault e (CGetBlock h) = None) → promotable L oldHash nb →
  fault e (CGetFinalHeight a) = None →
  SwapBlock e account oldHash (b_Hash nb) nb L = (r, L') →
  finalHeight (store L') = finalHeight (store L) ∧
  take (Z.to_nat (default 0 (finalHeight (store L) !! a))) (default [] (chains (store L) !! a))
    `prefix_of` default [] (chains (store L') !! a).
Proof.
  intros HL Hh Hf Hp Hr H. destruct r as [[]|err].
  - apply SwapBlock_ok in H; [|done..]. apply (promoted_final e L account oldHash nb L'); [done|apply Hp|done..].
  - apply SwapBlock_err in H; [|by apply inv_cascade|apply Hp].
    injection H as _ <- _ _ _ <- _. split; [done|]. apply prefix_take.
Qed.

(** C21: A promotion that fails leaves the accounting as it was, unless the winner is
    a lease cancellation: chains, pending sends, balances, leases, delegations and
    weights are the same, and no overlay stays active. *)
Theorem SwapBlock_error_atomic e L account oldHash newHash nb err L' :
  activeCascade L = None → b_Type nb ≠ BlockLeaseCancel →
  SwapBlock e account oldHash newHash nb L = (Err err, L') → L' ≈ L.
Proof. intros Hn Ht H. symmetry. by eapply SwapBlock_err. Qed.

(** C22: Planning terminates.  [rollback_of_send] is the body of the recursion and
    [deepest] stands for calls nested deeper than [fuel]; once [fuel] is the number
    of blocks on the chains plus one, the plan does not depend on [deepest].  So no
    call is ever nested deeper than that, the source's unbounded recursion returns,
    and the model, which bounds it there, returns the same and never the error for
    an exhausted bound. *)
Theorem swap_plan_terminates e L fuel deepest account c idx old :
  chains (store L) !! account = Some c → (enough_fuel L ≤ fuel)%nat →
  swap_plan e (Nat.iter fuel (rollback_of_send e) deepest) account c idx old L =
  swap_plan e (planRollbackOfSend e (enough_fuel L)) account c idx old L.
Proof. apply swap_plan_unfolds. Qed.
End theorems.

(** ** A fork

    Alice's send to Bob has a rival of the same parent.  Bob has received the send
    and spent it on; promoting the rival undoes Bob's chain. *)

Definition onward_block : Block :=
  Eval vm_compute in
  sealed bob (draft BlockSend addrB (b_Hash receive_block) 600 40 "XUSD" "" addrA 400 "").
Definition rival_block : Block :=
  Eval vm_compute in
  sealed alice (draft BlockSend addrA (b_Hash mint_block) 999995000 25 "XUSD" "" addrB 5000 "").
Definition bad_rival : Block :=
  Eval vm_compute in
  sealed alice (draft BlockSend addrA (b_Hash mint_block) 1 25 "XUSD" "" addrB 5000 "").

Definition fork_acts : list action := opening_acts ++ [at_net onward_block].
Definition promotion : event := Promote net_env addrA (b_Hash send_block) rival_block.
Definition fork_events : list event := (Act <$> fork_acts) ++ [promotion].
Notation forked := (run_actions fork_acts emptyLedger).
Notation after_fork := (snd (SwapBlock net_env addrA (b_Hash send_block) (b_Hash rival_block) rival_block forked)).

#[local] Instance new_block_dec L b : Decision (new_block L b).
Proof.
  destruct (decide (blocks (store L) !! b_Hash b = None ∧ b_Hash b ≠ "0" ∧ b_Hash b ≠ "" ∧ block_words b ∧
    IsValidAsset (b_Asset b) = true)) as [(?&?&?&?&?)|H]; [by left|right]. intros [????]. tauto.
Defined.

Lemma fork_words : Forall typed fork_acts.
Proof. by_dec. Qed.

Lemma forked_sound : sound (mints fork_acts) forked.
Proof. apply (acts_sound fork_acts); [apply fork_words|by_run]. Qed.

Lemma rival_promotable b : b_Hash b ≠ b_Hash send_block → new_block forked b → b_Previous b = b_Hash mint_block →
  b_Type b = BlockSend → promotable forked (b_Hash send_block) b.
Proof.
  intros _ Hnew Hp Ht. split; [done| |by rewrite Ht|].
  - rewrite Hp. intros E. apply (f_equal (λ h, h =?s "0")) in E. vm_compute in E. discriminate.
  - intros x Hx. assert (blocks (store forked) !! b_Hash send_block = Some send_block) as Hs by by_run.
    rewrite Hs in Hx. by injection Hx as <-.
Qed.

Lemma rival_ok : promotable forked (b_Hash send_block) rival_block.
Proof. apply rival_promotable; [by_dec|by_dec|done|done]. Qed.

Lemma bad_rival_ok : promotable forked (b_Hash send_block) bad_rival.
Proof. apply rival_promotable; [by_dec|by_dec|done|done]. Qed.

(** ** Instances *)

Lemma reorg_conserves_witness :
  circulating (store (run_events fork_events emptyLedger)) "XUSD" = 999995000 ∧
  circulating (store (run_events fork_events emptyLedger)) "XUSD" +
    in_flight (store (run_events fork_events emptyLedger)) "XUSD" <= 1000000000.
Proof.
  destruct (reorg_conserves fork_events) as (_ & _ & H & _); [|by_run|].
  - apply admissible_app; [apply acts_admissible, fork_words|]. split; [|done]. split; [done|].
    rewrite run_events_acts. exact rival_ok.
  - split; [by_run|]. etrans; [exact H|]. by_dec.
Defined.

Lemma SwapBlock_promotes_witness :
  chains (store forked) !! addrB = Some [receive_block; onward_block] ∧
  chains (store after_fork) !! addrB = None ∧
  ∃ c, chains (store after_fork) !! addrA = Some (c ++ [rival_block]) ∧ ledger_inv after_fork.
Proof.
  destruct (SwapBlock_promotes net_env forked addrA (b_Hash send_block) rival_block after_fork)
    as (HL & _ & _ & _ & (c & Hc & _) & _); [exact (so_inv _ _ forked_sound)|exact (so_history _ _ forked_sound)|by_run|done|exact rival_ok
    |apply run_result; by_run|].
  split; [by_run|]. split; [by_run|]. exists c. split; [exact Hc|exact HL].
Defined.

Lemma SwapBlock_finality_witness :
  [genesis_block] `prefix_of` default [] (chains (store after_fork) !! addrA).
Proof.
  destruct (SwapBlock_finality net_env forked addrA (b_Hash send_block) rival_block (Ok ()) after_fork addrA)
    as [_ H]; [exact (so_inv _ _ forked_sound)|exact (so_history _ _ forked_sound)|done|exact rival_ok|done|apply run_result; by_run|].
  assert (take (Z.to_nat (default 0 (finalHeight (store forked) !! addrA)))
    (default [] (chains (store forked) !! addrA)) = [genesis_block]) as E by by_run.
  rewrite <- E. exact H.
Defined.

Lemma SwapBlock_error_atomic_witness :
  ∃ err, fst (SwapBlock net_env addrA (b_Hash send_block) (b_Hash bad_rival) bad_rival forked) = Err err ∧
    snd (SwapBlock net_env addrA (b_Hash send_block) (b_Hash bad_rival) bad_rival forked) ≈ forked.
Proof.
  eexists. assert (fst (SwapBlock net_env addrA (b_Hash send_block) (b_Hash bad_rival) bad_rival forked) = Err _)
    as E by by_run.
  split; [exact E|]. apply run_result in E.
  apply (SwapBlock_error_atomic net_env forked) in E; [exact E|by_run|discriminate].
Defined.

Lemma swap_plan_terminates_witness :
  fst (swap_plan net_env (Nat.iter 100 (rollback_of_send net_env) (λ _ _, mfail (errorf "too deep"))) addrA
    [genesis_block; mint_block; send_block] 2 send_block forked) =
  Ok [mkStep addrB onward_block; mkStep addrB receive_block; mkStep addrA send_block].
Proof.
  rewrite (swap_plan_terminates net_env forked 100 _ addrA [genesis_block; mint_block; send_block] 2 send_block);
    [by_run|by_run|by_dec].
Defined.
