(* ===== verification/VoteTheorems.v ===== *)
(** * The theorems about votes, with a concrete election

    Two tallies of one election agree, a representative never signs two final
    votes against each other, and the runs of a small network that show what the
    weights of votes do and do not guarantee. *)
From S2P Require Import Prelude GoLib Types Encoding LeaseMath Crypto Multisig Attestation Genesis Reputation Store Ledger Rollback Handlers Restart AddBlock Swap Quorum Vote LedgerSpec LedgerCommit LedgerRules LedgerCalls LedgerUndo LedgerTrace VoteFacts VoteFrame VoteLock Scenario ReorgTheorems.

Section theorems.
Context `{C : Crypto}.

(** C11: Two nodes that tally the same election agree.  Both hold votes with the
    weights of the same snapshot, one final vote for each representative; the
    representatives that vote differently at the two nodes hold less than 34 % of
    the weight.  If both tallies have a result, one block has a quorum at both, and
    each node settles on it unless it cannot promote it. *)
Theorem tally_agreement V1 V2 n1 n2 account previous snap liars r1 n1' r2 n2' :
  election V1 n1 account previous snap → election V2 n2 account previous snap →
  weight_of snap liars * 100 < map_sum (λ _ w, w) snap * 34 →
  (∀ v1 v2, v1 ∈ ballots n1 account previous → v2 ∈ ballots n2 account previous →
     v_Final v1 = true → v_Final v2 = true → RepAccount v1 = RepAccount v2 → RepAccount v1 ∉ liars →
     v_BlockHash v1 = v_BlockHash v2) →
  finalTally V1 account previous n1 = (Ok (Some r1), n1') →
  finalTally V2 account previous n2 = (Ok (Some r2), n2') →
  ∃ h, quorum_of snap (voters V1 n1 account previous h) ∧ quorum_of snap (voters V2 n2 account previous h) ∧
    (qr_WinnerHash r1 = h ∨ ∃ m, qm_promotable V1 account previous h n1 = (Ok false, m)) ∧
    (qr_WinnerHash r2 = h ∨ ∃ m, qm_promotable V2 account previous h n2 = (Ok false, m)).
Proof.
  intros He1 He2 Hl Hag H1 H2. eapply finalTally_ok in H1 as (h1 & Hq1 & Hw1); [|done].
  eapply finalTally_ok in H2 as (h2 & Hq2 & Hw2); [|done].
  destruct (quorum_honest snap (el_natural _ _ _ _ _ He1) _ _ liars Hq1 Hq2 Hl) as (a & Ha1 & Ha2 & Ha).
  apply elem_of_voters in Ha1 as (v1 & Hv1 & Hf1 & <- & Hr1), Ha2 as (v2 & Hv2 & Hf2 & <- & Hr2).
  rewrite <- (Hag v1 v2) in Hq2, Hw2 by congruence. by exists (v_BlockHash v1).
Qed.

(** C12: A final vote is irrevocable.  Along any run of a node that votes with a key
    nobody else signs with, restarts included, its locks never change, and two final
    votes it sends for one position name the same block, unless one of them repeats
    a block that was final there already. *)
Theorem final_votes_irrevocable kp n0 n :
  own_votes kp n0 → rtc (vote_step kp) n0 n →
  finalVotes (store (n_ledger n0)) ⊆ finalVotes (store (n_ledger n)) ∧
  ∃ sent, outbox n = outbox n0 ++ sent ∧
    ∀ v1 v2, EvVote v1 ∈ sent → EvVote v2 ∈ sent →
      v_RepPubKey v1 = PubKeyHex kp → v_RepPubKey v2 = PubKeyHex kp →
      v_Final v1 = true → v_Final v2 = true →
      v_ConflictAccount v1 = v_ConflictAccount v2 → v_ConflictPrev v1 = v_ConflictPrev v2 →
      v_BlockHash v1 = v_BlockHash v2 ∨ was_final kp n0 n v1 ∨ was_final kp n0 n v2.
Proof.
  intros Hown H. apply run_honest in H as [H1 _ (sent & Ho & Hs)]; [|done]. split; [done|].
  exists sent. split; [done|]. intros v1 v2 E1 E2 K1 K2 F1 F2 Ea Ep.
  destruct (Hs v1 E1) as [L1|?]; [|by right; left]. destruct (Hs v2 E2) as [L2|?]; [|by right; right].
  left. specialize (L1 K1 F1). specialize (L2 K2 F2). rewrite Ea, Ep in L1. congruence.
Qed.
End theorems.

(** ** An election

    Alice holds all the stake.  Two nodes have her two sends of one parent, each
    with the other one on its chain. *)

Definition node_of (L : Ledger) : Node := mkNode L 0 0 ∅ ∅ ∅ ∅ ∅ ∅ ∅ false [].
Definition at_time (t : Z) : Env :=
  mkEnv 0 0 "net" t DefaultLeaseTiming
    (Some (Some (mkTimekeeperConfig [PubKeyHex carol] 1))) (Some (Some [addrA])) None
    None None None (Ok genesis_block) false true (λ _, false) (λ _, None).
Definition voting (kp : option KeyPair) (quorum : bool) (t : Z) : VoteEnv :=
  mkVoteEnv (at_time t) kp quorum true None false false false false None elements (λ m, (map_to_list m).*2).

(** A signed vote *)
Definition ballot (kp : KeyPair) (account prev hash : string) (final : bool) : Vote :=
  let v := mkVote (PubKeyHex kp) hash account prev 5000000000 final [] 0 in
  match voteSigningBytes v with
  | Ok sb => with_signature (ed25519_Sign (kp_Private kp) sb) v
  | Err _ => v
  end.

Definition served (V : VoteEnv) (calls : list input) (n : Node) : Node := foldl (λ n i, snd (serve V i n)) n calls.

Definition listening : VoteEnv := voting None false 5000000000.
Definition send_vote : Vote := ballot alice addrA (b_Hash mint_block) (b_Hash send_block) true.
Definition minted : list action := [Start genesis_env; at_net mint_block].
Notation started := (node_of (run_actions minted emptyLedger)).
Notation first_node := (served listening [IAdd send_block true; IAdd rival_block true; IReceive send_vote] started).
Notation second_node := (served listening [IAdd rival_block true; IAdd send_block true; IReceive send_vote] started).


(** A snapshot in which alice has all the weight, her vote, and what both tallies say *)
Definition all_alice : gmap string Z := {[ addrA := GenesisSupply ]}.
Definition counted_vote : Vote := Eval vm_compute in with_weight GenesisSupply send_vote.
Definition send_wins : quorumResult :=
  Eval vm_compute in mkQuorumResult addrA (b_Hash mint_block) (b_Hash send_block) [b_Hash rival_block] 0 0.

Lemma held_conflict n a p c : conflicts (store (n_ledger n)) !! (a, p) = Some c →
  fst (LGetConflict (ve_env listening) a p (n_ledger n)) = Ok (Some c).
Proof. intros E. unfold LGetConflict, mor, mtry, sread. simpl. by rewrite E. Qed.

Lemma alice_election n : ballots n addrA (b_Hash mint_block) = [counted_vote] →
  c_TotalWeight <$> conflicts (store (n_ledger n)) !! (addrA, b_Hash mint_block) = Some GenesisSupply →
  election listening n addrA (b_Hash mint_block) all_alice.
Proof.
  intros Hb Hc. assert (Hs : map_sum (λ _ w, w) all_alice = GenesisSupply) by by_run. split.
  - apply fmap_Some in Hc as (c & Hc & Ht). exists c. split; [|by rewrite Hs, Ht].
    by apply held_conflict.
  - rewrite Hs. by_dec.
  - intros a w H. unfold all_alice in H. apply lookup_singleton_Some in H as [_ <-]. by_dec.
  - rewrite Hb. intros v ->%list_elem_of_singleton _. by_run.
  - rewrite Hb. by_dec.
Qed.

Lemma tally_agreement_witness : ∃ h, quorum_of all_alice (voters listening first_node addrA (b_Hash mint_block) h) ∧
  quorum_of all_alice (voters listening second_node addrA (b_Hash mint_block) h).
Proof.
  assert (H1 : ballots first_node addrA (b_Hash mint_block) = [counted_vote]) by by_run.
  assert (H2 : ballots second_node addrA (b_Hash mint_block) = [counted_vote]) by by_run.
  destruct (tally_agreement listening listening first_node second_node addrA (b_Hash mint_block) all_alice ∅
    send_wins (snd (finalTally listening addrA (b_Hash mint_block) first_node))
    send_wins (snd (finalTally listening addrA (b_Hash mint_block) second_node))) as (h & Hq1 & Hq2 & _).
  - apply alice_election; [exact H1|by_run].
  - apply alice_election; [exact H2|by_run].
  - by_dec.
  - rewrite H1, H2. intros v1 v2 ->%list_elem_of_singleton ->%list_elem_of_singleton. reflexivity.
  - apply run_result. by_run.
  - apply run_result. by_run.
  - exists h. split; [exact Hq1|exact Hq2].
Defined.

(** ** A vote of alice's node

    Her node votes for the mint block; once the candidate has been stable for a
    while it locks it and sends its final vote. *)
Definition early : VoteEnv := voting (Some alice) true 5000000000.
Definition late : VoteEnv := voting (Some alice) true 9000000000.
Notation wakes := (IRedrive (position_key addrA hA0) addrA hA0).
Notation after_first := (snd (serve early (IBlockAdded mint_block) started)).
Notation after_lock := (snd (serve late wakes after_first)).

Lemma started_own : own_votes alice started.
Proof. split; [reflexivity|]. assert (H : votes (store (n_ledger started)) = ∅) by by_run. rewrite H. intros a p v Hv. rewrite lookup_empty in Hv. discriminate Hv. Qed.

Lemma final_votes_irrevocable_witness :
  length (outbox after_lock) = 2%nat ∧ lock_of after_lock addrA hA0 = Some (b_Hash mint_block) ∧
  ∃ sent, outbox after_lock = [] ++ sent ∧ ∀ v1 v2, EvVote v1 ∈ sent → EvVote v2 ∈ sent →
      v_RepPubKey v1 = PubKeyHex alice → v_RepPubKey v2 = PubKeyHex alice →
      v_Final v1 = true → v_Final v2 = true →
      v_ConflictAccount v1 = v_ConflictAccount v2 → v_ConflictPrev v1 = v_ConflictPrev v2 →
      v_BlockHash v1 = v_BlockHash v2 ∨ was_final alice started after_lock v1 ∨ was_final alice started after_lock v2.
Proof.
  split; [by_run|]. split; [by_run|].
  refine (proj2 (final_votes_irrevocable alice started after_lock started_own _)).
  eapply rtc_l; [|apply rtc_once].
  - exists early, (IBlockAdded mint_block), (Ok ()). split; [reflexivity|]. split; [|exact I]. apply run_result. by_run.
  - exists late, wakes, (Ok ()). split; [reflexivity|]. split; [|exact I]. apply run_result. by_run.
Defined.

(** ** Stake that moves votes twice

    Alice has sent Bob 40 % of the XE.  Bob delegates it to Carol, who votes for a
    block of Bob's that moves the delegation to Dave, who votes for it too. *)
Definition dave : KeyPair := KeyPairFromSeed [4].
Definition addrC : string := Eval vm_compute in Address carol.
Definition addrD : string := Eval vm_compute in Address dave.
Definition share : Z := Eval vm_compute in GenesisSupply * 40 / 100.

Definition share_block : Block :=
  Eval vm_compute in sealed alice (draft BlockSend addrA hA0 (GenesisSupply - share) 10 "XE" "" addrB share "").
Definition open_block : Block :=
  Eval vm_compute in sealed bob (draft BlockReceive addrB "0" share 20 "XE" addrC "" 0 (b_Hash share_block)).
Definition move_block : Block :=
  Eval vm_compute in sealed bob (draft BlockSend addrB (b_Hash open_block) (share - 1) 30 "XE" addrD addrA 1 "").

Definition move_vote (kp : KeyPair) : Vote := ballot kp addrB (b_Hash open_block) (b_Hash move_block) true.
Notation watcher := (voting None true 5000000000).
Notation shared := (node_of (run_actions [Start genesis_env; at_net share_block; at_net open_block] emptyLedger)).
Notation after_carol := (served watcher [IReceive (move_vote carol)] shared).
Notation after_move := (served watcher [IAdd move_block true] after_carol).
Notation after_dave := (served watcher [IReceive (move_vote dave)] after_move).

(** The weight of a vote is what its representative has when the vote arrives,
    and is not looked at again.  Stake that moves from one representative to another
    votes twice: here 40 % of the weight makes a block final, with no vote from the
    other 60 %. *)
Example stake_votes_twice :
  get_weight (weights (n_ledger shared)) addrC * 100 = GenesisSupply * 40 ∧
  get_weight (weights (n_ledger shared)) addrA * 100 = GenesisSupply * 60 ∧
  get_weight (weights (n_ledger after_move)) addrC = 0 ∧
  get_weight (weights (n_ledger after_move)) addrD = share - 1 ∧
  finalHeight (store (n_ledger after_move)) !! addrB = None ∧
  finalHeight (store (n_ledger after_dave)) !! addrB = Some 2 ∧
  final_child after_dave addrB (b_Hash open_block) = b_Hash move_block.
Proof. split_and!; by_run. Qed.
