(* ===== verification/Supply.v ===== *)
(** * The supply audit and spendable balances: [core/supply.go],
    [core/spendable.go]

    The auditor walks over all chains, pending sends and leases and compares what
    was created with what it finds.  Other calls may run between its reads: a
    [snapshot] holds the ledger as each read found it. *)
From S2P Require Import Prelude GoLib Types Amount Genesis Store Ledger.

(** ** What a chain contributes *)

Record chainTerms := mkChainTerms {
  ct_frontier : string;
  ct_blockCount : Z;
  ct_genesis : gmap string Z;
  ct_minted : gmap string Z;
  ct_burned : gmap string Z;
  ct_leaseCost : gmap string Z;
  ct_acceptStake : gmap string Z;
  ct_settleEmission : gmap string Z;
  ct_unknownAssets : list string }.

(** [m[k] += v] *)
Definition bump (k : string) (v : Z) (m : gmap string Z) : gmap string Z := <[k := u64_add (default 0 (m !! k)) v]> m.

Definition term_step (c : chainTerms) (b : Block) : chainTerms :=
  let '(mkChainTerms f n g m u lc st em un) := c in
  if negb (IsValidAsset (b_Asset b)) then
    mkChainTerms f n g m u lc st em
      (un ++ [BlockType_string (b_Type b) +:+ " " +:+ shortHash (b_Hash b) +:+ " asset=" +:+ quote (b_Asset b)])
  else match b_Type b with
       | BlockGenesis => mkChainTerms f n (bump (b_Asset b) (b_Balance b) g) m u lc st em un
       | BlockMint => mkChainTerms f n g (bump (b_Asset b) (b_Amount b) m) u lc st em un
       | BlockBurn => mkChainTerms f n g m (bump (b_Asset b) (b_Amount b) u) lc st em un
       | BlockLease => mkChainTerms f n g m u (<[b_Hash b := b_Amount b]> lc) st em un
       | BlockLeaseAccept => mkChainTerms f n g m u lc (<[b_Source b := b_Amount b]> st) em un
       | BlockLeaseSettle => mkChainTerms f n g m u lc st (<[b_Source b := b_Amount b]> em) un
       | _ => c
       end.

Definition termsFromChain (blocks : list Block) : chainTerms :=
  foldl term_step
    (mkChainTerms (default "" (b_Hash <$> last blocks)) (zlen blocks) ∅ ∅ ∅ ∅ ∅ ∅ []) blocks.

(** ** The report *)

(** The fields of [AssetSupply] the walk adds to *)
Inductive term := TGenesis | TMinted | TEmitted | TBurned | TEscrowBurned | TStakeForfeited | TLockedStake | TBalances | TInFlight.
#[global] Instance term_eq_dec : EqDecision term.
Proof. solve_decision. Defined.

Record AssetSupply := mkAssetSupply {
  as_term : term → Z;
  as_Created : Z;
  as_Destroyed : Z;
  as_Observed : Z;
  as_Accounted : Z;
  as_Discrepancy : Z;
  as_Conserved : bool }.

Record SupplyReport := mkSupplyReport {
  sr_GenesisSupply : Z;
  sr_Assets : gmap string AssetSupply;
  sr_Accounts : Z;
  sr_Blocks : Z;
  sr_Leases : Z;
  sr_Pending : Z;
  sr_Conserved : bool;
  sr_Notes : list string;
  sr_Stable : bool;
  sr_Attempts : Z }.

(** The ledger as the reads of a walk find it; [None] is an error of the store. *)
Record snapshot := mkSnapshot {
  sn_before : gmap string string;
  sn_chain : string → option (option AccountChain);
  sn_balances : string → gmap string Z;
  sn_pending : option (list PendingSend);
  sn_leases : option (list Lease);
  sn_after : gmap string string }.

(** The totals of each asset, and whether an addition overflowed *)
Record tally := mkTally { ta_totals : gmap string (term → Z); ta_overflow : bool }.

(** [add(&get(asset).Term, v)] *)
Definition tally_add (asset : string) (t : term) (v : Z) (y : tally) : tally :=
  let a := default (λ _, 0) (ta_totals y !! asset) in
  if u64_add (a t) v <? a t then mkTally (<[asset := a]> (ta_totals y)) true
  else mkTally (<[asset := λ t', if decide (t' = t) then u64_add (a t) v else a t']> (ta_totals y)) (ta_overflow y).

(** One addition for every entry of a map *)
Definition add_all (t : term) (m : gmap string Z) (y : tally) : tally :=
  foldl (λ y kv, tally_add kv.1 t kv.2 y) y (map_to_list m).

(** A walk under way *)
Record walk_state := mkWalk {
  wk_tally : tally;
  wk_notes : list string;
  wk_conserved : bool;
  wk_stable : bool;
  wk_blocks : Z;
  wk_cache : gmap string chainTerms;
  wk_costs : gmap string Z;
  wk_stakes : gmap string Z;
  wk_emissions : gmap string Z }.

Definition with_tally (f : tally → tally) (w : walk_state) : walk_state :=
  mkWalk (f (wk_tally w)) (wk_notes w) (wk_conserved w) (wk_stable w) (wk_blocks w) (wk_cache w) (wk_costs w) (wk_stakes w)
    (wk_emissions w).

(** [rep.Conserved = false], with the notes that say why *)
Definition not_conserved (notes : list string) (w : walk_state) : walk_state :=
  mkWalk (wk_tally w) (wk_notes w ++ notes) false (wk_stable w) (wk_blocks w) (wk_cache w) (wk_costs w) (wk_stakes w)
    (wk_emissions w).

(** A slice of strings as [%v] prints it *)
Definition show_strings (l : list string) : string :=
  "[" +:+ match l with [] => "" | x :: l => foldl (λ acc y, acc +:+ " " +:+ y) x l end +:+ "]".

(** The terms of a chain: the cached ones while its frontier is the same *)
Definition terms_of (sn : snapshot) (cache : gmap string chainTerms) (account frontier : string) : chainTerms * bool :=
  let fresh := termsFromChain (default [] (default None (sn_chain sn account))) in
  match cache !! account with
  | Some c => if ct_frontier c =?s frontier then (c, true) else (fresh, ct_frontier fresh =?s frontier)
  | None => (fresh, ct_frontier fresh =?s frontier)
  end.

Definition walk_account (sn : snapshot) (w : walk_state) (kv : string * string) : walk_state :=
  let '(account, frontier) := kv in
  let '(c, stable) := terms_of sn (wk_cache w) account frontier in
  let w := mkWalk (wk_tally w) (wk_notes w) (wk_conserved w) (wk_stable w && stable) (wk_blocks w + ct_blockCount c)
             (<[account := c]> (wk_cache w)) (ct_leaseCost c ∪ wk_costs w) (ct_acceptStake c ∪ wk_stakes w)
             (ct_settleEmission c ∪ wk_emissions w) in
  let w := with_tally (λ y, add_all TBurned (ct_burned c) (add_all TMinted (ct_minted c) (add_all TGenesis (ct_genesis c) y))) w in
  let w := if bool_decide (ct_unknownAssets c = []) then w
           else not_conserved ["account " +:+ shortAddr account +:+ " holds block(s) with an unsupported asset: "
                               +:+ show_strings (ct_unknownAssets c)] w in
  with_tally (add_all TBalances (sn_balances sn account)) w.

Definition walk_pending (w : walk_state) (p : PendingSend) : walk_state :=
  if negb (IsValidAsset (ps_Asset p)) then
    not_conserved ["pending send " +:+ shortHash (ps_SendHash p) +:+ " carries an unsupported asset " +:+ quote (ps_Asset p)] w
  else with_tally (tally_add (ps_Asset p) TInFlight (ps_Amount p)) w.

Definition walk_emission (w : walk_state) (kv : string * Z) : walk_state :=
  let '(h, em) := kv in
  let w := with_tally (tally_add "XE" TEmitted em) w in
  match wk_costs w !! h with
  | Some cost => with_tally (tally_add "XUSD" TEscrowBurned cost) w
  | None => not_conserved ["settle for lease " +:+ shortHash h
                           +:+ " has no lease block in the census; escrow unaccounted"] w
  end.

(** The stake of an acceptance that is not settled; [unplaceable] are those
    without a lease. *)
Definition walk_stake (byHash : gmap string Lease) (st : walk_state * list string) (kv : string * Z)
    : walk_state * list string :=
  let '(w, unplaceable) := st in
  let '(h, stake) := kv in
  match wk_emissions w !! h with
  | Some _ => (w, unplaceable)
  | None =>
      match byHash !! h with
      | None => (not_conserved [] w, unplaceable ++ [shortHash h])
      | Some lease =>
          (with_tally (tally_add "XUSD" (if (l_State lease =?s LeaseAccepted) && negb (l_Settled lease)
                                         then TLockedStake else TStakeForfeited) stake) w, unplaceable)
      end
  end.

Definition walk_stakes (byHash : gmap string Lease) (w : walk_state) : walk_state :=
  let '(w, unplaceable) := foldl (walk_stake byHash) (w, []) (map_to_list (wk_stakes w)) in
  if bool_decide (unplaceable = []) then w
  else not_conserved [FormatInt (zlen unplaceable) +:+ " accept stake(s) have no lease record and cannot be classified: "
                      +:+ show_strings (sort_strings unplaceable)] w.

Definition walk_expired (w : walk_state) (l : Lease) : walk_state :=
  if l_State l =?s LeaseExpired then with_tally (tally_add "XUSD" TEscrowBurned (l_Cost l)) w else w.

(** The comparison of the frontiers before and after *)
Definition same_frontiers (before after : gmap string string) : bool :=
  (size after =? size before)%nat && forallb (λ kv, default ""%string (before !! kv.1) =?s kv.2) (map_to_list after).

(** [sumU64]: the sum and whether it overflowed *)
Definition sumU64 (vs : list Z) : Z * bool :=
  (fix go (total : Z) (vs : list Z) := match vs with
     | [] => (total, false)
     | v :: vs => if u64_add total v <? total then (two64 - 1, true) else go (u64_add total v) vs
     end) 0 vs.

Definition signedDelta (a b : Z) : Z :=
  if b <=? a then Z.min (a - b) (2 ^ 63 - 1)
  else if b - a <=? 2 ^ 63 - 1 then - (b - a) else - 2 ^ 63.

Definition asset_supply (a : term → Z) : AssetSupply * bool :=
  let '(created, o1) := sumU64 [a TGenesis; a TMinted; a TEmitted] in
  let '(destroyed, o2) := sumU64 [a TBurned; a TEscrowBurned; a TStakeForfeited] in
  let '(observed, o3) := sumU64 [a TBalances; a TInFlight] in
  let '(accounted, o4) := sumU64 [observed; a TLockedStake; destroyed] in
  (mkAssetSupply a created destroyed observed accounted (signedDelta accounted created) (accounted =? created),
   o1 || o2 || o3 || o4).

(** A store that fails to answer has nothing pending and no leases. *)
Definition GetAllPending (answer : option (list PendingSend)) : list PendingSend := default [] answer.
Definition allLeases (answer : option (list Lease)) : list Lease := default [] answer.

(** What is left to do once all is counted *)
Definition conclude (sn : snapshot) (w : walk_state) : SupplyReport :=
  let pend := GetAllPending (sn_pending sn) in
  let leases := allLeases (sn_leases sn) in
  let stable := wk_stable w && same_frontiers (sn_before sn) (sn_after sn) in
  let assets := asset_supply <$> ta_totals (wk_tally w) in
  let results := (map_to_list assets).*2 in
  let overflow := ta_overflow (wk_tally w) || existsb snd results in
  mkSupplyReport GenesisSupply (fst <$> assets) (Z.of_nat (size (sn_before sn))) (wk_blocks w) (zlen leases) (zlen pend)
    (wk_conserved w && forallb (λ a, as_Conserved a.1) results && negb overflow && stable)
    (wk_notes w
     ++ (if overflow then ["supply arithmetic overflowed uint64; totals are not trustworthy"] else [])
     ++ (if stable then []
         else ["frontier set moved during the walk; the snapshot is torn and the identity was not evaluated"]))
    stable 0.

Definition walk (sn : snapshot) (cache : gmap string chainTerms) : SupplyReport * gmap string chainTerms :=
  let w := mkWalk (mkTally ∅ false) [] true true 0 cache ∅ ∅ ∅ in
  let w := foldl (walk_account sn) w (map_to_list (sn_before sn)) in
  let w := foldl walk_pending w (GetAllPending (sn_pending sn)) in
  let w := foldl walk_emission w (map_to_list (wk_emissions w)) in
  let leases := allLeases (sn_leases sn) in
  let w := walk_stakes (foldl (λ m l, <[l_LeaseHash l := l]> m) ∅ leases) w in
  let w := foldl walk_expired w leases in
  (conclude sn w, wk_cache w).

(** ** The auditor *)

Definition with_attempts (n : Z) (r : SupplyReport) : SupplyReport :=
  mkSupplyReport (sr_GenesisSupply r) (sr_Assets r) (sr_Accounts r) (sr_Blocks r) (sr_Leases r) (sr_Pending r) (sr_Conserved r)
    (sr_Notes r) (sr_Stable r) n.

(** [compute]: up to [supplyMaxAttempts] walks, each with what it finds *)
Fixpoint compute (attempt : Z) (sns : list snapshot) (cache : gmap string chainTerms) (last : option SupplyReport)
    : option SupplyReport * gmap string chainTerms :=
  match sns with
  | [] => (last, cache)
  | sn :: sns =>
      let '(rep, cache) := walk sn cache in
      let rep := with_attempts attempt rep in
      if sr_Stable rep then (Some rep, cache) else compute (attempt + 1) sns cache (Some rep)
  end.

Record SupplyAuditor := mkSupplyAuditor {
  sa_cache : gmap string chainTerms; sa_last : option SupplyReport; sa_lastAt : Z; sa_ttl : Z }.

(** [supplyCacheTTL] is two seconds. *)
Definition NewSupplyAuditor : SupplyAuditor := mkSupplyAuditor ∅ None 0 2000000000.

Definition SetCacheTTL (d : Z) (s : SupplyAuditor) : SupplyAuditor :=
  mkSupplyAuditor (sa_cache s) (sa_last s) (sa_lastAt s) d.

(** [Report] at a time, with the ledgers three attempts would find *)
Definition Report (now later : Z) (sn1 sn2 sn3 : snapshot) (s : SupplyAuditor) : option SupplyReport * SupplyAuditor :=
  match sa_last s with
  | Some rep => if now - sa_lastAt s <? sa_ttl s then (Some rep, s)
                else let '(rep, cache) := compute 1 [sn1; sn2; sn3] (sa_cache s) None in
                     (rep, mkSupplyAuditor cache rep later (sa_ttl s))
  | None => let '(rep, cache) := compute 1 [sn1; sn2; sn3] (sa_cache s) None in
            (rep, mkSupplyAuditor cache rep later (sa_ttl s))
  end.

(** What the reads find when nothing else happens and no read fails, the balances
    in memory being [bal] *)
Definition still_snapshot (bal : string → gmap string Z) (L : Ledger) : snapshot :=
  mkSnapshot (frontiers (store L)) (λ a, Some (chains (store L) !! a)) bal
    (Some (map_to_list (pending (store L))).*2) (Some (map_to_list (leases (store L))).*2) (frontiers (store L)).

Definition GetAssetBalances (L : Ledger) (account : string) : gmap string Z := default ∅ (assetBalances L !! account).
Definition quiet_snapshot (L : Ledger) : snapshot := still_snapshot (GetAssetBalances L) L.

(** ** Spendable balances *)

Section spendable.
Context (e : Env).

Definition FinalizedFrontier (account : string) : LM string :=
  let! fh := FinalHeight e account in
  if fh =? 0 then mret_ ""%string else
  let! chain := mor None (GetAccountChain e account) in
  match chain with
  | None => mret_ ""%string
  | Some c =>
      if zlen c <? i64 fh then mret_ ""%string
      else match c !! Z.to_nat (fh - 1) with
           | Some b => mret_ (b_Hash b)
           | None => mfail (panic "index out of range")
           end
  end.

(** One block: [limit] blocks are final, later ones only take away. *)
Definition spend_step (limit : Z) (st : Z * gmap string Z * gmap string Z) (b : Block) : Z * gmap string Z * gmap string Z :=
  let '(i, out, prev) := st in
  let a := norm_asset (b_Asset b) in
  let p := default 0 (prev !! a) in
  let o := default 0 (out !! a) in
  let out := if i <? limit then <[a := b_Balance b]> out
             else if b_Balance b <? p then <[a := if p - b_Balance b <=? o then o - (p - b_Balance b) else 0]> out
             else out in
  (i + 1, out, <[a := b_Balance b]> prev).

Definition spendable (fh : Z) (c : AccountChain) : gmap string Z :=
  (foldl (spend_step (Z.min (i64 fh) (zlen c))) (0, ∅, ∅) c).1.2.

Definition SpendableBalances (account : string) : LM (gmap string Z) :=
  let! fh := FinalHeight e account in
  if fh =? 0 then mret_ ∅ else
  let! chain := mor None (GetAccountChain e account) in
  mret_ (from_option (spendable fh) ∅ chain).
End spendable.
