(* ===== verification/SupplyInv.v ===== *)
(** * What the supply audit relies on

    An invariant of the ledgers that actions reach while no lease is renewed:
    every settlement ends a lease of its own, every escrow is the price of its
    lease, and the XUSD that left is what the settled leases cost. *)
From S2P Require Import Prelude GoLib Types Encoding LeaseMath Crypto Multisig Attestation Genesis Reputation Store Ledger Rollback Handlers Restart AddBlock Quorum LedgerSpec LedgerCommit LedgerRules LedgerCalls LedgerUndo LedgerRestart LedgerRefine LedgerTrace LedgerSafety.

(** ** Terms of a block *)

Definition genesis_amount (b : Block) : Z := match b_Type b with BlockGenesis => b_Balance b | _ => 0 end.
Definition burn_amount (b : Block) : Z := match b_Type b with BlockBurn => b_Amount b | _ => 0 end.

(** What a settlement contributes, when lease [h] settled for [v] counts [g h v] *)
Definition settle_amount (g : string → Z → Z) (b : Block) : Z :=
  match b_Type b with BlockLeaseSettle => g (b_Source b) (b_Amount b) | _ => 0 end.
Definition emission : string → Z → Z := λ _ v, v.
Definition lease_price (bs : gmap string Block) : string → Z → Z := λ h _, from_option b_Amount 0 (bs !! h).

Definition settled_leases (c : AccountChain) : list string :=
  b_Source <$> filter (λ b, b_Type b = BlockLeaseSettle) c.

(** The assets the types of blocks are about; acceptances stake nothing. *)
Definition block_terms (b : Block) : Prop :=
  match b_Type b with
  | BlockGenesis | BlockBurn => b_Asset b = "XE"
  | BlockMint => b_Asset b = "XUSD"
  | BlockLeaseAccept => b_Amount b = 0
  | _ => True
  end.

(** ** The invariant *)

(** [x] is on the chain of [a]. *)
Definition on_chain (s : StoreState) (a : string) (x : Block) : Prop := ∃ c, chains s !! a = Some c ∧ x ∈ c.

Record audit_inv (n m : Z) (s : StoreState) : Prop := {
  au_blocks : ∀ a x, on_chain s a x → block_terms x;
  au_once : ∀ a c, chains s !! a = Some c → NoDup (settled_leases c);
  au_settled : ∀ a x, on_chain s a x → b_Type x = BlockLeaseSettle →
    ∃ l, leases s !! b_Source x = Some l ∧ l_State l = LeaseSettled ∧ l_Provider l = a;
  au_accepts : ∀ a x, on_chain s a x → b_Type x = BlockLeaseAccept → is_Some (leases s !! b_Source x);
  au_leases : ∀ h l, leases s !! h = Some l → l_State l ≠ LeaseExpired ∧ ∃ a x, on_chain s a x ∧ b_Hash x = h;
  au_pending : ∀ h ps, pending s !! h = Some ps → IsValidAsset (ps_Asset ps) = true ∧
    ∀ b, blocks s !! h = Some b → b_Type b = BlockLease → ps_Amount ps = b_Amount b;
  au_xusd : supply s "XUSD" + issued (settle_amount (lease_price (blocks s))) s = issued xusd_issue s;
  au_minted : issued xusd_issue s <= n;
  au_genesis : issued genesis_amount s <= GenesisSupply;
  au_emitted : issued (settle_amount emission) s <= m }.

Lemma audit_inv_eq n m s s' :
  blocks s = blocks s' → chains s = chains s' → leases s = leases s' → pending s = pending s' →
  audit_inv n m s → audit_inv n m s'.
Proof.
  intros E1 E2 E3 E4 H. destruct H. split; unfold on_chain, supply, circulating, in_flight, issued in *;
    rewrite <- ?E1, <- ?E2, <- ?E3, <- ?E4; done.
Qed.

Lemma audit_inv_core n m L L' : L ≈ L' → audit_inv n m (store L) → audit_inv n m (store L').
Proof. intros E. injection E as E1 E2 E3 E4 E5 EF E6 E7 E8 E9 E10 E11. by apply audit_inv_eq. Qed.

Lemma audit_inv_mono n m n' m' s : n <= n' → m <= m' → audit_inv n m s → audit_inv n' m' s.
Proof. intros ?? H. destruct H. split; try done; lia. Qed.

Lemma issued_ext f g s : (∀ a x, on_chain s a x → f x = g x) → issued f s = issued g s.
Proof.
  intros H. apply map_sum_ext. intros a ch Hch. assert (Hx : ∀ x, x ∈ ch → f x = g x) by (intros x Hx; apply (H a); by exists ch).
  clear Hch. induction ch as [|x ch IH]; [done|]. simpl. rewrite Hx by set_solver. rewrite IH; [done|set_solver].
Qed.

(** *** An acceptance unwound *)
Section unwound.
Context `{C : Crypto} (e : Env) (n m : Z) (L : Ledger) (acc : Block) (c0 : AccountChain) (l : Lease).
Context (HL : ledger_inv L) (HA : audit_inv n m (store L)).
Context (Hc : chains (store L) !! b_Account acc = Some (c0 ++ [acc])) (Ht : b_Type acc = BlockLeaseAccept).
Context (Hl : leases (store L) !! b_Source acc = Some l) (Hst : l_State l = LeaseAccepted).
Notation U := (unwound L acc c0 l).

Lemma unwound_on_chain a x : on_chain (store U) a x → on_chain (store L) a x.
Proof.
  intros (c & Hx & Hin). rewrite (unwound_chains L acc c0 l HL Hc Ht) in Hx.
  apply lookup_insert_Some in Hx as [[<- <-]|[_ Hx]]; [|by exists c].
  exists (c0 ++ [acc]). split; [done|set_solver].
Qed.

Lemma unwound_keeps a x : on_chain (store L) a x → b_Type x ≠ BlockLeaseAccept → on_chain (store U) a x.
Proof.
  intros (c & Hx & Hin) Hne. unfold on_chain. rewrite (unwound_chains L acc c0 l HL Hc Ht).
  destruct (decide (a = b_Account acc)) as [->|]; [|rewrite lookup_insert_ne by done; eauto].
  rewrite lookup_insert_eq. exists c0. split; [done|]. simplify_eq. apply elem_of_app in Hin as [?|Hin]; [done|].
  apply list_elem_of_singleton in Hin as ->. done.
Qed.

Lemma unwound_issued f : f acc = 0 → issued f (store U) = issued f (store L).
Proof. intros Hf. unfold unwound. rewrite undone_issued by done. lia. Qed.

Lemma unwound_blocks : blocks (store U) = blocks (store L).
Proof. apply undone_rest. Qed.

Lemma unwound_pending : pending (store U) = pending (store L).
Proof. unfold unwound. by rewrite undone_pending. Qed.

Lemma unwound_audit : audit_inv n m (store U).
Proof.
  pose proof (unwound_leases L acc c0 l HL Hl) as El.
  split; rewrite ?unwound_blocks, ?unwound_pending.
  - intros a x H%unwound_on_chain. by eapply au_blocks.
  - intros a c. rewrite (unwound_chains L acc c0 l HL Hc Ht).
    intros [[<- <-]|[_ Hx]]%lookup_insert_Some; [|by eapply au_once].
    pose proof (au_once _ _ _ HA _ _ Hc) as H. unfold settled_leases in *.
    rewrite filter_app, fmap_app in H. by apply NoDup_app in H as [? _].
  - intros a x H%unwound_on_chain Hs. destruct (au_settled _ _ _ HA a x H Hs) as (k & Hk & Hks & ?).
    exists k. rewrite El, lookup_insert_ne; [done|]. intros E. rewrite E in Hl. congruence.
  - intros a x H%unwound_on_chain Hs. rewrite El. apply lookup_insert_is_Some'. right. by eapply au_accepts.
  - intros h k Hk. assert (∃ k0, leases (store L) !! h = Some k0 ∧ (l_State k0 ≠ LeaseExpired → l_State k ≠ LeaseExpired)) as (k0 & H0 & Hne).
    { rewrite El in Hk. apply lookup_insert_Some in Hk as [[<- <-]|[_ Hk]]; [by exists l|by exists k]. }
    destruct (au_leases _ _ _ HA h k0 H0) as (H1 & a & x & Hx & Eh). split; [auto|]. exists a, x.
    split; [|done]. apply unwound_keeps; [done|]. destruct (inv_leases L HL _ _ H0) as (_ & _ & y & Hy & Hyt).
    destruct Hx as (c & Hx & Hin). pose proof (ch_stored _ _ _ (inv_chains L HL _ _ Hx) x Hin). congruence.
  - apply (au_pending _ _ _ HA).
  - rewrite !unwound_issued, (unwound_supply L acc c0 l HL Hc Ht) by (done || by unfold settle_amount, xusd_issue; rewrite Ht).
    apply (au_xusd _ _ _ HA).
  - rewrite unwound_issued by (by unfold xusd_issue; rewrite Ht). apply (au_minted _ _ _ HA).
  - rewrite unwound_issued by (by unfold genesis_amount; rewrite Ht). apply (au_genesis _ _ _ HA).
  - rewrite unwound_issued by (by unfold settle_amount; rewrite Ht). apply (au_emitted _ _ _ HA).
Qed.
End unwound.

(** *** The write of a rule *)
Section commit.
Context `{C : Crypto} (e : Env) (skip : bool) (n m : Z) (L : Ledger) (b : Block) (c : BlockCommit).
Context (HL : ledger_inv L) (HA : audit_inv n m (store L)) (Hnew : new_block L b) (Hacc : accepts e skip L b c).
Context (Hcap : supply (store L) "XUSD" < two64) (Hrn : b_Type b ≠ BlockLeaseRenew).
Notation L' := (apply_commit c L).

Let Hap : appends L b c.
Proof. exact (accepts_appends e skip L b c HL Hacc). Qed.

Lemma commit_on_chain a x :
  on_chain (store L') a x ↔ on_chain (store L) a x ∨ a = b_Account b ∧ x = b.
Proof.
  unfold on_chain. rewrite (commit_chains L b c Hap). unfold chain_of. split.
  - intros (ch & [[<- <-]|[_ Hx]]%lookup_insert_Some & Hin); [|by eauto].
    apply elem_of_app in Hin as [Hin|Hin]; [left|apply list_elem_of_singleton in Hin as ->; by right].
    destruct (chains (store L) !! b_Account b); [by eauto|]. by apply elem_of_nil in Hin.
  - destruct (decide (a = b_Account b)) as [->|Hne].
    + rewrite lookup_insert_eq. intros [(ch & Hx & Hin)|[_ ->]]; eexists; (split; [done|]); [|set_solver].
      rewrite Hx. set_solver.
    + rewrite lookup_insert_ne by done. by intros [?|[-> _]].
Qed.

Lemma accepts_terms : block_terms b.
Proof.
  unfold block_terms. destruct Hacc; match goal with H : b_Type b = _ |- _ => rewrite H end; try done.
  by apply genesis_facts.
Qed.

(** Settled and unexpired leases stay so, and a new one has its block. *)
Lemma commit_lease_back h l' : leases (store L') !! h = Some l' →
  (∃ l, leases (store L) !! h = Some l ∧ lease_moves l l') ∨ h = b_Hash b ∧ l_State l' = LeaseCreated.
Proof.
  rewrite commit_leases_eq. intros Hl'. destruct (leases (store L) !! h) as [l|] eqn:Hl.
  - left. exists l. split; [done|].
    destruct (commit_leases_move e skip L b c HL Hnew Hacc h l Hl) as (l0 & H0 & Hm). by simplify_eq.
  - right. assert (Hno : ∀ st l, lease_in L b st l → h ≠ b_Source b) by (intros st l [Hx _] ->; congruence).
    destruct Hacc; try congruence; unfold commit_leases in Hl'; simpl in Hl'; rewrite ?when_id_empty in Hl';
      rewrite ?when_id_set in Hl' by (done || match goal with H : lease_block _ _ _ |- _ => by destruct H end); try congruence;
      try (rewrite lookup_alter_ne in Hl' by (by apply not_eq_sym; eauto); congruence).
    + apply lookup_insert_Some in Hl' as [[<- <-]|[_ ?]]; [done|congruence].
    + apply lookup_insert_Some in Hl' as [[Eh _]|[_ ?]]; [|congruence].
      edestruct Hno; eauto.
Qed.

Lemma lease_moves_unexpired l l' : lease_moves l l' → l_State l ≠ LeaseExpired → l_State l' ≠ LeaseExpired.
Proof.
  intros [Hr _] Hne. apply rtc_inv_r in Hr as [E|(s & _ & Hs)]; [congruence|].
  intros E. rewrite E in Hs. inversion Hs.
Qed.

Lemma commit_lease_kept h l : leases (store L) !! h = Some l →
  ∃ l', leases (store L') !! h = Some l' ∧ lease_moves l l'.
Proof. rewrite commit_leases_eq. by apply (commit_leases_move e skip L b c). Qed.

(** A settlement ends an accepted lease of its account. *)
Lemma settle_lease : b_Type b = BlockLeaseSettle →
  ∃ l, lease_in L b LeaseAccepted l ∧
    leases (store L') !! b_Source b = Some (lease_with_state LeaseSettled true l) ∧ l_Provider l = b_Account b.
Proof.
  intros Ht. rewrite commit_leases_eq. destruct Hacc; try congruence.
  match goal with H : lease_in _ _ _ ?l |- _ => exists l; split; [done|]; destruct H as [H _] end.
  split; [|done]. unfold commit_leases. simpl. rewrite !when_id_empty, when_id_set, lookup_alter_eq by done.
  match goal with H : leases _ !! _ = _ |- _ => by rewrite H end.
Qed.

Lemma commit_once a ch : chains (store L') !! a = Some ch → NoDup (settled_leases ch).
Proof.
  rewrite (commit_chains L b c Hap). intros [[<- <-]|[_ Hx]]%lookup_insert_Some; [|by eapply au_once].
  unfold settled_leases. rewrite filter_app, fmap_app. unfold chain_of.
  assert (Hold : NoDup (settled_leases (default [] (chains (store L) !! b_Account b)))).
  { destruct (chains (store L) !! _) eqn:E; [by eapply au_once|by apply NoDup_nil]. }
  rewrite filter_cons, filter_nil. case_decide as Ht; [|by rewrite app_nil_r].
  simpl. apply NoDup_app. split_and!; [done| |apply NoDup_singleton].
  intros h Hh E0. apply list_elem_of_singleton in E0 as ->. apply list_elem_of_fmap in Hh as (x & E & [Hxt Hx]%list_elem_of_filter).
  destruct (settle_lease Ht) as (l & [Hl Hst] & _).
  destruct (chains (store L) !! b_Account b) as [ch|] eqn:Ech; [|by apply elem_of_nil in Hx].
  destruct (au_settled _ _ _ HA (b_Account b) x) as (l2 & Hl2 & Hs2 & _); [by exists ch|done|].
  rewrite <- E in Hl2. congruence.
Qed.

Lemma commit_settled a x : on_chain (store L') a x → b_Type x = BlockLeaseSettle →
  ∃ l, leases (store L') !! b_Source x = Some l ∧ l_State l = LeaseSettled ∧ l_Provider l = a.
Proof.
  intros [Hx|[-> ->]]%commit_on_chain Ht.
  - destruct (au_settled _ _ _ HA a x Hx Ht) as (l & Hl & Hs & Hp).
    destruct (commit_lease_kept _ _ Hl) as (l' & Hl' & _ & Hm). rewrite Hm in Hl' by by rewrite Hs. by exists l.
  - destruct (settle_lease Ht) as (l & _ & Hl & Hp). eexists. by split.
Qed.

Lemma commit_accepts a x : on_chain (store L') a x → b_Type x = BlockLeaseAccept → is_Some (leases (store L') !! b_Source x).
Proof.
  intros Hx Ht. enough (is_Some (leases (store L) !! b_Source x)) as [l Hl].
  { destruct (commit_lease_kept _ _ Hl) as (l' & -> & _). done. }
  apply commit_on_chain in Hx as [Hx|[-> ->]]; [by eapply au_accepts|].
  destruct Hacc; try congruence. match goal with H : lease_in _ _ _ _ |- _ => destruct H as [-> _] end. done.
Qed.

Lemma commit_lease_blocks h l : leases (store L') !! h = Some l →
  l_State l ≠ LeaseExpired ∧ ∃ a x, on_chain (store L') a x ∧ b_Hash x = h.
Proof.
  intros [(l0 & Hl & Hm)|[-> Hs]]%commit_lease_back.
  - destruct (au_leases _ _ _ HA h l0 Hl) as (Hne & a & x & Hx & Eh). split; [by eapply lease_moves_unexpired|].
    exists a, x. split; [|done]. apply commit_on_chain. by left.
  - split; [by rewrite Hs|]. exists (b_Account b), b. split; [|done]. apply commit_on_chain. by right.
Qed.

Lemma commit_escrows h ps : pending (store L') !! h = Some ps → IsValidAsset (ps_Asset ps) = true ∧
  ∀ x, blocks (store L') !! h = Some x → b_Type x = BlockLease → ps_Amount ps = b_Amount x.
Proof.
  rewrite commit_pendings, (commit_blocks L b c Hap). intros Hp.
  assert (Hold : pending (store L) !! h = Some ps ∨ h = b_Hash b ∧ IsValidAsset (ps_Asset ps) = true ∧
    (b_Type b = BlockLease → ps_Amount ps = b_Amount b)).
  { pose proof (nb_asset L b Hnew) as Hva. destruct Hacc; try congruence; unfold append, commit_pending in Hp; simpl in Hp;
      rewrite ?when_id_empty in Hp;
      rewrite ?when_id_set in Hp by (done || match goal with H : lease_block _ _ _ |- _ => by destruct H end);
      try by left.
    all: try (apply lookup_delete_Some in Hp as [_ Hp]; by left).
    all: apply lookup_insert_Some in Hp as [[<- <-]|[_ Hp]]; [right|by left]; split_and!; try done; congruence. }
  destruct Hold as [Hold|(-> & Hv & Hb)].
  - destruct (au_pending _ _ _ HA h ps Hold) as [Hv Ha]. split; [done|]. intros x Hx. apply Ha.
    rewrite lookup_insert_ne in Hx; [done|]. intros <-. by rewrite (fresh_pending L b HL Hnew) in Hold.
  - split; [done|]. intros x. rewrite lookup_insert_eq. by intros [= <-].
Qed.

(** A lease operation on an escrow finds the price of the lease there. *)
Lemma escrow_exact st l ps : lease_in L b st l → pending (store L) !! b_Source b = Some ps →
  escrow_of L (b_Source b) = price_of L (b_Source b).
Proof.
  intros Hl Hp. destruct (lease_source_block L b HL _ _ Hl) as (_ & lb & Hb & Ht).
  unfold escrow_of, price_of. rewrite Hp, Hb. simpl. by apply (au_pending _ _ _ HA _ _ Hp).
Qed.

Lemma price_kept h v : is_Some (leases (store L) !! h) → lease_price (blocks (store L')) h v = lease_price (blocks (store L)) h v.
Proof.
  intros [l Hl]. destruct (inv_leases L HL _ _ Hl) as (_ & _ & x & Hx & _). unfold lease_price.
  by rewrite (stored_kept L b c Hap Hnew _ _ Hx), Hx.
Qed.

Lemma settle_prices :
  issued (settle_amount (lease_price (blocks (store L')))) (store L) = issued (settle_amount (lease_price (blocks (store L)))) (store L).
Proof.
  apply issued_ext. intros a x Hx. unfold settle_amount. destruct (b_Type x) eqn:Ht; try done.
  apply price_kept. destruct (au_settled _ _ _ HA a x Hx Ht) as (l & -> & _). done.
Qed.

Lemma moved_exact : moved L b "XUSD" + settle_amount (lease_price (blocks (store L'))) b = xusd_issue b.
Proof.
  unfold moved, settle_amount, xusd_issue. destruct (b_Type b) eqn:Ht; try done.
  - simpl. lia.
  - rewrite price_kept; unfold lease_price.
    + destruct Hacc; try congruence. simpl. erewrite escrow_exact by done. unfold price_of. lia.
    + destruct (settle_lease Ht) as (l & [-> _] & _). done.
  - destruct Hacc; try congruence. simpl. erewrite escrow_exact by done. lia.
Qed.

Lemma commit_genesis : issued genesis_amount (store L') <= GenesisSupply.
Proof.
  rewrite (issued_after L b c Hap). unfold genesis_amount at 2. destruct (b_Type b) eqn:Ht;
    try (pose proof (au_genesis _ _ _ HA); lia).
  destruct Hacc; try congruence. destruct (genesis_facts b ltac:(done)) as (_ & _ & _ & ->).
  unfold issued. rewrite (empty_chains L HL) by done. rewrite map_sum_empty. lia.
Qed.

Lemma commit_audit : audit_inv (n + xusd_issue b) (m + settle_amount emission b) (store L').
Proof.
  split.
  - intros a x [Hx|[-> ->]]%commit_on_chain; [by eapply au_blocks|apply accepts_terms].
  - apply commit_once.
  - apply commit_settled.
  - apply commit_accepts.
  - apply commit_lease_blocks.
  - apply commit_escrows.
  - rewrite (accepts_supply e skip L b c HL Hnew Hacc Hcap) by done. rewrite !(issued_after L b c Hap), settle_prices.
    pose proof moved_exact. pose proof (au_xusd _ _ _ HA). lia.
  - rewrite (issued_after L b c Hap). pose proof (au_minted _ _ _ HA). lia.
  - apply commit_genesis.
  - rewrite (issued_after L b c Hap). pose proof (au_emitted _ _ _ HA). lia.
Qed.
End commit.

(** ** Any sequence of actions without renewals *)
Section actions.
Context `{C : Crypto} `{CL : !CryptoLaws C}.

Definition renewal_free (x : action) : Prop := match x with Add _ b _ => b_Type b ≠ BlockLeaseRenew | _ => True end.

(** The most XE a sequence of actions can have emitted *)
Definition emits_of (x : action) : Z := match x with Add _ b _ => settle_amount emission b | _ => 0 end.
Definition emits (acts : list action) : Z := foldr (λ x acc, emits_of x + acc) 0 acts.

Lemma emits_snoc acts x : emits (acts ++ [x]) = emits acts + emits_of x.
Proof. unfold emits. induction acts as [|y acts IH]; simpl; lia. Qed.

Lemma emits_of_nonneg x : typed x → 0 <= emits_of x.
Proof.
  destruct x as [e b skip| |]; [|done..]. intros [_ [Ha _]]. simpl. unfold settle_amount, emission.
  by destruct (b_Type b).
Qed.

Lemma prepared_same b :
  b_Type (prepared b) = b_Type b ∧ settle_amount emission (prepared b) = settle_amount emission b.
Proof. unfold prepared, settle_amount, emission. by destruct (attested_type _). Qed.

Lemma judged_audit e b n m L L1 :
  ledger_inv L → audit_inv n m (store L) → judged e b L L1 → audit_inv n m (store L1).
Proof.
  intros HL HA [E|(_ & p & acc & c0 & l & <- & Hc & Ht & <- & Hl & Hst & _ & HU)].
  - eapply audit_inv_core; [by symmetry|done].
  - eapply audit_inv_core; [by symmetry|]. by apply unwound_audit.
Qed.

Lemma add_audit e b skip n m L :
  ledger_inv L → audit_inv n m (store L) → block_words b → b_Type b ≠ BlockLeaseRenew → supply (store L) "XUSD" < two64 →
  audit_inv (n + mint_amount b) (m + settle_amount emission b) (store (run_action L (Add e b skip))).
Proof.
  intros HL HA Hw Hr Hcap. simpl. destruct (addBlock e b skip L) as [r L'] eqn:H. simpl.
  pose proof (minted_nonneg (Add e b skip) Hw) as H1. pose proof (emits_of_nonneg (Add e b skip) Hw) as H2. simpl in H1, H2.
  eapply addBlock_outcome in H; [|done..]. destruct (prepared_same b) as [Et Es].
  destruct H as [[HJ _]|(_ & Hnew & L1 & c & HJ & Ha & HC)].
  - eapply audit_inv_mono; [| |by eapply judged_audit]; lia.
  - destruct (judged_neutral e _ L L1 HJ HL) as (HL1 & HB & _ & HS). eapply audit_inv_core; [by symmetry|].
    rewrite <- (prepared_issue b), <- Es. eapply commit_audit; [done|exact (judged_audit e _ n m L L1 HL HA HJ)|by eapply new_block_blocks|done| |].
    + by rewrite HS.
    + by rewrite Et.
Qed.

Lemma start_audit e n m L :
  ledger_inv L → audit_inv n m (store L) → typed (Start e) → audit_inv n m (store (run_action L (Start e))).
Proof.
  intros HL HA Hw. simpl in *. destruct (NewLedger e (store L)) as [[T|err] L'] eqn:H; [|done].
  pose proof (NewLedger_ok e L T L' HL ltac:(intros g Hg; by rewrite Hg in Hw) H) as H0.
  destruct H0 as [(L2 & Es & HL2 & _ & E)|(Hb & g & L1 & Hg & HL1 & -> & H0)].
  - eapply audit_inv_core; [by symmetry|]. by rewrite Es.
  - rewrite Hg in Hw. destruct (genesis_accepted e L Hb g Hg Hw) as [Hnew Hacc].
    destruct (genesis_facts g (genesis_load e g Hg)) as (Ht & _).
    assert (HA1 : audit_inv (n + xusd_issue g) (m + settle_amount emission g) (store (apply_commit (append (blankLedger (store L)) g) (blankLedger (store L))))).
    { eapply commit_audit; [by apply blank_inv|done..| |by rewrite Ht]. simpl. by rewrite empty_supply. }
    unfold xusd_issue, settle_amount in HA1. rewrite Ht, !Z.add_0_r in HA1.
    destruct H0 as [->| ->]; [done|]. by eapply audit_inv_eq; [..|exact HA1].
Qed.

Lemma confirm_audit e a w n m L :
  audit_inv n m (store L) → audit_inv n m (store (run_action L (Confirm e a w))).
Proof.
  intros HA. simpl. destruct (advance_final e a w L) as [r L'] eqn:H. simpl.
  apply advance_final_ok in H as [->|(h & c & Hc & Hne & -> & _)]; [done|]. by eapply audit_inv_eq; [..|exact HA].
Qed.

Lemma empty_audit : audit_inv 0 0 (store emptyLedger).
Proof.
  split; try done; intros ?? H; try (destruct H as (? & H & _)); simpl in H; by rewrite lookup_empty in H.
Qed.

Lemma run_actions_audit acts :
  Forall typed acts → Forall renewal_free acts → mints acts < two64 →
  audit_inv (mints acts) (emits acts) (store (run_actions acts emptyLedger)).
Proof.
  induction acts as [|x acts IH] using rev_ind; intros Hw Hr Hm; [apply empty_audit|].
  apply Forall_app in Hw as [Hw Hx]. apply Forall_cons in Hx as [Hx _].
  apply Forall_app in Hr as [Hr Hrx]. apply Forall_cons in Hrx as [Hrx _].
  rewrite emits_snoc, mints_snoc, run_actions_snoc in *. pose proof (minted_nonneg _ Hx).
  destruct (run_actions_inv acts) as [HL Hs]; [done|lia|]. specialize (IH Hw Hr ltac:(lia)).
  destruct x as [e b skip|e|e a w]; simpl minted; simpl emits_of; rewrite ?Z.add_0_r.
  - apply add_audit; try done. lia.
  - by apply start_audit.
  - by apply confirm_audit.
Qed.
End actions.
