(* ===== verification/SupplyFacts.v ===== *)
(** * How the supply audit counts

    A walk of the auditor is a sequence of additions: what they add up to when
    none overflows, and what the terms of the chains are. *)
From S2P Require Import Prelude GoLib Types Amount Genesis Store Ledger LedgerSpec LedgerCommit SupplyInv Supply.

(** ** Sums over lists *)

Definition lsum {A} (f : A → Z) (l : list A) : Z := foldr (λ x acc, f x + acc) 0 l.

Lemma lsum_app {A} (f : A → Z) l k : lsum f (l ++ k) = lsum f l + lsum f k.
Proof. unfold lsum. induction l; simpl; lia. Qed.

Lemma lsum_nonneg {A} (f : A → Z) l : (∀ x, x ∈ l → 0 <= f x) → 0 <= lsum f l.
Proof.
  unfold lsum. induction l as [|x l IH]; intros H; [done|]. simpl.
  pose proof (H x ltac:(set_solver)). enough (0 <= lsum f l) by (unfold lsum in *; lia). apply IH. set_solver.
Qed.

Lemma lsum_ext {A} (f g : A → Z) l : (∀ x, x ∈ l → f x = g x) → lsum f l = lsum g l.
Proof.
  unfold lsum. induction l as [|x l IH]; intros H; [done|]. simpl. rewrite (H x) by set_solver.
  f_equal. apply IH. set_solver.
Qed.

Lemma lsum_fmap {A B} (f : B → Z) (h : A → B) l : lsum f (h <$> l) = lsum (λ x, f (h x)) l.
Proof. unfold lsum. induction l as [|x l IH]; [done|]. rewrite fmap_cons. cbn [foldr]. by rewrite IH. Qed.

Lemma lsum_0 {A} (l : list A) : lsum (λ _, 0) l = 0.
Proof. unfold lsum. by induction l. Qed.

Lemma map_sum_list {V} (f : string → V → Z) (m : gmap string V) : map_sum f m = lsum (λ kv, f kv.1 kv.2) (map_to_list m).
Proof.
  unfold map_sum, lsum. rewrite map_fold_foldr. induction (map_to_list m) as [|[k v] l IH]; [done|]. simpl. by rewrite IH.
Qed.

Lemma map_sum_union {V} (f : string → V → Z) (m1 m2 : gmap string V) :
  m1 ##ₘ m2 → map_sum f (m1 ∪ m2) = map_sum f m1 + map_sum f m2.
Proof.
  induction m1 as [|k v m1 Hk IH] using map_ind; intros Hd.
  - rewrite (left_id_L ∅ (∪)), map_sum_empty. lia.
  - apply map_disjoint_insert_l in Hd as [Hk2 Hd]. rewrite <- insert_union_l, !map_sum_insert_fresh, IH; try done; [lia|].
    by rewrite lookup_union_None.
Qed.

(** Summing over a map or over its image *)
Lemma map_sum_fmap {V W} (h : V → W) (f : string → W → Z) (m : gmap string V) :
  map_sum f (h <$> m) = map_sum (λ k v, f k (h v)) m.
Proof.
  induction m as [|k v m Hk IH] using map_ind; [by rewrite fmap_empty, !map_sum_empty|].
  rewrite fmap_insert, !map_sum_insert_fresh, IH; try done. by rewrite lookup_fmap, Hk.
Qed.

(** ** A sequence of additions *)

Definition op : Type := string * term * Z.
Definition tally_op (y : tally) (o : op) : tally := tally_add o.1.1 o.1.2 o.2 y.
Definition total (y : tally) (a : string) (t : term) : Z := default (λ _, 0) (ta_totals y !! a) t.
Definition op_value (a : string) (t : term) (o : op) : Z := if decide (o.1.1 = a ∧ o.1.2 = t) then o.2 else 0.
Definition op_sum (ops : list op) (a : string) (t : term) : Z := lsum (op_value a t) ops.
Arguments op_sum : simpl never.
Arguments total : simpl never.

Lemma op_sum_nonneg ops a t : (∀ o, o ∈ ops → 0 <= o.2) → 0 <= op_sum ops a t.
Proof. intros H. apply lsum_nonneg. intros o Ho. unfold op_value. case_decide; [by apply H|lia]. Qed.

Lemma tally_add_exact y a t v :
  0 <= v → 0 <= total y a t → total y a t + v < two64 →
  ta_overflow (tally_add a t v y) = ta_overflow y ∧
  ∀ a' t', total (tally_add a t v y) a' t' = total y a' t' + op_value a' t' (a, t, v).
Proof.
  intros Hv H0 Hlt. unfold tally_add. fold (total y a t).
  assert (E : u64_add (total y a t) v = total y a t + v) by (apply u64_small; unfold is_u64; lia).
  rewrite E. replace (total y a t + v <? total y a t) with false by (symmetry; apply Z.ltb_ge; lia).
  split; [done|]. intros a' t'. unfold total at 1, op_value. simpl.
  destruct (decide (a' = a)) as [->|Hne].
  - rewrite lookup_insert_eq. simpl. destruct (decide (t' = t)) as [->|Ht].
    + rewrite decide_True by done. reflexivity.
    + rewrite decide_False by naive_solver. unfold total. lia.
  - rewrite lookup_insert_ne, decide_False by naive_solver. unfold total. lia.
Qed.

Lemma tally_ops_exact ops y :
  (∀ o, o ∈ ops → 0 <= o.2) → (∀ a t, 0 <= total y a t) → (∀ a t, total y a t + op_sum ops a t < two64) →
  ta_overflow (foldl tally_op y ops) = ta_overflow y ∧
  ∀ a t, total (foldl tally_op y ops) a t = total y a t + op_sum ops a t.
Proof.
  revert y. induction ops as [|[[a0 t0] v] ops IH]; intros y Hv H0 Hlt.
  { split; [done|]. intros a t. simpl. unfold op_sum, lsum. simpl. lia. }
  assert (Hv0 : 0 <= v) by exact (Hv (a0, t0, v) (list_elem_of_here _ _)).
  assert (Hrest : ∀ o, o ∈ ops → 0 <= o.2) by (intros o Ho; by apply Hv, list_elem_of_further).
  assert (Hcons : ∀ a t, op_sum ((a0, t0, v) :: ops) a t = op_value a t (a0, t0, v) + op_sum ops a t) by done.
  destruct (tally_add_exact y a0 t0 v) as [Ho Ht]; [done..| |].
  { pose proof (Hlt a0 t0) as H. rewrite Hcons in H. unfold op_value in H. rewrite decide_True in H by done.
    simpl in H. pose proof (op_sum_nonneg ops a0 t0 Hrest). lia. }
  simpl. change (tally_op y (a0, t0, v)) with (tally_add a0 t0 v y). rewrite <- Ho.
  destruct (IH (tally_add a0 t0 v y)) as [Ho' Ht']; [done| | |].
  - intros a t. rewrite Ht. pose proof (H0 a t). unfold op_value. case_decide; simpl; lia.
  - intros a t. rewrite Ht. pose proof (Hlt a t) as H. rewrite Hcons in H. lia.
  - split; [done|]. intros a t. rewrite Ht', Ht, Hcons. lia.
Qed.

(** An addition that overflows is noticed, and not forgotten. *)
Lemma tally_sticky ops y : ta_overflow y = true → ta_overflow (foldl tally_op y ops) = true.
Proof.
  revert y. induction ops as [|o ops IH]; intros y H; [done|]. apply IH. unfold tally_op, tally_add. by case_match.
Qed.

Lemma tally_add_overflow y a t v :
  is_u64 v → is_u64 (total y a t) → two64 <= total y a t + v → ta_overflow (tally_add a t v y) = true.
Proof.
  intros Hv Ht Hge. unfold tally_add. fold (total y a t).
  assert (E : u64_add (total y a t) v = total y a t + v - two64).
  { unfold u64_add, u64. rewrite <- (Z.mod_small (total y a t + v - two64) two64) by (unfold is_u64, two64 in *; lia).
    symmetry. rewrite <- (Z_mod_plus_full (total y a t + v - two64) 1 two64). f_equal. lia. }
  rewrite E. replace (total y a t + v - two64 <? total y a t) with true; [done|].
  symmetry. apply Z.ltb_lt. unfold is_u64, two64 in *. lia.
Qed.

Lemma tally_ops_noticed ops y : (∀ o, o ∈ ops → is_u64 o.2) → (∀ a t, is_u64 (total y a t)) →
  ta_overflow (foldl tally_op y ops) = true ∨ ∀ a t, total y a t + op_sum ops a t < two64.
Proof.
  revert y. induction ops as [|[[a0 t0] v] ops IH]; intros y Hv H0.
  { right. intros a t. specialize (H0 a t). unfold op_sum, lsum, is_u64, two64 in *. simpl. lia. }
  pose proof (Hv _ (list_elem_of_here _ _)) as Hv0. simpl in Hv0.
  destruct (Z.lt_ge_cases (total y a0 t0 + v) two64) as [Hlt|Hge].
  - destruct (tally_add_exact y a0 t0 v) as [_ Ht]; [apply Hv0|apply H0|done|].
    destruct (IH (tally_add a0 t0 v y)) as [H|H].
    + intros o Ho. by apply Hv, list_elem_of_further.
    + intros a t. rewrite Ht. specialize (H0 a t). unfold op_value. case_decide as E; simpl in *; [|by rewrite Z.add_0_r].
      destruct E as [-> ->]. unfold is_u64 in *. lia.
    + by left.
    + right. intros a t. specialize (H a t). rewrite Ht in H. change (op_sum ((a0, t0, v) :: ops) a t) with (op_value a t (a0, t0, v) + op_sum ops a t). lia.
  - left. apply (tally_sticky ops (tally_op y (a0, t0, v))). by apply tally_add_overflow.
Qed.

(** *** Additions for the entries of a map *)
Definition map_ops (t : term) (m : gmap string Z) : list op := (λ kv, (kv.1, t, kv.2)) <$> map_to_list m.

Lemma add_all_ops t m y : add_all t m y = foldl tally_op y (map_ops t m).
Proof. unfold add_all, map_ops. revert y. induction (map_to_list m) as [|kv l IH]; intros y; [done|]. apply IH. Qed.

Lemma map_ops_sum t m a t' : op_sum (map_ops t m) a t' = if decide (t = t') then default 0 (m !! a) else 0.
Proof.
  unfold op_sum, map_ops. rewrite lsum_fmap. change (λ x, op_value a t' (x.1, t, x.2)) with (λ kv : string * Z, (λ k v, op_value a t' (k, t, v)) kv.1 kv.2).
  rewrite <- map_sum_list. induction m as [|k v m Hk IH] using map_ind.
  { rewrite map_sum_empty, lookup_empty. by case_decide. }
  rewrite map_sum_insert_fresh, IH by done. unfold op_value. simpl. destruct (decide (t = t')) as [->|Ht].
  - destruct (decide (k = a)) as [->|Hka].
    + rewrite lookup_insert_eq, Hk, decide_True by done. simpl. lia.
    + rewrite lookup_insert_ne, decide_False by naive_solver. lia.
  - rewrite decide_False by naive_solver. lia.
Qed.

Lemma op_sum_app o1 o2 a t : op_sum (o1 ++ o2) a t = op_sum o1 a t + op_sum o2 a t.
Proof. apply lsum_app. Qed.

Lemma op_sum_concat {A} (f : A → list op) l a t : op_sum (concat (f <$> l)) a t = lsum (λ x, op_sum (f x) a t) l.
Proof. induction l as [|x l IH]; [done|]. rewrite fmap_cons. cbn [concat]. rewrite op_sum_app, IH. done. Qed.

(** ** The terms of a chain *)

Definition put_fold (ty : BlockType) (key : Block → string) (c : AccountChain) : gmap string Z :=
  foldl (λ m b, if decide (b_Type b = ty) then <[key b := b_Amount b]> m else m) ∅ c.
Definition bump_fold (ty : BlockType) (val : Block → Z) (c : AccountChain) : gmap string Z :=
  foldl (λ m b, if decide (b_Type b = ty) then bump (b_Asset b) (val b) m else m) ∅ c.

(** The fields are independent of each other. *)
Lemma termsFromChain_fields c : Forall (λ b, IsValidAsset (b_Asset b) = true) c →
  termsFromChain c = mkChainTerms (default "" (b_Hash <$> last c)) (zlen c)
    (bump_fold BlockGenesis b_Balance c) (bump_fold BlockMint b_Amount c) (bump_fold BlockBurn b_Amount c)
    (put_fold BlockLease b_Hash c) (put_fold BlockLeaseAccept b_Source c) (put_fold BlockLeaseSettle b_Source c) [].
Proof.
  unfold termsFromChain, bump_fold, put_fold. generalize (default ""%string (b_Hash <$> last c)), (zlen c). intros f n.
  generalize (∅ : gmap string Z) at 1 7. generalize (∅ : gmap string Z) at 1 6. generalize (∅ : gmap string Z) at 1 5.
  generalize (∅ : gmap string Z) at 1 4. generalize (∅ : gmap string Z) at 1 3. generalize (∅ : gmap string Z).
  induction c as [|b c IH]; intros m1 m2 m3 m4 m5 m6 Hv; [done|].
  apply Forall_cons in Hv as [Hb Hv]. cbn [foldl]. unfold term_step at 2. rewrite Hb. simpl.
  destruct (b_Type b); by rewrite IH.
Qed.

Lemma put_fold_snoc ty key c b : put_fold ty key (c ++ [b]) =
  if decide (b_Type b = ty) then <[key b := b_Amount b]> (put_fold ty key c) else put_fold ty key c.
Proof. unfold put_fold. by rewrite foldl_app. Qed.

Lemma put_fold_Some ty key c h v : put_fold ty key c !! h = Some v →
  ∃ x, x ∈ c ∧ b_Type x = ty ∧ key x = h ∧ v = b_Amount x.
Proof.
  induction c as [|b c IH] using rev_ind; [unfold put_fold; simpl; by intros ?%lookup_empty_Some|]. rewrite put_fold_snoc.
  assert (Hold : put_fold ty key c !! h = Some v → ∃ x, x ∈ c ++ [b] ∧ b_Type x = ty ∧ key x = h ∧ v = b_Amount x).
  { intros (x & Hx & ?)%IH. exists x. split; [set_solver|done]. }
  case_decide; [|done]. intros [[<- <-]|[_ ?]]%lookup_insert_Some; [|auto]. exists b. split; [set_solver|done].
Qed.

Lemma put_fold_is_Some ty key c x : x ∈ c → b_Type x = ty → is_Some (put_fold ty key c !! key x).
Proof.
  induction c as [|b c IH] using rev_ind; intros Hx Ht; [by apply elem_of_nil in Hx|]. rewrite put_fold_snoc.
  apply elem_of_app in Hx as [Hx|Hx].
  - case_decide; [|by apply IH]. apply lookup_insert_is_Some'. right. by apply IH.
  - apply list_elem_of_singleton in Hx as ->. rewrite decide_True by done. by rewrite lookup_insert_eq.
Qed.

Lemma put_fold_sum g c : NoDup (settled_leases c) →
  map_sum g (put_fold BlockLeaseSettle b_Source c) = sum_list (settle_amount g) c.
Proof.
  induction c as [|b c IH] using rev_ind; intros Hn; [done|]. unfold settled_leases in *.
  rewrite filter_app, fmap_app in Hn. apply NoDup_app in Hn as (Hn & Hd & _).
  rewrite put_fold_snoc, sum_list_snoc, <- IH by done. unfold settle_amount.
  destruct (decide (b_Type b = BlockLeaseSettle)) as [Ht|Ht]; [rewrite Ht|destruct (b_Type b); try done; lia].
  rewrite map_sum_insert_fresh; [lia|]. destruct (put_fold _ _ c !! b_Source b) as [v|] eqn:E; [|done].
  apply put_fold_Some in E as (x & Hx & Hxt & Hk & _). exfalso. apply (Hd (b_Source b)).
  - rewrite <- Hk. apply list_elem_of_fmap_2, list_elem_of_filter. done.
  - rewrite filter_cons, decide_True by done. simpl. set_solver.
Qed.

(** What the blocks of a type add for an asset *)
Definition type_amount (ty : BlockType) (val : Block → Z) (asset : string) (b : Block) : Z :=
  if decide (b_Type b = ty ∧ b_Asset b = asset) then val b else 0.

Lemma type_amount_nonneg ty val asset c : (∀ x, x ∈ c → 0 <= val x) → 0 <= sum_list (type_amount ty val asset) c.
Proof.
  intros H. apply (lsum_nonneg (type_amount ty val asset)). intros x Hx. unfold type_amount. case_decide; [by apply H|lia].
Qed.

Lemma bump_fold_exact ty val c : (∀ x, x ∈ c → 0 <= val x) →
  (∀ asset, sum_list (type_amount ty val asset) c < two64) →
  ∀ asset, default 0 (bump_fold ty val c !! asset) = sum_list (type_amount ty val asset) c.
Proof.
  induction c as [|b c IH] using rev_ind; intros Hv Hlt asset; [done|].
  assert (Hc : ∀ x, x ∈ c → 0 <= val x) by set_solver. assert (Hb : 0 <= val b) by (apply Hv; set_solver).
  assert (IH' : ∀ asset, default 0 (bump_fold ty val c !! asset) = sum_list (type_amount ty val asset) c).
  { apply IH; [done|]. intros y. specialize (Hlt y). rewrite sum_list_snoc in Hlt. unfold type_amount at 2 in Hlt.
    case_decide; lia. }
  unfold bump_fold. rewrite foldl_app. fold (bump_fold ty val c). simpl. specialize (Hlt (b_Asset b)).
  rewrite !sum_list_snoc in *. unfold type_amount at 2. unfold type_amount at 2 in Hlt.
  destruct (decide (b_Type b = ty)) as [Ht|Ht]; [|rewrite decide_False by naive_solver; rewrite IH'; lia].
  rewrite decide_True in Hlt by done. unfold bump. rewrite IH'. pose proof (type_amount_nonneg ty val (b_Asset b) c Hc).
  destruct (decide (asset = b_Asset b)) as [->|Hne].
  - rewrite lookup_insert_eq, decide_True by done. simpl. apply u64_small. unfold is_u64. lia.
  - rewrite lookup_insert_ne, decide_False by naive_solver. rewrite IH'. lia.
Qed.

(** ** Unions over the accounts *)
Section unions.
Context {V : Type} (F : string → gmap string V).

Definition unions (m : gmap string V) (l : list string) : gmap string V := foldl (λ m a, F a ∪ m) m l.

Lemma unions_Some l h v : unions ∅ l !! h = Some v → ∃ a, a ∈ l ∧ F a !! h = Some v.
Proof.
  unfold unions. induction l as [|a l IH] using rev_ind; [simpl; by intros ?%lookup_empty_Some|]. rewrite foldl_app. simpl.
  intros [Hx|[_ Hx]]%lookup_union_Some_raw; [exists a; split; [set_solver|done]|].
  destruct (IH Hx) as (a' & ? & ?). exists a'. split; [set_solver|done].
Qed.

Lemma unions_is_Some l h a : a ∈ l → is_Some (F a !! h) → is_Some (unions ∅ l !! h).
Proof.
  unfold unions. induction l as [|a' l IH] using rev_ind; intros Ha Hs; [by apply elem_of_nil in Ha|].
  rewrite foldl_app. simpl. apply lookup_union_is_Some. apply elem_of_app in Ha as [Ha|Ha]; [right; by apply IH|left].
  by apply list_elem_of_singleton in Ha as ->.
Qed.

Lemma unions_sum g l : NoDup l → (∀ a a', a ∈ l → a' ∈ l → a ≠ a' → F a ##ₘ F a') →
  map_sum g (unions ∅ l) = lsum (λ a, map_sum g (F a)) l.
Proof.
  induction l as [|a l IH] using rev_ind; intros Hn Hd; [done|].
  apply NoDup_app in Hn as (Hn & Hna & _). rewrite lsum_app, <- IH; [|done|set_solver].
  unfold unions. rewrite foldl_app. simpl. fold (unions ∅ l). rewrite map_sum_union; [unfold lsum; simpl; lia|].
  apply map_disjoint_spec. intros h x y Hx (a' & Ha' & Hy)%unions_Some.
  eapply (map_disjoint_spec (F a) (F a')); [|done..]. apply Hd; [set_solver..|]. intros ->. apply (Hna a'); set_solver.
Qed.
End unions.

(** ** A walk as a sequence of additions *)
Section walk.
Context (sn : snapshot) (T : string → chainTerms).

Definition account_ops (a : string) : list op :=
  map_ops TGenesis (ct_genesis (T a)) ++ map_ops TMinted (ct_minted (T a)) ++ map_ops TBurned (ct_burned (T a))
  ++ map_ops TBalances (sn_balances sn a).

(** [w'] is [w] after the accounts [l], whose terms are all known and stable. *)
Record walked (l : list string) (w w' : walk_state) : Prop := {
  wd_tally : wk_tally w' = foldl tally_op (wk_tally w) (concat (account_ops <$> l));
  wd_conserved : wk_conserved w' = wk_conserved w;
  wd_stable : wk_stable w' = wk_stable w;
  wd_costs : wk_costs w' = unions (λ a, ct_leaseCost (T a)) (wk_costs w) l;
  wd_stakes : wk_stakes w' = unions (λ a, ct_acceptStake (T a)) (wk_stakes w) l;
  wd_emissions : wk_emissions w' = unions (λ a, ct_settleEmission (T a)) (wk_emissions w) l;
  wd_cache : wk_cache w' = foldl (λ m a, <[a := T a]> m) (wk_cache w) l }.

Lemma walk_account_step w a f :
  terms_of sn (wk_cache w) a f = (T a, true) → ct_unknownAssets (T a) = [] → walked [a] w (walk_account sn w (a, f)).
Proof.
  intros Ht Hu. unfold walk_account. rewrite Ht, bool_decide_true by done. simpl.
  split; simpl; try done; [|by rewrite andb_true_r].
  rewrite app_nil_r. unfold account_ops. rewrite !foldl_app, <- !add_all_ops. done.
Qed.

Lemma walk_accounts l w : NoDup l.*1 →
  (∀ a f, (a, f) ∈ l → terms_of sn (wk_cache w) a f = (T a, true) ∧ ct_unknownAssets (T a) = []) →
  walked l.*1 w (foldl (walk_account sn) w l).
Proof.
  revert w. induction l as [|[a f] l IH]; intros w Hn Hl; [by split|]. rewrite fmap_cons in *. cbn [foldl fst] in *.
  apply NoDup_cons in Hn as [Ha Hn]. destruct (Hl a f (list_elem_of_here _ _)) as [Ht Hu].
  destruct (walk_account_step w a f Ht Hu) as [E1 E2 E3 E4 E5 E6 E7].
  destruct (IH (walk_account sn w (a, f))) as [D1 D2 D3 D4 D5 D6 D7]; [done| |].
  - intros a' f' Hin. destruct (Hl a' f' (list_elem_of_further _ _ _ Hin)) as [Ht' Hu']. split; [|done].
    rewrite E7. simpl. rewrite <- Ht'. unfold terms_of. rewrite lookup_insert_ne; [done|].
    intros <-. apply Ha. apply list_elem_of_fmap. by exists (a, f').
  - split; rewrite ?D2, ?D3, ?E2, ?E3, ?D1, ?D4, ?D5, ?D6, ?D7, ?E1, ?E4, ?E5, ?E6, ?E7; try done.
    rewrite <- foldl_app. cbn [concat fmap list_fmap]. by rewrite app_nil_r.
Qed.
End walk.

Lemma with_tally_compose f g w : with_tally g (with_tally f w) = with_tally (λ y, g (f y)) w.
Proof. done. Qed.

Definition pending_ops (l : list PendingSend) : list op := (λ p, (ps_Asset p, TInFlight, ps_Amount p)) <$> l.

Lemma walk_pendings l w : Forall (λ p, IsValidAsset (ps_Asset p) = true) l →
  foldl walk_pending w l = with_tally (λ y, foldl tally_op y (pending_ops l)) w.
Proof.
  intros Hv. revert w. induction Hv as [|p l Hp Hv IH]; intros w; [by destruct w|].
  cbn [foldl]. rewrite IH. unfold walk_pending. rewrite Hp. done.
Qed.

Definition emission_ops (cost : string → Z) (l : list (string * Z)) : list op :=
  concat ((λ kv, [("XE", TEmitted, kv.2); ("XUSD", TEscrowBurned, cost kv.1)]) <$> l).

Lemma walk_emissions cost l w : (∀ h v, (h, v) ∈ l → wk_costs w !! h = Some (cost h)) →
  foldl walk_emission w l = with_tally (λ y, foldl tally_op y (emission_ops cost l)) w.
Proof.
  revert w. induction l as [|[h v] l IH]; intros w Hc; [by destruct w|].
  cbn [foldl]. unfold walk_emission at 2. cbn [wk_costs with_tally]. rewrite (Hc h v (list_elem_of_here _ _)), IH; [done|].
  intros h' v' Hin. apply (Hc h' v'). by apply list_elem_of_further.
Qed.

(** Stakes of nothing *)
Definition nil_ops (ops : list op) : Prop := Forall (λ o, o.2 = 0) ops.

Lemma nil_ops_sum ops a t : nil_ops ops → op_sum ops a t = 0.
Proof.
  intros H. unfold op_sum. rewrite (lsum_ext _ (λ _, 0)); [apply lsum_0|]. intros o Ho.
  unfold nil_ops in H. rewrite Forall_forall in H. unfold op_value. rewrite (H o Ho). by case_decide.
Qed.

Lemma walk_stake_loop byHash l w u :
  (∀ h v, (h, v) ∈ l → v = 0 ∧ is_Some (byHash !! h)) →
  ∃ ops, nil_ops ops ∧ foldl (walk_stake byHash) (w, u) l = (with_tally (λ y, foldl tally_op y ops) w, u).
Proof.
  revert w. induction l as [|[h v] l IH]; intros w Hl; [exists []; split; [by apply Forall_nil|by destruct w]|].
  destruct (Hl h v (list_elem_of_here _ _)) as [-> [k Hk]].
  assert (Hrest : ∀ h v, (h, v) ∈ l → v = 0 ∧ is_Some (byHash !! h)) by (intros; apply Hl; by apply list_elem_of_further).
  cbn [foldl]. unfold walk_stake at 2. destruct (wk_emissions w !! h); [by apply IH|]. rewrite Hk.
  match goal with |- context [tally_add "XUSD" ?t 0] => set (o := ("XUSD"%string, t, 0) : op);
    destruct (IH (with_tally (tally_add "XUSD" t 0) w) Hrest) as (ops & Ho & ->) end.
  exists (o :: ops). split; [by apply Forall_cons|done].
Qed.

Lemma walk_stakes_nil byHash w :
  (∀ h v, wk_stakes w !! h = Some v → v = 0 ∧ is_Some (byHash !! h)) →
  ∃ ops, nil_ops ops ∧ walk_stakes byHash w = with_tally (λ y, foldl tally_op y ops) w.
Proof.
  intros H. unfold walk_stakes.
  destruct (walk_stake_loop byHash (map_to_list (wk_stakes w)) w []) as (ops & Ho & ->).
  - intros h v Hin%elem_of_map_to_list. by apply H.
  - exists ops. by rewrite bool_decide_true.
Qed.

Lemma walk_expired_none l w : Forall (λ k, l_State k ≠ LeaseExpired) l → foldl walk_expired w l = w.
Proof.
  intros H. revert w. induction H as [|k l Hk H IH]; intros w; [done|]. cbn [foldl]. unfold walk_expired at 2.
  rewrite bool_decide_false by done. apply IH.
Qed.

Lemma by_hash_is_Some (ls : list Lease) (m : gmap string Lease) k : k ∈ ls ∨ is_Some (m !! l_LeaseHash k) →
  is_Some (foldl (λ m l, <[l_LeaseHash l := l]> m) m ls !! l_LeaseHash k).
Proof.
  revert m. induction ls as [|x ls IH]; intros m H; [destruct H as [H|H]; [by apply elem_of_nil in H|done]|].
  cbn [foldl]. apply IH. destruct H as [[->|H]%elem_of_cons|H]; [|by left|]; right.
  - by rewrite lookup_insert_eq.
  - apply lookup_insert_is_Some'. by right.
Qed.

(** ** The verdict *)

Lemma sumU64_exact vs : Forall (λ v, 0 <= v) vs → lsum id vs < two64 → sumU64 vs = (lsum id vs, false).
Proof.
  unfold sumU64. intros Hv Hlt.
  assert (G : ∀ total, 0 <= total → total + lsum id vs < two64 →
    (fix go (total : Z) (vs : list Z) := match vs with
     | [] => (total, false)
     | v :: vs => if u64_add total v <? total then (two64 - 1, true) else go (u64_add total v) vs
     end) total vs = (total + lsum id vs, false)).
  { clear Hlt. induction Hv as [|v vs Hv0 Hv IH]; intros total H0 Ht; [unfold lsum; simpl; f_equal; lia|].
    assert (Hn : 0 <= lsum id vs) by (apply lsum_nonneg; rewrite Forall_forall in Hv; exact Hv).
    change (lsum id (v :: vs)) with (v + lsum id vs) in *.
    assert (E : u64_add total v = total + v) by (apply u64_small; unfold is_u64; lia).
    rewrite E. replace (total + v <? total) with false by (symmetry; apply Z.ltb_ge; lia).
    rewrite IH by lia. f_equal. lia. }
  rewrite G by lia. done.
Qed.

(** A sum that is not flagged did not wrap. *)
Lemma sumU64_noticed vs : Forall is_u64 vs → (sumU64 vs).2 = false → (sumU64 vs).1 = lsum id vs ∧ lsum id vs < two64.
Proof.
  intros Hv Hf. destruct (Z.lt_ge_cases (lsum id vs) two64) as [Hlt|Hge].
  { rewrite sumU64_exact; [done| |done]. eapply Forall_impl; [exact Hv|]. by intros x [? _]. }
  exfalso. revert Hf. apply not_false_iff_true. unfold sumU64. assert (H0 : is_u64 0) by done.
  change (two64 <= 0 + lsum id vs) in Hge. revert H0 Hge. generalize 0 as start.
  induction Hv as [|v vs Hv0 Hv IH]; intros start Hs Hge.
  { unfold lsum, is_u64, two64 in *. simpl in Hge. lia. }
  change (lsum id (v :: vs)) with (v + lsum id vs) in *. destruct (u64_add start v <? start) eqn:E; [done|].
  apply IH; [apply u64_range|]. enough (u64_add start v = start + v) by lia. apply Z.ltb_ge in E.
  unfold u64_add, u64, is_u64 in *. pose proof (Z.div_mod (start + v) two64 ltac:(done)).
  assert ((start + v) / two64 = 0); [|lia]. pose proof (Z.mod_pos_bound (start + v) two64 ltac:(done)).
  unfold two64 in *. lia.
Qed.

(** What was created, and what of it is accounted for *)
Definition made (f : term → Z) : Z := f TGenesis + f TMinted + f TEmitted.
Definition found (f : term → Z) : Z :=
  f TBalances + f TInFlight + f TLockedStake + f TBurned + f TEscrowBurned + f TStakeForfeited.

Lemma asset_supply_exact f : (∀ t, 0 <= f t) → made f < two64 → found f < two64 →
  (asset_supply f).2 = false ∧ as_Conserved (asset_supply f).1 = (found f =? made f).
Proof.
  unfold made, found. intros Hn Hm Hlt. unfold asset_supply.
  pose proof (Hn TGenesis). pose proof (Hn TMinted). pose proof (Hn TEmitted). pose proof (Hn TBurned).
  pose proof (Hn TEscrowBurned). pose proof (Hn TStakeForfeited). pose proof (Hn TBalances). pose proof (Hn TInFlight).
  pose proof (Hn TLockedStake).
  rewrite (sumU64_exact [f TGenesis; f TMinted; f TEmitted]);
    [|repeat (apply Forall_cons; split; [done|]); by apply Forall_nil|unfold lsum, id; simpl; lia].
  rewrite (sumU64_exact [f TBurned; f TEscrowBurned; f TStakeForfeited]);
    [|repeat (apply Forall_cons; split; [done|]); by apply Forall_nil|unfold lsum, id; simpl; lia].
  rewrite (sumU64_exact [f TBalances; f TInFlight]);
    [|repeat (apply Forall_cons; split; [done|]); by apply Forall_nil|unfold lsum, id; simpl; lia].
  rewrite sumU64_exact; [|repeat (apply Forall_cons; split; [unfold lsum, id; simpl; lia|]); by apply Forall_nil|unfold lsum, id; simpl; lia].
  simpl. split; [done|]. unfold lsum, id. simpl. f_equal; lia.
Qed.

Lemma asset_supply_noticed f : (∀ t, is_u64 (f t)) → (asset_supply f).2 = false → as_Conserved (asset_supply f).1 = true →
  found f = made f.
Proof.
  intros Hu. unfold asset_supply.
  assert (Hall : ∀ vs, (∀ v, v ∈ vs → ∃ t, v = f t) → Forall is_u64 vs).
  { intros vs H. apply Forall_forall. intros v (t & ->)%H. apply Hu. }
  pose proof (sumU64_noticed [f TGenesis; f TMinted; f TEmitted]) as H1.
  pose proof (sumU64_noticed [f TBurned; f TEscrowBurned; f TStakeForfeited]) as H2.
  pose proof (sumU64_noticed [f TBalances; f TInFlight]) as H3.
  destruct (sumU64 [f TGenesis; f TMinted; f TEmitted]) as [x1 o1]. destruct (sumU64 [f TBurned; _; _]) as [x2 o2].
  destruct (sumU64 [f TBalances; f TInFlight]) as [x3 o3].
  pose proof (sumU64_noticed [x3; f TLockedStake; x2]) as H4. destruct (sumU64 [x3; f TLockedStake; x2]) as [x4 o4].
  simpl in *. intros Ho Hc. apply orb_false_iff in Ho as [Ho ->]. apply orb_false_iff in Ho as [Ho ->].
  apply orb_false_iff in Ho as [-> ->]. apply Z.eqb_eq in Hc.
  destruct H1 as [-> _]; [apply Hall; set_solver|done|]. destruct H2 as [-> L2]; [apply Hall; set_solver|done|].
  destruct H3 as [-> L3]; [apply Hall; set_solver|done|]. unfold lsum, id in *. simpl in *.
  pose proof (Hu TBurned). pose proof (Hu TEscrowBurned). pose proof (Hu TStakeForfeited). pose proof (Hu TBalances).
  pose proof (Hu TInFlight). pose proof (Hu TLockedStake).
  destruct H4 as [H4 _]; [|done|unfold made, found; lia].
  repeat (apply Forall_cons; split; [unfold is_u64 in *; lia|]). by apply Forall_nil.
Qed.

Lemma same_frontiers_refl m : same_frontiers m m = true.
Proof.
  unfold same_frontiers. rewrite Nat.eqb_refl. apply forallb_forall. intros [a f] Hin.
  apply list_elem_of_In, elem_of_map_to_list in Hin. simpl. rewrite Hin. by rewrite bool_decide_true.
Qed.

(** A walk that counted [S] *)
Lemma conclude_verdict sn w S :
  wk_conserved w = true → wk_stable w = true → ta_overflow (wk_tally w) = false → sn_before sn = sn_after sn →
  (∀ a t, total (wk_tally w) a t = S a t) → (∀ a t, 0 <= S a t) →
  (∀ a, made (S a) < two64) → (∀ a, found (S a) < two64) →
  sr_Stable (conclude sn w) = true ∧ (sr_Conserved (conclude sn w) = true ↔ ∀ a, found (S a) = made (S a)).
Proof.
  intros H1 H2 H3 H4 HS Hn Hm Hlt. unfold conclude. simpl. rewrite H1, H2, H3, <- H4, same_frontiers_refl.
  set (results := (map_to_list (asset_supply <$> ta_totals (wk_tally w))).*2).
  assert (Hall : ∀ x, x ∈ results → ∃ a, x.2 = false ∧ as_Conserved x.1 = (found (S a) =? made (S a))).
  { intros x Hx. apply list_elem_of_fmap in Hx as ([a y] & -> & Hin%elem_of_map_to_list). rewrite lookup_fmap in Hin.
    destruct (ta_totals (wk_tally w) !! a) as [f|] eqn:E; [|done]. injection Hin as <-. exists a.
    assert (Hf : ∀ t, f t = S a t) by (intros t; rewrite <- HS; unfold total; by rewrite E).
    assert (made f = made (S a) ∧ found f = found (S a)) as [<- <-] by (unfold made, found; by rewrite !Hf).
    apply asset_supply_exact; [intros t; rewrite Hf; auto|..]; unfold made, found; rewrite !Hf; [apply Hm|apply Hlt]. }
  assert (Hev : ∀ a, found (S a) ≠ made (S a) → ∃ x, x ∈ results ∧ as_Conserved x.1 = (found (S a) =? made (S a))).
  { intros a Hne. destruct (ta_totals (wk_tally w) !! a) as [f|] eqn:E.
    - exists (asset_supply f). split.
      + apply list_elem_of_fmap. exists (a, asset_supply f). split; [done|]. apply elem_of_map_to_list.
        by rewrite lookup_fmap, E.
      + assert (Hf : ∀ t, f t = S a t) by (intros t; rewrite <- HS; unfold total; by rewrite E).
        assert (made f = made (S a) ∧ found f = found (S a)) as [<- <-] by (unfold made, found; by rewrite !Hf).
        apply asset_supply_exact; [intros t; rewrite Hf; auto|..]; unfold made, found; rewrite !Hf; [apply Hm|apply Hlt].
    - destruct Hne. unfold made, found. rewrite <- !HS. unfold total. by rewrite E. }
  assert (E1 : existsb snd results = false).
  { apply not_true_iff_false. intros (x & Hx & Ht)%existsb_exists. apply list_elem_of_In, Hall in Hx as (a & ? & _). congruence. }
  rewrite E1. cbn [negb andb orb]. rewrite !andb_true_r. split; [done|]. rewrite forallb_forall. split.
  - intros H a. destruct (decide (found (S a) = made (S a))) as [|Hne]; [done|].
    destruct (Hev a Hne) as (x & Hx & E). apply list_elem_of_In, H in Hx. rewrite Hx in E. by apply Z.eqb_eq.
  - intros H x Hx. apply list_elem_of_In, Hall in Hx as (a & _ & ->). apply Z.eqb_eq, H.
Qed.

(** A walk that says all is accounted for, having counted [S], is right, however
    large [S] is. *)
Lemma conclude_sound sn w S : (∀ a t, total (wk_tally w) a t = S a t) → (∀ a t, is_u64 (S a t)) →
  sr_Conserved (conclude sn w) = true → ∀ a, found (S a) = made (S a).
Proof.
  intros HS Hu H a. unfold conclude in H. simpl in H. apply andb_prop in H as [H _]. apply andb_prop in H as [H Ho].
  apply andb_prop in H as [_ Hc]. apply negb_true_iff, orb_false_iff in Ho as [_ Ho].
  destruct (ta_totals (wk_tally w) !! a) as [f|] eqn:E.
  - assert (Hf : ∀ t, f t = S a t) by (intros t; rewrite <- HS; unfold total; by rewrite E).
    assert (Hin : In (asset_supply f) (map_to_list (asset_supply <$> ta_totals (wk_tally w))).*2).
    { apply list_elem_of_In, list_elem_of_fmap. exists (a, asset_supply f). split; [done|]. apply elem_of_map_to_list.
      by rewrite lookup_fmap, E. }
    rewrite forallb_forall in Hc. apply Hc in Hin as Hc'.
    assert (Ho' : (asset_supply f).2 = false).
    { apply not_true_iff_false. intros Ht. apply not_true_iff_false in Ho. apply Ho, existsb_exists. eauto. }
    pose proof (asset_supply_noticed f ltac:(intros t; rewrite Hf; apply Hu) Ho' Hc') as Hfm. unfold found, made in *. by rewrite !Hf in Hfm.
  - unfold found, made. rewrite <- !HS. unfold total. by rewrite E.
Qed.
