(* ===== verification/SupplyAudit.v ===== *)
(** * The supply audit of a ledger

    The terms a walk counts on a well-formed ledger are those the accounting
    knows: what was issued, what is on the chains, what is in flight. *)
From S2P Require Import Prelude GoLib Types Amount Crypto Genesis Store Ledger LedgerSpec LedgerCommit SupplyInv Supply SupplyFacts.

(** ** A frontier determines its chain *)

(** A chain of stored blocks, as an earlier walk may have found it *)
Record stored_chain (bs : gmap string Block) (c : AccountChain) : Prop := {
  sc_linked : linked "0" c;
  sc_stored : ∀ b, b ∈ c → bs !! b_Hash b = Some b ∧ b_Hash b ≠ "0" ∧ IsValidAsset (b_Asset b) = true;
  sc_nonempty : c ≠ [] }.

Lemma stored_chain_prev bs c x y : stored_chain bs (c ++ [x]) → last c = Some y → b_Previous x ≠ "0".
Proof.
  intros [Hl Hs _] Hy. apply linked_snoc in Hl as [_ Hl]. rewrite Hy in Hl. rewrite Hl.
  apply Hs, elem_of_app. left. by eapply last_Some_elem_of.
Qed.

Lemma stored_chain_pop bs c x : stored_chain bs (c ++ [x]) → c ≠ [] → stored_chain bs c.
Proof. intros [Hl Hs _] Hne. split; [by apply linked_snoc in Hl as [? _]| |done]. intros b Hb. apply Hs. set_solver. Qed.

Lemma frontier_determines bs c c' :
  stored_chain bs c → stored_chain bs c' → Frontier c = Frontier c' → c = c'.
Proof.
  revert c'. induction c as [|x c IH] using rev_ind; intros c' H H'; [by destruct (sc_nonempty _ _ H)|].
  destruct c' as [|x' c' _] using rev_ind; [by destruct (sc_nonempty _ _ H')|]. rewrite !Frontier_snoc. intros E.
  destruct (sc_stored _ _ H x) as [Hx _]; [set_solver|]. destruct (sc_stored _ _ H' x') as [Hx' _]; [set_solver|].
  assert (x = x') as <- by congruence. clear E Hx'. f_equal.
  pose proof (sc_linked _ _ H) as Hl. pose proof (sc_linked _ _ H') as Hl'.
  apply linked_snoc in Hl as [_ Hl]. apply linked_snoc in Hl' as [_ Hl'].
  destruct (last c) as [y|] eqn:Ey, (last c') as [y'|] eqn:Ey'.
  - assert (Hc : c ≠ []) by by intros ->. assert (Hc' : c' ≠ []) by by intros ->.
    apply IH; [by eapply stored_chain_pop..|]. unfold Frontier. rewrite Ey, Ey'. congruence.
  - by destruct (stored_chain_prev _ _ _ _ H Ey).
  - by destruct (stored_chain_prev _ _ _ _ H' Ey').
  - apply last_None in Ey, Ey'. congruence.
Qed.

(** Every entry of the cache is about a chain of blocks that are stored. *)
Definition cache_sound (bs : gmap string Block) (cache : gmap string chainTerms) : Prop :=
  ∀ a t, cache !! a = Some t → ∃ c, stored_chain bs c ∧ t = termsFromChain c.

Lemma cache_sound_mono bs bs' cache : bs ⊆ bs' → cache_sound bs cache → cache_sound bs' cache.
Proof.
  intros Hsub H a t Ha. destruct (H a t Ha) as (c & [Hl Hs Hne] & ->). exists c. split; [|done]. split; try done.
  intros b Hb. destruct (Hs b Hb) as (? & ? & ?). split_and!; [|done..]. by eapply lookup_weaken.
Qed.

Lemma terms_frontier bs c : stored_chain bs c → ct_frontier (termsFromChain c) = Frontier c.
Proof.
  intros H. rewrite termsFromChain_fields.
  - simpl. unfold Frontier. destruct (last c) eqn:E; [done|]. apply last_None in E. by destruct (sc_nonempty _ _ H).
  - apply Forall_forall. intros b Hb. by apply (sc_stored _ _ H).
Qed.

(** ** Sums of terms *)

Lemma sum_list_add f g c : sum_list (λ b, f b + g b) c = sum_list f c + sum_list g c.
Proof. unfold sum_list. induction c; simpl; lia. Qed.

Lemma issued_add f g s : issued (λ b, f b + g b) s = issued f s + issued g s.
Proof. unfold issued. rewrite <- map_sum_add. apply map_sum_ext. intros a c _. apply sum_list_add. Qed.

Section audit.
Context (n m : Z) (L : Ledger) (cache : gmap string chainTerms).
Context (HL : ledger_inv L) (HA : audit_inv n m (store L)) (HC : cache_sound (blocks (store L)) cache).
Context (Hn : n < two64) (Hm : GenesisSupply + m < two64).
Notation s := (store L).

Definition chain_at (a : string) : AccountChain := default [] (chains s !! a).
Notation T := (λ a, termsFromChain (chain_at a)).

Lemma chain_stored a c : chains s !! a = Some c → stored_chain (blocks s) c.
Proof.
  intros Hc. destruct (inv_chains L HL a c Hc). split; [done| |done]. intros b Hb. pose proof (ch_stored b Hb) as Hs.
  apply (inv_blocks L HL) in Hs as (_ & ? & _ & _ & ?). auto.
Qed.

Lemma on_chain_block a x : on_chain s a x →
  block_words x ∧ IsValidAsset (b_Asset x) = true ∧ blocks s !! b_Hash x = Some x ∧ block_terms x.
Proof.
  intros Hx. pose proof (au_blocks _ _ _ HA a x Hx). destruct Hx as (c & Hc & Hx).
  destruct (chain_stored a c Hc) as [_ Hs _]. destruct (Hs x Hx) as (Hb & _ & Hv).
  split_and!; [by eapply inv_chain_words|done..].
Qed.

Lemma frontiers_chains : frontiers s = Frontier <$> chains s.
Proof.
  apply map_eq. intros a. rewrite lookup_fmap. destruct (chains s !! a) as [c|] eqn:Hc.
  - apply (ch_frontier _ _ _ (inv_chains L HL a c Hc)).
  - destruct (frontiers s !! a) as [f|] eqn:E; [|done]. apply (inv_frontiers L HL) in E as [c E]. congruence.
Qed.

Notation accounts := (map_to_list (frontiers s)).*1.

(** The balances the walk finds, and what they add up to *)
Context (bal : string → gmap string Z).
Notation sn := (still_snapshot bal L).
Definition held (v : string) : Z := lsum (λ a, default 0 (bal a !! v)) accounts.

Lemma accounts_chain a : a ∈ accounts → ∃ c, chains s !! a = Some c ∧ chain_at a = c.
Proof.
  intros ([a' f] & -> & Hin%elem_of_map_to_list)%list_elem_of_fmap. apply (inv_frontiers L HL) in Hin as [c Hc].
  exists c. split; [done|]. unfold chain_at. simpl. by rewrite Hc.
Qed.

Lemma chain_account a c : chains s !! a = Some c → a ∈ accounts.
Proof.
  intros Hc. apply list_elem_of_fmap. exists (a, Frontier c). split; [done|]. apply elem_of_map_to_list.
  by rewrite frontiers_chains, lookup_fmap, Hc.
Qed.

(** A sum over the accounts is a sum over the chains. *)
Lemma over_accounts (G : AccountChain → Z) : lsum (λ a, G (chain_at a)) accounts = map_sum (λ _ c, G c) (chains s).
Proof.
  rewrite lsum_fmap. rewrite <- (map_sum_list (λ a _, G (chain_at a)) (frontiers s)), frontiers_chains, map_sum_fmap.
  apply map_sum_ext. intros a c Hc. unfold chain_at. by rewrite Hc.
Qed.

Lemma account_terms a f : (a, f) ∈ map_to_list (frontiers s) →
  terms_of sn cache a f = (T a, true) ∧ ct_unknownAssets (T a) = [].
Proof.
  intros Hin. assert (Hacc : a ∈ accounts) by (apply list_elem_of_fmap; by exists (a, f)).
  destruct (accounts_chain a Hacc) as (c & Hc & Ec). apply elem_of_map_to_list in Hin.
  rewrite frontiers_chains, lookup_fmap, Hc in Hin. injection Hin as <-. rewrite Ec.
  pose proof (chain_stored a c Hc) as Hs. pose proof (terms_frontier _ c Hs) as Hf. split.
  - unfold terms_of. cbn [sn_chain still_snapshot default from_option id]. rewrite Hc. cbn [default from_option id].
    rewrite Hf, (bool_decide_true (Frontier c = _)) by done. destruct (cache !! a) as [t|] eqn:Et; [|done].
    case_bool_decide as E; [|done]. destruct (HC a t Et) as (c' & Hs' & ->).
    rewrite (terms_frontier _ c' Hs') in E. by rewrite (frontier_determines _ c' c Hs' Hs E).
  - rewrite termsFromChain_fields; [done|]. apply Forall_forall. intros b Hb. by apply (sc_stored _ _ Hs).
Qed.

(** *** What was issued *)

Lemma issued_nonneg f : (∀ a x, on_chain s a x → 0 <= f x) → 0 <= issued f s.
Proof.
  intros H. apply map_sum_nonneg. intros a c Hc. apply (lsum_nonneg f). intros x Hx. apply (H a). by exists c.
Qed.

Lemma xe_terms :
  supply s "XE" + issued burn_amount s = issued genesis_amount s + issued (settle_amount emission) s.
Proof.
  rewrite (inv_xe L HL), <- !issued_add. apply issued_ext. intros _ x _.
  unfold xe_issue, burn_amount, genesis_amount, settle_amount, emission. destruct (b_Type x); lia.
Qed.

Lemma supply_nonneg asset : 0 <= circulating s asset ∧ 0 <= in_flight s asset.
Proof.
  split; apply map_sum_nonneg; [intros; by eapply chain_balance_nonneg|]. intros h ps Hp. unfold pending_value.
  apply (inv_pending L HL) in Hp as [[? _] _]. by case_bool_decide.
Qed.

Lemma type_amounts ty val g asset v :
  (∀ a x, on_chain s a x → b_Type x = ty → b_Asset x = asset ∧ g x = val x) → (∀ x, b_Type x ≠ ty → g x = 0) →
  issued (type_amount ty val v) s = if decide (v = asset) then issued g s else 0.
Proof.
  intros Ht H0. assert (E : issued (type_amount ty val v) s = issued (λ x, if decide (v = asset) then g x else 0) s).
  { apply issued_ext. intros a x Hx. unfold type_amount. destruct (decide (b_Type x = ty)) as [E|E].
    - destruct (Ht a x Hx E) as [E1 E2]. subst asset. rewrite E2. by repeat case_decide; naive_solver.
    - rewrite decide_False by naive_solver. rewrite (H0 x E). by case_decide. }
  rewrite E. case_decide; [done|]. unfold issued. apply map_sum_0. intros a c _. apply (lsum_0 c).
Qed.

Lemma genesis_terms v : issued (type_amount BlockGenesis b_Balance v) s = if decide (v = "XE"%string) then issued genesis_amount s else 0.
Proof.
  apply type_amounts; unfold genesis_amount; [|intros x; by destruct (b_Type x)].
  intros a x Hx Ht. destruct (on_chain_block a x Hx) as (_ & _ & _ & H). unfold block_terms in H. by rewrite Ht in *.
Qed.

Lemma mint_terms v : issued (type_amount BlockMint b_Amount v) s = if decide (v = "XUSD"%string) then issued xusd_issue s else 0.
Proof.
  apply type_amounts; unfold xusd_issue; [|intros x; by destruct (b_Type x)].
  intros a x Hx Ht. destruct (on_chain_block a x Hx) as (_ & _ & _ & H). unfold block_terms in H. by rewrite Ht in *.
Qed.

Lemma burn_terms v : issued (type_amount BlockBurn b_Amount v) s = if decide (v = "XE"%string) then issued burn_amount s else 0.
Proof.
  apply type_amounts; unfold burn_amount; [|intros x; by destruct (b_Type x)].
  intros a x Hx Ht. destruct (on_chain_block a x Hx) as (_ & _ & _ & H). unfold block_terms in H. by rewrite Ht in *.
Qed.

(** Only XE and XUSD are anywhere. *)
Lemma no_other_asset v : v ≠ "XE" → v ≠ "XUSD" → circulating s v = 0 ∧ in_flight s v = 0.
Proof.
  intros H1 H2. assert (Hv : ∀ x, IsValidAsset x = true → norm_asset x ≠ v).
  { intros x Hx E. rewrite (valid_norm x Hx) in E. subst. unfold IsValidAsset in Hx. by rewrite !bool_decide_false in Hx. }
  split; apply map_sum_0.
  - intros a c Hc. assert (Hx : ∀ x, x ∈ c → norm_asset (b_Asset x) ≠ v).
    { intros x Hx. apply Hv. by eapply (on_chain_block a); exists c. }
    clear Hc. unfold assetBalanceOnChain. simpl. induction c as [|x c IH] using rev_ind; [done|]. rewrite foldl_app. simpl.
    rewrite bool_decide_false by (apply Hx; set_solver). apply IH. set_solver.
  - intros h ps Hp. destruct (au_pending _ _ _ HA h ps Hp) as [Hx _]. unfold pending_value.
    by rewrite bool_decide_false by by apply Hv.
Qed.

(** *** What a walk should count *)
Definition counted (v : string) (t : term) : Z :=
  match t with
  | TGenesis => issued (type_amount BlockGenesis b_Balance v) s
  | TMinted => issued (type_amount BlockMint b_Amount v) s
  | TBurned => issued (type_amount BlockBurn b_Amount v) s
  | TBalances => held v
  | TInFlight => in_flight s v
  | TEmitted => if decide (v = "XE"%string) then issued (settle_amount emission) s else 0
  | TEscrowBurned => if decide (v = "XUSD"%string) then issued (settle_amount (lease_price (blocks s))) s else 0
  | TStakeForfeited | TLockedStake => 0
  end.

Lemma settle_nonneg g : (∀ a x, on_chain s a x → 0 <= g (b_Source x) (b_Amount x)) → 0 <= issued (settle_amount g) s.
Proof. intros H. apply issued_nonneg. intros a x Hx. unfold settle_amount. pose proof (H a x Hx). by destruct (b_Type x). Qed.

Lemma price_u64 h v : is_u64 (lease_price (blocks s) h v).
Proof.
  unfold lease_price. destruct (blocks s !! h) as [b|] eqn:E; [|done]. simpl.
  by apply (inv_blocks L HL) in E as (_ & _ & _ & (_ & ?) & _).
Qed.

Context (Hbal : ∀ a v x, bal a !! v = Some x → is_u64 x).

Lemma counted_nonneg v t : 0 <= counted v t.
Proof.
  destruct (supply_nonneg v). destruct t; simpl; try done; try case_decide; try done.
  1-2,4: apply issued_nonneg; intros a x Hx; destruct (on_chain_block a x Hx) as ((Hb & Ha) & _);
    unfold type_amount; case_decide; [by apply Hb || by apply Ha|done].
  - apply settle_nonneg. intros a x Hx. by destruct (on_chain_block a x Hx) as ((_ & ? & _) & _).
  - apply settle_nonneg. intros. apply price_u64.
  - apply lsum_nonneg. intros a _. destruct (bal a !! v) as [x|] eqn:E; [|done]. by destruct (Hbal a v x E).
Qed.

Lemma counted_adds v : found (counted v) = made (counted v) + (held v - circulating s v).
Proof.
  unfold found, made. simpl. rewrite genesis_terms, mint_terms, burn_terms. pose proof xe_terms as H1. pose proof (au_xusd _ _ _ HA) as H2.
  unfold supply in *. destruct (decide (v = "XE"%string)) as [->|E1]; [rewrite !decide_False by done; lia|].
  destruct (decide (v = "XUSD"%string)) as [->|E2]; [lia|]. destruct (no_other_asset v E1 E2) as [-> ->]. lia.
Qed.

(** What was created of an asset *)
Definition created (v : string) : Z :=
  if decide (v = "XE"%string) then issued genesis_amount s + issued (settle_amount emission) s
  else if decide (v = "XUSD"%string) then issued xusd_issue s else 0.

Lemma counted_made v : made (counted v) = created v.
Proof.
  unfold made, created. simpl. rewrite genesis_terms, mint_terms.
  destruct (decide (v = "XE"%string)) as [->|E1]; [rewrite decide_False by done; lia|]. by case_decide; lia.
Qed.

Lemma counted_created v : made (counted v) < two64.
Proof.
  rewrite counted_made. unfold created. pose proof (au_genesis _ _ _ HA). pose proof (au_minted _ _ _ HA).
  pose proof (au_emitted _ _ _ HA). repeat case_decide; lia || done.
Qed.

(** Only the balances in memory can be too much. *)
Lemma counted_lt v t : t ≠ TBalances → counted v t < two64.
Proof.
  intros Ht. pose proof (counted_created v) as H. pose proof (counted_adds v) as E. pose proof (counted_nonneg v) as Hp.
  unfold made, found in *. change (counted v TBalances) with (held v) in E. destruct (supply_nonneg v) as [Hc _].
  pose proof (Hp TGenesis). pose proof (Hp TMinted). pose proof (Hp TEmitted). pose proof (Hp TBurned).
  pose proof (Hp TEscrowBurned). pose proof (Hp TStakeForfeited). pose proof (Hp TInFlight).
  pose proof (Hp TLockedStake). destruct t; try lia; done.
Qed.

(** *** What it counts on the chains *)

Lemma chain_sum_lt ty val a c v :
  (∀ a x, on_chain s a x → 0 <= val x) → issued (type_amount ty val v) s < two64 → chains s !! a = Some c →
  sum_list (type_amount ty val v) c < two64.
Proof.
  intros Hv Hlt Hc. eapply Z.le_lt_trans; [|exact Hlt].
  apply (map_sum_lookup_le (λ _ c, sum_list (type_amount ty val v) c) _ a c); [|done].
  intros a' c' Hc'. apply type_amount_nonneg. intros x Hx. apply (Hv a'). by exists c'.
Qed.

(** The maps of sums of a chain *)
Lemma bump_terms ty val a c : (∀ a x, on_chain s a x → 0 <= val x) →
  (∀ v, issued (type_amount ty val v) s < two64) → chains s !! a = Some c →
  (∀ v, default 0 (bump_fold ty val c !! v) = sum_list (type_amount ty val v) c) ∧
  (∀ v x, bump_fold ty val c !! v = Some x → is_u64 x).
Proof.
  intros Hv Hlt Hc. assert (Hx : ∀ x, x ∈ c → 0 <= val x) by (intros x Hx; apply (Hv a); by exists c).
  assert (E : ∀ v, default 0 (bump_fold ty val c !! v) = sum_list (type_amount ty val v) c).
  { apply bump_fold_exact; [done|]. intros v. by apply (chain_sum_lt ty val a). }
  split; [done|]. intros v x E'. specialize (E v). rewrite E' in E. simpl in E. rewrite E.
  split; [by apply type_amount_nonneg|by apply (chain_sum_lt ty val a)].
Qed.

Lemma words_nonneg a x : on_chain s a x → 0 <= b_Balance x ∧ 0 <= b_Amount x.
Proof. intros Hx. by destruct (on_chain_block a x Hx) as ([[? _] [? _]] & _). Qed.

Lemma terms_at a : a ∈ accounts → ∃ c, chains s !! a = Some c ∧ T a = mkChainTerms (default "" (b_Hash <$> last c)) (zlen c)
    (bump_fold BlockGenesis b_Balance c) (bump_fold BlockMint b_Amount c) (bump_fold BlockBurn b_Amount c)
    (put_fold BlockLease b_Hash c) (put_fold BlockLeaseAccept b_Source c) (put_fold BlockLeaseSettle b_Source c) [].
Proof.
  intros (c & Hc & ->)%accounts_chain. exists c. split; [done|]. apply termsFromChain_fields.
  apply Forall_forall. intros b Hb. by apply (sc_stored _ _ (chain_stored a c Hc)).
Qed.

Definition accounts_ops : list op := concat (account_ops sn T <$> accounts).

Lemma account_ops_sum a v t : a ∈ accounts → op_sum (account_ops sn T a) v t =
  match t with
  | TGenesis => sum_list (type_amount BlockGenesis b_Balance v) (chain_at a)
  | TMinted => sum_list (type_amount BlockMint b_Amount v) (chain_at a)
  | TBurned => sum_list (type_amount BlockBurn b_Amount v) (chain_at a)
  | TBalances => default 0 (bal a !! v)
  | _ => 0
  end.
Proof.
  intros Ha. destruct (accounts_chain a Ha) as (c & Hc & Ec). destruct (terms_at a Ha) as (c' & Hc' & ET).
  assert (c' = c) as -> by congruence. unfold account_ops. rewrite !op_sum_app, !map_ops_sum, ET, Ec.
  cbn [ct_genesis ct_minted ct_burned]. destruct t; simpl; try done.
  1: destruct (bump_terms BlockGenesis b_Balance a c) as [-> _];
       [intros; by eapply words_nonneg|intros v'; by apply (counted_lt v' TGenesis)|done|lia].
  1: destruct (bump_terms BlockMint b_Amount a c) as [-> _];
       [intros; by eapply words_nonneg|intros v'; by apply (counted_lt v' TMinted)|done|lia].
  1: destruct (bump_terms BlockBurn b_Amount a c) as [-> _];
       [intros; by eapply words_nonneg|intros v'; by apply (counted_lt v' TBurned)|done|lia].
Qed.

Lemma accounts_ops_sum v t : op_sum accounts_ops v t =
  match t with TGenesis | TMinted | TBurned | TBalances => counted v t | _ => 0 end.
Proof.
  unfold accounts_ops. rewrite op_sum_concat. rewrite (lsum_ext _ _ _ (λ a Ha, account_ops_sum a v t Ha)).
  destruct t; try apply lsum_0;
    [apply (over_accounts (sum_list (type_amount BlockGenesis b_Balance v)))
    |apply (over_accounts (sum_list (type_amount BlockMint b_Amount v)))
    |apply (over_accounts (sum_list (type_amount BlockBurn b_Amount v)))
    |done].
Qed.

Lemma map_ops_u64 t (mm : gmap string Z) : (∀ k x, mm !! k = Some x → is_u64 x) → ∀ o, o ∈ map_ops t mm → is_u64 o.2.
Proof. intros H o Ho. apply list_elem_of_fmap in Ho as ([k x] & -> & Hin%elem_of_map_to_list). by eapply H. Qed.

Lemma accounts_ops_u64 o : o ∈ accounts_ops → is_u64 o.2.
Proof.
  intros Ho. unfold accounts_ops in Ho. apply list_elem_of_In, in_concat in Ho as (ops & Hops%list_elem_of_In & Ho%list_elem_of_In).
  apply list_elem_of_fmap in Hops as (a & -> & Ha). destruct (terms_at a Ha) as (c & Hc & ET).
  unfold account_ops in Ho. rewrite ET in Ho. cbn [ct_genesis ct_minted ct_burned] in Ho. rewrite !elem_of_app in Ho.
  destruct Ho as [Ho|[Ho|[Ho|Ho]]]; eapply map_ops_u64; try exact Ho.
  - eapply bump_terms; [intros; by eapply words_nonneg|intros v; by apply (counted_lt v TGenesis)|done].
  - eapply bump_terms; [intros; by eapply words_nonneg|intros v; by apply (counted_lt v TMinted)|done].
  - eapply bump_terms; [intros; by eapply words_nonneg|intros v; by apply (counted_lt v TBurned)|done].
  - apply Hbal.
Qed.

(** *** What it counts of leases and pending sends *)

Notation emissions := (unions (λ a, ct_settleEmission (T a)) ∅ accounts).
Notation costs := (unions (λ a, ct_leaseCost (T a)) ∅ accounts).
Notation stakes := (unions (λ a, ct_acceptStake (T a)) ∅ accounts).

Lemma put_at ty key ct : (∀ f k g mi bu lc st em u, ct (mkChainTerms f k g mi bu lc st em u) =
    match ty with BlockLease => lc | BlockLeaseAccept => st | _ => em end) →
  (ty, key) ∈ [(BlockLease, b_Hash); (BlockLeaseAccept, b_Source); (BlockLeaseSettle, b_Source)] →
  ∀ a, a ∈ accounts → ∃ c, chains s !! a = Some c ∧ ct (T a) = put_fold ty key c.
Proof.
  intros Hct Hty a Ha. destruct (terms_at a Ha) as (c & Hc & ->). exists c. split; [done|]. rewrite Hct.
  rewrite !elem_of_cons, elem_of_nil in Hty. by destruct Hty as [[= -> ->]|[[= -> ->]|[[= -> ->]|[]]]].
Qed.

Lemma emissions_at a : a ∈ accounts → ∃ c, chains s !! a = Some c ∧ ct_settleEmission (T a) = put_fold BlockLeaseSettle b_Source c.
Proof. by apply put_at; [|set_solver]. Qed.

Lemma emissions_sum g : map_sum g emissions = issued (settle_amount g) s.
Proof.
  rewrite unions_sum; [|apply NoDup_fst_map_to_list|].
  - unfold issued. rewrite <- (over_accounts (sum_list (settle_amount g))). apply lsum_ext. intros a Ha.
    destruct (emissions_at a Ha) as (c & Hc & ->). unfold chain_at. rewrite Hc. apply put_fold_sum. by eapply au_once.
  - intros a a' Ha Ha' Hne. destruct (emissions_at a Ha) as (c & Hc & ->). destruct (emissions_at a' Ha') as (c' & Hc' & ->).
    apply map_disjoint_spec. intros h x y (b & Hb & Ht & Hk & _)%put_fold_Some (b' & Hb' & Ht' & Hk' & _)%put_fold_Some.
    destruct (au_settled _ _ _ HA a b) as (l & Hl & _ & Hp); [by exists c|done|].
    destruct (au_settled _ _ _ HA a' b') as (l' & Hl' & _ & Hp'); [by exists c'|done|]. congruence.
Qed.

Lemma emissions_settle h v : emissions !! h = Some v →
  ∃ a x, on_chain s a x ∧ b_Type x = BlockLeaseSettle ∧ b_Source x = h ∧ v = b_Amount x.
Proof.
  intros (a & Ha & Hx)%unions_Some. destruct (emissions_at a Ha) as (c & Hc & E). rewrite E in Hx.
  apply put_fold_Some in Hx as (x & Hx & ? & ? & ?). exists a, x. split; [by exists c|done].
Qed.

(** The lease block of every settlement is found, with its price. *)
Lemma costs_price h v : emissions !! h = Some v → costs !! h = Some (lease_price (blocks s) h v).
Proof.
  intros (a & x & Hx & Ht & <- & _)%emissions_settle. destruct (au_settled _ _ _ HA a x Hx Ht) as (l & Hl & _).
  destruct (au_leases _ _ _ HA _ _ Hl) as (_ & a' & y & (c & Hc & Hy) & Ey).
  destruct (inv_leases L HL _ _ Hl) as (_ & _ & z & Hz & Hzt).
  assert (y = z) as -> by (pose proof (sc_stored _ _ (chain_stored a' c Hc) y Hy) as [H _]; congruence).
  destruct (unions_is_Some (λ a, ct_leaseCost (T a)) accounts (b_Source x) a') as [v' Hv'].
  - by eapply chain_account.
  - destruct (put_at BlockLease b_Hash ct_leaseCost) with (a := a') as (c' & Hc' & ->); [done|set_solver|by eapply chain_account|].
    rewrite <- Ey. apply put_fold_is_Some; [|done]. congruence.
  - rewrite Hv'. f_equal. apply unions_Some in Hv' as (a2 & Ha2 & Hx2).
    destruct (put_at BlockLease b_Hash ct_leaseCost) with (a := a2) as (c2 & Hc2 & E); [done|set_solver|done|].
    rewrite E in Hx2. apply put_fold_Some in Hx2 as (w & Hw & _ & Ew & ->).
    destruct (sc_stored _ _ (chain_stored a2 c2 Hc2) w Hw) as [Hsw _]. unfold lease_price. rewrite <- Ew, Hsw. done.
Qed.

Notation emitted_ops := (emission_ops (λ h, lease_price (blocks s) h 0) (map_to_list emissions)).

Lemma emission_ops_sum v t : op_sum emitted_ops v t = match t with TEmitted | TEscrowBurned => counted v t | _ => 0 end.
Proof.
  unfold emission_ops. rewrite op_sum_concat.
  rewrite (lsum_ext _ (λ kv, (λ h x, op_value v t ("XE"%string, TEmitted, x) + op_value v t ("XUSD"%string, TEscrowBurned, lease_price (blocks s) h x)) kv.1 kv.2)).
  2:{ intros [h x] _. unfold op_sum, lsum, lease_price. simpl. lia. }
  rewrite <- (map_sum_list (λ h x, op_value v t ("XE"%string, TEmitted, x) + op_value v t ("XUSD"%string, TEscrowBurned, lease_price (blocks s) h x))), map_sum_add.
  assert (H0 : ∀ a t' (f : string → Z → Z), ¬ (a = v ∧ t' = t) → map_sum (λ h x, op_value v t (a, t', f h x)) emissions = 0).
  { intros a t' f Hne. apply map_sum_0. intros h x _. unfold op_value. by rewrite decide_False. }
  assert (H1 : ∀ a t' (f : string → Z → Z), a = v → t' = t → map_sum (λ h x, op_value v t (a, t', f h x)) emissions = issued (settle_amount f) s).
  { intros a t' f -> ->. rewrite <- emissions_sum. apply map_sum_ext. intros h x _. unfold op_value. by rewrite decide_True. }
  change (λ (h : string) (x : Z), op_value v t ("XE"%string, TEmitted, x)) with (λ h x, op_value v t ("XE"%string, TEmitted, emission h x)).
  destruct t; try (rewrite !H0 by naive_solver; done); simpl; case_decide as E.
  - rewrite (H1 _ _ emission), H0 by naive_solver. lia.
  - rewrite !H0 by naive_solver. done.
  - rewrite (H1 "XUSD"%string), H0 by naive_solver. lia.
  - rewrite !H0 by naive_solver. done.
Qed.

Notation pendings := (map_to_list (pending s)).*2.

Lemma pending_ops_sum v t : op_sum (pending_ops pendings) v t = if decide (t = TInFlight) then in_flight s v else 0.
Proof.
  unfold op_sum, pending_ops. rewrite !lsum_fmap.
  rewrite <- (map_sum_list (λ _ p, op_value v t (ps_Asset p, TInFlight, ps_Amount p))). unfold in_flight. case_decide as E.
  - subst t. apply map_sum_ext. intros h ps Hp. destruct (au_pending _ _ _ HA h ps Hp) as [Hv _].
    unfold op_value, pending_value. rewrite (valid_norm _ Hv). simpl. case_bool_decide; [by rewrite decide_True|].
    by rewrite decide_False by naive_solver.
  - apply map_sum_0. intros h ps _. unfold op_value. by rewrite decide_False by naive_solver.
Qed.

Lemma pendings_elem p : p ∈ pendings → ∃ h, pending s !! h = Some p.
Proof. intros ([h q] & -> & Hin%elem_of_map_to_list)%list_elem_of_fmap. by exists h. Qed.

(** *** The verdict *)

Lemma counted_ops_u64 ops : nil_ops ops →
  ∀ o, o ∈ accounts_ops ++ pending_ops pendings ++ emitted_ops ++ ops → is_u64 o.2.
Proof.
  intros Hnil o Ho. rewrite !elem_of_app in Ho. destruct Ho as [Ho|[Ho|[Ho|Ho]]].
  - by apply accounts_ops_u64.
  - apply list_elem_of_fmap in Ho as (p & -> & [h Hp]%pendings_elem). by apply (inv_pending L HL) in Hp as [? _].
  - apply list_elem_of_In, in_concat in Ho as (l & Hl%list_elem_of_In & Ho%list_elem_of_In).
    apply list_elem_of_fmap in Hl as ([h x] & -> & Hin%elem_of_map_to_list).
    apply emissions_settle in Hin as (a & b & Hb & _ & _ & ->). rewrite !elem_of_cons, elem_of_nil in Ho.
    destruct Ho as [->|[->|[]]]; [by destruct (on_chain_block a b Hb) as ((_ & ?) & _)|apply price_u64].
  - unfold nil_ops in Hnil. rewrite Forall_forall in Hnil. by rewrite (Hnil o Ho).
Qed.

Lemma counted_ops_sum ops v t : nil_ops ops →
  op_sum (accounts_ops ++ pending_ops pendings ++ emitted_ops ++ ops) v t = counted v t.
Proof.
  intros Hnil. rewrite !op_sum_app, accounts_ops_sum, pending_ops_sum, emission_ops_sum, (nil_ops_sum ops) by done.
  destruct t; simpl; lia.
Qed.

Lemma stakes_nil h v : stakes !! h = Some v →
  v = 0 ∧ is_Some (foldl (λ m l, <[l_LeaseHash l := l]> m) (∅ : gmap string Lease) (map_to_list (leases s)).*2 !! h).
Proof.
  intros (a & Ha & Hx)%unions_Some.
  destruct (put_at BlockLeaseAccept b_Source ct_acceptStake) with (a := a) as (c & Hc & E); [done|set_solver|done|].
  rewrite E in Hx. apply put_fold_Some in Hx as (x & Hx & Ht & <- & ->). assert (Hon : on_chain s a x) by by exists c. split.
  - destruct (on_chain_block a x Hon) as (_ & _ & _ & Hb). unfold block_terms in Hb. by rewrite Ht in Hb.
  - destruct (au_accepts _ _ _ HA a x Hon Ht) as [l Hl]. destruct (inv_leases L HL _ _ Hl) as (El & _). rewrite <- El in *.
    apply by_hash_is_Some. left. apply list_elem_of_fmap. exists (l_LeaseHash l, l). split; [done|]. by apply elem_of_map_to_list.
Qed.

(** A walk is a sequence of additions that count what they should. *)
Lemma walk_counts : ∃ w ops, walk sn cache = (conclude sn w, foldl (λ m a, <[a := T a]> m) cache accounts) ∧
  wk_conserved w = true ∧ wk_stable w = true ∧ wk_tally w = foldl tally_op (mkTally ∅ false) ops ∧
  (∀ o, o ∈ ops → is_u64 o.2) ∧ ∀ v t, op_sum ops v t = counted v t.
Proof.
  unfold walk. set (w0 := mkWalk (mkTally ∅ false) [] true true 0 cache ∅ ∅ ∅). cbn [sn_before sn_pending sn_leases still_snapshot GetAllPending allLeases default from_option id].
  pose proof (walk_accounts sn T (map_to_list (frontiers s)) w0 (NoDup_fst_map_to_list _) account_terms) as D.
  set (w1 := foldl (walk_account sn) w0 _) in *. destruct D as [D1 D2 D3 D4 D5 D6 D7].
  rewrite walk_pendings; [|apply Forall_forall; intros p [h Hp]%pendings_elem; exact (proj1 (au_pending _ _ _ HA h p Hp))].
  cbn [wk_emissions with_tally]. rewrite D6.
  rewrite (walk_emissions (λ h, lease_price (blocks s) h 0)).
  2:{ intros h v Hin%elem_of_map_to_list. cbn [wk_costs with_tally]. rewrite D4. by apply costs_price in Hin. }
  edestruct walk_stakes_nil as (ops & Hnil & ->).
  { intros h v. cbn [wk_stakes with_tally]. rewrite D5. apply stakes_nil. }
  rewrite walk_expired_none.
  2:{ apply Forall_forall. intros l ([h l'] & -> & Hin%elem_of_map_to_list)%list_elem_of_fmap. exact (proj1 (au_leases _ _ _ HA h l' Hin)). }
  eexists. exists (accounts_ops ++ pending_ops pendings ++ emitted_ops ++ ops). split; [f_equal; exact D7|].
  cbn [wk_conserved wk_stable wk_tally with_tally]. rewrite D1, D2, D3, <- !foldl_app.
  split_and!; [done..|by apply counted_ops_u64|]. intros v t. by apply counted_ops_sum.
Qed.

(** What the verdict of such a walk means *)
Lemma counts_verdict w ops : wk_conserved w = true → wk_stable w = true → wk_tally w = foldl tally_op (mkTally ∅ false) ops →
  (∀ o, o ∈ ops → is_u64 o.2) → (∀ v t, op_sum ops v t = counted v t) →
  sr_Conserved (conclude sn w) = true ↔ ∀ v, held v = circulating s v.
Proof.
  intros H1 H2 Hw Hops Hsum.
  assert (Hexact : (∀ v t, counted v t < two64) → ta_overflow (wk_tally w) = false ∧ ∀ v t, total (wk_tally w) v t = counted v t).
  { intros Hlt. rewrite Hw. destruct (tally_ops_exact ops (mkTally ∅ false)) as [Ho Ht].
    - intros o Ho. by apply Hops.
    - done.
    - intros v t. rewrite Hsum. apply Hlt.
    - split; [done|]. intros v t. by rewrite Ht, Hsum. }
  split.
  - intros Hc v. destruct (tally_ops_noticed ops (mkTally ∅ false)) as [Ho|Hlt]; [done|done| |].
    { exfalso. unfold conclude in Hc. simpl in Hc. rewrite Hw, Ho in Hc. simpl in Hc. by rewrite andb_false_r in Hc. }
    destruct Hexact as [_ Ht]; [intros a t; specialize (Hlt a t); by rewrite Hsum in Hlt|].
    pose proof (conclude_sound sn w counted Ht) as Hs. specialize (Hs ltac:(intros a t; split; [apply counted_nonneg|]; specialize (Hlt a t); by rewrite Hsum in Hlt) Hc v).
    rewrite counted_adds in Hs. lia.
  - intros Hh. assert (Hf : ∀ v, found (counted v) = made (counted v)) by (intros v; rewrite counted_adds, Hh; lia).
    assert (Hb : ∀ v, found (counted v) < two64) by (intros v; rewrite Hf; apply counted_created).
    destruct Hexact as [Ho Ht].
    { intros v t. destruct (decide (t = TBalances)) as [->|]; [|by apply counted_lt]. specialize (Hb v). unfold found in Hb.
      pose proof (counted_nonneg v) as Hp. pose proof (Hp TInFlight). pose proof (Hp TLockedStake). pose proof (Hp TBurned).
      pose proof (Hp TEscrowBurned). pose proof (Hp TStakeForfeited). lia. }
    apply (conclude_verdict sn w counted); try done; [apply counted_nonneg|apply counted_created].
Qed.

Lemma counts_stable w : wk_stable w = true → sr_Stable (conclude sn w) = true.
Proof. intros H. unfold conclude. simpl. by rewrite H, same_frontiers_refl. Qed.

(** The walk says that all is accounted for if and only if the balances it found
    add up to those on the chains. *)
Lemma walk_verdict :
  sr_Stable (walk sn cache).1 = true ∧ cache_sound (blocks s) (walk sn cache).2 ∧
  (sr_Conserved (walk sn cache).1 = true ↔ ∀ v, held v = circulating s v).
Proof.
  destruct walk_counts as (w & ops & -> & H1 & H2 & H3 & H4 & H5). cbn [fst snd]. split_and!.
  - by apply counts_stable.
  - clear H1 H2 H3 H4 H5. assert (Hsub : ∀ a, a ∈ accounts → a ∈ accounts) by done. revert Hsub. generalize accounts at 1 3. intros l.
    revert HC. generalize cache. clear cache. induction l as [|a l IH]; intros cache HC Hin; [done|]. simpl. apply IH; [|set_solver].
    intros a' t [[<- <-]|[_ Ht]]%lookup_insert_Some; [|by apply HC in Ht].
    destruct (accounts_chain a) as (c & Hc & ->); [apply Hin; set_solver|]. exists c. split; [by eapply chain_stored|done].
  - by eapply counts_verdict.
Qed.
End audit.

(** The balances of a well-formed ledger are those of its chains. *)
Lemma held_balances L v : ledger_inv L → held L (GetAssetBalances L) v = circulating (store L) v.
Proof.
  intros HL. unfold circulating. rewrite <- (over_accounts L HL (λ c, assetBalanceOnChain (Some c) v)). apply lsum_ext. intros a _.
  unfold chain_at. rewrite on_chain_default, <- (inv_balances L HL). unfold getAssetBalance, GetAssetBalances.
  by destruct (assetBalances L !! a).
Qed.
