(* ===== verification/SupplyTheorems.v ===== *)
(** * What the supply audit promises

    The auditor never raises an alarm on a node whose leases are not renewed,
    notices when the balances in memory do not add up to the chains, and does raise
    a false alarm once a renewed lease settles.  Spendable balances count what is
    final. *)
From S2P Require Import Prelude GoLib Types Amount Encoding LeaseMath Crypto Multisig Attestation Genesis Reputation Store Ledger Rollback Handlers Restart AddBlock Quorum LedgerSpec LedgerCommit LedgerRules LedgerCalls LedgerUndo LedgerRestart LedgerRefine LedgerTrace LedgerSafety Supply SupplyInv SupplyFacts SupplyAudit Scenario.

(** ** A node and its auditor *)

Section node.
Context `{C : Crypto} `{CL : !CryptoLaws C}.

(** Reports asked for at given times, each after more actions of the node *)
Fixpoint audited (rounds : list (Z * list action)) (L : Ledger) (s : SupplyAuditor) : list (option SupplyReport) :=
  match rounds with
  | [] => []
  | (now, acts) :: rounds =>
      let L' := run_actions acts L in
      let sn := quiet_snapshot L' in
      let '(rep, s') := Report now now sn sn sn s in
      rep :: audited rounds L' s'
  end.

Definition fine (rep : option SupplyReport) : Prop := ∃ r, rep = Some r ∧ sr_Conserved r = true ∧ sr_Stable r = true.

Definition auditor_sound (bs : gmap string Block) (s : SupplyAuditor) : Prop :=
  cache_sound bs (sa_cache s) ∧ (sa_last s = None ∨ fine (sa_last s)).

Lemma quiet_walk n m L cache : ledger_inv L → audit_inv n m (store L) → cache_sound (blocks (store L)) cache →
  n < two64 → GenesisSupply + m < two64 →
  sr_Conserved (walk (quiet_snapshot L) cache).1 = true ∧ sr_Stable (walk (quiet_snapshot L) cache).1 = true ∧
  cache_sound (blocks (store L)) (walk (quiet_snapshot L) cache).2.
Proof.
  intros HL HA HC Hn Hm. pose proof (λ v, held_balances L v HL) as Hh.
  destruct (walk_verdict n m L cache HL HA HC Hn Hm (GetAssetBalances L)) as (Hs & Hc & Hv).
  - intros a v x Hx. assert (E : x = getAssetBalance L a v).
    { unfold getAssetBalance, GetAssetBalances in *. destruct (assetBalances L !! a); simpl in Hx; [by rewrite Hx|by rewrite lookup_empty in Hx]. }
    rewrite E, (inv_balances L HL). destruct (chains (store L) !! a) as [c|] eqn:Ec; [|done].
    eapply on_chain_u64. intros b Hb. by eapply (inv_chain_words L HL a c b Ec).
  - split_and!; [|done..]. apply Hv. exact Hh.
Qed.

Lemma report_fine n m L s now : ledger_inv L → audit_inv n m (store L) → auditor_sound (blocks (store L)) s →
  n < two64 → GenesisSupply + m < two64 →
  let sn := quiet_snapshot L in
  fine (Report now now sn sn sn s).1 ∧ auditor_sound (blocks (store L)) (Report now now sn sn sn s).2.
Proof.
  intros HL HA [HC Hl] Hn Hm sn. destruct (quiet_walk n m L (sa_cache s)) as (H1 & H2 & H3); [done..|].
  assert (Hcomp : ∃ r, compute 1 [sn; sn; sn] (sa_cache s) None = (Some r, (walk sn (sa_cache s)).2) ∧ fine (Some r)).
  { cbn [compute]. fold sn in H1, H2, H3. destruct (walk sn (sa_cache s)) as [r c] eqn:E. simpl in *. rewrite H2.
    eexists. split; [done|]. by eexists. }
  destruct Hcomp as (r & Er & Hr). unfold Report, auditor_sound. rewrite Er.
  destruct (sa_last s) as [r0|] eqn:El; [|by auto]. destruct (_ <? _); [|by auto].
  destruct Hl as [?|Hl]; [done|]. simpl. rewrite El. auto.
Qed.

Lemma audited_fine rounds before s :
  Forall typed (before ++ concat rounds.*2) → Forall renewal_free (before ++ concat rounds.*2) →
  mints (before ++ concat rounds.*2) < two64 → GenesisSupply + emits (before ++ concat rounds.*2) < two64 →
  auditor_sound (blocks (store (run_actions before emptyLedger))) s →
  Forall fine (audited rounds (run_actions before emptyLedger) s).
Proof.
  revert before s. induction rounds as [|[now acts] rounds IH]; intros before s Hw Hr Hm He Hs; [by apply Forall_nil|].
  rewrite fmap_cons in *. cbn [concat snd] in *. rewrite (app_assoc before) in *.
  cbn [audited]. replace (run_actions acts (run_actions before emptyLedger)) with (run_actions (before ++ acts) emptyLedger) by apply foldl_app.
  assert (Hpre : ∀ l l', Forall typed (l ++ l') → mints l <= mints (l ++ l') ∧ emits l <= emits (l ++ l')).
  { clear. intros l l' Hw. induction l' as [|x l' IH] using rev_ind; [rewrite app_nil_r; lia|].
    rewrite app_assoc in *. rewrite mints_snoc, emits_snoc. apply Forall_app in Hw as [Hw Hx]. apply Forall_cons in Hx as [Hx _].
    pose proof (minted_nonneg x Hx). pose proof (emits_of_nonneg x Hx). specialize (IH Hw). lia. }
  destruct (Hpre _ _ Hw) as [Hm1 He1]. pose proof Hw as Hw1. apply Forall_app in Hw1 as [Hw1 _].
  pose proof Hr as Hr1. apply Forall_app in Hr1 as [Hr1 _].
  destruct (run_actions_inv (before ++ acts)) as [HL _]; [done|lia|].
  pose proof (run_actions_audit (before ++ acts) Hw1 Hr1 ltac:(lia)) as HA.
  pose proof (run_actions_evolve before acts Hw1 ltac:(lia)) as HE.
  assert (Hs1 : auditor_sound (blocks (store (run_actions (before ++ acts) emptyLedger))) s).
  { destruct Hs as [HC Hl]. split; [|done]. eapply cache_sound_mono; [|done]. apply map_subseteq_spec. apply (ev_blocks _ _ _ HE). }
  destruct (report_fine _ _ _ s now HL HA Hs1) as [Hf Hs2]; [lia|lia|].
  destruct (Report _ _ _ _ _ _) as [rep s'] eqn:ER. simpl in Hf, Hs2. apply Forall_cons. split; [done|]. by apply IH.
Qed.

(** C26: The supply audit never raises a false alarm.  However a node and its
    auditor are interleaved (any calls, restarts and confirmations between any
    reports, with the terms of unchanged chains taken from the auditor's cache),
    every report says that the supply of XE and XUSD is conserved, as long as no
    lease is renewed and what was issued fits 64 bits. *)
Theorem supply_audit_no_false_alarm rounds :
  let acts := concat rounds.*2 in
  Forall typed acts → Forall renewal_free acts → mints acts < two64 → GenesisSupply + emits acts < two64 →
  Forall fine (audited rounds emptyLedger NewSupplyAuditor).
Proof.
  intros acts Hw Hr Hm He. apply (audited_fine rounds [] NewSupplyAuditor); try done. split; [|by left].
  intros a t Ha. simpl in Ha. by rewrite lookup_empty in Ha.
Qed.

(** C27: The supply audit is exact.  Whatever 64-bit balances the node holds in
    memory, on a quiet ledger reached without renewals, with what was issued within
    64 bits, a first walk reports conservation if and only if, for every asset,
    those balances add up to the balances on the chains.  A sum of balances that
    does not fit 64 bits is reported too: the walk notices its own overflows. *)
Theorem supply_audit_exact acts bal :
  let L := run_actions acts emptyLedger in
  Forall typed acts → Forall renewal_free acts → mints acts < two64 → GenesisSupply + emits acts < two64 →
  (∀ a v x, bal a !! v = Some x → is_u64 x) →
  sr_Conserved (walk (still_snapshot bal L) ∅).1 = true ↔ ∀ v, held L bal v = circulating (store L) v.
Proof.
  intros L Hw Hr Hm He Hb. destruct (run_actions_inv acts Hw Hm) as [HL _].
  apply (walk_verdict (mints acts) (emits acts) L ∅ HL (run_actions_audit acts Hw Hr Hm)); try done.
Qed.
End node.

(** ** A settlement *)

Definition settle_time : Z := 5000000000 + 3600 * time_Second.
Definition pay : Z :=
  Eval vm_compute in
  match leases (store after_lease) !! b_Hash lease_offer with
  | Some l => match LeaseTotalEmission l with Ok v => v | Err _ => 0 end
  | None => 0
  end.
Definition settle_block : Block :=
  Eval vm_compute in
  sealed bob (with_lease 0 0 0 0 "" 0 (attest (b_Hash lease_offer) settle_time)
    (draft BlockLeaseSettle addrB (b_Hash accept_block) pay 80 "XE" "" "" pay (b_Hash lease_offer))).
Definition settle_acts : list action := lease_acts ++ [Start net_env; at_net settle_block].

(** The same lease, renewed before *)
Definition renewed_pay : Z :=
  Eval vm_compute in
  match leases (store before_cancel) !! b_Hash lease_offer with
  | Some l => match LeaseTotalEmission l with Ok v => v | Err _ => 0 end
  | None => 0
  end.
Definition renewed_settle_block : Block :=
  Eval vm_compute in
  sealed bob (with_lease 0 0 0 0 "" 0 (attest (b_Hash lease_offer) (settle_time + 3600 * time_Second))
    (draft BlockLeaseSettle addrB (b_Hash accept_block) renewed_pay 80 "XE" "" "" renewed_pay (b_Hash lease_offer))).
Definition renewed_settle_acts : list action := renew_acts ++ [at_net renewed_settle_block].

(** The supply audit raises a false alarm once a renewed lease settles.  The
    settlement burns the whole escrow, the walk counts the price of the first term
    only, and reports the renewal as missing though every block was accepted by
    the rules. *)
Lemma supply_audit_forgets_renewals :
  let L := run_actions renew_acts emptyLedger in
  let L' := run_actions renewed_settle_acts emptyLedger in
  let report := (walk (quiet_snapshot L') ∅).1 in
  sr_Conserved (walk (quiet_snapshot L) ∅).1 = true ∧
  fst (addBlock net_env renewed_settle_block true L) = Ok () ∧
  sr_Stable report = true ∧ sr_Conserved report = false ∧
  as_Conserved <$> sr_Assets report !! "XE" = Some true ∧
  as_Discrepancy <$> sr_Assets report !! "XUSD" = Some (- price).
Proof. cbv zeta. split_and!; by_run. Qed.

#[export] Instance renewal_free_dec (x : action) : Decision (renewal_free x).
Proof. destruct x; simpl; apply _. Defined.

Definition audit_rounds : list (Z * list action) :=
  [(0, lease_acts); (1000000000, [Start net_env; at_net settle_block]); (5000000000, []); (9000000000, [Start net_env])].

Lemma supply_audit_no_false_alarm_witness :
  Forall typed (concat audit_rounds.*2) ∧ Forall fine (audited audit_rounds emptyLedger NewSupplyAuditor).
Proof.
  assert (Hw : Forall typed (concat audit_rounds.*2)) by by_dec. split; [exact Hw|].
  apply (supply_audit_no_false_alarm audit_rounds Hw); [by_dec|by_run|by_run].
Defined.

Lemma settle_words : Forall typed settle_acts.
Proof. by_dec. Qed.
Lemma settle_free : Forall renewal_free settle_acts.
Proof. by_dec. Qed.

Lemma held_nothing L v : held L (λ _, ∅) v = 0.
Proof. unfold held. rewrite (lsum_ext _ (λ _, 0)) by (intros; by rewrite lookup_empty). apply lsum_0. Qed.

(** A node that has lost its balances is noticed. *)
Lemma supply_audit_exact_witness :
  Forall typed settle_acts ∧
  sr_Conserved (walk (still_snapshot (λ _, ∅) (run_actions settle_acts emptyLedger)) ∅).1 ≠ true.
Proof.
  split; [exact settle_words|]. intros H.
  destruct (supply_audit_exact settle_acts (λ _, ∅) settle_words settle_free) as [Hx _]; [by_run|by_run| |].
  - intros a v x Hx. rewrite lookup_empty in Hx. discriminate Hx.
  - specialize (Hx H "XE"). rewrite held_nothing in Hx. revert Hx. clear H. vm_compute. discriminate.
Defined.

(** ** Spendable balances *)

(** After a prefix [p]: the balances on [p], and what of them is spendable when
    the first [lim] blocks are final *)
Record spending (lim : Z) (p : AccountChain) (st : Z * gmap string Z * gmap string Z) : Prop := {
  sp_index : st.1.1 = zlen p;
  sp_prev : ∀ v, default 0 (st.2 !! v) = assetBalanceOnChain (Some p) v;
  sp_nonneg : ∀ v, 0 <= default 0 (st.1.2 !! v);
  sp_current : ∀ v, default 0 (st.1.2 !! v) <= assetBalanceOnChain (Some p) v;
  sp_final : ∀ v, default 0 (st.1.2 !! v) <= assetBalanceOnChain (Some (take (Z.to_nat lim) p)) v;
  sp_whole : zlen p <= lim → ∀ v, default 0 (st.1.2 !! v) = assetBalanceOnChain (Some p) v }.

Lemma default_insert (m : gmap string Z) k x v :
  default 0 (<[k := x]> m !! v) = if k =?s v then x else default 0 (m !! v).
Proof. case_bool_decide; [subst; by rewrite lookup_insert_eq|by rewrite lookup_insert_ne]. Qed.

Lemma spend_step_ok lim p b st :
  0 <= b_Balance b → spending lim p st → spending lim (p ++ [b]) (spend_step lim st b).
Proof.
  destruct st as [[i out] prev]. intros Hb [Hi Hp H0 Hc Hf Hw]. simpl in *. subst i.
  assert (Hl : zlen (p ++ [b]) = zlen p + 1) by (unfold zlen; rewrite length_app; simpl; lia).
  assert (Hin : zlen p < lim → take (Z.to_nat lim) (p ++ [b]) = p ++ [b] ∧ take (Z.to_nat lim) p = p).
  { unfold zlen in *. intros. rewrite !take_ge by (rewrite ?length_app; simpl; lia). done. }
  assert (Hout : lim <= zlen p → take (Z.to_nat lim) (p ++ [b]) = take (Z.to_nat lim) p).
  { unfold zlen in *. intros. by rewrite take_app_le by lia. }
  set (k := norm_asset (b_Asset b)) in *.
  split; simpl; rewrite ?Hl; fold k; [done|..].
  - intros v. by rewrite default_insert, on_chain_snoc, Hp.
  - intros v. repeat case_match; rewrite ?default_insert; try case_bool_decide; try done; try lia; apply H0.
  - intros v. rewrite on_chain_snoc. fold k. specialize (Hc v). pose proof (H0 v).
    destruct (zlen p <? lim) eqn:E; [rewrite default_insert; case_bool_decide; lia|].
    rewrite (Hp k). destruct (b_Balance b <? _) eqn:E2.
    + rewrite default_insert. case_bool_decide as Ek; [subst v|done]. destruct (_ <=? _) eqn:E3; lia.
    + case_bool_decide as Ek; [subst v; lia|done].
  - intros v. destruct (zlen p <? lim) eqn:E.
    + apply Z.ltb_lt in E. destruct (Hin E) as [-> _]. rewrite default_insert, on_chain_snoc. fold k.
      case_bool_decide; [lia|apply Hc].
    + apply Z.ltb_ge in E. rewrite (Hout E). specialize (Hf v). pose proof (H0 v). pose proof (Hc v). rewrite (Hp k).
      destruct (b_Balance b <? _) eqn:E2; [|done]. rewrite default_insert. case_bool_decide as Ek; [subst v|done].
      destruct (_ <=? _) eqn:E3; lia.
  - intros Hle v. replace (zlen p <? lim) with true by (symmetry; apply Z.ltb_lt; lia).
    rewrite default_insert, on_chain_snoc. fold k. case_bool_decide; [done|]. apply Hw. lia.
Qed.

Lemma spending_fold lim c : Forall (λ b, 0 <= b_Balance b) c → spending lim c (foldl (spend_step lim) (0, ∅, ∅) c).
Proof.
  induction c as [|b c IH] using rev_ind; intros H.
  - by split; intros; rewrite ?take_nil.
  - apply Forall_app in H as [H Hb]. apply Forall_cons in Hb as [Hb _]. rewrite foldl_app. apply spend_step_ok; auto.
Qed.

Lemma finalized_nonneg L a c v : ledger_inv L → chains (store L) !! a = Some c →
  0 <= assetBalanceOnChain (Some (finalized L a c)) v.
Proof.
  intros HL Hc. eapply on_chain_u64. intros b Hb. eapply (inv_chain_words L HL a c b Hc).
  rewrite <- (take_drop (Z.to_nat (final_height L a)) c). apply elem_of_app. by left.
Qed.

Lemma i64_wraps z : is_u64 z → two63 <= z → i64 z < 0.
Proof.
  intros [_ Hz] Hge. unfold i64. replace (z + two63) with ((z - two63) + 1 * two64) by (unfold two63, two64; lia).
  rewrite Z.mod_add, Z.mod_small; unfold two63, two64 in *; lia.
Qed.

(** C33: Spendable balances are safe to show.  On every ledger a node reaches, the
    spendable balance of an account never exceeds its current balance nor the
    balance of its finalized blocks (credits that are not final do not count,
    debits do at once), and it is the current balance once the whole chain is
    final; a store that fails to answer makes nothing spendable. *)
Theorem SpendableBalances_safe `{C : Crypto} `{CL : !CryptoLaws C} e acts a out L' :
  let L := run_actions acts emptyLedger in
  Forall typed acts → mints acts < two64 → is_u64 (final_height L a) →
  SpendableBalances e a L = (Ok out, L') →
  L' = L ∧ ∀ v, 0 <= default 0 (out !! v) <= getAssetBalance L a v ∧
    (∀ c, chains (store L) !! a = Some c →
       default 0 (out !! v) <= assetBalanceOnChain (Some (finalized L a c)) v ∧
       (zlen c <= final_height L a < two63 → (∀ k, fault e k = None) → default 0 (out !! v) = getAssetBalance L a v)).
Proof.
  intros L Hw Hm Hu H. destruct (run_actions_inv acts Hw Hm) as [HL _]. fold L in HL.
  assert (HN : ∀ v, 0 <= getAssetBalance L a v).
  { intros v. rewrite (inv_balances L HL). destruct (chains (store L) !! a) eqn:Ec; [by eapply chain_balance_nonneg|done]. }
  assert (HE : out = ∅ ∧ L' = L ∧ (∀ c, chains (store L) !! a = Some c → 0 < zlen c → (∀ k, fault e k = None) → final_height L a = 0) ∨
    L' = L ∧ ∃ c, chains (store L) !! a = Some c ∧ out = spendable (final_height L a) c).
  { unfold SpendableBalances, FinalHeight, GetAccountChain, mor, mtry, mbind_, sread, final_height in *.
    destruct (fault e (CGetFinalHeight a)) eqn:E1; simpl in H.
    { injection H as <- <-. left. split_and!; try done. intros c _ _ Hk. by rewrite Hk in E1. }
    destruct (_ =? 0) eqn:E2 in H; [apply Z.eqb_eq in E2; injection H as <- <-; left; by split_and!|].
    destruct (fault e (CGetAccountChain a)) eqn:E3; simpl in H.
    { injection H as <- <-. left. split_and!; try done. intros c _ _ Hk. by rewrite Hk in E3. }
    injection H as <- <-. destruct (chains (store L) !! a) as [c|] eqn:Ec; [right; by eauto|left; by split_and!]. }
  destruct HE as [(-> & -> & H0)|(-> & c & Hc & ->)]; (split; [done|]); intros v.
  - rewrite lookup_empty. simpl. split; [split; [done|apply HN]|]. intros c Hc. split.
    + by apply (finalized_nonneg L a c).
    + intros [Hle _] Hk. pose proof (ch_nonempty _ _ _ (inv_chains L HL a c Hc)) as Hne.
      assert (0 < zlen c) by (unfold zlen; destruct c; simpl; [done|lia]). rewrite (H0 c) in Hle by done. lia.
  - assert (HF : Forall (λ b, 0 <= b_Balance b) c).
    { apply Forall_forall. intros b Hb. by apply (inv_chain_words L HL a c b Hc Hb). }
    pose proof (spending_fold (Z.min (i64 (final_height L a)) (zlen c)) c HF) as [_ _ S0 S1 S2 S3].
    unfold spendable. rewrite (inv_balances L HL), Hc. split; [by split|]. intros c' [= <-]. split.
    + etrans; [apply S2|]. destruct (decide (final_height L a < two63)) as [Hlt|Hge].
      * rewrite i64_small by (unfold is_i64, is_u64 in *; lia). unfold finalized, zlen. rewrite Z2Nat.inj_min, Nat2Z.id.
        destruct (Nat.min_spec (Z.to_nat (final_height L a)) (length c)) as [[_ ->]|[? ->]]; [done|].
        by rewrite !take_ge by lia.
      * pose proof (i64_wraps _ Hu ltac:(lia)).
        replace (Z.to_nat (Z.min (i64 (final_height L a)) (zlen c))) with 0%nat by lia. by apply (finalized_nonneg L a c).
    + intros [Hle Hlt] _. apply S3. rewrite i64_small by (unfold is_i64, is_u64 in *; lia). lia.
Qed.

Definition amounts (r : result (gmap string Z)) : gmap string Z := match r with Ok out => out | Err _ => ∅ end.

(** What alice can spend once the transfer is final *)
Definition shown : gmap string Z := Eval vm_compute in amounts (SpendableBalances net_env addrA final_lease).1.

Lemma shown_result : (SpendableBalances net_env addrA (run_actions final_acts emptyLedger)).1 = Ok shown.
Proof. by_run. Qed.

Lemma SpendableBalances_safe_witness :
  default 0 (shown !! "XUSD") <= getAssetBalance (run_actions final_acts emptyLedger) addrA "XUSD".
Proof.
  destruct (SpendableBalances_safe net_env final_acts addrA shown
    (snd (SpendableBalances net_env addrA (run_actions final_acts emptyLedger))) final_words) as [_ H]; [by_run|by_dec| |].
  - exact (run_result _ _ shown_result).
  - exact (proj2 (proj1 (H "XUSD"))).
Defined.
