(* ===== verification/Wallet.v ===== *)
(** * What a node does with its own account: [node/node.go], [node/lease_renew.go],
    [node/policy.go]

    Sending and receiving, offering and renewing leases, the loop that settles,
    force-settles and archives leases, what an acceptance locks and the provider's
    policy.  Each builds a block from the node's ledger, signs it and adds
    it.  What peers answer and what is published are given by a [Wallet]. *)
From S2P Require Import Prelude GoLib Types LeaseMath Crypto Attestation Genesis Store Ledger Handlers AddBlock Supply.

(** The node's key and what its surroundings answer during a call.  A [nil]
    function is [None]. *)
Record Wallet := mkWallet {
  w_KeyPair : KeyPair;
  w_difficulty : Z;
  (* the nonce [ComputePoWConcurrent] finds first *)
  w_nonce : list Z → Z;
  w_Publish : Block → result unit;
  (* [getTimekeeperConfig] and [gatherAttestations] *)
  w_timekeepers : option TimekeeperConfig;
  w_gatherAttestations : string → result (list TimekeeperAttestation);
  (* [GetCertificateByProvider]: hash and price multiplier *)
  w_certificate : string → option (string * Z);
  w_epochR : option Z;
  w_epochPayoutCap : option Z;
  w_epochTWAP : option Z }.

Section wallet.
Context `{C : Crypto} (e : Env) (w : Wallet).

Notation myAddr := (Address (w_KeyPair w)).

(** ** Blocks *)

(** A block with the fields every kind sets, the rest being zero *)
Definition own_block (t : BlockType) (previous : string) (balance : Z) (asset destination : string) (amount : Z)
    (source : string) : Block :=
  mkBlock t myAddr previous balance (Now e) asset "" destination amount source 0 0 0 0 "" 0 0 0 0 0 0 ""
    None [] "" "" "" 0 [] "" 0 0 0.

(** The fields of a lease block *)
Definition with_offer (vcpus memoryMB diskGB duration : Z) (accessPubKey certHash : string) (b : Block) : Block :=
  mkBlock (b_Type b) (b_Account b) (b_Previous b) (b_Balance b) (b_Timestamp b) (b_Asset b) (b_Representative b)
    (b_Destination b) (b_Amount b) (b_Source b) vcpus memoryMB diskGB duration accessPubKey 0 0 0 0 0 0 "" None [] "" "" "" 0
    [] certHash 0 0 0.

(** The fields of an attested block *)
Definition with_evidence (atts : list TimekeeperAttestation) (duration : Z) (certHash : string) (r payoutCap twap : Z)
    (b : Block) : Block :=
  mkBlock (b_Type b) (b_Account b) (b_Previous b) (b_Balance b) (b_Timestamp b) (b_Asset b) (b_Representative b)
    (b_Destination b) (b_Amount b) (b_Source b) 0 0 0 duration "" 0 0 0 0 0 0 "" None [] "" "" "" 0 atts certHash r payoutCap
    twap.

Definition with_nonce (n : Z) (b : Block) : Block :=
  mkBlock (b_Type b) (b_Account b) (b_Previous b) (b_Balance b) (b_Timestamp b) (b_Asset b)
    (b_Representative b) (b_Destination b) (b_Amount b) (b_Source b) (b_VCPUs b) (b_MemoryMB b)
    (b_DiskGB b) (b_Duration b) (b_AccessPubKey b) (b_LeaseMinDurationSecs b)
    (b_LeaseSettleGraceNs b) (b_LeaseForceSettleGapNs b) (b_LeaseEscrowExpiryNs b)
    (b_LeaseArchiveGapNs b) (b_MaxAttestationSkewNs b) (b_Memo b) (b_MSKeyset b)
    (b_Signatures b) (b_PubKey b) (b_Signature b) (b_Hash b) n (b_Attestations b)
    (b_CertificateHash b) (b_LockedR b) (b_LockedPayoutCap b) (b_LockedTWAP b).

(** The hash of a signed block is hex. *)
Definition solvePoW (b : Block) : Block :=
  if w_difficulty w =? 0 then b
  else with_nonce (w_nonce w (match DecodeString (b_Hash b) with Ok h => h | Err _ => [] end)) b.

Definition signed (pre : string) (b : Block) : LM Block :=
  let! b := mwrap (wrapf pre) (mlift (SignBlock (networkID e) b (w_KeyPair w))) in
  mret_ (solvePoW b).

(** [GetChain] and [GetAssetBalances] of the node's account *)
Definition own_chain : LM (list Block) :=
  let! chain := mor None (GetAccountChain e myAddr) in mret_ (default [] chain).
Definition balance_of (asset : string) : LM Z := mgets (λ L, default 0 (GetAssetBalances L myAddr !! asset)).

(** ** Transfers *)

Definition Node_Send (destination : string) (amount : Z) (asset : string) : LM unit :=
  let asset := if asset =?s "" then "XE"%string else asset in
  let! chain := own_chain in
  match last chain with
  | None => mfail (errorf "account not open")
  | Some frontier =>
      let! assetBal := balance_of asset in
      mfail_if (assetBal <? amount)
        (errorf ("insufficient " +:+ asset +:+ " balance: have " +:+ FormatUint assetBal +:+ ", sending " +:+ FormatUint amount)) ;!
      let! b := signed "sign send block: "
        (own_block BlockSend (b_Hash frontier) (u64_sub assetBal amount) asset destination amount "") in
      LedgerAddBlock e b ;!
      mlift (w_Publish w b)
  end.

Definition GetPendingForAccount (account : string) : LM (list PendingSend) :=
  mor [] (sread e (CGetPendingByDest account) (λ s, filter (λ p, ps_Destination p = account) (map_to_list (pending s)).*2)).

(** One turn of the loop of [Receive] *)
Definition receive_one (p : PendingSend) : LM unit :=
  let! chain := own_chain in
  let prev := match last chain with Some b => b_Hash b | None => "0"%string end in
  let asset := if ps_Asset p =?s "" then "XE"%string else ps_Asset p in
  let! bal := balance_of asset in
  let assetBal := match chain with [] => 0 | _ => bal end in
  let! b := signed "sign receive block: "
    (own_block BlockReceive prev (u64_add assetBal (ps_Amount p)) asset "" 0 (ps_SendHash p)) in
  mwrap (wrapf ("receive " +:+ shortHash (ps_SendHash p) +:+ ": ")) (LedgerAddBlock e b) ;!
  mwrap (wrapf "publish receive: ") (mlift (w_Publish w b)).

(** The loop: how many sends were received, and the error that ended it *)
Fixpoint receive_all (count : Z) (l : list PendingSend) : LM (Z * option error) :=
  match l with
  | [] => mret_ (count, None)
  | p :: l =>
      mtry (receive_one p) (λ r,
        match r with
        | Ok _ => receive_all (count + 1) l
        | Err err => mret_ (count, Some err)
        end)
  end.

Definition Node_Receive : LM (Z * option error) :=
  let! pending := GetPendingForAccount myAddr in
  receive_all 0 pending.

(** ** Leases *)

Definition CreateLeaseBlock (provider : string) (vcpus memoryMB diskGB durationSecs cost : Z)
    (accessPubKey certHash : string) : LM unit :=
  let! chain := own_chain in
  match last chain with
  | None => mfail (errorf "account not open")
  | Some frontier =>
      let! xusdBal := balance_of "XUSD" in
      mfail_if (xusdBal <? cost)
        (errorf ("insufficient XUSD: have " +:+ FormatUint xusdBal +:+ ", need " +:+ FormatUint cost)) ;!
      let! b := signed "sign lease block: "
        (with_offer vcpus memoryMB diskGB durationSecs accessPubKey certHash
           (own_block BlockLease (b_Hash frontier) (u64_sub xusdBal cost) "XUSD" provider cost "")) in
      LedgerAddBlock e b ;!
      mlift (w_Publish w b)
  end.

Definition CurrentR : Z := match w_epochR w with Some r => if 0 <? r then r else RFallback | None => RFallback end.
Definition CurrentPayoutCap : Z := default 0 (w_epochPayoutCap w).
Definition CurrentTWAP : Z := default 0 (w_epochTWAP w).

Definition EpochParamsAt (ns : Z) : option EpochParams :=
  match epochAtFn e with None => None | Some f => head (f ns) end.

(** The parameters an acceptance locks *)
Definition acceptLockedEmission (startTime : Z) : EpochParams :=
  match EpochParamsAt startTime with
  | Some ep => ep
  | None => mkEpochParams CurrentR CurrentPayoutCap CurrentTWAP
  end.

Definition Node_GetLease (leaseHash : string) : LM (option Lease) :=
  let! l := mor None (GetLease e leaseHash) in mret_ (BackfillState <$> l).

(** Without a timekeeper configuration no attestations are gathered. *)
Definition evidence (leaseHash : string) : result (list TimekeeperAttestation) :=
  match w_timekeepers w with None => Ok [] | Some _ => w_gatherAttestations w leaseHash end.

Definition RenewLease (leaseHash : string) (additionalSecs : Z) : LM Block :=
  let! lease := Node_GetLease leaseHash in
  match lease with
  | None => mfail (errorf ("lease " +:+ shortHash leaseHash +:+ " not found"))
  | Some lease =>
      mfail_if (negb (l_Consumer lease =?s myAddr))
        (errorf ("lease " +:+ shortHash leaseHash +:+ " is not this node's lease to renew")) ;!
      mfail_if (negb (l_State lease =?s LeaseAccepted) || l_Settled lease)
        (errorf ("lease " +:+ shortHash leaseHash +:+ " is not renewable in state "
                 +:+ quote (LeaseState_string (l_State lease))
                 +:+ " (settled=" +:+ (if l_Settled lease then "true" else "false") +:+ ")")) ;!
      match w_certificate w (l_Provider lease) with
      | None => mfail (errorf ("provider " +:+ shortHash (l_Provider lease) +:+ " has no current certificate — cannot renew"))
      | Some (certHash, multiplier) =>
          let! cost := mwrap (wrapf "renewal cost: ")
            (mlift (LeaseCost (timing e) (l_VCPUs lease) (l_MemoryMB lease) (l_DiskGB lease) additionalSecs multiplier)) in
          let! atts := mwrap (wrapf ("gather attestations for lease_renew " +:+ shortHash leaseHash +:+ ": "))
            (mlift (evidence leaseHash)) in
          let! chain := own_chain in
          match last chain with
          | None => mfail (errorf "account not open")
          | Some frontier =>
              let! xusdBal := balance_of "XUSD" in
              mfail_if (xusdBal <? cost)
                (errorf ("insufficient XUSD for renewal: have " +:+ FormatUint xusdBal +:+ ", need " +:+ FormatUint cost)) ;!
              let! b := signed "sign lease_renew: "
                (with_evidence atts additionalSecs certHash CurrentR CurrentPayoutCap CurrentTWAP
                   (own_block BlockLeaseRenew (b_Hash frontier) (u64_sub xusdBal cost) "XUSD" "" cost leaseHash)) in
              mwrap (wrapf "add lease_renew: ") (LedgerAddBlock e b) ;!
              mwrap (wrapf "gossip lease_renew: ") (mlift (w_Publish w b)) ;!
              mret_ b
          end
      end
  end.

(** ** The settlement loop

    The functions of the loop only log their errors: [logged] drops one and keeps
    the state reached. *)
Definition logged {A} (m : LM A) : LM unit := λ L, (Ok (), (m L).2).

Definition leaseSettleAmount (lease : Lease) : Z := match LeaseTotalEmission lease with Ok a => a | Err _ => 0 end.

(** The block of [settleLease] and [forceSettleLease] *)
Definition settlement (t : BlockType) (asset : string) (amount : Z) (lease : Lease) : LM Block :=
  mfail_if (l_Cost lease =? 0) (errorf "stored lease.Cost is zero") ;!
  let! atts := mlift (evidence (l_LeaseHash lease)) in
  let! chain := own_chain in
  match last chain with
  | None => mfail (errorf "account not open")
  | Some frontier =>
      let! old := balance_of asset in
      let! b := signed ""
        (with_evidence atts 0 "" 0 0 0 (own_block t (b_Hash frontier) (u64_add old amount) asset "" amount (l_LeaseHash lease))) in
      LedgerAddBlock e b ;!
      mret_ b
  end.

(** [finishSettle] publishes the block and tears the machine down. *)
Definition settleLease (lease : Lease) : LM unit :=
  logged (let! b := settlement BlockLeaseSettle "XE" (leaseSettleAmount lease) lease in mlift (w_Publish w b)).

Definition forceSettleLease (lease : Lease) : LM unit :=
  logged (let! b := settlement BlockLeaseForceSettle "XUSD" (l_Cost lease) lease in mlift (w_Publish w b)).

Definition settleDue (lease : Lease) (now : Z) : bool :=
  negb (l_Settled lease || negb (l_State lease =?s LeaseAccepted)) &&
  (EffectiveExpiry lease <=? now) && (now <=? i64_add (EffectiveExpiry lease) (LeaseSettleGrace (timing e))).

Definition consumerShouldForceSettle (lease : Lease) (now : Z) : bool :=
  (l_Consumer lease =?s myAddr) && negb (l_Settled lease || negb (l_State lease =?s LeaseAccepted)) &&
  (i64_add (i64_add (EffectiveExpiry lease) (LeaseSettleGrace (timing e))) (LeaseForceSettleGap (timing e)) <=? now).

Definition shouldArchiveExpiredLease (lease : Lease) (now : Z) : bool :=
  negb (l_Settled lease || negb (l_State lease =?s LeaseAccepted)) &&
  (i64_add (i64_add (EffectiveExpiry lease) (LeaseEscrowExpiry (timing e))) (LeaseArchiveGap (timing e)) <=? now).

Definition node_leases (p : Lease → bool) (s : StoreState) : list Lease := filter p (map_to_list (leases s)).*2.

Definition trySettleExpiredLeases : LM unit :=
  logged (let! ls := sread e (CGetLeasesByProvider myAddr) (node_leases (λ l, l_Provider l =?s myAddr)) in
          mfor (λ l, if settleDue l (Now e) then settleLease l else mret_ ()) ls).

Definition tryForceSettleStaleLeases : LM unit :=
  logged (let! ls := sread e (CGetLeasesByState LeaseAccepted) (node_leases (λ l, l_State l =?s LeaseAccepted)) in
          mfor (λ l, if consumerShouldForceSettle l (Now e) then forceSettleLease l else mret_ ()) ls).

(** Two writes: the escrow is deleted, then the lease is marked. *)
Definition archiveExpiredLease (lease : Lease) : LM unit :=
  logged (swrite e (CDeletePendingSend (l_LeaseHash lease)) (λ s, Ok (DeletePendingSend (l_LeaseHash lease) s)) ;!
          swrite e (CPutLease (l_LeaseHash lease)) (λ s, Ok (PutLease (lease_with_state LeaseExpired true lease) s))).

Definition tryArchiveExpiredLeases : LM unit :=
  logged (let! ls := sread e (CGetLeasesByState LeaseAccepted) (node_leases (λ l, l_State l =?s LeaseAccepted)) in
          mfor (λ l, if shouldArchiveExpiredLease l (Now e) then archiveExpiredLease l else mret_ ()) ls).

Definition settle_tick : LM unit :=
  trySettleExpiredLeases ;! tryForceSettleStaleLeases ;! tryArchiveExpiredLeases.
End wallet.

(** ** The provider's policy: [node/policy.go] *)

Record LeaseAcceptPolicy := mkLeaseAcceptPolicy {
  lp_MinDurationSec : Z; lp_MaxDurationSec : Z; lp_MinCostXUSD : Z; lp_MaxCostXUSD : Z; lp_MaxConcurrent : Z }.

Definition LeaseAcceptPolicy_Validate (p : LeaseAcceptPolicy) : result unit :=
  rfail_if ((0 <? lp_MinDurationSec p) && (0 <? lp_MaxDurationSec p) && (lp_MaxDurationSec p <? lp_MinDurationSec p))
    (errorf ("min-lease-duration (" +:+ FormatUint (lp_MinDurationSec p) +:+ "s) must be ≤ max-lease-duration ("
             +:+ FormatUint (lp_MaxDurationSec p) +:+ "s)")) ;?
  rfail_if ((0 <? lp_MinCostXUSD p) && (0 <? lp_MaxCostXUSD p) && (lp_MaxCostXUSD p <? lp_MinCostXUSD p))
    (errorf ("min-lease-cost (" +:+ FormatUint (lp_MinCostXUSD p) +:+ ") must be ≤ max-lease-cost ("
             +:+ FormatUint (lp_MaxCostXUSD p) +:+ ")")).

Definition LeaseAcceptPolicy_Allow (p : LeaseAcceptPolicy) (b : Block) (activeCount : Z) : result unit :=
  rfail_if ((0 <? lp_MinDurationSec p) && (b_Duration b <? lp_MinDurationSec p))
    (errorf ("duration " +:+ FormatUint (b_Duration b) +:+ "s < policy min " +:+ FormatUint (lp_MinDurationSec p) +:+ "s")) ;?
  rfail_if ((0 <? lp_MaxDurationSec p) && (lp_MaxDurationSec p <? b_Duration b))
    (errorf ("duration " +:+ FormatUint (b_Duration b) +:+ "s > policy max " +:+ FormatUint (lp_MaxDurationSec p) +:+ "s")) ;?
  rfail_if ((0 <? lp_MinCostXUSD p) && (b_Amount b <? lp_MinCostXUSD p))
    (errorf ("cost " +:+ FormatUint (b_Amount b) +:+ " XUSD < policy min " +:+ FormatUint (lp_MinCostXUSD p) +:+ " XUSD")) ;?
  rfail_if ((0 <? lp_MaxCostXUSD p) && (lp_MaxCostXUSD p <? b_Amount b))
    (errorf ("cost " +:+ FormatUint (b_Amount b) +:+ " XUSD > policy max " +:+ FormatUint (lp_MaxCostXUSD p) +:+ " XUSD")) ;?
  rfail_if ((0 <? lp_MaxConcurrent p) && (lp_MaxConcurrent p <=? activeCount))
    (errorf ("active leases " +:+ FormatUint activeCount +:+ " ≥ policy cap " +:+ FormatUint (lp_MaxConcurrent p))).
