(* ===== verification/WalletFacts.v ===== *)
(** * A node at work on its own account

    Every operation of [Wallet] is a sequence of calls to [addBlock], reads, and
    the two writes that archive a lease: all of them keep the ledger well formed
    and what has ended, ended. *)
From S2P Require Import Prelude GoLib Types Encoding LeaseMath Crypto Multisig Attestation Genesis Reputation Store Ledger Rollback Handlers Restart AddBlock Quorum LedgerSpec LedgerCommit LedgerRules LedgerCalls LedgerUndo LedgerRestart LedgerRefine LedgerTrace LedgerSafety Supply Wallet.

(** ** What never comes back *)
Record advances (L L' : Ledger) : Prop := {
  av_blocks : ∀ h x, blocks (store L) !! h = Some x → blocks (store L') !! h = Some x;
  av_pending : ∀ h ps', pending (store L') !! h = Some ps' → blocks (store L) !! h = None ∨ is_Some (pending (store L) !! h);
  av_leases : ∀ h l, leases (store L) !! h = Some l →
    ∃ l', leases (store L') !! h = Some l' ∧ (Terminal (l_State l) = true → l' = l) }.

#[export] Instance advances_preorder : PreOrder advances.
Proof.
  split.
  - intros L. split; [done| |]; [intros h ps H; right; by eexists|intros h l H; by exists l].
  - intros L1 L2 L3 [B1 P1 S1] [B2 P2 S2]. split.
    + eauto.
    + intros h ps H. destruct (P2 h ps H) as [Hn|[ps2 H2]]; [|by eapply P1].
      left. destruct (blocks (store L1) !! h) eqn:E; [|done]. apply B1 in E. congruence.
    + intros h l Hl. destruct (S1 h l Hl) as (l2 & H2 & M2). destruct (S2 h l2 H2) as (l3 & H3 & M3).
      exists l3. split; [done|]. intros Ht. specialize (M2 Ht) as ->. auto.
Qed.

Lemma evolves_advances F L L' : evolves F L L' → advances L L'.
Proof.
  intros [H1 H2 H3 _ _]. split; [done..|]. intros h l Hl. destruct (H3 h l Hl) as (l' & Hl' & _ & Ht). eauto.
Qed.

Definition good (n : Z) (L : Ledger) : Prop := ledger_inv L ∧ supply (store L) "XUSD" <= n.

(** From a good ledger to a good one, with nothing brought back *)
Definition onward (n : Z) (L L' : Ledger) : Prop := good n L → good n L' ∧ advances L L'.

#[export] Instance onward_preorder n : PreOrder (onward n).
Proof.
  split; [by intros L H|]. intros L1 L2 L3 H1 H2 G1. destruct (H1 G1) as [G2 A1]. destruct (H2 G2) as [G3 A2].
  split; [done|by etrans].
Qed.

(** *** Archiving a lease *)

Section archive.
Context (n : Z) (L : Ledger) (l : Lease) (b : Block).
Notation h := (l_LeaseHash l).
Context (Hb : blocks (store L) !! h = Some b) (Ht : b_Type b = BlockLease).
Notation D := (with_store (DeletePendingSend h (store L)) L).

Lemma deleted_in_flight asset : ledger_inv L →
  in_flight (store D) asset = in_flight (store L) asset - (if "XUSD" =?s asset then escrow_of L h else 0).
Proof.
  intros HL. unfold in_flight, escrow_of. simpl. destruct (pending (store L) !! h) as [ps|] eqn:Hp.
  - rewrite (flight_delete asset _ h ps) by done. destruct (inv_pending L HL h ps Hp) as (_ & b' & Hb' & Hok).
    assert (b' = b) as -> by congruence. destruct (Hok Ht) as [Ha _]. by rewrite (value_XUSD ps asset Ha).
  - rewrite delete_id by done. simpl. case_bool_decide; lia.
Qed.

Lemma deleted_supply asset : ledger_inv L →
  supply (store D) asset = supply (store L) asset - (if "XUSD" =?s asset then escrow_of L h else 0).
Proof. intros HL. unfold supply. rewrite deleted_in_flight by done. unfold circulating. simpl. lia. Qed.

Lemma escrow_nonneg : ledger_inv L → 0 <= escrow_of L h.
Proof.
  intros HL. unfold escrow_of. destruct (pending (store L) !! h) as [ps|] eqn:Hp; [|done]. simpl.
  by apply (inv_pending L HL) in Hp as [[? _] _].
Qed.

Lemma deleted_onward : onward n L D.
Proof.
  intros [HL Hs]. pose proof (deleted_supply "XE" HL) as HX. pose proof (deleted_supply "XUSD" HL) as HU.
  pose proof (escrow_nonneg HL).
  rewrite bool_decide_false in HX by done. rewrite bool_decide_true in HU by done. split; [split|].
  - destruct HL as [H1 H2 H3 H4 H5 H6 H7 H8 H9 H10 H11 H12 H13 H14 H15]. split; try done.
    + intros a c Hc. by destruct (H3 a c Hc).
    + intros k ps Hk. simpl in Hk. apply lookup_delete_Some in Hk as [_ Hk]. by apply H5.
    + rewrite HX, Z.sub_0_r. done.
    + rewrite HU. change (issued xusd_issue (store D)) with (issued xusd_issue (store L)). lia.
  - lia.
  - split; [done| |intros k x Hk; by exists x]. intros k ps Hk. simpl in Hk. apply lookup_delete_Some in Hk as [_ Hk]. right. by eexists.
Qed.

Context (Hl : leases (store L) !! h = Some l) (Hst : Terminal (l_State l) = false).

Lemma marked_onward : onward n L (with_store (PutLease (lease_with_state LeaseExpired true l) (store L)) L).
Proof.
  intros [HL Hs]. destruct (inv_leases L HL h l Hl) as (_ & H0 & _). split; [split|].
  - destruct HL as [H1 H2 H3 H4 H5 H6 H7 H8 H9 H10 H11 H12 H13 H14 H15]. split; try done.
    + intros a c Hc. by destruct (H3 a c Hc).
    + intros k x Hk. simpl in Hk. apply lookup_insert_Some in Hk as [[<- <-]|[_ Hk]]; [|by apply H6]. simpl. split_and!; [done..|]. by exists b.
  - exact Hs.
  - split; [done|intros k ps Hk; right; by eexists|]. intros k x Hk. simpl.
    destruct (decide (k = h)) as [->|Hne].
    + rewrite lookup_insert_eq. eexists. split; [done|]. intros Ht'. congruence.
    + rewrite lookup_insert_ne by done. by exists x.
Qed.
End archive.

(** ** The operations *)
Section operations.
Context `{C : Crypto} `{CL : !CryptoLaws C} (e : Env) (w : Wallet) (n : Z) (Hn : n < two64).

Lemma keeps_add b : block_words b → b_Type b ≠ BlockMint → keeps (onward n) (LedgerAddBlock e b).
Proof.
  intros Hw Ht L r L' H [HL Hs]. unfold LedgerAddBlock in H.
  destruct (add_inv e b false L n HL Hw Hs Hn) as [HL' Hs']. simpl in HL', Hs'. rewrite H in HL', Hs'. simpl in *.
  assert (E : mint_amount b = 0) by (unfold mint_amount; destruct (b_Type b); done). split; [split; [done|lia]|].
  eapply evolves_advances, addBlock_evolves; [done..| |done]. lia.
Qed.

(** A signed block has the amounts and the type of its draft. *)
Lemma signed_same pre b L b' L' : signed e w pre b L = (Ok b', L') →
  L' = L ∧ b_Type b' = b_Type b ∧ b_Balance b' = b_Balance b ∧ b_Amount b' = b_Amount b ∧ b_Account b' = b_Account b ∧
  b_Asset b' = b_Asset b ∧ b_Source b' = b_Source b.
Proof.
  unfold signed. intros H. run. apply mlift_ok in H0 as [H0 ->]. unfold SignBlock in H0. run.
  unfold solvePoW. by destruct (w_difficulty w =? 0).
Qed.

Lemma keeps_signed {A} pre b (k : Block → LM A) :
  block_words b → b_Type b ≠ BlockMint →
  (∀ b', block_words b' → b_Type b' ≠ BlockMint → keeps (onward n) (k b')) →
  keeps (onward n) (let! b' := signed e w pre b in k b').
Proof.
  intros Hw Ht Hk L r L' H. unfold mbind_ in H. destruct (signed e w pre b L) as [[b'|err] L1] eqn:E.
  - apply signed_same in E as (-> & E1 & E2 & E3 & _). eapply Hk; [|by rewrite E1|exact H].
    unfold block_words. by rewrite E2, E3.
  - injection H as _ <-. unfold signed in E. unfold mbind_, mwrap, mlift in E.
    destruct (SignBlock _ _ _); injection E as _ <-; reflexivity.
Qed.

Ltac wallet :=
  repeat first
    [ match goal with |- keeps _ (mbind_ (signed _ _ _ _) _) =>
        apply keeps_signed; [split; [apply u64_range|done]|done|intros ???] end
    | keep_step ].

Lemma keeps_own_chain : keeps (onward n) (own_chain e w).
Proof. unfold own_chain, GetAccountChain. keep. Qed.

Lemma keeps_balance asset : keeps (onward n) (balance_of w asset).
Proof. unfold balance_of. keep. Qed.

#[local] Hint Resolve keeps_own_chain keeps_balance keeps_add : keeps.

Lemma keeps_Send dest amount asset : is_u64 amount → keeps (onward n) (Node_Send e w dest amount asset).
Proof.
  intros Ha. unfold Node_Send. wallet.
Qed.

Lemma keeps_receive_one p : keeps (onward n) (receive_one e w p).
Proof. unfold receive_one. wallet. Qed.
#[local] Hint Resolve keeps_receive_one : keeps.

Lemma keeps_receive_all l count : keeps (onward n) (receive_all e w count l).
Proof.
  revert count. induction l as [|p l IH]; intros count; cbn [receive_all]; keep.
Qed.

Lemma keeps_Receive : keeps (onward n) (Node_Receive e w).
Proof.
  unfold Node_Receive, GetPendingForAccount. apply (keeps_bind _); [keep|]. intros l. apply keeps_receive_all.
Qed.

Lemma keeps_offer provider v m d dur cost key cert : is_u64 cost →
  keeps (onward n) (CreateLeaseBlock e w provider v m d dur cost key cert).
Proof.
  intros Ha. unfold CreateLeaseBlock. wallet.
Qed.

(** What renewing lease [h] would cost *)
Definition renewal_words (h : string) (secs : Z) (L : Ledger) : Prop :=
  ∀ l certHash mult c, leases (store L) !! h = Some l → w_certificate w (l_Provider l) = Some (certHash, mult) →
    LeaseCost (timing e) (l_VCPUs l) (l_MemoryMB l) (l_DiskGB l) secs mult = Ok c → is_u64 c.

Lemma renew_block_keeps h secs certHash cost : is_u64 cost → keeps (onward n) (
    let! atts := mwrap (wrapf ("gather attestations for lease_renew " +:+ shortHash h +:+ ": ")) (mlift (evidence w h)) in
    let! chain := own_chain e w in
    match last chain with
    | None => mfail (errorf "account not open")
    | Some frontier =>
        let! xusdBal := balance_of w "XUSD" in
        mfail_if (xusdBal <? cost)
          (errorf ("insufficient XUSD for renewal: have " +:+ FormatUint xusdBal +:+ ", need " +:+ FormatUint cost)) ;!
        let! b := signed e w "sign lease_renew: "
          (with_evidence atts secs certHash (CurrentR w) (CurrentPayoutCap w) (CurrentTWAP w)
             (own_block e w BlockLeaseRenew (b_Hash frontier) (u64_sub xusdBal cost) "XUSD" "" cost h)) in
        mwrap (wrapf "add lease_renew: ") (LedgerAddBlock e b) ;!
        mwrap (wrapf "gossip lease_renew: ") (mlift (w_Publish w b)) ;!
        mret_ b
    end).
Proof. intros Hc. wallet. Qed.

Lemma renew_onward h secs L r L' : renewal_words h secs L → RenewLease e w h secs L = (r, L') → onward n L L'.
Proof.
  intros Hc H. unfold RenewLease, Node_GetLease, GetLease, mor, mtry, sread, mret_ in H. unfold mbind_ at 1 2 in H.
  destruct (fault e (CGetLease h)); simpl in H; [by injection H as _ <-|].
  destruct (leases (store L) !! h) as [l|] eqn:Hl; simpl in H; [|by injection H as _ <-].
  assert (Hp : l_Provider (BackfillState l) = l_Provider l ∧ l_VCPUs (BackfillState l) = l_VCPUs l ∧
    l_MemoryMB (BackfillState l) = l_MemoryMB l ∧ l_DiskGB (BackfillState l) = l_DiskGB l).
  { unfold BackfillState. by repeat case_match. }
  destruct Hp as (P1 & P2 & P3 & P4). rewrite P1, P2, P3, P4 in H. clear P1 P2 P3 P4.
  unfold mbind_ at 1, mfail_if at 1, mlift at 1 in H. destruct (rfail_if _ _) in H; [|by injection H as _ <-].
  unfold mbind_ at 1, mfail_if at 1, mlift at 1 in H. destruct (rfail_if _ _) in H; [|by injection H as _ <-].
  destruct (w_certificate w (l_Provider l)) as [[certHash mult]|] eqn:Ew; [|by injection H as _ <-].
  unfold mbind_ at 1, mwrap at 1, mlift at 1 in H.
  destruct (LeaseCost (timing e) _ _ _ secs mult) as [cost|err] eqn:E; [|by injection H as _ <-].
  eapply renew_block_keeps; [|exact H]. by eapply Hc.
Qed.

(** *** The loop *)

Lemma keeps_logged {A} (m : LM A) : keeps (onward n) m → keeps (onward n) (logged m).
Proof. intros Hm L r L' [= _ <-]. destruct (m L) as [x L1] eqn:E. by eapply Hm. Qed.

Lemma keeps_settlement t asset amount l : is_u64 amount → t ≠ BlockMint → keeps (onward n) (settlement e w t asset amount l).
Proof.
  intros Ha Ht. unfold settlement. wallet.
Qed.
#[local] Hint Resolve keeps_settlement : keeps.

Lemma keeps_settleLease l : is_u64 (leaseSettleAmount l) → keeps (onward n) (settleLease e w l).
Proof. intros Ha. apply keeps_logged. keep. Qed.

Lemma keeps_forceSettle l : is_u64 (l_Cost l) → keeps (onward n) (forceSettleLease e w l).
Proof. intros Ha. apply keeps_logged. keep. Qed.

Lemma keeps_for_all {A} (f : A → LM unit) l : (∀ x, x ∈ l → keeps (onward n) (f x)) → keeps (onward n) (mfor f l).
Proof.
  induction l as [|x l IH]; intros Hf; [apply (keeps_ret _)|]. cbn [mfor]. apply (keeps_bind _); [apply Hf; set_solver|].
  intros _. apply IH. set_solver.
Qed.

(** The amounts of the stored leases are 64-bit numbers. *)
Definition leases_typed (L : Ledger) : Prop := ∀ h l, leases (store L) !! h = Some l → is_u64 (l_Cost l) ∧ is_u64 (leaseSettleAmount l).

Lemma node_leases_elem p s l : l ∈ node_leases p s → ∃ h, leases s !! h = Some l ∧ p l = true.
Proof.
  unfold node_leases. intros [Hp Hin]%list_elem_of_filter. apply list_elem_of_fmap in Hin as ([h l'] & -> & Hin).
  apply elem_of_map_to_list in Hin. exists h. split; [done|]. by apply Is_true_true.
Qed.

Lemma lease_loop c p (f : Lease → LM unit) L r L' :
  (∀ l, (∃ h, leases (store L) !! h = Some l) → keeps (onward n) (f l)) →
  logged (let! ls := sread e c (node_leases p) in mfor f ls) L = (r, L') → onward n L L'.
Proof.
  intros Hf H. injection H as _ <-. unfold mbind_, sread. destruct (fault e c); [reflexivity|].
  destruct (mfor f (node_leases p (store L)) L) as [x L1] eqn:E. simpl. eapply keeps_for_all; [|exact E].
  intros l (h & Hl & _)%node_leases_elem. apply Hf. by exists h.
Qed.

Lemma settle_onward L r L' : leases_typed L → trySettleExpiredLeases e w L = (r, L') → onward n L L'.
Proof.
  intros Hw. apply lease_loop. intros l [h Hl]. keep. apply keeps_settleLease. by eapply Hw.
Qed.

Lemma force_onward L r L' : leases_typed L → tryForceSettleStaleLeases e w L = (r, L') → onward n L L'.
Proof.
  intros Hw. apply lease_loop. intros l [h Hl]. keep. apply keeps_forceSettle. by eapply Hw.
Qed.
(** What archiving one lease does: nothing, the escrow only, or both writes *)
Lemma archive_cases l L r L' : archiveExpiredLease e l L = (r, L') →
  let D := with_store (DeletePendingSend (l_LeaseHash l) (store L)) L in
  r = Ok () ∧ (L' = L ∨ L' = D ∨ L' = with_store (PutLease (lease_with_state LeaseExpired true l) (store D)) D).
Proof.
  intros [= <- <-]. split; [done|]. unfold mbind_, swrite. destruct (fault e (CDeletePendingSend _)); [by left|].
  simpl. destruct (fault e (CPutLease _)); [by right; left|by right; right].
Qed.

Definition archivable (L : Ledger) (l : Lease) : Prop :=
  leases (store L) !! l_LeaseHash l = Some l ∧ Terminal (l_State l) = false.

Lemma archive_onward l L r L' : archivable L l → archiveExpiredLease e l L = (r, L') →
  onward n L L' ∧ ∀ k, l_LeaseHash k ≠ l_LeaseHash l → archivable L k → archivable L' k.
Proof.
  intros [Hl Ht] H. apply archive_cases in H as [_ H]. set (D := with_store _ L) in H. split.
  - intros G. destruct (inv_leases L (proj1 G) _ _ Hl) as (_ & _ & b & Hb & Hbt).
    pose proof (deleted_onward n L l b Hb Hbt G) as [GD AD].
    destruct H as [->|[->| ->]]; [by split|by split|].
    destruct (marked_onward n D l b Hb Hbt Hl Ht GD) as [GM AM]. split; [done|]. etrans; [exact AD|exact AM].
  - intros k Hne [Hk Hkt]. destruct H as [->|[->| ->]]; split; try done. simpl. by rewrite lookup_insert_ne.
Qed.

Lemma archive_loop ls L r L' : NoDup (l_LeaseHash <$> ls) → (∀ l, l ∈ ls → archivable L l) →
  mfor (λ l, if shouldArchiveExpiredLease e l (Now e) then archiveExpiredLease e l else mret_ ()) ls L = (r, L') → onward n L L'.
Proof.
  revert L. induction ls as [|l ls IH]; intros L Hd Hl H; cbn [mfor] in H; [by injection H as _ <-|].
  rewrite fmap_cons in Hd. apply NoDup_cons in Hd as [Hnl Hd].
  assert (Hrest : ∀ k, k ∈ ls → l_LeaseHash k ≠ l_LeaseHash l).
  { intros k Hk E. apply Hnl. rewrite <- E. by apply list_elem_of_fmap_2. }
  unfold mbind_ at 1 in H. destruct (shouldArchiveExpiredLease e l (Now e)).
  - destruct (archiveExpiredLease e l L) as [x L1] eqn:E. pose proof (archive_cases _ _ _ _ E) as [-> _].
    eapply archive_onward in E as [HO HK]; [|apply Hl; set_solver]. etrans; [exact HO|]. eapply IH; [done| |exact H].
    intros k Hk. apply HK; [by apply Hrest|]. apply Hl. set_solver.
  - cbn [mret_] in H. eapply IH; [done| |exact H]. intros k Hk. apply Hl. set_solver.
Qed.

Lemma archives_onward L r L' : tryArchiveExpiredLeases e L = (r, L') → onward n L L'.
Proof.
  intros H G. injection H as _ <-. unfold mbind_, sread. destruct (fault e _); [by apply (onward_preorder n)|].
  destruct (mfor _ _ L) as [x L1] eqn:E. simpl. eapply archive_loop; [| |exact E|exact G].
  - unfold node_leases. eapply sublist_NoDup; [|apply fmap_sublist, sublist_filter].
    replace (l_LeaseHash <$> (map_to_list (leases (store L))).*2) with (map_to_list (leases (store L))).*1;
      [apply NoDup_fst_map_to_list|].
    rewrite <- list_fmap_compose. apply list_fmap_ext. intros i [h l] Hi. simpl.
    apply list_elem_of_lookup_2, elem_of_map_to_list in Hi. by destruct (inv_leases L (proj1 G) _ _ Hi) as (-> & _).
  - intros l (h & Hl & Hp)%node_leases_elem. bool_hyps. destruct (inv_leases L (proj1 G) _ _ Hl) as (E1 & _).
    split; [by rewrite E1|by rewrite Hp].
Qed.
End operations.

(** ** Blocks that cannot be accepted *)

Section refused.
Context `{C : Crypto} `{CL : !CryptoLaws C} (e : Env).

Lemma address_lower kp : ToLower (Address kp) = Address kp.
Proof.
  unfold Address, deriveAddressFromKey. symmetry. apply EncodeToString_DecodeString.
  apply DecodeString_EncodeToString, sha256_bytes.
Qed.

(** A call for a block that no rule accepts changes nothing. *)
Lemma refused_same skip b L r L' : ledger_inv L → block_words b → supply (store L) "XUSD" < two64 →
  b_Type b ≠ BlockLeaseCancel → (∀ L1 c, L1 ≈ L → ¬ accepts e skip L1 (prepared b) c) →
  addBlock e b skip L = (r, L') → L' ≈ L.
Proof.
  intros HL Hw Hs Ht Hno H. eapply addBlock_outcome in H; [|done..].
  assert (Ht' : b_Type (prepared b) ≠ BlockLeaseCancel) by (unfold prepared; by destruct (attested_type _)).
  destruct H as [[[H|[? _]] _]|(_ & _ & L1 & c & [HJ|[? _]] & Ha & _)]; [done..|destruct (Hno L1 c); done|done].
Qed.

(** The escrow and the state of a lease a rule reads are those of the ledger. *)
Lemma core_store L L1 : L1 ≈ L → pending (store L1) = pending (store L) ∧ leases (store L1) = leases (store L).
Proof. intros E. by injection E. Qed.

(** A step that reads: it fails, or the call goes on from the same ledger. *)
Lemma bind_read {A B} (m : LM A) (k : A → LM B) L r L' : keeps eq m → mbind_ m k L = (r, L') →
  (∃ x, m L = (Ok x, L) ∧ k x L = (r, L')) ∨ L' = L.
Proof.
  intros Hm H. unfold mbind_ in H. destruct (m L) as [[x|err] L1] eqn:E; pose proof (Hm _ _ _ E) as <-;
    [left; by exists x|right; by injection H].
Qed.

(** The block a settlement adds, if it gets so far *)
Lemma settlement_run w t asset amount l L r L' : settlement e w t asset amount l L = (r, L') →
  L' = L ∨ ∃ b rb, addBlock e b false L = (rb, L') ∧ b_Type b = t ∧ b_Account b = Address (w_KeyPair w) ∧
    b_Asset b = asset ∧ b_Source b = l_LeaseHash l ∧ b_Amount b = amount ∧
    b_Balance b = u64_add (default 0 (GetAssetBalances L (Address (w_KeyPair w)) !! asset)) amount.
Proof.
  intros H. unfold settlement in H.
  apply bind_read in H as [(u & _ & H)|H]; [|by left|keep].
  apply bind_read in H as [(atts & _ & H)|H]; [|by left|keep].
  apply bind_read in H as [(chain & _ & H)|H]; [|by left|unfold own_chain, GetAccountChain; keep].
  destruct (last chain) as [f|]; [|left; by injection H].
  apply bind_read in H as [(old & Ho & H)|H]; [|by left|unfold balance_of; keep]. injection Ho as <-.
  apply bind_read in H as [(b & Hb & H)|H]; [|by left|unfold signed; keep].
  apply signed_same in Hb as (_ & H1 & H2 & H3 & H4 & H5 & H6).
  right. exists b. unfold mbind_, LedgerAddBlock in H. destruct (addBlock e b false L) as [rb L1] eqn:E.
  exists rb. split_and!; try done. destruct rb; injection H as _ <-; done.
Qed.

(** What a force-settlement pays is the escrow. *)
Lemma force_settle_pays L b c : accepts e false L b c → b_Type b = BlockLeaseForceSettle →
  ∃ ps, pending (store L) !! b_Source b = Some ps ∧ b_Asset b = "XUSD" ∧
    b_Balance b = getAssetBalance L (b_Account b) "XUSD" + ps_Amount ps.
Proof.
  intros H Ht. destruct H; try congruence. exists ps. split_and!; [done..|].
  match goal with H : credits _ _ _ |- _ => unfold credits in H; rewrite H end. congruence.
Qed.

(** When a settlement, a force-settlement or a renewal is in time *)
Lemma lease_times L b c : accepts e false L b c →
  b_Type b = BlockLeaseSettle ∨ b_Type b = BlockLeaseForceSettle ∨ b_Type b = BlockLeaseRenew →
  ∃ l t, leases (store L) !! b_Source b = Some l ∧ attested e false b t ∧
    (EffectiveExpiry l <= t <= i64_add (EffectiveExpiry l) (LeaseSettleGrace (timing e)) ∨
     i64_add (i64_add (EffectiveExpiry l) (LeaseSettleGrace (timing e))) (LeaseForceSettleGap (timing e)) <= t <
       i64_add (EffectiveExpiry l) (LeaseEscrowExpiry (timing e)) ∨
     l_StartTime l <= t < EffectiveExpiry l).
Proof.
  intros H Ht. destruct H; try (destruct Ht as [?|[?|?]]; congruence).
  all: match goal with H : lease_in _ _ _ ?l, Ha : attested _ _ _ ?t |- _ =>
         exists l, t; destruct H as [H _]; split_and!; [done..|] end; lia.
Qed.
End refused.

(** ** The provider's side *)

(** What a provider locks at a time passes the ledger's check of that time, if any
    epoch is known for it. *)
Lemma acceptLockedEmission_valid e w t skip op :
  (∀ f, epochAtFn e = Some f → f t ≠ []) →
  let ep := acceptLockedEmission e w t in
  validateLockedEmissionAt e t (ep_R ep) (ep_PayoutCap ep) (ep_TWAP ep) skip op = Ok ().
Proof.
  intros Hf. unfold acceptLockedEmission, EpochParamsAt, validateLockedEmissionAt.
  destruct (epochAtFn e) as [f|]; [|done]. specialize (Hf f eq_refl). destruct (f t) as [|ep eps]; [done|].
  cbn [head existsb]. by rewrite !Z.eqb_refl.
Qed.

(** A policy that is valid allows the leases of least duration and cost. *)
Lemma valid_policy_allows p b : LeaseAcceptPolicy_Validate p = Ok () →
  b_Duration b = lp_MinDurationSec p → b_Amount b = lp_MinCostXUSD p → LeaseAcceptPolicy_Allow p b 0 = Ok ().
Proof.
  intros H Hd Hc. unfold LeaseAcceptPolicy_Validate in H. apply rbind_ok in H as ([] & H1 & H2).
  apply rfail_if_ok in H1, H2. unfold LeaseAcceptPolicy_Allow. rewrite Hd, Hc, !Z.ltb_irrefl, !andb_false_r.
  assert (E1 : (0 <? lp_MaxDurationSec p) && (lp_MaxDurationSec p <? lp_MinDurationSec p) = false) by lia.
  assert (E2 : (0 <? lp_MaxCostXUSD p) && (lp_MaxCostXUSD p <? lp_MinCostXUSD p) = false) by lia.
  assert (E3 : (0 <? lp_MaxConcurrent p) && (lp_MaxConcurrent p <=? 0) = false) by lia.
  by rewrite E1, E2, E3.
Qed.
