(* ===== verification/WalletSend.v ===== *)
(** * A covered send succeeds

    The rules say which blocks may be accepted; here is the converse for a node's
    own transfers: on a well-formed ledger with a store that answers, [Send] of a
    covered amount builds a block the ledger accepts. *)
From S2P Require Import Prelude GoLib Types Encoding EncodingFacts LeaseMath Crypto Multisig Attestation Genesis Reputation Store Ledger Rollback Handlers Restart AddBlock Quorum LedgerSpec LedgerCommit LedgerRules LedgerCalls LedgerUndo LedgerRestart LedgerRefine LedgerTrace LedgerSafety Supply Wallet WalletFacts.

Lemma listed_balance L a v : getAssetBalance L a v = default 0 (GetAssetBalances L a !! v).
Proof. unfold getAssetBalance, GetAssetBalances. destruct (assetBalances L !! a); done. Qed.

(** ** Running forward *)

Lemma bind_step {S A B} (m : M S A) (k : A → M S B) s a s1 : m s = (Ok a, s1) → mbind_ m k s = k a s1.
Proof. intros H. unfold mbind_. by rewrite H. Qed.

Lemma guard_step {S B} (c : bool) err (k : unit → M S B) s : c = false → mbind_ (mfail_if c err) k s = k () s.
Proof. intros ->. done. Qed.

Lemma wrap_step {S A} f (m : M S A) s a s1 : m s = (Ok a, s1) → mwrap f m s = (Ok a, s1).
Proof. intros H. unfold mwrap. by rewrite H. Qed.

Lemma lift_step {S A} (r : result A) (s : S) a : r = Ok a → mlift r s = (Ok a, s).
Proof. by intros ->. Qed.

(** ** The frontier has no successor on its chain *)

Lemma frontier_in c : c ≠ [] → Frontier c ∈ b_Hash <$> c.
Proof.
  intros Hne. unfold Frontier. destruct (last c) as [x|] eqn:E; [|by apply last_None in E].
  apply last_Some in E as [c' ->]. rewrite fmap_app. set_solver.
Qed.

Lemma linked_no_successor prev c x : linked prev c → prev ∉ b_Hash <$> c → NoDup (b_Hash <$> c) → x ∈ c →
  b_Previous x ≠ Frontier c.
Proof.
  revert prev. induction c as [|y c IH]; intros prev Hl Hp Hd Hx E; [by apply elem_of_nil in Hx|].
  destruct Hl as [Hy Hl]. rewrite fmap_cons in Hd. apply NoDup_cons in Hd as [Hn Hd].
  apply elem_of_cons in Hx as [->|Hx].
  - apply Hp. rewrite <- Hy, E. by apply frontier_in.
  - assert (Hne : c ≠ []) by (intros ->; by apply elem_of_nil in Hx).
    apply (IH (b_Hash y) Hl Hn Hd Hx). rewrite E. unfold Frontier. destruct c; [done|]. by rewrite last_cons_cons.
Qed.

Lemma no_sibling L a c b : ledger_inv L → chains (store L) !! a = Some c → b_Previous b = Frontier c →
  detectConflictSibling (Some c) b = "".
Proof.
  intros HL Hc Hp. destruct (inv_chains L HL a c Hc) as [Hne Hl Hst _ _ _ _ Hd _].
  unfold detectConflictSibling. simpl. destruct (find _ c) as [x|] eqn:E; [|done].
  apply find_some in E as [Hx E]. bool_hyps. apply list_elem_of_In in Hx. exfalso.
  eapply (linked_no_successor "0" c x); [done| |done|done|congruence].
  intros (y & Hy & Hin)%list_elem_of_fmap. specialize (Hst y Hin). rewrite <- Hy in Hst.
  by destruct (inv_blocks L HL "0" y Hst) as (_ & ? & _).
Qed.

Section forward.
Context `{C : Crypto} `{CL : !CryptoLaws C} (e : Env) (Hf : ∀ c, fault e c = None).

Lemma read_step {A} c (g : StoreState → A) L : sread e c g L = (Ok (g (store L)), L).
Proof. unfold sread. by rewrite Hf. Qed.

Lemma mor_step {A} d (m : LM A) L x : m L = (Ok x, L) → mor d m L = (Ok x, L).
Proof. intros H. unfold mor, mtry. by rewrite H. Qed.

(** ** The credential *)

Section credential.
Context (b : Block) (kp : KeyPair) (pub : string).
Context (Hs : b_Signatures b = []) (Hk : b_PubKey b = "") (Hp : b_Previous b ≠ "0") (Hpub : pub ≠ "")
  (Hsig : VerifyBlockSignatureWith b pub = Ok ()).

Lemma declared : ValidatePubKeyDeclaration b = Ok ().
Proof. unfold ValidatePubKeyDeclaration. by rewrite Hs, Hk, (bool_decide_false (b_Previous b = _)) by done. Qed.

Lemma credential_step L L1 : keysets L !! b_Account b = None → GetAccountKey e (b_Account b) L = (Ok pub, L1) →
  verifyBlockCredential e b L = (Ok (), L1).
Proof.
  intros Hks Hg. unfold verifyBlockCredential. rewrite (bind_step _ _ _ () L) by (by apply lift_step, declared).
  rewrite bool_decide_true by done. cbn [negb].
  rewrite (bind_step _ _ _ (keysets L !! b_Account b) L) by done. rewrite guard_step by (by rewrite Hks).
  rewrite (bind_step _ _ _ pub L1).
  - apply wrap_step, lift_step, Hsig.
  - rewrite bool_decide_false by done. rewrite (bind_step _ _ _ pub L1) by done.
    rewrite guard_step by (by rewrite bool_decide_false). done.
Qed.

End credential.

(** Looking a key up remembers it. *)
Lemma key_again a pub L L1 : pub ≠ "" → GetAccountKey e a L = (Ok pub, L1) →
  keysets L1 = keysets L ∧ store L1 = store L ∧ L ≈ L1 ∧ GetAccountKey e a L1 = (Ok pub, L1).
Proof.
  intros Hpub. unfold GetAccountKey. destruct (accountKeys L !! a) as [p|] eqn:E.
  { intros [= -> <-]. by rewrite E. }
  unfold mtry. destruct (GetAccountChain e a L) as [[[c|]|err] L2] eqn:Eg.
  all: assert (L2 = L) as -> by (unfold GetAccountChain, sread in Eg; rewrite Hf in Eg; congruence).
  2: intros [= Ep _]; by rewrite <- Ep in Hpub.
  2: intros [= Ep _]; by rewrite <- Ep in Hpub.
  destruct (foldl _ _ c =?s "") eqn:Ef; intros H; [injection H as Ep _; by rewrite <- Ep in Hpub|].
  unfold mbind_, mmodify, mret_ in H. injection H as <- <-. split_and!; [done..|].
  simpl. by rewrite lookup_insert_eq.
Qed.

(** ** The handler *)

(** A send that extends its chain and is covered *)
Record covered (L : Ledger) (b : Block) (c : AccountChain) : Prop := {
  cv_type : b_Type b = BlockSend;
  cv_chain : chains (store L) !! b_Account b = Some c;
  cv_previous : b_Previous b = Frontier c;
  cv_time : ∀ p, last c = Some p → b_Timestamp p <= b_Timestamp b;
  cv_amount : 0 < b_Amount b <= getAssetBalance L (b_Account b) (b_Asset b);
  cv_balance : b_Balance b = getAssetBalance L (b_Account b) (b_Asset b) - b_Amount b;
  cv_destination : b_Destination b ≠ "" ∧ b_Destination b ≠ b_Account b;
  cv_memo : b_Memo b = "" }.

Lemma open_step a c L : activeCascade L = None → chains (store L) !! a = Some c →
  getAccountChainOverlay e a L = (Ok (Some c), L).
Proof. intros Hn Hc. unfold getAccountChainOverlay, GetAccountChain. by rewrite Hn, read_step, Hc. Qed.

Lemma commit_step c pb L : activeCascade L = None → bc_ExpectLeaseHash c = "" →
  ∃ L', commitBlockWrite e c pb L = (Ok (), L').
Proof.
  intros Hn He. unfold commitBlockWrite. rewrite (bind_step _ _ _ _ L) by done. cbv zeta.
  rewrite (bind_step _ _ _ (activeCascade L) L) by done. rewrite Hn. unfold mbind_, mwrap, swrite. rewrite Hf.
  unfold CommitBlock, check_lease. simpl. rewrite He. simpl. by eexists.
Qed.

Lemma send_step L b c : activeCascade L = None → covered L b c → ∃ L', validateAndAddSend e b L = (Ok (), L').
Proof.
  intros Hn [_ Hc Hp Ht Ha Hb [Hd Hd'] Hm]. unfold validateAndAddSend, open_chain.
  rewrite (bind_step _ _ _ c L).
  2: { rewrite (bind_step _ _ _ (Some c) L) by (by apply wrap_step, open_step). done. }
  rewrite (bind_step _ _ _ () L).
  2: { apply lift_step. unfold check_link, check_previous, check_timestamp. rewrite bool_decide_true by done.
       destruct (last c) as [p|]; [|done]. specialize (Ht p eq_refl). simpl. by rewrite (proj2 (Z.ltb_ge _ _)) by lia. }
  rewrite (bind_step _ _ _ (getAssetBalance L (b_Account b) (b_Asset b)) L).
  2: { unfold old_balance, mgets, getAssetBalanceOverlay. by rewrite Hn. }
  rewrite guard_step by lia. rewrite guard_step by lia. rewrite guard_step by lia.
  rewrite guard_step by (by rewrite bool_decide_false). rewrite guard_step by (by rewrite bool_decide_false).
  rewrite (bind_step _ _ _ () L) by (apply wrap_step, lift_step; by rewrite Hm).
  unfold prepareBlockWrite. rewrite (bind_step _ _ _ (append L b, getAssetBalance L (b_Account b) "XE") L).
  2: { rewrite (bind_step _ _ _ (Some c) L) by (by apply wrap_step, open_step).
       rewrite (bind_step _ _ _ (getAssetBalance L (b_Account b) "XE") L).
       - unfold mret_, append, chain_of. by rewrite Hc.
       - unfold mgets, getAssetBalanceOverlay. by rewrite Hn. }
  by apply commit_step.
Qed.

(** ** [addBlock] *)

(** A signed send, as the checks before the handler see it *)
Record presentable (L : Ledger) (b : Block) (pub : string) : Prop := {
  pr_prepared : prepared b = b;
  pr_plain : b_Signatures b = [] ∧ b_PubKey b = "" ∧ b_Attestations b = [];
  pr_verified : VerifyBlock (networkID e) b = Ok ();
  pr_pow : check_pow e b = Ok ();
  pr_window : check_window e b false = Ok ();
  pr_fresh : blocks (store L) !! b_Hash b = None;
  pr_single : keysets L !! b_Account b = None;
  pr_key : pub ≠ "" ∧ fst (GetAccountKey e (b_Account b) L) = Ok pub;
  pr_signature : VerifyBlockSignatureWith b pub = Ok ();
  pr_peace : conflicts_for (b_Account b) (store L) = [];
  pr_words : block_words b;
  pr_asset : IsValidAsset (b_Asset b) = true }.

Lemma covered_core L L1 b c : L ≈ L1 → covered L b c → covered L1 b c.
Proof.
  intros E [H1 H2 H3 H4 H5 H6 H7 H8]. pose proof (core_balance L L1 (b_Account b) (b_Asset b) E) as EB.
  split; try done; [|by rewrite <- EB..]. injection E; congruence.
Qed.

Lemma previous_hash L b c : ledger_inv L → covered L b c → b_Previous b ≠ "0".
Proof.
  intros HL [_ Hc Hp _ _ _ _ _] E. rewrite Hp in E. destruct (inv_chains L HL _ _ Hc) as [Hne _ Hst _ _ _ _ _ _].
  pose proof (frontier_in c Hne) as (x & Hx & Hin)%list_elem_of_fmap. specialize (Hst x Hin).
  rewrite <- Hx, E in Hst. by destruct (inv_blocks L HL "0" x Hst) as (_ & ? & _).
Qed.

Lemma dispatch_send L L1 b c pub : ledger_inv L → covered L b c → presentable L b pub →
  GetAccountKey e (b_Account b) L = (Ok pub, L1) → supply (store L) "XUSD" < two64 →
  verifyBlockCredential e b L = (Ok (), L1) ∧
  ∃ L', dispatchValidateAndAdd e b false L1 = (Ok (), L') ∧ committed e false L b L'.
Proof.
  intros HL Hc Hp Hg Hs. pose proof (previous_hash L b c HL Hc) as Hprev.
  destruct Hp as [_ (P1 & P2 & P3) Hv _ _ Hfr Hks [Hne _] Hsig _ Hw Ha].
  destruct (key_again _ _ _ _ Hne Hg) as (Ek & _ & E & Hg1). pose proof (core_inv _ _ E HL) as HL1.
  split; [by eapply credential_step|]. rewrite dispatch_handler, (bind_step _ _ _ () L1).
  2: { eapply credential_step; try done. by rewrite Ek. }
  pose proof (covered_core _ _ _ _ E Hc) as Hc1.
  destruct (send_step L1 b c (inv_cascade L1 HL1) Hc1) as [L' H'].
  assert (Hh : handler e false b L1 = (Ok (), L')) by (unfold handler; by rewrite (cv_type _ _ _ Hc)).
  exists L'. split; [done|].
  assert (Hnew : new_block L b) by (apply VerifyBlock_hash in Hv as [??]; by split).
  destruct (handlers_refine e false b L1 L' ()) as (K & HJ & x & Hx & Hcm); [done|by eapply core_new_block| |done|].
  { by rewrite <- (core_supply _ _ _ E). }
  exists K, x. split_and!; [|done..]. eapply judged_core; [|done]. by symmetry.
Qed.

Lemma add_send_step L b c pub : ledger_inv L → covered L b c → presentable L b pub → supply (store L) "XUSD" < two64 →
  ∃ L', addBlock e b false L = (Ok (), L') ∧ committed e false L b L'.
Proof.
  intros HL Hc Hp Hs. destruct (GetAccountKey e (b_Account b) L) as [rk L1] eqn:Hg.
  assert (rk = Ok pub) as -> by (destruct (pr_key _ _ _ Hp) as [_ E]; by rewrite Hg in E).
  destruct (dispatch_send L L1 b c pub HL Hc Hp Hg Hs) as (Hcred & L' & Hd & Hcm).
  destruct Hp as [Hprep (P1 & P2 & P3) Hv Hpow Hwin Hfr Hks [Hne _] Hsig Hpeace Hw Ha].
  destruct (key_again _ _ _ _ Hne Hg) as (_ & Es & E & _). pose proof (core_inv _ _ E HL) as HL1.
  pose proof (covered_core _ _ _ _ E Hc) as Hc1.
  unfold addBlock. rewrite Hprep. cbv zeta. rewrite guard_step by (by rewrite P3).
  rewrite (bind_step _ _ _ () L) by (by apply wrap_step, lift_step).
  rewrite (bind_step _ _ _ () L) by (by apply lift_step). rewrite (bind_step _ _ _ () L) by (by apply lift_step).
  rewrite (bind_step _ _ _ None L) by (apply wrap_step; unfold GetBlock; by rewrite read_step, Hfr).
  rewrite (bind_step _ _ _ () L1) by done.
  rewrite (bind_step _ _ _ (Some c) L1).
  2: { apply wrap_step. unfold GetAccountChain. by rewrite read_step, (cv_chain _ _ _ Hc1). }
  rewrite (no_sibling L1 (b_Account b) c b HL1 (cv_chain _ _ _ Hc1) (cv_previous _ _ _ Hc)), (bool_decide_true (_ = _)) by done.
  cbn [negb].
  rewrite (bind_step _ _ _ [] L1) by (apply mor_step; by rewrite read_step, Es, Hpeace).
  rewrite guard_step by done. rewrite guard_step by (by rewrite bool_decide_false; [|intros Ea; by rewrite Ea in Ha]).
  rewrite guard_step by (by rewrite Ha). unfold mtry. rewrite Hd. destruct (blockAddedCallback e); [|by exists L'].
  eexists. split; [done|]. destruct Hcm as (K & x & HJ & Hx & HC). by exists K, x.
Qed.

(** ** The block [Send] builds *)

Lemma hex_lower l : Forall is_byte l → ToLower (EncodeToString l) = EncodeToString l.
Proof. intros H. symmetry. by apply EncodeToString_DecodeString, DecodeString_EncodeToString. Qed.

Lemma pub_nonempty seed : PubKeyHex (KeyPairFromSeed seed) ≠ "".
Proof.
  unfold PubKeyHex. intros E. apply (f_equal DecodeString) in E.
  rewrite DecodeString_EncodeToString in E by apply Public_bytes. apply ok_inj in E.
  apply (f_equal (@length Z)) in E. simpl in E. by rewrite Public_length in E.
Qed.

(** The node's account and what [Send] needs of it *)
Record ready (w : Wallet) (seed : list Z) (L : Ledger) (c : AccountChain) (f : Block) : Prop := {
  rd_key : w_KeyPair w = KeyPairFromSeed seed;
  rd_chain : chains (store L) !! Address (w_KeyPair w) = Some c;
  rd_frontier : last c = Some f ∧ ToLower (b_Hash f) = b_Hash f ∧ b_Timestamp f <= Now e;
  rd_clock : 0 <= Now e;
  rd_single : keysets L !! Address (w_KeyPair w) = None;
  rd_known : fst (GetAccountKey e (Address (w_KeyPair w)) L) = Ok (PubKeyHex (w_KeyPair w));
  rd_peace : conflicts_for (Address (w_KeyPair w)) (store L) = [];
  rd_work : w_difficulty w = difficulty e ∧ (0 < difficulty e → ∀ h, ValidatePoW h (w_nonce w h) (difficulty e) = true) }.

Section built.
Context (w : Wallet) (seed : list Z) (L : Ledger) (c : AccountChain) (f : Block) (R : ready w seed L c f) (HL : ledger_inv L).
Context (asset destination : string) (amount : Z) (b0 : Block).
Notation a := (Address (w_KeyPair w)).
Notation d := (own_block e w BlockSend (b_Hash f) (getAssetBalance L a asset - amount) asset destination amount "").
Context (Hsign : SignBlock (networkID e) d (w_KeyPair w) = Ok b0).
Notation b := (solvePoW w b0).

Lemma frontier_hash : b_Hash f = Frontier c.
Proof. unfold Frontier. by rewrite (proj1 (rd_frontier _ _ _ _ _ R)). Qed.

Lemma frontier_zero : b_Hash f ≠ "0".
Proof.
  intros E. destruct (rd_frontier _ _ _ _ _ R) as [Hl _].
  destruct (inv_chains L HL _ _ (rd_chain _ _ _ _ _ R)) as [_ _ Hst _ _ _ _ _ _].
  apply last_Some in Hl as [c' ->]. specialize (Hst f ltac:(set_solver)). rewrite E in Hst.
  by destruct (inv_blocks L HL "0" f Hst) as (_ & ? & _).
Qed.

(** What signing adds to the draft *)
Lemma sealed_draft : ∃ m, Forall is_byte m ∧ HashBlock (networkID e) d = Ok (EncodeToString m) ∧ length m = 32%nat ∧
  b0 = with_seal "" (EncodeToString (ed25519_Sign seed m)) (EncodeToString m) d.
Proof.
  pose proof frontier_zero as Hz. pose proof Hsign as H. unfold SignBlock in H.
  cbn [own_block b_Previous b_PubKey] in H. rewrite (bool_decide_false (b_Hash f = "0")) in H by done.
  cbn [andb] in H. run.
  match goal with H : HashBlock _ _ = Ok ?h |- _ => pose proof H as Hh; unfold HashBlock in H; run end.
  rewrite DecodeHash_encode in * by (apply sha256_bytes || apply sha256_length).
  match goal with H : result_map_err _ (Ok _) = _ |- _ => cbn in H; apply ok_inj in H; subst end.
  eexists. split_and!; [apply sha256_bytes|exact Hh|apply sha256_length|].
  by rewrite (rd_key _ _ _ _ _ R).
Qed.

(** The block is the draft but for the seal and the nonce. *)
Lemma built_block : ∃ m n, Forall is_byte m ∧ HashBlock (networkID e) d = Ok (EncodeToString m) ∧ length m = 32%nat ∧
  b = with_nonce n (with_seal "" (EncodeToString (ed25519_Sign seed m)) (EncodeToString m) d) ∧
  (difficulty e = 0 ∨ n = w_nonce w m).
Proof.
  destruct sealed_draft as (m & Hm & Hh & Hlen & E). exists m. destruct (rd_work _ _ _ _ _ R) as [Ed _].
  unfold solvePoW. rewrite E. destruct (Z.eqb_spec (w_difficulty w) 0) as [E0|E0].
  - exists 0. split_and!; [done..|]. left. congruence.
  - exists (w_nonce w m). split_and!; [done..| |by right].
    cbn [with_seal b_Hash]. by rewrite DecodeString_EncodeToString.
Qed.

Context (Hlow : ToLower destination = destination) (Hd : destination ≠ "") (Hself : destination ≠ a).
Context (Ha : 0 < amount <= getAssetBalance L a asset) (Hv : IsValidAsset asset = true) (Hu : is_u64 amount).
Context (Hfresh : blocks (store L) !! b_Hash b = None).

Lemma built_covered : covered L b c.
Proof.
  destruct built_block as (m & n & _ & _ & _ & E & _). rewrite E. split; try done.
  - apply (rd_chain _ _ _ _ _ R).
  - apply frontier_hash.
  - intros p Hp. destruct (rd_frontier _ _ _ _ _ R) as (Hl & _ & Ht). simpl. congruence.
Qed.

Lemma built_words : block_words b.
Proof.
  destruct built_block as (m & n & _ & _ & _ & E & _). rewrite E. split; [|done]. simpl.
  pose proof (inv_balance_u64 L HL a asset Hv). unfold is_u64 in *. lia.
Qed.

Lemma built_presentable : presentable L b (PubKeyHex (w_KeyPair w)).
Proof.
  pose proof built_words as Hw. pose proof frontier_zero as Hz. destruct built_block as (m & n & Hm & Hh & Hlen & E & Hn).
  destruct (rd_frontier _ _ _ _ _ R) as (_ & Hlf & _). rewrite E in *. split; try done.
  - unfold prepared, normalizeBlockHex. simpl.
    by rewrite address_lower, Hlf, Hlow, !hex_lower by (done || apply Sign_bytes).
  - unfold VerifyBlock. change (HashBlock (networkID e) (with_nonce _ _)) with (HashBlock (networkID e) d). rewrite Hh.
    cbn [result_map_err rbind with_nonce with_seal b_Hash]. rewrite bool_decide_true by done. cbn [negb rfail_if rbind].
    rewrite declared by done. cbn [rbind]. simpl. by rewrite (bool_decide_false (b_Hash f = "0")).
  - unfold check_pow. destruct (Z.ltb_spec 0 (difficulty e)) as [Hp|]; [|done]. simpl.
    rewrite DecodeString_EncodeToString by done. destruct Hn as [?| ->]; [lia|].
    simpl. by rewrite (proj2 (rd_work _ _ _ _ _ R) Hp).
  - unfold check_window. simpl. destruct (0 <? timestampWindow e) eqn:Ew; [|done]. bool_hyps.
    pose proof (rd_clock _ _ _ _ _ R). rewrite (proj2 (Z.ltb_ge _ _)) by lia. cbn [rfail_if rbind].
    rewrite (proj2 (Z.ltb_ge (Now e) _)) by lia. unfold i64_sub. rewrite Z.sub_diag.
    by rewrite (proj2 (Z.ltb_ge _ _)) by (change (i64 0) with 0; lia).
  - apply (rd_single _ _ _ _ _ R).
  - split; [|apply (rd_known _ _ _ _ _ R)]. rewrite (rd_key _ _ _ _ _ R). apply pub_nonempty.
  - unfold VerifyBlockSignatureWith. simpl. rewrite DecodeHash_encode by done. cbn [rbind].
    rewrite (rd_key _ _ _ _ _ R). apply VerifyHexSignature_sign.
  - apply (rd_peace _ _ _ _ _ R).
Qed.
End built.

(** ** The outcome *)

(** What an accepted send leaves *)
Lemma sent L b L' : ledger_inv L → new_block L b → supply (store L) "XUSD" < two64 → b_Type b = BlockSend →
  committed e false L b L' →
  blocks (store L') !! b_Hash b = Some b ∧
  getAssetBalance L' (b_Account b) (b_Asset b) = getAssetBalance L (b_Account b) (b_Asset b) - b_Amount b ∧
  pending (store L') !! b_Hash b = Some (mkPendingSend (b_Hash b) (b_Account b) (b_Destination b) (b_Amount b) (b_Asset b)).
Proof.
  intros HL Hnew Hs Ht Hc. destruct (committed_facts e false L b L' HL Hnew Hs Hc) as (_ & Hb & _).
  destruct Hc as (K & c & [EK|[? _]] & Ha & HC); [|congruence]. symmetry in EK.
  pose proof (core_inv _ _ EK HL) as HK. assert (Hap : appends K b c) by by eapply accepts_appends.
  destruct Ha; try congruence. split_and!.
  - rewrite Hb. apply lookup_insert_eq.
  - rewrite (core_balance _ _ _ _ HC), (commit_balance _ _ _ Hap), !bool_decide_true, (core_balance _ _ _ _ EK).
    all: try done; try apply Hnew; try by apply inv_balance_u64.
    match goal with H : debits _ _ |- _ => apply H end.
  - destruct (core_store _ _ HC) as [-> _]. rewrite commit_pendings. simpl. apply lookup_insert_eq.
Qed.

(** [Send] reads the frontier and the balance, and adds the signed block. *)
Lemma send_run w destination amount asset L c f b0 L' :
  let a := Address (w_KeyPair w) in
  chains (store L) !! a = Some c → last c = Some f → asset ≠ "" →
  0 <= amount <= getAssetBalance L a asset → is_u64 (getAssetBalance L a asset) →
  SignBlock (networkID e)
    (own_block e w BlockSend (b_Hash f) (getAssetBalance L a asset - amount) asset destination amount "") (w_KeyPair w) = Ok b0 →
  addBlock e (solvePoW w b0) false L = (Ok (), L') →
  Node_Send e w destination amount asset L = (w_Publish w (solvePoW w b0), L').
Proof.
  intros a Hc Hl Has Ha Hu Hsign Hadd. unfold Node_Send. rewrite (bool_decide_false (asset = "")) by done. cbv zeta.
  rewrite (bind_step _ _ _ c L).
  2: { unfold own_chain. rewrite (bind_step _ _ _ (Some c) L); [done|]. apply mor_step. unfold GetAccountChain.
       unfold a in Hc. by rewrite read_step, Hc. }
  rewrite Hl. rewrite (bind_step _ _ _ (getAssetBalance L a asset) L) by (unfold balance_of, mgets; by rewrite listed_balance).
  rewrite guard_step by lia. replace (u64_sub (getAssetBalance L a asset) amount) with (getAssetBalance L a asset - amount)
    by (unfold u64_sub; rewrite u64_small; unfold is_u64 in *; lia).
  rewrite (bind_step _ _ _ (solvePoW w b0) L).
  2: { unfold signed. rewrite (bind_step _ _ _ b0 L); [done|]. by apply wrap_step, lift_step. }
  by rewrite (bind_step _ _ _ () L') by done.
Qed.
End forward.
