(* ===== verification/WalletTheorems.v ===== *)
(** * What a working node promises

    A node that sends, receives, leases, settles and archives at any times, between
    any other calls, keeps the supply and brings nothing back.  Its consumer loop
    cannot refund a renewed lease; it archives a lease only when no gossiped block can
    be accepted for it, but what it archived it can no longer learn by syncing. *)
From S2P Require Import Prelude GoLib Types Amount Encoding LeaseMath Crypto Multisig Attestation Genesis Reputation Store Ledger Rollback Handlers Restart AddBlock Quorum LedgerSpec LedgerCommit LedgerRules LedgerCalls LedgerUndo LedgerRestart LedgerRefine LedgerTrace LedgerSafety Supply Wallet WalletFacts WalletSend Scenario SupplyTheorems.

(** ** A node at work *)

(** Calls by others, and what the node does itself *)
Inductive node_act :=
| Other (x : action)
| DoSend (e : Env) (w : Wallet) (destination : string) (amount : Z) (asset : string)
| DoReceive (e : Env) (w : Wallet)
| DoOffer (e : Env) (w : Wallet) (provider : string) (vcpus memoryMB diskGB duration cost : Z) (key cert : string)
| DoRenew (e : Env) (w : Wallet) (leaseHash : string) (secs : Z)
| DoTick (e : Env) (w : Wallet).

Section node.
Context `{C : Crypto} `{CL : !CryptoLaws C}.

Definition run_node_act (L : Ledger) (x : node_act) : Ledger :=
  match x with
  | Other x => run_action L x
  | DoSend e w d a v => (Node_Send e w d a v L).2
  | DoReceive e w => (Node_Receive e w L).2
  | DoOffer e w p v m d dur cost key cert => (CreateLeaseBlock e w p v m d dur cost key cert L).2
  | DoRenew e w h secs => (RenewLease e w h secs L).2
  | DoTick e w => (settle_tick e w L).2
  end.
Definition run_node (acts : list node_act) (L : Ledger) : Ledger := foldl run_node_act L acts.

(** The numbers an act puts into blocks are 64-bit numbers, as their Go types say. *)
Definition act_typed (L : Ledger) (x : node_act) : Prop :=
  match x with
  | Other x => typed x
  | DoSend _ _ _ a _ => is_u64 a
  | DoReceive _ _ => True
  | DoOffer _ _ _ _ _ _ _ cost _ _ => is_u64 cost
  | DoRenew e w h secs => renewal_words e w h secs L
  | DoTick e w => leases_typed L ∧ leases_typed (trySettleExpiredLeases e w L).2
  end.
Fixpoint run_typed (acts : list node_act) (L : Ledger) : Prop :=
  match acts with
  | [] => True
  | x :: acts => act_typed L x ∧ run_typed acts (run_node_act L x)
  end.

Definition act_minted (x : node_act) : Z := match x with Other x => minted x | _ => 0 end.
Definition node_mints (acts : list node_act) : Z := foldr (λ x acc, act_minted x + acc) 0 acts.

Lemma act_minted_nonneg L x : act_typed L x → 0 <= act_minted x.
Proof. destruct x; simpl; [apply minted_nonneg|done..]. Qed.

Lemma node_mints_nonneg acts L : run_typed acts L → 0 <= node_mints acts.
Proof.
  revert L. induction acts as [|x acts IH]; intros L; simpl; [done|]. intros [Hx Ha].
  apply act_minted_nonneg in Hx. apply IH in Ha. lia.
Qed.

Lemma onward_good n n' L L' : n <= n' → onward n L L' → good n L → good n' L' ∧ advances L L'.
Proof. intros Hn H G. destruct (H G) as [[HL Hs] HA]. split; [split; [done|lia]|done]. Qed.

Lemma tick_onward e w n L r L' : n < two64 → leases_typed L → leases_typed (trySettleExpiredLeases e w L).2 →
  settle_tick e w L = (r, L') → onward n L L'.
Proof.
  intros Hn H1 H2 H. unfold settle_tick, mbind_ in H.
  destruct (trySettleExpiredLeases e w L) as [r1 L1] eqn:E1.
  assert (r1 = Ok ()) as -> by (unfold trySettleExpiredLeases, logged in E1; congruence).
  destruct (tryForceSettleStaleLeases e w L1) as [r2 L2] eqn:E2.
  assert (r2 = Ok ()) as -> by (unfold tryForceSettleStaleLeases, logged in E2; congruence).
  apply settle_onward with (n := n) in E1; [|done..]. apply force_onward with (n := n) in E2; [|done..].
  assert (E3 : onward n L2 L') by (by eapply archives_onward).
  etrans; [exact E1|]. etrans; [exact E2|exact E3].
Qed.

Lemma act_onward n L x : act_typed L x → good n L → n < two64 →
  good (n + act_minted x) (run_node_act L x) ∧ advances L (run_node_act L x).
Proof.
  intros Hx G Hn. pose proof (act_minted_nonneg _ _ Hx).
  destruct x as [x|e w d a v|e w|e w p v m d dur cost key cert|e w h secs|e w];
    cbn [run_node_act act_typed act_minted] in *.
  - destruct G as [HL Hs]. split; [by apply run_action_inv|]. eapply evolves_advances, action_evolves; [done..|lia].
  - destruct (Node_Send e w d a v L) as [r L'] eqn:E. eapply onward_good; [|eapply keeps_Send, E|done]; [lia|done..].
  - destruct (Node_Receive e w L) as [r L'] eqn:E. eapply onward_good; [|eapply keeps_Receive, E|done]; [lia|done..].
  - destruct (CreateLeaseBlock e w p v m d dur cost key cert L) as [r L'] eqn:E.
    eapply onward_good; [|eapply keeps_offer, E|done]; [lia|done..].
  - destruct (RenewLease e w h secs L) as [r L'] eqn:E. eapply onward_good; [|eapply renew_onward, E|done]; [lia|done..].
  - destruct (settle_tick e w L) as [r L'] eqn:E. destruct Hx. eapply onward_good; [|eapply tick_onward, E|done]; [lia|done..].
Qed.

Lemma run_onward acts n L : run_typed acts L → good n L → n + node_mints acts < two64 →
  good (n + node_mints acts) (run_node acts L) ∧ advances L (run_node acts L).
Proof.
  revert n L. induction acts as [|x acts IH]; intros n L Ha G Hn; simpl in *.
  { rewrite Z.add_0_r. by split. }
  destruct Ha as [Hx Ha]. pose proof (act_minted_nonneg _ _ Hx). pose proof (node_mints_nonneg _ _ Ha).
  destruct (act_onward n L x Hx G) as [G1 A1]; [lia|]. rewrite Z.add_assoc in *.
  destruct (IH _ _ Ha G1 Hn) as [G2 A2]. split; [exact G2|]. etrans; [exact A1|exact A2].
Qed.

Lemma run_typed_app xs ys L : run_typed (xs ++ ys) L ↔ run_typed xs L ∧ run_typed ys (run_node xs L).
Proof.
  revert L. induction xs as [|x xs IH]; intros L; simpl; [by split; [|intros []]|]. rewrite IH. naive_solver.
Qed.

Lemma node_mints_app xs ys : node_mints (xs ++ ys) = node_mints xs + node_mints ys.
Proof. unfold node_mints. induction xs as [|x xs IH]; simpl; lia. Qed.

Lemma empty_good : good 0 emptyLedger.
Proof. split; [apply empty_inv|done]. Qed.

(** C8: A node at work conserves money and brings nothing back.  However calls by
    others are interleaved with the node's own transfers, lease offers, renewals,
    settlements, force-settlements and archivals (with store faults anywhere), the
    XE held and in flight is what was issued, the XUSD at most the sum of the mint
    blocks others offered, every balance is the one the account's chain states; and from any moment on, what was
    received, settled, refunded or archived is never pending again and a lease that
    has ended never changes. *)
Theorem node_conserves before acts :
  run_typed (before ++ acts) emptyLedger → node_mints (before ++ acts) < two64 →
  let L := run_node before emptyLedger in
  let L' := run_node (before ++ acts) emptyLedger in
  circulating (store L') "XE" + in_flight (store L') "XE" = issued xe_issue (store L') ∧
  circulating (store L') "XUSD" + in_flight (store L') "XUSD" <= node_mints (before ++ acts) ∧
  (∀ a v, getAssetBalance L' a v = assetBalanceOnChain (chains (store L') !! a) v) ∧
  (∀ h, is_Some (blocks (store L) !! h) → pending (store L) !! h = None → pending (store L') !! h = None) ∧
  (∀ h l, leases (store L) !! h = Some l → Terminal (l_State l) = true → leases (store L') !! h = Some l).
Proof.
  intros Hw Hm L L'. pose proof Hw as [H1 H2]%run_typed_app. rewrite node_mints_app in *.
  pose proof (node_mints_nonneg _ _ H1). pose proof (node_mints_nonneg _ _ H2).
  destruct (run_onward before 0 emptyLedger H1 empty_good) as [G1 _]; [lia|]. fold L in G1, H2.
  destruct (run_onward acts _ L H2 G1) as [G2 [_ AP AL]]; [lia|].
  replace (run_node acts L) with L' in * by (unfold L', run_node; by rewrite foldl_app).
  destruct G2 as [HL Hs]. split_and!.
  - apply (inv_xe L' HL).
  - unfold supply in Hs. lia.
  - intros a v. apply (inv_balances L' HL).
  - intros h [b Hb] Hp. destruct (pending (store L') !! h) as [ps|] eqn:E; [|done].
    apply AP in E as [E|[ps' E]]; congruence.
  - intros h l Hl Ht. destruct (AL h l Hl) as (l' & Hl' & E). by rewrite Hl', (E Ht).
Qed.

(** ** Force-settlements *)

Lemma refund_balance old cost amount : is_u64 cost → is_u64 amount → u64_add old cost = old + amount → cost = amount.
Proof.
  unfold u64_add, u64, is_u64. intros Hc Ha H. pose proof (Z.div_mod (old + cost) two64 ltac:(done)) as E.
  rewrite H in E. unfold two64 in *. lia.
Qed.

Lemma prepared_fields b : b_Type (prepared b) = b_Type b ∧ b_Account (prepared b) = ToLower (b_Account b) ∧
  b_Source (prepared b) = ToLower (b_Source b) ∧ b_Balance (prepared b) = b_Balance b.
Proof. unfold prepared. by destruct (attested_type _). Qed.

(** C38: The consumer's loop refunds a lease only if its escrow is the price of the
    first term.  For any other lease, so for every renewed one, the block it builds
    states the wrong balance and the call changes nothing: the consumer is not
    refunded, however often the loop runs. *)
Theorem forceSettleLease_first_term_only e w l ps L r L' :
  ledger_inv L → supply (store L) "XUSD" < two64 → is_u64 (l_Cost l) →
  pending (store L) !! ToLower (l_LeaseHash l) = Some ps → ps_Amount ps ≠ l_Cost l →
  forceSettleLease e w l L = (r, L') → L' ≈ L.
Proof.
  intros HL Hs Hc Hp Hne H. injection H as _ <-.
  destruct (settlement e w BlockLeaseForceSettle "XUSD" (l_Cost l) l L) as [rb L1] eqn:E.
  assert (L1 ≈ L); [|unfold mbind_; rewrite E; by destruct rb].
  destruct (inv_pending L HL _ _ Hp) as [Hu _].
  apply settlement_run in E as [->|(b & r1 & E & Ht & Ha & Hv & Hsrc & Hamt & Hbal)]; [done|].
  eapply refused_same in E; [done..|by split; [rewrite Hbal; apply u64_range|rewrite Hamt]|done|by rewrite Ht|].
  intros K c HK Hacc. destruct (prepared_fields b) as (P1 & P2 & P3 & P4).
  apply force_settle_pays in Hacc as (ps' & Hp' & _ & Hb'); [|congruence].
  rewrite P2, Ha, address_lower, P4, Hbal, (core_balance K L), listed_balance in Hb' by done.
  rewrite P3, Hsrc in Hp'. destruct (core_store L K HK) as [Ep _].
  assert (ps' = ps) as -> by congruence. apply Hne. symmetry. by eapply refund_balance.
Qed.

(** ** Archiving *)

(** Times below [2^62] nanoseconds, windows in order, and an archive gap that covers
    the skew of the timekeepers *)
Definition sane_times (T : LeaseTiming) (l : Lease) : Prop :=
  0 <= l_StartTime l ∧ 0 <= EffectiveExpiry l < 2 ^ 61 ∧ 0 <= LeaseSettleGrace T <= LeaseEscrowExpiry T ∧
  0 <= LeaseForceSettleGap T < 2 ^ 61 ∧ LeaseEscrowExpiry T < 2 ^ 61 ∧ 0 <= LeaseArchiveGap T < 2 ^ 61 ∧
  0 < MaxAttestationSkew T < LeaseArchiveGap T.

Lemma windows_over T l now now' t :
  sane_times T l → i64_add (i64_add (EffectiveExpiry l) (LeaseEscrowExpiry T)) (LeaseArchiveGap T) <= now →
  0 <= now <= now' → now' < 2 ^ 62 → Z.abs (t - now') <= MaxAttestationSkew T ∨ t = now' - two63 →
  EffectiveExpiry l <= t <= i64_add (EffectiveExpiry l) (LeaseSettleGrace T) ∨
  i64_add (i64_add (EffectiveExpiry l) (LeaseSettleGrace T)) (LeaseForceSettleGap T) <= t <
    i64_add (EffectiveExpiry l) (LeaseEscrowExpiry T) ∨
  l_StartTime l <= t < EffectiveExpiry l → False.
Proof.
  intros (S1 & S2 & S3 & S4 & S5 & S6 & S7). generalize dependent (EffectiveExpiry l). intros x Hx Hd H1 H2 Ht Hw.
  unfold i64_add in *. rewrite (i64_small (x + LeaseEscrowExpiry T)) in Hd, Hw by (unfold is_i64, two63; lia).
  rewrite (i64_small (x + LeaseSettleGrace T)) in Hw by (unfold is_i64, two63; lia).
  rewrite i64_small in Hd by (unfold is_i64, two63; lia). rewrite i64_small in Hw by (unfold is_i64, two63; lia).
  unfold two63 in *. lia.
Qed.

(** C28: A node archives a lease only when no gossiped block can be accepted for it.
    Once the loop would archive a lease, a settlement, a force-settlement or a
    renewal of it that is added by [AddBlock] at that time or later changes nothing.
    The timing must have an archive gap above the timekeepers' skew, which the
    genesis rules do not enforce, and an escrow period not below the settlement grace;
    times are below 2^62 ns and periods below 2^61, attested times are 64-bit, and a
    positive number of timekeepers must agree.  Blocks of a sync, whose attestations
    are not compared with the clock, are not covered: an archived lease does refuse
    those, see [lease_ends_once]. *)
Theorem archive_only_when_over e e' l b L r L' :
  ledger_inv L → block_words b → supply (store L) "XUSD" < two64 →
  leases (store L) !! ToLower (b_Source b) = Some l →
  b_Type b = BlockLeaseSettle ∨ b_Type b = BlockLeaseForceSettle ∨ b_Type b = BlockLeaseRenew →
  shouldArchiveExpiredLease e l (Now e) = true → sane_times (timing e) l → timing e' = timing e →
  0 <= Now e <= Now e' → Now e' < 2 ^ 62 →
  (∀ cfg, timekeeperConfigFn e' = Some (Some cfg) → 0 < tk_Threshold cfg) →
  Forall (λ a, is_i64 (ta_Timestamp a)) (b_Attestations b) →
  addBlock e' b false L = (r, L') → L' ≈ L.
Proof.
  intros HL Hw Hs Hl Ht Hd (S1 & S2 & S3 & S4 & S5 & S6 & S7) ET Hn Hn' Hcfg Hi H.
  eapply refused_same in H; [done..|by destruct Ht as [->|[->| ->]]|]. intros K c HK Hacc.
  destruct (prepared_fields b) as (P1 & _ & P3 & _).
  apply lease_times in Hacc as (l' & t & Hl' & (cfg & Hc & Hv) & Hw'); [|by rewrite P1].
  destruct (core_store L K HK) as [_ El]. rewrite P3, El in Hl'. assert (l' = l) as -> by congruence.
  apply ValidateAttestations_skew in Hv; [|by apply Hcfg|rewrite ET; lia|lia|].
  2: { unfold prepared. destruct (attested_type _); [done|by constructor]. }
  unfold shouldArchiveExpiredLease in Hd. bool_hyps. rewrite ET in *. by eapply windows_over.
Qed.

(** ** Sending *)

(** C18: A covered send succeeds.  Assume a well-formed ledger whose XUSD supply fits 64
    bits and a store that answers every call; an open account of a single known key,
    without keyset or unresolved conflict, whose frontier has a lower-case hash and is
    not stamped after the clock, which is not negative; a positive 64-bit amount that
    the balance covers; a non-empty lower-case destination other than the account; a
    draft that can be signed; a proof-of-work solver that meets the node's difficulty;
    and a block hash that is not taken.  Then [Send] publishes a block that the ledger
    has taken: the block is stored, the balance is less by exactly the amount, and the
    amount is pending for the destination. *)
Theorem Node_Send_succeeds e w seed destination amount asset L c f b0 :
  (∀ call, fault e call = None) → ledger_inv L → supply (store L) "XUSD" < two64 → ready e w seed L c f →
  IsValidAsset asset = true → is_u64 amount →
  let a := Address (w_KeyPair w) in
  0 < amount <= getAssetBalance L a asset →
  destination ≠ "" → destination ≠ a → ToLower destination = destination →
  SignBlock (networkID e)
    (own_block e w BlockSend (b_Hash f) (getAssetBalance L a asset - amount) asset destination amount "") (w_KeyPair w) = Ok b0 →
  let b := solvePoW w b0 in
  blocks (store L) !! b_Hash b = None →
  ∃ L', Node_Send e w destination amount asset L = (w_Publish w b, L') ∧
    blocks (store L') !! b_Hash b = Some b ∧
    getAssetBalance L' a asset = getAssetBalance L a asset - amount ∧
    pending (store L') !! b_Hash b = Some (mkPendingSend (b_Hash b) a destination amount asset).
Proof.
  intros Hf HL Hs R Hv Hu a Ha Hd1 Hd2 Hlow Hsign b Hfresh.
  pose proof (built_covered e Hf w seed L c f R HL asset destination amount b0 Hsign Hd1 Hd2 Ha) as Hc.
  pose proof (built_presentable e Hf w seed L c f R HL asset destination amount b0 Hsign Hlow Ha Hv Hu Hfresh) as Hp.
  destruct (add_send_step e Hf L b c _ HL Hc Hp Hs) as (L' & Hadd & Hcm). exists L'.
  destruct (built_block e Hf w seed L c f R HL asset destination amount b0 Hsign) as (m & n & _ & _ & _ & E & _). fold b in E.
  assert (Hnew : new_block L b).
  { pose proof (pr_verified _ _ _ _ Hp) as Hvb. apply VerifyBlock_hash in Hvb as [??]. split; [done..|apply Hp|apply Hp]. }
  pose proof (sent e L b L' HL Hnew Hs (cv_type _ _ _ Hc) Hcm) as (H1 & H2 & H3). split_and!; [|done| |].
  - eapply send_run; [done|apply R|apply (rd_frontier _ _ _ _ _ _ R)| |fold a; lia|by apply inv_balance_u64|done|done].
    intros E'. by rewrite E' in Hv.
  - by rewrite E in H2.
  - by rewrite E in H3 |- *.
Qed.
End node.

(** ** A concrete node *)

Definition wallet (kp : KeyPair) (now : Z) : Wallet :=
  mkWallet kp 0 (λ _, 0) (λ _, Ok ()) (Some (mkTimekeeperConfig [PubKeyHex carol] 1)) (λ h, Ok (attest h now))
    (λ p, if p =?s addrB then Some (cert, 1000) else None) (Some 7) None None.

(** The network at a later time *)
Definition env_at (now : Z) : Env :=
  mkEnv 0 0 "net" now DefaultLeaseTiming (timekeeperConfigFn net_env) (minterConfigFn net_env) (certificateLookupFn net_env)
    None None None (Ok genesis_block) false true (λ _, false) (λ _, None).

(** The lease of the scenario ends at [lease_end], its escrow is archived after
    [archive_time]. *)
Definition lease_end : Z := 5000000000 + 3600 * time_Second.
Definition archive_time : Z := lease_end + DefaultLeaseEscrowExpiry + DefaultLeaseArchiveGap.

Definition leased_acts : list node_act := Other <$> (lease_acts ++ [Start (env_at archive_time)]).
Definition archive_act : node_act := DoTick (env_at archive_time) (wallet alice archive_time).
Definition spend_act : node_act := DoSend (env_at archive_time) (wallet alice archive_time) addrB 500 "XUSD".
Definition leased : Ledger := run_node leased_acts emptyLedger.
Definition archived : Ledger := run_node_act leased archive_act.

(** The renewed lease when its consumer may force-settle it *)
Definition force_time : Z := lease_end + 3600 * time_Second + DefaultLeaseSettleGrace + DefaultLeaseForceSettleGap.
Definition renewed_acts : list action := renew_acts ++ [Start (env_at force_time)].
Definition renewed : Ledger := run_actions renewed_acts emptyLedger.
Definition stored_lease (L : Ledger) : Lease :=
  match leases (store L) !! b_Hash lease_offer with Some l => l | None => new_lease lease_offer end.
Definition the_lease : Lease := Eval vm_compute in stored_lease leased.
Definition the_renewed : Lease := Eval vm_compute in stored_lease renewed.

(** A force-settlement that comes too late *)
Definition late_block : Block :=
  Eval vm_compute in
  sealed alice (with_lease 0 0 0 0 "" 0 (attest (b_Hash lease_offer) archive_time)
    (draft BlockLeaseForceSettle addrA (b_Hash lease_offer) 999999000 archive_time "XUSD" "" "" price (b_Hash lease_offer))).

(** What a node has archived it can no longer learn.  A settlement attested in
    time is on the network; a node that was offline, and whose loop ticks before it
    has synced, archives the lease on its own clock; it then refuses the settlement
    that it would have taken from the same peer before the tick, so it never follows
    the provider's chain again. *)
Lemma archive_refuses_history :
  fst (AddSyncedBlock (env_at archive_time) settle_block leased) = Ok () ∧
  fst (AddSyncedBlock (env_at archive_time) settle_block archived) = Err (errorf "lease already settled") ∧
  ps_Amount <$> pending (store leased) !! b_Hash lease_offer = Some price ∧
  pending (store archived) !! b_Hash lease_offer = None ∧
  l_State <$> leases (store archived) !! b_Hash lease_offer = Some LeaseExpired.
Proof. split_and!; by_run. Qed.

(** ** Witnesses *)

Lemma others_typed acts L : Forall typed acts → run_typed (Other <$> acts) L.
Proof. intros H. revert L. induction H; intros L; simpl; [done|]. split; [done|]. auto. Qed.

Lemma others_run acts L : run_node (Other <$> acts) L = run_actions acts L.
Proof. revert L. induction acts as [|x acts IH]; intros L; simpl; [done|]. apply IH. Qed.

Lemma leased_typed : run_typed leased_acts emptyLedger.
Proof. apply others_typed, Forall_app. split; [apply Scenario.lease_words|by_dec]. Qed.

Lemma renewed_inv : ledger_inv renewed.
Proof. apply run_actions_inv; [apply Forall_app; split; [apply renew_words|by_dec]|by_run]. Qed.

Lemma leased_inv : ledger_inv leased.
Proof.
  unfold leased, leased_acts. rewrite others_run.
  apply run_actions_inv; [apply Forall_app; split; [apply Scenario.lease_words|by_dec]|by_run].
Qed.

Definition amounts_ok (L : Ledger) : bool :=
  forallb (λ x, bool_decide (is_u64 (l_Cost x.2)) && bool_decide (is_u64 (leaseSettleAmount x.2))) (map_to_list (leases (store L))).

Lemma amounts_typed L : amounts_ok L = true → leases_typed L.
Proof.
  intros H h l Hl. unfold amounts_ok in H. rewrite forallb_forall in H.
  specialize (H (h, l)). rewrite <- list_elem_of_In, elem_of_map_to_list in H. apply H in Hl. by bool_hyps.
Qed.

Lemma then_typed acts x : run_typed acts emptyLedger → act_typed (run_node acts emptyLedger) x →
  run_typed (acts ++ [x]) emptyLedger.
Proof. intros H Hx. by apply run_typed_app. Qed.

Lemma tick_typed e w L : amounts_ok L = true → amounts_ok (trySettleExpiredLeases e w L).2 = true → act_typed L (DoTick e w).
Proof. intros H1 H2. split; by apply amounts_typed. Qed.

Lemma archive_typed : run_typed (leased_acts ++ [archive_act]) emptyLedger.
Proof.
  apply (then_typed leased_acts archive_act leased_typed), tick_typed; by_run.
Qed.

Lemma spend_typed : run_typed ((leased_acts ++ [archive_act]) ++ [spend_act]) emptyLedger.
Proof. apply (then_typed _ spend_act archive_typed). by_dec. Qed.

Lemma node_conserves_witness :
  pending (store (run_node ((leased_acts ++ [archive_act]) ++ [spend_act]) emptyLedger)) !! b_Hash lease_offer = None.
Proof.
  destruct (node_conserves (leased_acts ++ [archive_act]) [spend_act] spend_typed ltac:(by_run)) as (_ & _ & _ & H & _).
  apply H; [eexists|]; by_run.
Defined.

Lemma forceSettleLease_first_term_only_witness :
  snd (forceSettleLease (env_at force_time) (wallet alice force_time) the_renewed renewed) ≈ renewed.
Proof.
  eapply (forceSettleLease_first_term_only (env_at force_time) (wallet alice force_time) the_renewed
    (mkPendingSend (b_Hash lease_offer) addrA addrB (price + price) "XUSD") renewed _ _ renewed_inv);
    [by_run|by_dec|by_run|by_dec|by apply run_result].
Defined.

Lemma archive_only_when_over_witness :
  snd (addBlock (env_at archive_time) late_block false leased) ≈ leased.
Proof.
  eapply (archive_only_when_over (env_at archive_time) (env_at archive_time) the_lease late_block leased _ _ leased_inv);
    [by_dec|by_run|by_run|by right; left|by_run|split_and!; by_dec|reflexivity|by_dec|by_dec| |by_dec|by apply run_result].
  intros cfg [= <-]. done.
Defined.

(** Alice sends on. *)
Definition late_env : Env := env_at archive_time.
Definition late_wallet : Wallet := wallet alice archive_time.
Definition spend_block : Block :=
  Eval vm_compute in
  sealed alice (draft BlockSend addrA (b_Hash lease_offer) (999968000 - 500) archive_time "XUSD" "" addrB 500 "").

Lemma alice_ready : ready late_env late_wallet [1] leased [genesis_block; mint_block; send_block; lease_offer] lease_offer.
Proof.
  split; [by_run|by_run|split_and!; [by_run|by_run|by_dec]|by_dec|by_run|by_run|by_run|]. split; [by_run|]. intros H. discriminate H.
Qed.

Lemma Node_Send_succeeds_witness :
  ∃ L', Node_Send late_env late_wallet addrB 500 "XUSD" leased = (Ok (), L') ∧
    getAssetBalance L' addrA "XUSD" = getAssetBalance leased addrA "XUSD" - 500.
Proof.
  destruct (Node_Send_succeeds late_env late_wallet [1] addrB 500 "XUSD" leased
    [genesis_block; mint_block; send_block; lease_offer] lease_offer spend_block) as (L' & H1 & _ & H2 & _);
    [reflexivity|exact leased_inv|by_run|exact alice_ready|by_run|by_dec|by_dec|by_dec|by_dec|by_run|by_run|by_run|].
  exists L'. exact (conj H1 H2).
Defined.
