(* ===== verification/LeaseTheorems.v ===== *)
(** * How a lease ends

    A lease that has ended stays so whatever is offered later.  A cancellation gives
    back the price of the lease block and destroys what renewals added to the escrow;
    a cancellation that is refused for its balance has already taken the acceptance
    off the provider's chain. *)
From S2P Require Import Prelude GoLib Types Amount Encoding LeaseMath Crypto Multisig Attestation Genesis Reputation Store Ledger Rollback Handlers Restart AddBlock Quorum LedgerSpec LedgerCommit LedgerRules LedgerCalls LedgerUndo LedgerRestart LedgerRefine LedgerTrace LedgerSafety Supply Wallet WalletFacts WalletSend Scenario SupplyTheorems WalletTheorems.

Section leases.
Context `{C : Crypto} `{CL : !CryptoLaws C}.

(** ** Ended leases *)

(** The types of the blocks that name a lease as their source *)
Definition lease_operation (t : BlockType) : bool :=
  match t with
  | BlockLeaseAccept | BlockLeaseCancel | BlockLeaseSettle | BlockLeaseForceSettle | BlockLeaseRenew => true
  | _ => false
  end.

(** Every rule for such a block needs a lease that has not ended. *)
Lemma accepts_live e skip L b c : accepts e skip L b c → lease_operation (b_Type b) = true →
  ∃ l, leases (store L) !! b_Source b = Some l ∧ Terminal (l_State l) = false.
Proof.
  intros H Ht. destruct H; try match goal with H : b_Type b = _ |- _ => by rewrite H in Ht end.
  all: match goal with H : lease_in _ _ _ ?l |- _ => exists l; destruct H as [? ->]; done end.
Qed.

Lemma ended_same e b skip L r L' l :
  ledger_inv L → block_words b → supply (store L) "XUSD" < two64 →
  leases (store L) !! b_Source (prepared b) = Some l → Terminal (l_State l) = true →
  lease_operation (b_Type (prepared b)) = true → addBlock e b skip L = (r, L') → L' ≈ L.
Proof.
  intros HL Hw Hs Hl Hte Ht H. eapply addBlock_outcome in H; [|done..].
  assert (HJ : ∀ L1, judged e (prepared b) L L1 → L1 ≈ L).
  { intros L1 [E|(_ & p & acc & c0 & l' & _ & _ & _ & _ & Hl' & Hst & _)]; [done|].
    exfalso. simplify_eq. by rewrite Hst in Hte. }
  destruct H as [[H _]|(_ & _ & L1 & c & H & Ha & _)]; apply HJ in H; [done|].
  exfalso. apply accepts_live in Ha as (l' & Hl' & Hne); [|done].
  destruct (core_store L L1 H) as [_ El]. rewrite El in Hl'. simplify_eq. congruence.
Qed.

(** C15: A lease ends once.  Once a lease is settled, cancelled, unfulfilled or
    archived, then whatever the node and others do afterwards, a block that accepts,
    cancels, settles, force-settles or renews it, gossiped or synced, valid or not,
    at any time, changes nothing.  A node that archived a lease on its own clock so
    refuses the settlement the rest of the network has taken. *)
Theorem lease_ends_once before acts h l e b skip r L' :
  run_typed (before ++ acts) emptyLedger → node_mints (before ++ acts) < two64 →
  leases (store (run_node before emptyLedger)) !! h = Some l → Terminal (l_State l) = true →
  block_words b → lease_operation (b_Type b) = true → ToLower (b_Source b) = h →
  let L := run_node (before ++ acts) emptyLedger in
  addBlock e b skip L = (r, L') → L' ≈ L ∧ leases (store L) !! h = Some l.
Proof.
  intros Hw Hm Hl Hte Hb Ht <- L H. pose proof Hw as [H1 H2]%run_typed_app. rewrite node_mints_app in *.
  pose proof (node_mints_nonneg _ _ H1). pose proof (node_mints_nonneg _ _ H2).
  destruct (run_onward before 0 emptyLedger H1 empty_good) as [G1 _]; [lia|].
  destruct (run_onward acts _ _ H2 G1) as [[HL Hs] [_ _ AL]]; [lia|].
  replace (run_node acts (run_node before emptyLedger)) with L in * by (unfold L, run_node; by rewrite foldl_app).
  destruct (AL _ l Hl) as (l' & Hl' & E). rewrite (E Hte) in Hl'. split; [|done].
  destruct (prepared_fields b) as (P1 & _ & P3 & _).
  eapply (ended_same e b skip L r L' l); [done|done|lia|by rewrite P3|done|by rewrite P1|done].
Qed.

(** ** What a cancellation gives back *)

(** Unwinding an acceptance, which took no stake, leaves every balance. *)
Lemma unwound_balance e L h provider L1 a v : ledger_inv L → accept_unwound e L h provider L1 →
  getAssetBalance L1 a v = getAssetBalance L a v.
Proof.
  intros HL HU. destruct (accept_unwound_neutral _ _ _ _ _ HU HL) as (HL1 & _).
  destruct HU as (acc & c0 & l & <- & Hc & Ht & <- & Hl & _ & _ & E).
  rewrite (inv_balances L1 HL1), (inv_balances L HL).
  assert (Ech : chains (store L1) = chains (store (unwound L acc c0 l))) by (by injection E).
  rewrite Ech, (unwound_chains L acc c0 l) by done. destruct (decide (a = b_Account acc)) as [->|]; [|by rewrite lookup_insert_ne].
  rewrite lookup_insert_eq, Hc, on_chain_snoc. case_bool_decide as Ev; [subst v|done].
  pose proof (inv_chains L HL _ _ Hc) as Hok. symmetry. rewrite (valid_norm _ (undo_asset L acc c0 HL Hc)).
  by apply (ch_accept _ _ _ Hok c0 acc []).
Qed.

Lemma judged_balance e b L L1 a v : ledger_inv L → judged e b L L1 → getAssetBalance L1 a v = getAssetBalance L a v.
Proof. intros HL [E|(_ & p & H)]; [by apply core_balance|by eapply unwound_balance]. Qed.

(** The rule of a cancellation, on the ledger it is judged against *)
Lemma cancel_pays e skip L b c : accepts e skip L b c → b_Type b = BlockLeaseCancel →
  ∃ lb l ps, lease_block L b lb ∧ b_Account lb = b_Account b ∧ b_Asset b = "XUSD" ∧ leases (store L) !! b_Source b = Some l ∧
    pending (store L) !! b_Source b = Some ps ∧ credits L b (b_Amount lb) ∧
    commit_pending c (pending (store L)) = delete (b_Source b) (pending (store L)).
Proof.
  intros H Ht. destruct H as [| | | | | | | | |lb l ps H1 H2 H3 H4 H5 H6 H7 H8| | |]; try congruence. exists lb, l, ps. destruct H5. split_and!; try done.
  unfold commit_pending. simpl. destruct H3. by rewrite when_id_empty, when_id_set.
Qed.

(** A cancellation that was taken: what the account has, and what is pending, after *)
Lemma cancelled_state e skip L b L' :
  ledger_inv L → new_block L b → supply (store L) "XUSD" < two64 → b_Type b = BlockLeaseCancel →
  committed e skip L b L' →
  ∃ lb ps, lease_block L b lb ∧ pending (store L) !! b_Source b = Some ps ∧ b_Amount lb <= ps_Amount ps ∧
    pending (store L') = delete (b_Source b) (pending (store L)) ∧
    getAssetBalance L' (b_Account b) "XUSD" = getAssetBalance L (b_Account b) "XUSD" + b_Amount lb.
Proof.
  intros HL Hnew Hs Ht (L1 & c & HJ & Ha & HC).
  destruct (judged_neutral e b L L1 HJ HL) as (HL1 & HB & HP & HS).
  assert (Hap : appends L1 b c) by by eapply accepts_appends.
  destruct (cancel_pays _ _ _ _ _ Ha Ht) as (lb & l & ps & Hlb & Hacc & Hv & Hl & Hp & Hcr & Hd).
  destruct Hlb as (Hsrc & Hblk & Htl). destruct (lease_escrow L1 b HL1 lb ps) as (_ & _ & Hle); [done..|].
  exists lb, ps. rewrite HB in Hblk. rewrite HP in Hp. split_and!; try done.
  - rewrite <- HP, <- Hd. destruct (core_store _ _ HC) as [-> _]. apply commit_pendings.
  - rewrite (core_balance L' _ _ _ HC), (commit_balance L1 b c Hap); [|by rewrite Hv|apply Hnew|by apply inv_balance_u64].
    rewrite Hv, !bool_decide_true by done. simpl. unfold credits in Hcr. by rewrite Hcr, Hv, (judged_balance e b L).
Qed.

(** C37: A cancellation gives back the price of the lease block only.  Whenever a call
    stores a cancellation, the consumer is credited exactly what the lease block
    paid, while the whole escrow is deleted: the XUSD that renewals had added to it
    is gone from the supply. *)
Theorem cancel_refunds_price_only e b skip L r L' :
  ledger_inv L → block_words b → supply (store L) "XUSD" < two64 → b_Type b = BlockLeaseCancel →
  blocks (store L) !! b_Hash (prepared b) = None → is_Some (blocks (store L') !! b_Hash (prepared b)) →
  addBlock e b skip L = (r, L') →
  let h := ToLower (b_Source b) in let a := ToLower (b_Account b) in
  ∃ lb ps, blocks (store L) !! h = Some lb ∧ b_Type lb = BlockLease ∧ pending (store L) !! h = Some ps ∧
    b_Amount lb <= ps_Amount ps ∧ pending (store L') = delete h (pending (store L)) ∧
    getAssetBalance L' a "XUSD" = getAssetBalance L a "XUSD" + b_Amount lb ∧
    supply (store L') "XUSD" = supply (store L) "XUSD" - (ps_Amount ps - b_Amount lb).
Proof.
  intros HL Hw Hs Ht Hn [x Hx] H h a. eapply addBlock_outcome in H; [|done..].
  destruct (prepared_fields b) as (P1 & P2 & P3 & _).
  destruct H as [[HJ _]|(_ & Hnew & HC)].
  { destruct (judged_neutral _ _ _ _ HJ HL) as (_ & E & _). congruence. }
  destruct (committed_facts _ _ _ _ _ HL Hnew Hs HC) as (_ & _ & _ & Hsup).
  destruct (cancelled_state e skip L (prepared b) L' HL Hnew Hs) as (lb & ps & (_ & Hb & Htl) & Hp & Hle & Hd & Hbal); [congruence|done|].
  specialize (Hsup "XUSD" eq_refl). unfold moved, escrow_of, price_of in Hsup. rewrite P1, Ht in Hsup.
  rewrite Hb, Hp in Hsup. rewrite P2, P3 in *. exists lb, ps. split_and!; try done. simpl in Hsup. lia.
Qed.

(** ** A refused cancellation *)

(** With a store that answers, an acceptance that ends its provider's chain and is
    not final is unwound. *)
Section answering.
Context (e : Env) (Hf : ∀ k, fault e k = None).

Lemma undo_accept_step L b c0 l :
  ledger_inv L → chains (store L) !! b_Account b = Some (c0 ++ [b]) → b_Type b = BlockLeaseAccept →
  leases (store L) !! b_Source b = Some l → ∃ L1, undoBlockApply e (b_Account b) b L = (Ok (), L1).
Proof.
  intros HL Hc Ht Hl. unfold undoBlockApply.
  rewrite (bind_step _ _ _ (Some (c0 ++ [b])) L) by (unfold GetAccountChain; by rewrite (read_step e Hf), Hc).
  assert (∃ x, buildBlockUndo e (b_Account b) b (Some (c0 ++ [b])) L = (Ok x, L)) as [[u ap] HU].
  { unfold buildBlockUndo, undo_parts. rewrite guard_step by (unfold is_frontier; simpl; rewrite ?last_snoc; by rewrite ?bool_decide_true).
    rewrite Ht. eexists. cbn [default from_option id]. rewrite (bind_step _ _ _ (mkUndoParts "" None "" "" "" 0 (Some (restored_created l)) None) L).
    - rewrite guard_step by done. by rewrite (bind_step _ _ _ (store L) L).
    - rewrite (bind_step _ _ _ (Some (restored_created l)) L); [done|]. unfold priorLease.
      rewrite (bind_step _ _ _ (Some l) L); [done|]. apply mor_step. unfold GetLease. by rewrite (read_step e Hf), Hl. }
  rewrite (bind_step _ _ _ (u, ap) L) by exact HU. unfold swrite, mbind_. rewrite Hf. by eexists.
Qed.

Lemma resolve_step L h provider c acc l :
  ledger_inv L → chains (store L) !! provider = Some c → accept_index h 0 c = Some (zlen c - 1, acc) →
  leases (store L) !! h = Some l → final_height L provider < zlen c → accountBusy e provider = false →
  ∃ L1, resolveCancelWinsOverAccept e h provider L = (Ok (), L1).
Proof.
  intros HL Hc Ha Hl Hfh Hbusy. pose proof (accept_last _ _ _ Ha) as (Ht & <- & c0 & Ec).
  unfold resolveCancelWinsOverAccept.
  rewrite (bind_step _ _ _ (Some c) L) by (apply wrap_step; unfold GetAccountChain; by rewrite (read_step e Hf), Hc).
  cbn [default from_option id]. rewrite Ha. rewrite guard_step by (rewrite Z.eqb_refl; done).
  rewrite (bind_step _ _ _ (final_height L provider) L).
  2: { unfold FinalHeight. apply mor_step. by rewrite (read_step e Hf). }
  rewrite guard_step by lia. rewrite guard_step by done.
  assert (b_Account acc = provider) as <-.
  { eapply ch_account; [by eapply inv_chains|]. rewrite Ec. set_solver. }
  destruct (undo_accept_step L acc c0 l) as [L1 H1]; [done|by rewrite Hc, Ec|done..|]. exists L1. by apply wrap_step.
Qed.

End answering.
End leases.

(** ** Instances *)

Definition the_archived : Lease := Eval vm_compute in stored_lease archived.

(** The node of [WalletTheorems] has archived the lease; the settlement that the rest
    of the network took arrives by sync. *)
Lemma lease_ends_once_witness :
  snd (addBlock (env_at archive_time) settle_block true (run_node (leased_acts ++ [archive_act]) emptyLedger)) ≈
  run_node (leased_acts ++ [archive_act]) emptyLedger.
Proof.
  destruct (lease_ends_once (leased_acts ++ [archive_act]) [] (b_Hash lease_offer) the_archived (env_at archive_time) settle_block true
    (fst (addBlock (env_at archive_time) settle_block true (run_node ((leased_acts ++ [archive_act]) ++ []) emptyLedger)))
    (snd (addBlock (env_at archive_time) settle_block true (run_node ((leased_acts ++ [archive_act]) ++ []) emptyLedger)))) as [H _];
    [rewrite app_nil_r; exact archive_typed|by_run|by_run|by_run|by_dec|by_run|by_run|by apply surjective_pairing|].
  rewrite app_nil_r in H. exact H.
Defined.

(** The lease was renewed once for the same price; its cancellation destroys that. *)
Lemma cancel_refunds_price_only_witness :
  ps_Amount <$> pending (store before_cancel) !! b_Hash lease_offer = Some (price + price) ∧
  supply (store (snd (addBlock net_env cancel_block true before_cancel))) "XUSD" = supply (store before_cancel) "XUSD" - price.
Proof.
  assert (Hp : pending (store before_cancel) !! ToLower (b_Source cancel_block) =
               Some (mkPendingSend (b_Hash lease_offer) addrA addrB (price + price) "XUSD")) by by_run.
  assert (Hb : blocks (store before_cancel) !! ToLower (b_Source cancel_block) = Some lease_offer) by by_run.
  split; [by_run|].
  destruct (cancel_refunds_price_only net_env cancel_block true before_cancel (Ok ())
    (snd (addBlock net_env cancel_block true before_cancel)) before_cancel_inv) as (lb & ps & Hb' & _ & Hp' & _ & _ & _ & Hs);
    [by_dec|by_run|reflexivity|by_run|eexists; by_run|apply run_result; by_run|].
  apply (eq_trans (eq_sym Hb)), (inj Some) in Hb' as <-. apply (eq_trans (eq_sym Hp)), (inj Some) in Hp' as <-. exact Hs.
Defined.

Definition the_accepted : Lease := Eval vm_compute in stored_lease after_lease.

