(* ===== verification/MemStore.v ===== *)
(** * The in-memory store: [store/mem_store.go]

    The maps of [MemStore] as they are: pending sends behind pointers that the
    index by destination keeps a second time, keys joined with a bar.  The methods
    copy what they store and return, so that the other maps hold values. *)
From S2P Require Import Prelude GoLib Types Reputation Store.

(** ** Pending sends and their index

    A pointer is a number, [pm_heap] the records behind them. *)
Notation ptr := nat.

Record PendingMaps := mkPendingMaps {
  pm_heap : gmap ptr PendingSend;
  pm_next : ptr;
  pm_pending : gmap string ptr;
  pm_byDest : gmap string (gmap string ptr) }.

(** [&cp] of a fresh copy *)
Definition pm_alloc (ps : PendingSend) (m : PendingMaps) : ptr * PendingMaps :=
  (pm_next m,
   mkPendingMaps (<[pm_next m := ps]> (pm_heap m)) (S (pm_next m)) (pm_pending m) (pm_byDest m)).

(** [m.pending[h] = p] and [m.pendingByDest[d][h] = p], made when missing *)
Definition pm_set (h : string) (p : ptr) (m : PendingMaps) : PendingMaps :=
  mkPendingMaps (pm_heap m) (pm_next m) (<[h := p]> (pm_pending m)) (pm_byDest m).
Definition pm_index (d h : string) (p : ptr) (m : PendingMaps) : PendingMaps :=
  mkPendingMaps (pm_heap m) (pm_next m) (pm_pending m)
    (<[d := <[h := p]> (default ∅ (pm_byDest m !! d))]> (pm_byDest m)).

(** [PutPendingSend]: both maps hold the same pointer. *)
Definition pm_put (ps : PendingSend) (m : PendingMaps) : PendingMaps :=
  let '(p, m) := pm_alloc ps m in
  pm_index (ps_Destination ps) (ps_SendHash ps) p (pm_set (ps_SendHash ps) p m).

(** The writes of a commit or an undo copy twice. *)
Definition pm_add (ps : PendingSend) (m : PendingMaps) : PendingMaps :=
  let '(p, m) := pm_alloc ps m in
  let m := pm_set (ps_SendHash ps) p m in
  let '(q, m) := pm_alloc ps m in
  pm_index (ps_Destination ps) (ps_SendHash ps) q m.

(** The record behind a pointer of a map; a nil pointer would panic, none is stored *)
Definition pm_at (h : string) (m : PendingMaps) : option PendingSend := pm_pending m !! h ≫= λ p, pm_heap m !! p.

Definition pm_delete (h : string) (m : PendingMaps) : PendingMaps :=
  match pm_at h m with
  | None => m
  | Some ps =>
      let dest := ps_Destination ps in
      mkPendingMaps (pm_heap m) (pm_next m) (delete h (pm_pending m))
        (match pm_byDest m !! dest with
         | None => pm_byDest m
         | Some destMap =>
             let destMap := delete h destMap in
             if bool_decide (destMap = ∅) then delete dest (pm_byDest m)
             else <[dest := destMap]> (pm_byDest m)
         end)
  end.

(** [p.Amount = f(p.Amount)] *)
Definition pm_write (f : Z → Z) (p : ptr) (m : PendingMaps) : PendingMaps :=
  mkPendingMaps (alter (ps_with_amount f) p (pm_heap m)) (pm_next m) (pm_pending m) (pm_byDest m).

(** A change of the amount, through the pointer of each map *)
Definition pm_adjust (f : Z → Z) (h : string) (m : PendingMaps) : PendingMaps :=
  match pm_pending m !! h with
  | None => m
  | Some p =>
      let m := pm_write f p m in
      match pm_heap m !! p with
      | None => m
      | Some ps =>
          match pm_byDest m !! ps_Destination ps ≫= (!!) h with
          | Some q => pm_write f q m
          | None => m
          end
      end
  end.

(** ** The store *)

Record MemStore := mkMemStore {
  ms_pending : PendingMaps;
  ms_blocks : gmap string Block;
  ms_chains : gmap string AccountChain;
  ms_frontiers : gmap string string;
  ms_conflicts : gmap string Conflict;
  ms_staged : gmap string Block;
  ms_votes : gmap string Vote;
  ms_blockStatus : gmap string BlockStatus;
  ms_finalHeight : gmap string Z;
  ms_finalVotes : gmap string string;
  ms_delegations : gmap string string;
  ms_leases : gmap string Lease;
  ms_certificates : gmap string (list Z);
  ms_reputation : gmap string ReputationAggregate;
  ms_keysets : gmap string Keyset;
  ms_accountKeys : gmap string string }.

Definition NewMemStore : MemStore :=
  mkMemStore (mkPendingMaps ∅ 0 ∅ ∅) ∅ ∅ ∅ ∅ ∅ ∅ ∅ ∅ ∅ ∅ ∅ ∅ ∅ ∅ ∅.

Definition memConflictKey (account prev : string) : string := account +:+ "|" +:+ prev.
Definition memVoteKey (account prev rep : string) : string := account +:+ "|" +:+ prev +:+ "|" +:+ rep.

(** *** The two atomic writes *)

Definition mem_add_pending (o : option PendingSend) (m : PendingMaps) : PendingMaps :=
  match o with None => m | Some ps => pm_add ps m end.

Definition mem_undo_pending (u : BlockUndo) (m : PendingMaps) : PendingMaps :=
  let m := when_id (bu_ReducePendingID u)
             (pm_adjust (λ a, u64_sub a (bu_ReducePendingAmount u)) (bu_ReducePendingID u)) m in
  let m := when_id (bu_DeletePendingID u) (pm_delete (bu_DeletePendingID u)) m in
  mem_add_pending (bu_AddPending u) m.

Definition applyUndoLocked (u : BlockUndo) (m : MemStore) : MemStore :=
  mkMemStore (mem_undo_pending u (ms_pending m)) (ms_blocks m)
    (if bu_DeleteAccount u then delete (bu_Account u) (ms_chains m)
     else <[bu_Account u := bu_Chain u]> (ms_chains m))
    (if bu_DeleteAccount u then delete (bu_Account u) (ms_frontiers m)
     else <[bu_Account u := bu_FrontierHash u]> (ms_frontiers m))
    (ms_conflicts m) (ms_staged m) (ms_votes m)
    (when_id (bu_RejectHash u) (insert (bu_RejectHash u) StatusRejected) (ms_blockStatus m))
    (ms_finalHeight m) (ms_finalVotes m)
    (if bu_RestoreDelegation u then
       (if bu_PrevRep u =?s "" then delete (bu_Account u) (ms_delegations m)
        else <[bu_Account u := bu_PrevRep u]> (ms_delegations m))
     else ms_delegations m)
    (undo_leases u (ms_leases m)) (ms_certificates m) (ms_reputation m)
    (when_id (bu_DeleteKeysetAccount u) (delete (bu_DeleteKeysetAccount u)) (ms_keysets m))
    (when_id (bu_DeleteAccountKeyAccount u) (delete (bu_DeleteAccountKeyAccount u)) (ms_accountKeys m)).

Definition mem_commit_pending (c : BlockCommit) (m : PendingMaps) : PendingMaps :=
  let m := mem_add_pending (bc_AddPending c) m in
  let m := when_id (bc_DeletePendingID c) (pm_delete (bc_DeletePendingID c)) m in
  when_id (bc_TopUpPendingID c)
    (pm_adjust (λ a, u64_add a (bc_TopUpPendingAmount c)) (bc_TopUpPendingID c)) m.

(** The writes of [applyCommitLocked] after its checks *)
Definition commit_writes (c : BlockCommit) (m : MemStore) : MemStore :=
  mkMemStore (mem_commit_pending c (ms_pending m))
    (<[b_Hash (bc_Block c) := bc_Block c]> (ms_blocks m))
    (<[bc_Account c := bc_Chain c]> (ms_chains m))
    (when_id (bc_FrontierHash c) (insert (bc_Account c) (bc_FrontierHash c)) (ms_frontiers m))
    (ms_conflicts m) (ms_staged m) (ms_votes m) (ms_blockStatus m) (ms_finalHeight m) (ms_finalVotes m)
    (if bc_DeleteDelegation c then delete (bc_Account c) (ms_delegations m)
     else when_id (bc_DelegationRep c) (insert (bc_Account c) (bc_DelegationRep c)) (ms_delegations m))
    (commit_leases c (ms_leases m)) (ms_certificates m) (ms_reputation m)
    (match bc_PutKeyset c with None => ms_keysets m | Some ks => <[bc_Account c := ks]> (ms_keysets m) end)
    (when_id (bc_PutAccountKey c) (insert (bc_Account c) (bc_PutAccountKey c)) (ms_accountKeys m)).

Definition applyCommitLocked (c : BlockCommit) : M MemStore unit :=
  let! m := mget in
  mlift (check_lease "CommitBlock: " c (ms_leases m !! bc_ExpectLeaseHash c)) ;!
  mmodify (commit_writes c).

Definition MemStore_CommitUndo (u : BlockUndo) : M MemStore unit := mmodify (applyUndoLocked u).
Definition MemStore_CommitBlock : BlockCommit → M MemStore unit := applyCommitLocked.

(** The undos are written before the commit, which could still fail; there may be no
    commit. *)
Definition MemStore_CommitCascade (undos : list BlockUndo) (commit : option BlockCommit) : M MemStore unit :=
  match commit with
  | None => mret_ ()
  | Some commit =>
      let! m := mget in
      mlift (check_lease ("CommitCascade: " +:+ FormatInt (zlen undos) +:+ " undo(s) + winner: ") commit
               (cascade_lease (bc_ExpectLeaseHash commit) undos (ms_leases m !! bc_ExpectLeaseHash commit)))
  end ;!
  mfor MemStore_CommitUndo undos ;!
  match commit with
  | None => mret_ ()
  | Some commit => mwrap (wrapf "CommitCascade: winner commit: ") (applyCommitLocked commit)
  end.

(** *** Single writes *)

Definition on_pending (f : PendingMaps → PendingMaps) (m : MemStore) : MemStore :=
    mkMemStore (f (ms_pending m)) (ms_blocks m) (ms_chains m) (ms_frontiers m) (ms_conflicts m)
    (ms_staged m) (ms_votes m) (ms_blockStatus m) (ms_finalHeight m) (ms_finalVotes m)
    (ms_delegations m) (ms_leases m) (ms_certificates m) (ms_reputation m) (ms_keysets m)
    (ms_accountKeys m).
Definition on_blocks (f : gmap string Block → gmap string Block) (m : MemStore) : MemStore :=
    mkMemStore (ms_pending m) (f (ms_blocks m)) (ms_chains m) (ms_frontiers m) (ms_conflicts m)
    (ms_staged m) (ms_votes m) (ms_blockStatus m) (ms_finalHeight m) (ms_finalVotes m)
    (ms_delegations m) (ms_leases m) (ms_certificates m) (ms_reputation m) (ms_keysets m)
    (ms_accountKeys m).
Definition on_chains (f : gmap string AccountChain → gmap string AccountChain) (m : MemStore) : MemStore :=
    mkMemStore (ms_pending m) (ms_blocks m) (f (ms_chains m)) (ms_frontiers m) (ms_conflicts m)
    (ms_staged m) (ms_votes m) (ms_blockStatus m) (ms_finalHeight m) (ms_finalVotes m)
    (ms_delegations m) (ms_leases m) (ms_certificates m) (ms_reputation m) (ms_keysets m)
    (ms_accountKeys m).
Definition on_frontiers (f : gmap string string → gmap string string) (m : MemStore) : MemStore :=
    mkMemStore (ms_pending m) (ms_blocks m) (ms_chains m) (f (ms_frontiers m)) (ms_conflicts m)
    (ms_staged m) (ms_votes m) (ms_blockStatus m) (ms_finalHeight m) (ms_finalVotes m)
    (ms_delegations m) (ms_leases m) (ms_certificates m) (ms_reputation m) (ms_keysets m)
    (ms_accountKeys m).
Definition on_conflicts (f : gmap string Conflict → gmap string Conflict) (m : MemStore) : MemStore :=
    mkMemStore (ms_pending m) (ms_blocks m) (ms_chains m) (ms_frontiers m) (f (ms_conflicts m))
    (ms_staged m) (ms_votes m) (ms_blockStatus m) (ms_finalHeight m) (ms_finalVotes m)
    (ms_delegations m) (ms_leases m) (ms_certificates m) (ms_reputation m) (ms_keysets m)
    (ms_accountKeys m).
Definition on_staged (f : gmap string Block → gmap string Block) (m : MemStore) : MemStore :=
    mkMemStore (ms_pending m) (ms_blocks m) (ms_chains m) (ms_frontiers m) (ms_conflicts m) (f
    (ms_staged m)) (ms_votes m) (ms_blockStatus m) (ms_finalHeight m) (ms_finalVotes m)
    (ms_delegations m) (ms_leases m) (ms_certificates m) (ms_reputation m) (ms_keysets m)
    (ms_accountKeys m).
Definition on_votes (f : gmap string Vote → gmap string Vote) (m : MemStore) : MemStore :=
    mkMemStore (ms_pending m) (ms_blocks m) (ms_chains m) (ms_frontiers m) (ms_conflicts m)
    (ms_staged m) (f (ms_votes m)) (ms_blockStatus m) (ms_finalHeight m) (ms_finalVotes m)
    (ms_delegations m) (ms_leases m) (ms_certificates m) (ms_reputation m) (ms_keysets m)
    (ms_accountKeys m).
Definition on_blockStatus (f : gmap string BlockStatus → gmap string BlockStatus) (m : MemStore) : MemStore :=
    mkMemStore (ms_pending m) (ms_blocks m) (ms_chains m) (ms_frontiers m) (ms_conflicts m)
    (ms_staged m) (ms_votes m) (f (ms_blockStatus m)) (ms_finalHeight m) (ms_finalVotes m)
    (ms_delegations m) (ms_leases m) (ms_certificates m) (ms_reputation m) (ms_keysets m)
    (ms_accountKeys m).
Definition on_finalHeight (f : gmap string Z → gmap string Z) (m : MemStore) : MemStore :=
    mkMemStore (ms_pending m) (ms_blocks m) (ms_chains m) (ms_frontiers m) (ms_conflicts m)
    (ms_staged m) (ms_votes m) (ms_blockStatus m) (f (ms_finalHeight m)) (ms_finalVotes m)
    (ms_delegations m) (ms_leases m) (ms_certificates m) (ms_reputation m) (ms_keysets m)
    (ms_accountKeys m).
Definition on_finalVotes (f : gmap string string → gmap string string) (m : MemStore) : MemStore :=
    mkMemStore (ms_pending m) (ms_blocks m) (ms_chains m) (ms_frontiers m) (ms_conflicts m)
    (ms_staged m) (ms_votes m) (ms_blockStatus m) (ms_finalHeight m) (f (ms_finalVotes m))
    (ms_delegations m) (ms_leases m) (ms_certificates m) (ms_reputation m) (ms_keysets m)
    (ms_accountKeys m).
Definition on_delegations (f : gmap string string → gmap string string) (m : MemStore) : MemStore :=
    mkMemStore (ms_pending m) (ms_blocks m) (ms_chains m) (ms_frontiers m) (ms_conflicts m)
    (ms_staged m) (ms_votes m) (ms_blockStatus m) (ms_finalHeight m) (ms_finalVotes m) (f
    (ms_delegations m)) (ms_leases m) (ms_certificates m) (ms_reputation m) (ms_keysets m)
    (ms_accountKeys m).
Definition on_leases (f : gmap string Lease → gmap string Lease) (m : MemStore) : MemStore :=
    mkMemStore (ms_pending m) (ms_blocks m) (ms_chains m) (ms_frontiers m) (ms_conflicts m)
    (ms_staged m) (ms_votes m) (ms_blockStatus m) (ms_finalHeight m) (ms_finalVotes m)
    (ms_delegations m) (f (ms_leases m)) (ms_certificates m) (ms_reputation m) (ms_keysets m)
    (ms_accountKeys m).
Definition on_certificates (f : gmap string (list Z) → gmap string (list Z)) (m : MemStore) : MemStore :=
    mkMemStore (ms_pending m) (ms_blocks m) (ms_chains m) (ms_frontiers m) (ms_conflicts m)
    (ms_staged m) (ms_votes m) (ms_blockStatus m) (ms_finalHeight m) (ms_finalVotes m)
    (ms_delegations m) (ms_leases m) (f (ms_certificates m)) (ms_reputation m) (ms_keysets m)
    (ms_accountKeys m).
Definition on_reputation (f : gmap string ReputationAggregate → gmap string ReputationAggregate) (m : MemStore) : MemStore :=
    mkMemStore (ms_pending m) (ms_blocks m) (ms_chains m) (ms_frontiers m) (ms_conflicts m)
    (ms_staged m) (ms_votes m) (ms_blockStatus m) (ms_finalHeight m) (ms_finalVotes m)
    (ms_delegations m) (ms_leases m) (ms_certificates m) (f (ms_reputation m)) (ms_keysets m)
    (ms_accountKeys m).
Definition on_keysets (f : gmap string Keyset → gmap string Keyset) (m : MemStore) : MemStore :=
    mkMemStore (ms_pending m) (ms_blocks m) (ms_chains m) (ms_frontiers m) (ms_conflicts m)
    (ms_staged m) (ms_votes m) (ms_blockStatus m) (ms_finalHeight m) (ms_finalVotes m)
    (ms_delegations m) (ms_leases m) (ms_certificates m) (ms_reputation m) (f (ms_keysets m))
    (ms_accountKeys m).
Definition on_accountKeys (f : gmap string string → gmap string string) (m : MemStore) : MemStore :=
    mkMemStore (ms_pending m) (ms_blocks m) (ms_chains m) (ms_frontiers m) (ms_conflicts m)
    (ms_staged m) (ms_votes m) (ms_blockStatus m) (ms_finalHeight m) (ms_finalVotes m)
    (ms_delegations m) (ms_leases m) (ms_certificates m) (ms_reputation m) (ms_keysets m) (f
    (ms_accountKeys m)).

Definition MemStore_PutBlock (b : Block) : MemStore → MemStore := on_blocks (insert (b_Hash b) b).
Definition MemStore_PutAccountChain (account : string) (chain : AccountChain) : MemStore → MemStore :=
  on_chains (insert account chain).
Definition MemStore_PutPendingSend (ps : PendingSend) : MemStore → MemStore := on_pending (pm_put ps).
Definition MemStore_DeletePendingSend (h : string) : MemStore → MemStore := on_pending (pm_delete h).
Definition MemStore_PutFrontier (account h : string) : MemStore → MemStore := on_frontiers (insert account h).
Definition MemStore_SaveConflict (c : Conflict) : MemStore → MemStore :=
  on_conflicts (insert (memConflictKey (c_AccountAddress c) (c_PreviousHash c)) c).
Definition MemStore_DeleteConflict (account previousHash : string) : MemStore → MemStore :=
  on_conflicts (delete (memConflictKey account previousHash)).
Definition MemStore_SaveStagedBlock (b : Block) : MemStore → MemStore := on_staged (insert (b_Hash b) b).
Definition MemStore_DeleteStagedBlock (h : string) : MemStore → MemStore := on_staged (delete h).
Definition MemStore_PutVote (v : Vote) : MemStore → MemStore :=
  on_votes (insert (memVoteKey (v_ConflictAccount v) (v_ConflictPrev v) (v_RepPubKey v)) v).
Definition MemStore_DeleteVotesForConflict (account previous : string) : MemStore → MemStore :=
  on_votes (filter (λ kv, HasPrefix kv.1 (account +:+ "|" +:+ previous +:+ "|") = false)).
Definition MemStore_SetBlockStatus (h : string) (st : BlockStatus) : MemStore → MemStore := on_blockStatus (insert h st).
Definition MemStore_SetFinalHeight (account : string) (height : Z) : MemStore → MemStore := on_finalHeight (insert account height).
(** The vote that is stored, and whether this call stored it *)
Definition MemStore_PutFinalVoteIfAbsent (account previous h : string) (m : MemStore) : (string * bool) * MemStore :=
  let k := account +:+ "|" +:+ previous in
  match ms_finalVotes m !! k with
  | Some existing => ((existing, false), m)
  | None => ((h, true), on_finalVotes (insert k h) m)
  end.
Definition MemStore_PutCertificate (h : string) (data : list Z) : MemStore → MemStore := on_certificates (insert h data).
Definition MemStore_DeleteCertificate (h : string) : MemStore → MemStore := on_certificates (delete h).
Definition MemStore_PutDelegation (account representative : string) : MemStore → MemStore :=
  on_delegations (insert account representative).
Definition MemStore_DeleteDelegation (account : string) : MemStore → MemStore := on_delegations (delete account).
Definition MemStore_PutLease (l : Lease) : MemStore → MemStore := on_leases (insert (l_LeaseHash l) l).
Definition MemStore_PutReputation (account : string) (agg : ReputationAggregate) : MemStore → MemStore :=
  on_reputation (insert account agg).
Definition MemStore_DeleteReputation (account : string) : MemStore → MemStore := on_reputation (delete account).
Definition MemStore_PutKeyset (account : string) (ks : Keyset) : MemStore → MemStore := on_keysets (insert account ks).
Definition MemStore_PutAccountKey (account pubKey : string) : MemStore → MemStore := on_accountKeys (insert account pubKey).
Definition MemStore_DeleteAccountKey (account : string) : MemStore → MemStore := on_accountKeys (delete account).

(** *** Reads

    Lists come from maps; their order is that of the iteration. *)
Definition MemStore_GetBlock (h : string) (m : MemStore) : option Block := ms_blocks m !! h.
Definition MemStore_GetAccountChain (account : string) (m : MemStore) : option AccountChain := ms_chains m !! account.
Definition MemStore_GetPendingSend (h : string) (m : MemStore) : option PendingSend := pm_at h (ms_pending m).
Definition MemStore_GetPendingByDest (account : string) (m : MemStore) : list PendingSend :=
  omap (λ hp, pm_heap (ms_pending m) !! hp.2) (map_to_list (default ∅ (pm_byDest (ms_pending m) !! account))).
Definition MemStore_GetAllPending (m : MemStore) : list PendingSend :=
  omap (λ hp, pm_heap (ms_pending m) !! hp.2) (map_to_list (pm_pending (ms_pending m))).
Definition MemStore_GetFrontier (account : string) (m : MemStore) : string := default "" (ms_frontiers m !! account).
Definition MemStore_IsEmpty (m : MemStore) : bool := bool_decide (ms_blocks m = ∅).
Definition MemStore_AllFrontiers (m : MemStore) : gmap string string := ms_frontiers m.
Definition MemStore_GetConflict (account previousHash : string) (m : MemStore) : option Conflict :=
  ms_conflicts m !! memConflictKey account previousHash.
Definition MemStore_GetConflictsForAccount (account : string) (m : MemStore) : list Conflict :=
  (map_to_list (filter (λ kv, HasPrefix kv.1 (account +:+ "|")) (ms_conflicts m))).*2.
Definition MemStore_GetAllConflicts (m : MemStore) : list Conflict := (map_to_list (ms_conflicts m)).*2.
Definition MemStore_GetStagedBlock (h : string) (m : MemStore) : option Block := ms_staged m !! h.
Definition MemStore_GetVote (account previous rep : string) (m : MemStore) : option Vote :=
  ms_votes m !! memVoteKey account previous rep.
Definition MemStore_HasVoted (account previous rep : string) (m : MemStore) : bool :=
  bool_decide (is_Some (ms_votes m !! memVoteKey account previous rep)).
Definition MemStore_GetVotesByConflict (account previous : string) (m : MemStore) : list Vote :=
  (map_to_list (filter (λ kv, HasPrefix kv.1 (account +:+ "|" +:+ previous +:+ "|")) (ms_votes m))).*2.
Definition MemStore_GetBlockStatus (h : string) (m : MemStore) : BlockStatus := default StatusPending (ms_blockStatus m !! h).
Definition MemStore_GetFinalHeight (account : string) (m : MemStore) : Z := default 0 (ms_finalHeight m !! account).
Definition MemStore_GetFinalVote (account previous : string) (m : MemStore) : option string :=
  ms_finalVotes m !! (account +:+ "|" +:+ previous).
Definition MemStore_CertificateByHash (h : string) (m : MemStore) : option (list Z) := ms_certificates m !! h.
Definition MemStore_AllCertificates (m : MemStore) : gmap string (list Z) := ms_certificates m.
Definition MemStore_GetLease (h : string) (m : MemStore) : option Lease := ms_leases m !! h.
Definition leases_where (f : Lease → bool) (m : MemStore) : list Lease :=
  filter (λ l, f l) (map_to_list (ms_leases m)).*2.
Definition MemStore_GetLeasesByProvider (provider : string) : MemStore → list Lease :=
  leases_where (λ l, l_Provider l =?s provider).
Definition MemStore_GetLeasesByState (st : LeaseState) : MemStore → list Lease := leases_where (λ l, l_State l =?s st).
Definition MemStore_GetAllLeases : MemStore → list Lease := leases_where (λ _, true).
Definition MemStore_GetReputation (account : string) (m : MemStore) : option ReputationAggregate := ms_reputation m !! account.
Definition MemStore_GetAllReputations (m : MemStore) : gmap string ReputationAggregate := ms_reputation m.
Definition MemStore_GetKeyset (account : string) (m : MemStore) : option Keyset := ms_keysets m !! account.
Definition MemStore_GetAccountKey (account : string) (m : MemStore) : string := default "" (ms_accountKeys m !! account).
Definition MemStore_AllAccountKeys (m : MemStore) : gmap string string := ms_accountKeys m.
(** [IterateDelegations] with a callback that may stop it *)
Definition MemStore_IterateDelegations {S} (fn : string → string → M S unit) (m : MemStore) : M S unit :=
  mfor (λ kv, fn kv.1 kv.2) (map_to_list (ms_delegations m)).
