(* ===== verification/MemFacts.v ===== *)
(** * The in-memory store implements the interface

    A relation between [MemStore] and [StoreState] that every write keeps: the
    pointers of the pending sends and of their index are all different and lead to
    equal records, and joined keys stand for the tuples they were made from. *)
From Stdlib Require Import Ascii.
From S2P Require Import Prelude GoLib Types Reputation Store MemStore.

(** ** Pending sends *)
Section pending.
(** Where the send with a hash goes: a hash determines its block *)
Context (dest : string → string).

Record rep_at (locs : gmap string (ptr * ptr)) (i : PendingMaps) (m : gmap string PendingSend) : Prop := {
  ra_main : pm_pending i = fst <$> locs;
  ra_index : ∀ d h q, pm_byDest i !! d ≫= (!!) h = Some q ↔ ∃ p, locs !! h = Some (p, q) ∧ d = dest h;
  ra_dom : ∀ h, locs !! h = None ↔ m !! h = None;
  ra_heap : ∀ h p q, locs !! h = Some (p, q) → pm_heap i !! p = m !! h ∧ pm_heap i !! q = m !! h;
  ra_fresh : ∀ h p q, locs !! h = Some (p, q) → (p < pm_next i)%nat ∧ (q < pm_next i)%nat ∧ p ≠ q;
  ra_apart : ∀ h h' p q p' q', locs !! h = Some (p, q) → locs !! h' = Some (p', q') → h ≠ h' →
    p ≠ p' ∧ p ≠ q' ∧ q ≠ p' ∧ q ≠ q';
  ra_dest : ∀ h ps, m !! h = Some ps → ps_Destination ps = dest h ∧ ps_SendHash ps = h;
  ra_full : ∀ d dm, pm_byDest i !! d = Some dm → dm ≠ ∅ }.

Definition pend_rep (i : PendingMaps) (m : gmap string PendingSend) : Prop := ∃ locs, rep_at locs i m.

Lemma pend_rep_empty : pend_rep (mkPendingMaps ∅ 0 ∅ ∅) ∅.
Proof.
  exists ∅. split; try (intros *; rewrite ?lookup_empty; naive_solver).
Qed.

Lemma rep_at_get locs i m h : rep_at locs i m → pm_at h i = m !! h.
Proof.
  intros R. unfold pm_at. rewrite (ra_main _ _ _ R), lookup_fmap. destruct (locs !! h) as [[p q]|] eqn:E; simpl.
  - by apply (ra_heap _ _ _ R) in E as [-> _].
  - symmetry. by apply (ra_dom _ _ _ R).
Qed.

(** Reading through two maps *)
Lemma index_insert {A} (b : gmap string (gmap string A)) d h x d' h' :
  <[d := <[h := x]> (default ∅ (b !! d))]> b !! d' ≫= (!!) h' =
    if decide (d = d' ∧ h = h') then Some x else b !! d' ≫= (!!) h'.
Proof.
  destruct (decide (d = d')) as [<-|Hd].
  - rewrite lookup_insert_eq. simpl. destruct (decide (h = h')) as [<-|Hh].
    + rewrite lookup_insert_eq, decide_True by done. done.
    + rewrite lookup_insert_ne, decide_False by naive_solver. destruct (b !! d); simpl; [done|by rewrite lookup_empty].
  - rewrite lookup_insert_ne, decide_False by naive_solver. done.
Qed.

Lemma pend_rep_add ps i m : ps_Destination ps = dest (ps_SendHash ps) →
  pend_rep i m → pend_rep (pm_add ps i) (<[ps_SendHash ps := ps]> m).
Proof.
  intros Hd [locs R]. set (h := ps_SendHash ps) in *. set (n := pm_next i).
  exists (<[h := (n, S n)]> locs). unfold pm_add, pm_alloc, pm_set, pm_index. cbn [pm_heap pm_next pm_pending pm_byDest].
  fold h n. split; cbn [pm_heap pm_next pm_pending pm_byDest].
  - by rewrite fmap_insert, (ra_main _ _ _ R).
  - intros d h' q. rewrite index_insert, Hd. case_decide as E.
    + destruct E as [<- <-]. rewrite lookup_insert_eq. naive_solver.
    + rewrite (ra_index _ _ _ R). destruct (decide (h = h')) as [<-|Hh].
      * rewrite lookup_insert_eq. split; [intros (p & Hp & ->); naive_solver|]. intros (p & [= _ <-] & ->). naive_solver.
      * by rewrite lookup_insert_ne.
  - intros h'. destruct (decide (h = h')) as [<-|Hh]; [by rewrite !lookup_insert_eq|].
    rewrite !lookup_insert_ne by done. apply R.
  - intros h' p q [[<- [= <- <-]]|[Hne Hl]]%lookup_insert_Some.
    + rewrite !lookup_insert_eq, lookup_insert_ne, lookup_insert_eq by lia. done.
    + pose proof (ra_fresh _ _ _ R _ _ _ Hl). rewrite !lookup_insert_ne by (done || lia). by apply (ra_heap _ _ _ R).
  - intros h' p q [[<- [= <- <-]]|[Hne Hl]]%lookup_insert_Some; [lia|].
    apply (ra_fresh _ _ _ R) in Hl. lia.
  - intros h1 h2 p q p' q' [[<- [= <- <-]]|[Hn1 H1]]%lookup_insert_Some [[<- [= <- <-]]|[Hn2 H2]]%lookup_insert_Some Hne;
      [done|apply (ra_fresh _ _ _ R) in H2; lia|apply (ra_fresh _ _ _ R) in H1; lia|].
    by eapply (ra_apart _ _ _ R).
  - intros h' x [[<- <-]|[Hne Hx]]%lookup_insert_Some; [done|by apply (ra_dest _ _ _ R)].
  - intros d dm [[<- <-]|[_ Hdm]]%lookup_insert_Some; [|by eapply (ra_full _ _ _ R)].
    apply insert_non_empty.
Qed.

(** The index without one entry, and without an empty map *)
Definition index_delete (d h : string) (b : gmap string (gmap string ptr)) : gmap string (gmap string ptr) :=
  match b !! d with
  | None => b
  | Some dm => let dm := delete h dm in if bool_decide (dm = ∅) then delete d b else <[d := dm]> b
  end.

Lemma index_delete_lookup d h b d' h' :
  index_delete d h b !! d' ≫= (!!) h' = if decide (d = d' ∧ h = h') then None else b !! d' ≫= (!!) h'.
Proof.
  unfold index_delete. destruct (b !! d) as [dm|] eqn:Eb.
  2:{ case_decide as E; [|done]. destruct E as [<- <-]. by rewrite Eb. }
  assert (Hdm : ∀ x, delete h dm !! x = if decide (h = x) then None else dm !! x).
  { intros x. case_decide as E; [subst; apply lookup_delete_eq|by apply lookup_delete_ne]. }
  destruct (decide (d = d')) as [<-|Hd].
  - rewrite Eb. simpl. case_bool_decide as E.
    + rewrite lookup_delete_eq. simpl. specialize (Hdm h'). rewrite E, lookup_empty in Hdm.
      case_decide as E1; case_decide as E2; naive_solver.
    + rewrite lookup_insert_eq. simpl. rewrite Hdm. repeat case_decide; naive_solver.
  - rewrite (decide_False (P := d = d' ∧ _)) by naive_solver.
    case_bool_decide; [by rewrite lookup_delete_ne|by rewrite lookup_insert_ne].
Qed.

Lemma index_delete_full d h b d' dm :
  (∀ d dm, b !! d = Some dm → dm ≠ ∅) → index_delete d h b !! d' = Some dm → dm ≠ ∅.
Proof.
  intros Hb. unfold index_delete. destruct (b !! d) as [dm0|] eqn:Eb; [|apply Hb]. case_bool_decide as E.
  - intros [_ H]%lookup_delete_Some. by eapply Hb.
  - intros [[_ <-]|[_ H]]%lookup_insert_Some; [done|by eapply Hb].
Qed.

Lemma pend_rep_delete h i m : pend_rep i m → pend_rep (pm_delete h i) (delete h m).
Proof.
  intros [locs R]. unfold pm_delete. rewrite (rep_at_get _ _ _ h R). destruct (m !! h) as [ps|] eqn:Eh.
  2:{ rewrite delete_id by done. by exists locs. }
  destruct (ra_dest _ _ _ R _ _ Eh) as [-> _]. fold (index_delete (dest h) h (pm_byDest i)).
  exists (delete h locs). split; cbn [pm_heap pm_next pm_pending pm_byDest].
  - by rewrite fmap_delete, (ra_main _ _ _ R).
  - intros d h' q. rewrite index_delete_lookup, lookup_delete. case_decide as E; case_decide as E'; subst;
      try naive_solver; rewrite (ra_index _ _ _ R); naive_solver.
  - intros h'. rewrite !lookup_delete. case_decide; [done|apply R].
  - intros h' p q [Hne Hl]%lookup_delete_Some. rewrite lookup_delete_ne by done. by apply (ra_heap _ _ _ R).
  - intros h' p q [_ Hl]%lookup_delete_Some. by apply (ra_fresh _ _ _ R) in Hl.
  - intros h1 h2 p q p' q' [_ H1]%lookup_delete_Some [_ H2]%lookup_delete_Some. by eapply (ra_apart _ _ _ R).
  - intros h' x [_ Hx]%lookup_delete_Some. by apply (ra_dest _ _ _ R).
  - intros d dm. apply index_delete_full, R.
Qed.

Lemma pend_rep_adjust f h i m : pend_rep i m → pend_rep (pm_adjust f h i) (alter (ps_with_amount f) h m).
Proof.
  intros [locs R]. unfold pm_adjust. rewrite (ra_main _ _ _ R), lookup_fmap.
  destruct (locs !! h) as [[p q]|] eqn:El; simpl.
  2:{ rewrite alter_id; [by exists locs|]. intros x Hx. by rewrite (proj1 (ra_dom _ _ _ R h)) in Hx. }
  destruct (ra_heap _ _ _ R _ _ _ El) as [Hp Hq]. destruct (ra_fresh _ _ _ R _ _ _ El) as (_ & _ & Hpq).
  destruct (m !! h) as [ps|] eqn:Em; [|by rewrite (proj2 (ra_dom _ _ _ R h)) in El].
  rewrite lookup_alter_eq, Hp. simpl. destruct (ra_dest _ _ _ R _ _ Em) as [-> _].
  rewrite (proj2 (ra_index _ _ _ R (dest h) h q)) by eauto. exists locs.
  split; cbn [pm_heap pm_next pm_pending pm_byDest pm_write]; try apply R.
  - intros h'. rewrite (ra_dom _ _ _ R), lookup_alter. case_decide; [subst|done]. by rewrite fmap_None.
  - intros h' p' q' Hl. destruct (decide (h' = h)) as [->|Hne].
    + rewrite El in Hl. injection Hl as <- <-. rewrite lookup_alter_eq, Em.
      rewrite (lookup_alter_ne _ _ q p) by done. rewrite lookup_alter_eq, Hp. split; [done|].
      rewrite lookup_alter_eq, lookup_alter_ne, Hq by done. done.
    + destruct (ra_apart _ _ _ R _ _ _ _ _ _ Hl El Hne) as (?&?&?&?).
      rewrite !lookup_alter_ne by done. by apply (ra_heap _ _ _ R).
  - intros h' x. rewrite lookup_alter. case_decide as E; [subst|apply R]. rewrite Em. simpl. intros [= <-].
    by apply (ra_dest _ _ _ R) in Em.
Qed.

Lemma omap_map_to_list {A B} (g : A → option B) (m : gmap string A) :
  omap (λ hp, g hp.2) (map_to_list m) ≡ₚ (map_to_list (omap g m)).*2.
Proof.
  induction m as [|k x m Hk IH] using map_ind; [by rewrite omap_empty, !map_to_list_empty|].
  rewrite (map_to_list_insert m) by done. simpl. destruct (g x) as [y|] eqn:Eg.
  - rewrite (omap_insert_Some _ _ _ _ y) by done. rewrite map_to_list_insert by (by rewrite lookup_omap, Hk).
    simpl. by rewrite IH.
  - rewrite omap_insert_None, delete_id by (done || by rewrite lookup_omap, Hk). done.
Qed.

Lemma pend_rep_by_dest i m d : pend_rep i m →
  omap (λ hp, pm_heap i !! hp.2) (map_to_list (default ∅ (pm_byDest i !! d))) ≡ₚ
    (map_to_list (filter (λ kv, ps_Destination kv.2 = d) m)).*2.
Proof.
  intros [locs R]. rewrite (omap_map_to_list (λ q, pm_heap i !! q)). match goal with |- (map_to_list ?a).*2 ≡ₚ (map_to_list ?b).*2 =>
    enough (a = b) as -> by done end. apply map_eq. intros h.
  rewrite lookup_omap. apply option_eq. intros ps. rewrite map_lookup_filter_Some. simpl.
  assert (Hi : default ∅ (pm_byDest i !! d) !! h = pm_byDest i !! d ≫= (!!) h).
  { destruct (pm_byDest i !! d); simpl; [done|apply lookup_empty]. }
  rewrite Hi. split.
  - destruct (pm_byDest i !! d ≫= (!!) h) as [q|] eqn:E; [|done]. simpl.
    apply (ra_index _ _ _ R) in E as (p & Hl & ->). destruct (ra_heap _ _ _ R _ _ _ Hl) as [_ ->].
    intros Hm. split; [done|]. by destruct (ra_dest _ _ _ R _ _ Hm).
  - intros [Hm Hd]. pose proof (ra_dest _ _ _ R _ _ Hm) as [Hd' _].
    destruct (locs !! h) as [[p q]|] eqn:El; [|by rewrite (proj1 (ra_dom _ _ _ R h)) in Hm].
    rewrite (proj2 (ra_index _ _ _ R d h q)) by (exists p; split; [done|congruence]). simpl.
    by destruct (ra_heap _ _ _ R _ _ _ El) as [_ ->].
Qed.

Lemma pend_rep_all i m : pend_rep i m →
  omap (λ hp, pm_heap i !! hp.2) (map_to_list (pm_pending i)) ≡ₚ (map_to_list m).*2.
Proof.
  intros [locs R]. rewrite (omap_map_to_list (λ q, pm_heap i !! q)). match goal with |- (map_to_list ?a).*2 ≡ₚ (map_to_list ?b).*2 =>
    enough (a = b) as -> by done end. apply map_eq. intros h.
  rewrite lookup_omap. apply (rep_at_get _ _ _ h R).
Qed.
End pending.

(** ** Joined keys *)

(** A string without a bar *)
Fixpoint bar_free (s : string) : bool :=
  match s with EmptyString => true | String c s => negb (bool_decide (c = "|"%char)) && bar_free s end.

Lemma join_inj a a' x x' : bar_free a = true → bar_free a' = true →
  (a +:+ "|" +:+ x)%string = (a' +:+ "|" +:+ x')%string → a = a' ∧ x = x'.
Proof.
  revert a'. induction a as [|c a IH]; intros [|c' a'] Ha Ha' H; cbn [bar_free] in *; simpl in H; simplify_eq.
  - done.
  - apply andb_true_iff in Ha as [_ Ha], Ha' as [_ Ha']. destruct (IH a') as [-> ->]; try done.
Qed.

Lemma prefix_iff p s : HasPrefix s p = true ↔ ∃ t, s = (p +:+ t)%string.
Proof.
  unfold HasPrefix. revert s. induction p as [|c p IH]; intros s; [split; intros _; [by exists s|by destruct s]|].
  destruct s as [|c' s]; cbn [String.prefix]; [split; [done|by intros [t Ht]]|].
  destruct (ascii_dec c c') as [<-|Hne].
  - rewrite IH. split; intros [t Ht]; exists t; [by rewrite Ht|]. by injection Ht.
  - split; [done|]. intros [t Ht]. by injection Ht.
Qed.

Lemma str_app_assoc (a b c : string) : ((a +:+ b) +:+ c)%string = (a +:+ (b +:+ c))%string.
Proof. induction a as [|x a IH]; [done|]. exact (f_equal (String x) IH). Qed.

Lemma prefix_join a a' x : bar_free a = true → bar_free a' = true →
  HasPrefix (a' +:+ "|" +:+ x) (a +:+ "|") = true ↔ a = a'.
Proof.
  intros Ha Ha'. rewrite prefix_iff. split.
  - intros [t Ht]. rewrite str_app_assoc in Ht. symmetry in Ht. by apply join_inj in Ht as [-> _].
  - intros ->. exists x. by rewrite str_app_assoc.
Qed.

Lemma prefix_join3 a p a' p' x : bar_free a = true → bar_free p = true → bar_free a' = true → bar_free p' = true →
  HasPrefix (memVoteKey a' p' x) (a +:+ "|" +:+ p +:+ "|") = true ↔ (a', p') = (a, p).
Proof.
  intros Ha Hp Ha' Hp'. unfold memVoteKey. rewrite prefix_iff. split.
  - intros [t Ht]. rewrite !str_app_assoc in Ht. apply join_inj in Ht as [-> Ht]; [|done..].
    by apply join_inj in Ht as [-> _].
  - intros [= -> ->]. exists x. by rewrite !str_app_assoc.
Qed.

(** A map under joined keys stands for one under tuples. *)
Section keyed.
Context {K A : Type} `{Countable K} (f : K → string) (P : K → Prop).
Hypothesis Hf : ∀ k k', P k → P k' → f k = f k' → k = k'.

Record keyed (mm : gmap string A) (m : gmap K A) : Prop := {
  ky_same : ∀ k, P k → mm !! f k = m !! k;
  ky_joined : ∀ x, is_Some (mm !! x) → ∃ k, P k ∧ x = f k;
  ky_keys : ∀ k, is_Some (m !! k) → P k }.

Lemma keyed_empty : keyed ∅ ∅.
Proof. split; intros *; rewrite ?lookup_empty; [done|intros [? [=]]..]. Qed.

Lemma keyed_insert mm m k v : P k → keyed mm m → keyed (<[f k := v]> mm) (<[k := v]> m).
Proof.
  intros Hk [H1 H2 H3]. split.
  - intros k' Hk'. destruct (decide (k = k')) as [<-|Hne]; [by rewrite !lookup_insert_eq|].
    rewrite !lookup_insert_ne; eauto.
  - intros x [v' [[<- _]|[_ Hx]]%lookup_insert_Some]; eauto.
  - intros k' [v' [[<- _]|[_ Hx]]%lookup_insert_Some]; eauto.
Qed.

Lemma keyed_delete mm m k : P k → keyed mm m → keyed (delete (f k) mm) (delete k m).
Proof.
  intros Hk [H1 H2 H3]. split.
  - intros k' Hk'. destruct (decide (k = k')) as [<-|Hne]; [by rewrite !lookup_delete_eq|].
    rewrite !lookup_delete_ne; eauto.
  - intros x [v' [_ Hx]%lookup_delete_Some]; eauto.
  - intros k' [v' [_ Hx]%lookup_delete_Some]; eauto.
Qed.

Lemma keyed_filter (Q : string * A → Prop) (R : K * A → Prop) `{∀ x, Decision (Q x), ∀ k, Decision (R k)} mm m :
  (∀ k v, P k → Q (f k, v) ↔ R (k, v)) → keyed mm m → keyed (filter Q mm) (filter R m).
Proof.
  intros HQ [K1 K2 K3]. split.
  - intros k Hk. apply option_eq. intros v. by rewrite !map_lookup_filter_Some, K1, HQ.
  - intros x [v [Hx _]%map_lookup_filter_Some]; eauto.
  - intros k [v [Hx _]%map_lookup_filter_Some]; eauto.
Qed.

(** The values are the same. *)
Lemma keyed_values mm m : keyed mm m → (map_to_list mm).*2 ≡ₚ (map_to_list m).*2.
Proof.
  revert mm. induction m as [|k v m Hk IH] using map_ind; intros mm [H1 H2 H3].
  - assert (mm = ∅) as ->; [|by rewrite !map_to_list_empty]. apply map_empty. intros x.
    destruct (mm !! x) eqn:E; [|done]. destruct (H2 x) as (k & Hk & ->); [by rewrite E|].
    rewrite H1, lookup_empty in E by done. done.
  - assert (Pk : P k) by (apply H3; by rewrite lookup_insert_eq).
    assert (Hmk : mm !! f k = Some v) by (by rewrite H1, lookup_insert_eq).
    rewrite <- (insert_delete_id mm (f k) v) by done.
    rewrite !map_to_list_insert by (done || apply lookup_delete_eq). simpl. rewrite (IH (delete (f k) mm)); [done|].
    rewrite <- (delete_insert_id m k v) by done. by apply keyed_delete.
Qed.
End keyed.

(** ** The whole store *)

(** Account, previous hash and representative of the keys *)
Definition bar_free2 (k : string * string) : Prop := bar_free k.1 = true ∧ bar_free k.2 = true.
Definition bar_free3 (k : string * string * string) : Prop := bar_free2 k.1.
Definition conflict_key (k : string * string) : string := memConflictKey k.1 k.2.
Definition vote_key (k : string * string * string) : string := memVoteKey k.1.1 k.1.2 k.2.

Lemma conflict_key_inj k k' : bar_free2 k → bar_free2 k' → conflict_key k = conflict_key k' → k = k'.
Proof.
  destruct k as [a p], k' as [a' p']. intros [Ha _] [Ha' _] H. unfold conflict_key, memConflictKey in H.
  cbn [fst snd] in *. by apply join_inj in H as [-> ->].
Qed.

Lemma vote_key_inj k k' : bar_free3 k → bar_free3 k' → vote_key k = vote_key k' → k = k'.
Proof.
  destruct k as [[a p] r], k' as [[a' p'] r']. intros [Ha Hp] [Ha' Hp'] H. unfold vote_key, memVoteKey in H.
  cbn [fst snd] in *.
  apply join_inj in H as [-> H]; [|done..]. by apply join_inj in H as [-> ->].
Qed.

Record mem_rep (dest : string → string) (m : MemStore) (s : StoreState) : Prop := {
  mr_pending : pend_rep dest (ms_pending m) (pending s);
  mr_blocks : ms_blocks m = blocks s;
  mr_chains : ms_chains m = chains s;
  mr_frontiers : ms_frontiers m = frontiers s;
  mr_conflicts : keyed conflict_key bar_free2 (ms_conflicts m) (conflicts s);
  mr_staged : ms_staged m = staged s;
  mr_votes : keyed vote_key bar_free3 (ms_votes m) (votes s);
  mr_status : ms_blockStatus m = blockStatus s;
  mr_final : ms_finalHeight m = finalHeight s;
  mr_finalVotes : keyed conflict_key bar_free2 (ms_finalVotes m) (finalVotes s);
  mr_delegations : ms_delegations m = delegations s;
  mr_leases : ms_leases m = leases s;
  mr_reputation : ms_reputation m = st_reputation s;
  mr_keysets : ms_keysets m = st_keysets s;
  mr_accountKeys : ms_accountKeys m = st_accountKeys s }.

Lemma mem_rep_empty dest : mem_rep dest NewMemStore emptyStore.
Proof. split; try done; [apply pend_rep_empty|apply keyed_empty..]. Qed.

(** *** The writes of the interface *)

(** Entries of the maps that are written by themselves; [None] deletes. *)
Inductive entry :=
  | EBlock (b : Block)
  | EChain (account : string) (chain : AccountChain)
  | EFrontier (account h : string)
  | EDelegation (account : string) (rep : option string)
  | ELease (l : Lease)
  | EKeyset (account : string) (ks : Keyset)
  | EAccountKey (account : string) (key : option string)
  | EReputation (account : string) (agg : option ReputationAggregate).

Definition mem_entry (x : entry) : MemStore → MemStore :=
  match x with
  | EBlock b => MemStore_PutBlock b
  | EChain a c => MemStore_PutAccountChain a c
  | EFrontier a h => MemStore_PutFrontier a h
  | EDelegation a (Some r) => MemStore_PutDelegation a r
  | EDelegation a None => MemStore_DeleteDelegation a
  | ELease l => MemStore_PutLease l
  | EKeyset a ks => MemStore_PutKeyset a ks
  | EAccountKey a (Some k) => MemStore_PutAccountKey a k
  | EAccountKey a None => MemStore_DeleteAccountKey a
  | EReputation a (Some agg) => MemStore_PutReputation a agg
  | EReputation a None => MemStore_DeleteReputation a
  end.

Definition put {A} (k : string) (o : option A) : gmap string A → gmap string A := partial_alter (λ _, o) k.
Definition spec_entry (x : entry) (s : StoreState) : StoreState :=
  mkStore (match x with EBlock b => put (b_Hash b) (Some b) (blocks s) | _ => blocks s end)
    (match x with EChain a c => put a (Some c) (chains s) | _ => chains s end) (pending s)
    (match x with EFrontier a h => put a (Some h) (frontiers s) | _ => frontiers s end)
    (conflicts s) (staged s) (blockStatus s) (finalHeight s)
    (match x with EDelegation a r => put a r (delegations s) | _ => delegations s end)
    (match x with ELease l => put (l_LeaseHash l) (Some l) (leases s) | _ => leases s end)
    (match x with EKeyset a ks => put a (Some ks) (st_keysets s) | _ => st_keysets s end)
    (match x with EAccountKey a k => put a k (st_accountKeys s) | _ => st_accountKeys s end)
    (match x with EReputation a agg => put a agg (st_reputation s) | _ => st_reputation s end)
    (votes s) (finalVotes s).

Inductive store_write :=
  | WCommit (c : BlockCommit)
  | WUndo (u : BlockUndo)
  | WCascade (us : list BlockUndo) (c : option BlockCommit)
  | WEntry (x : entry)
  | WDeletePending (h : string)
  | WSaveConflict (c : Conflict)
  | WDeleteConflict (account previous : string)
  | WSaveStaged (b : Block)
  | WDeleteStaged (h : string)
  | WStatus (h : string) (st : BlockStatus)
  | WFinalHeight (account : string) (height : Z)
  | WVote (v : Vote)
  | WDeleteVotes (account previous : string)
  | WFinalVote (account previous h : string).

(** What a write answers: the final vote that is stored and whether this write stored
    it, or nothing *)
Notation answer := (string * bool)%type.
Definition no_answer : answer := (""%string, false).

Definition run_mem (w : store_write) : M MemStore answer :=
  let just f : M MemStore answer := λ m, (Ok no_answer, f m) in
  match w with
  | WCommit c => MemStore_CommitBlock c ;! mret_ no_answer
  | WUndo u => MemStore_CommitUndo u ;! mret_ no_answer
  | WCascade us c => MemStore_CommitCascade us c ;! mret_ no_answer
  | WSaveConflict c => just (MemStore_SaveConflict c)
  | WDeleteConflict a p => just (MemStore_DeleteConflict a p)
  | WSaveStaged b => just (MemStore_SaveStagedBlock b)
  | WDeleteStaged h => just (MemStore_DeleteStagedBlock h)
  | WStatus h st => just (MemStore_SetBlockStatus h st)
  | WFinalHeight a n => just (MemStore_SetFinalHeight a n)
  | WEntry x => just (mem_entry x)
  | WDeletePending h => just (MemStore_DeletePendingSend h)
  | WVote v => just (MemStore_PutVote v)
  | WDeleteVotes a p => just (MemStore_DeleteVotesForConflict a p)
  | WFinalVote a p h => λ m, let '(r, m) := MemStore_PutFinalVoteIfAbsent a p h m in (Ok r, m)
  end.

Definition run_spec (w : store_write) (s : StoreState) : result answer * StoreState :=
  let just s : result answer * StoreState := (Ok no_answer, s) in
  let atomic r : result answer * StoreState := match r with Ok s => (Ok no_answer, s) | Err e => (Err e, s) end in
  match w with
  | WCommit c => atomic (CommitBlock c s)
  | WUndo u => just (CommitUndo u s)
  | WCascade us (Some c) => atomic (CommitCascade us c s)
  | WCascade us None => just (foldl (λ s u, CommitUndo u s) s us)
  | WSaveConflict c => just (SaveConflict c s)
  | WDeleteConflict a p => just (DeleteConflict a p s)
  | WSaveStaged b => just (SaveStagedBlock b s)
  | WDeleteStaged h => just (DeleteStagedBlock h s)
  | WStatus h st => just (SetBlockStatus h st s)
  | WFinalHeight a n => just (SetFinalHeight a n s)
  | WEntry x => just (spec_entry x s)
  | WDeletePending h => just (DeletePendingSend h s)
  | WVote v => just (PutVote v s)
  | WDeleteVotes a p => just (DeleteVotesForConflict a p s)
  | WFinalVote a p h =>
      match finalVotes s !! (a, p) with
      | Some h' => (Ok (h', false), s)
      | None => (Ok (h, true), PutFinalVote a p h s)
      end
  end.

(** A send is pending where its hash says; accounts and hashes have no bar. *)
Definition dest_ok (dest : string → string) (o : option PendingSend) : Prop :=
  match o with None => True | Some ps => ps_Destination ps = dest (ps_SendHash ps) end.

Definition write_ok (dest : string → string) (w : store_write) : Prop :=
  match w with
  | WCommit c => dest_ok dest (bc_AddPending c)
  | WUndo u => dest_ok dest (bu_AddPending u)
  | WCascade us c => Forall (λ u, dest_ok dest (bu_AddPending u)) us ∧ dest_ok dest (c ≫= bc_AddPending)
  | WSaveConflict c => bar_free2 (c_AccountAddress c, c_PreviousHash c)
  | WVote v => bar_free2 (v_ConflictAccount v, v_ConflictPrev v)
  | WDeleteConflict a p | WDeleteVotes a p | WFinalVote a p _ => bar_free2 (a, p)
  | _ => True
  end.

(** *** The atomic writes *)

Lemma when_id_rel {A B} (R : A → B → Prop) id f g x y :
  (∀ x y, R x y → R (f x) (g y)) → R x y → R (when_id id f x) (when_id id g y).
Proof. unfold when_id. case_bool_decide; auto. Qed.

Lemma pend_rep_add_opt dest o i m : dest_ok dest o →
  pend_rep dest i m → pend_rep dest (mem_add_pending o i) (add_pending o m).
Proof. destruct o; [apply pend_rep_add|done]. Qed.

Lemma pend_rep_commit dest c i m : dest_ok dest (bc_AddPending c) →
  pend_rep dest i m → pend_rep dest (mem_commit_pending c i) (commit_pending c m).
Proof.
  intros Hc H. apply (when_id_rel (pend_rep dest)); [intros; by apply pend_rep_adjust|].
  apply (when_id_rel (pend_rep dest)); [intros; by apply pend_rep_delete|]. by apply pend_rep_add_opt.
Qed.

Lemma pend_rep_undo dest u i m : dest_ok dest (bu_AddPending u) →
  pend_rep dest i m → pend_rep dest (mem_undo_pending u i) (undo_pending u m).
Proof.
  intros Hu H. apply pend_rep_add_opt; [done|].
  apply (when_id_rel (pend_rep dest)); [intros; by apply pend_rep_delete|].
  apply (when_id_rel (pend_rep dest)); [intros; by apply pend_rep_adjust|done].
Qed.

Lemma mem_rep_commit dest c m s : dest_ok dest (bc_AddPending c) →
  mem_rep dest m s → mem_rep dest (commit_writes c m) (commit_effect c s).
Proof.
  intros Hc []. destruct m, s. simpl in *. subst. split; try done. by apply pend_rep_commit.
Qed.

Lemma mem_rep_undo dest u m s : dest_ok dest (bu_AddPending u) →
  mem_rep dest m s → mem_rep dest (applyUndoLocked u m) (CommitUndo u s).
Proof.
  intros Hc []. destruct m, s. simpl in *. subst. split; try done. by apply pend_rep_undo.
Qed.

Lemma mem_rep_undos dest us m s : Forall (λ u, dest_ok dest (bu_AddPending u)) us → mem_rep dest m s →
  ∃ m', mfor MemStore_CommitUndo us m = (Ok (), m') ∧ mem_rep dest m' (foldl (λ s u, CommitUndo u s) s us).
Proof.
  intros Hu. revert m s. induction Hu as [|u us Hu _ IH]; intros m s R; [by exists m|].
  apply (IH (applyUndoLocked u m)). by apply mem_rep_undo.
Qed.

(** What the cascade expects of the lease is what its commit finds. *)
Lemma undo_lease h u (m : gmap string Lease) : h ≠ "" →
  undo_leases u m !! h = cascade_lease h [u] (m !! h).
Proof.
  intros Hh. unfold undo_leases, cascade_lease, when_id. simpl.
  set (m' := match bu_RestoreLease u with None => m | Some l => <[l_LeaseHash l := l]> m end).
  assert (E : m' !! h = match bu_RestoreLease u with
    | Some r => if l_LeaseHash r =?s h then Some r else m !! h | None => m !! h end).
  { subst m'. destruct (bu_RestoreLease u); [|done]. rewrite lookup_insert. by case_bool_decide; case_decide. }
  rewrite <- E. do 2 case_bool_decide; subst; try done; [by rewrite lookup_delete_eq|by rewrite lookup_delete_ne].
Qed.

Lemma undos_lease h us s : h ≠ "" →
  leases (foldl (λ s u, CommitUndo u s) s us) !! h = cascade_lease h us (leases s !! h).
Proof.
  intros Hh. revert s. induction us as [|u us IH]; intros s; [done|]. simpl. rewrite IH. simpl.
  by rewrite undo_lease.
Qed.

Lemma check_lease_prefix pre pre' c l : check_lease pre c l = Ok () → check_lease pre' c l = Ok ().
Proof.
  unfold check_lease. case_bool_decide; [done|]. destruct l as [l|]; [|done]. unfold rfail_if.
  repeat case_match; simpl; congruence.
Qed.

(** So the commit of a cascade does not fail after the undos are written. *)
Lemma cascade_commits us c s pre :
  check_lease pre c (cascade_lease (bc_ExpectLeaseHash c) us (leases s !! bc_ExpectLeaseHash c)) = Ok () →
  CommitBlock c (foldl (λ s u, CommitUndo u s) s us) = Ok (commit_effect c (foldl (λ s u, CommitUndo u s) s us)).
Proof.
  intros H. unfold CommitBlock. destruct (decide (bc_ExpectLeaseHash c = "")) as [E|E].
  - unfold check_lease at 1. by rewrite bool_decide_true.
  - rewrite undos_lease by done. by rewrite (check_lease_prefix _ _ _ _ H).
Qed.

Lemma commit_refines dest c m s : dest_ok dest (bc_AddPending c) → mem_rep dest m s →
  match CommitBlock c s with
  | Ok s' => ∃ m', applyCommitLocked c m = (Ok (), m') ∧ mem_rep dest m' s'
  | Err e => applyCommitLocked c m = (Err e, m)
  end.
Proof.
  intros Hc R. unfold CommitBlock, applyCommitLocked, mbind_, mget, mlift, mmodify. rewrite (mr_leases _ _ _ R).
  destruct (check_lease _ _ _) as [[]|e]; simpl; [|done]. eexists; split; [done|]. by apply mem_rep_commit.
Qed.

Lemma cascade_refines dest us c m s : write_ok dest (WCascade us c) → mem_rep dest m s →
  ∃ m', run_mem (WCascade us c) m = ((run_spec (WCascade us c) s).1, m') ∧
        mem_rep dest m' (run_spec (WCascade us c) s).2.
Proof.
  intros [Hus Hc] R. unfold run_mem, MemStore_CommitCascade, mbind_, mget, mlift. destruct c as [c|].
  2: { destruct (mem_rep_undos _ _ _ _ Hus R) as (m1 & E & R1). unfold mret_. rewrite E. by exists m1. }
  rewrite (mr_leases _ _ _ R).
  unfold run_spec, CommitCascade. destruct (check_lease _ _ _) as [[]|e] eqn:Ek; [|by exists m].
  destruct (mem_rep_undos _ _ _ _ Hus R) as (m1 & -> & R1). unfold mwrap.
  pose proof (commit_refines _ _ _ _ Hc R1) as Ha. rewrite (cascade_commits _ _ _ _ Ek) in *.
  destruct Ha as (m' & -> & R'). by exists m'.
Qed.

(** *** Every write *)

(** One field changes, on both sides. *)
Ltac same_fields := split; simpl; try congruence; try done.

Lemma drop_votes (a p : string) (mm : gmap string Vote) (m : gmap (string * string * string) Vote) : bar_free2 (a, p) →
  keyed vote_key bar_free3 mm m →
  keyed vote_key bar_free3 (filter (λ kv, HasPrefix kv.1 (a +:+ "|" +:+ p +:+ "|") = false) mm)
    (filter (λ kv, kv.1.1 ≠ (a, p)) m).
Proof.
  intros [Ha Hp] R. apply keyed_filter; [|done]. intros [[a' p'] r] v [Ha' Hp']. unfold vote_key. cbn [fst snd] in *.
  rewrite <- (prefix_join3 a p a' p' r) by done. by destruct (HasPrefix _ _).
Qed.

Lemma mem_rep_entry dest x m s : mem_rep dest m s → mem_rep dest (mem_entry x m) (spec_entry x s).
Proof.
  intros []. destruct x as [| | |? []| | |? []|? []]; same_fields; unfold put, insert, delete, map_insert, map_delete; congruence.
Qed.

Lemma single_refines dest w m s : write_ok dest w → mem_rep dest m s →
  ∃ m', run_mem w m = ((run_spec w s).1, m') ∧ mem_rep dest m' (run_spec w s).2.
Proof.
  intros Hw R. destruct w as [c|u|us c|x|h|c|a p|b|h|h st|a n|v|a p|a p h].
  3: by apply cascade_refines.
  13: { pose proof (ky_same _ _ _ _ (mr_finalVotes _ _ _ R) (a, p) Hw) as E. destruct R.
    change (conflict_key (a, p)) with (a +:+ "|" +:+ p)%string in E.
    unfold run_mem, run_spec, MemStore_PutFinalVoteIfAbsent. rewrite E.
    destruct (finalVotes s !! (a, p)); eexists; (split; [done|]); same_fields.
    by apply (keyed_insert _ _ conflict_key_inj _ _ (a, p)). }
  1: { pose proof (commit_refines _ _ _ _ Hw R) as H. unfold run_mem, run_spec, mbind_, MemStore_CommitBlock.
    destruct (CommitBlock c s); [destruct H as (m' & -> & R'); by exists m'|]. rewrite H. by exists m. }
  1: { eexists; split; [done|]. by apply mem_rep_undo. }
  1: { exists (mem_entry x m). split; [done|]. by apply mem_rep_entry. }
  all: destruct R; eexists; (split; [done|]); same_fields.
  - by apply pend_rep_delete.
  - by apply (keyed_insert _ _ conflict_key_inj _ _ (_, _)).
  - by apply (keyed_delete _ _ conflict_key_inj _ _ (_, _)).
  - by apply (keyed_insert _ _ vote_key_inj _ _ (_, _, _)).
  - by apply drop_votes.
Qed.

(** *** Reads *)

Record reads_agree (m : MemStore) (s : StoreState) : Prop := {
  rd_block h : MemStore_GetBlock h m = blocks s !! h;
  rd_chain a : MemStore_GetAccountChain a m = chains s !! a;
  rd_pending h : MemStore_GetPendingSend h m = pending s !! h;
  rd_by_dest a : MemStore_GetPendingByDest a m ≡ₚ (map_to_list (filter (λ kv, ps_Destination kv.2 = a) (pending s))).*2;
  rd_all_pending : MemStore_GetAllPending m ≡ₚ (map_to_list (pending s)).*2;
  rd_frontier a : MemStore_GetFrontier a m = default "" (frontiers s !! a);
  rd_empty : MemStore_IsEmpty m = IsEmpty s;
  rd_conflict a p : bar_free2 (a, p) → MemStore_GetConflict a p m = conflicts s !! (a, p);
  rd_conflicts a : bar_free a = true → MemStore_GetConflictsForAccount a m ≡ₚ conflicts_for a s;
  rd_all_conflicts : MemStore_GetAllConflicts m ≡ₚ (map_to_list (conflicts s)).*2;
  rd_staged h : MemStore_GetStagedBlock h m = staged s !! h;
  rd_vote a p r : bar_free2 (a, p) → MemStore_GetVote a p r m = votes s !! (a, p, r);
  rd_votes a p : bar_free2 (a, p) → MemStore_GetVotesByConflict a p m ≡ₚ votes_for a p s;
  rd_status h : MemStore_GetBlockStatus h m = default StatusPending (blockStatus s !! h);
  rd_height a : MemStore_GetFinalHeight a m = default 0 (finalHeight s !! a);
  rd_final a p : bar_free2 (a, p) → MemStore_GetFinalVote a p m = finalVotes s !! (a, p);
  rd_lease h : MemStore_GetLease h m = leases s !! h;
  rd_leases st : MemStore_GetLeasesByState st m = filter (λ l, l_State l =?s st) (map_to_list (leases s)).*2;
  rd_provider a : MemStore_GetLeasesByProvider a m = filter (λ l, l_Provider l =?s a) (map_to_list (leases s)).*2;
  rd_all_leases : MemStore_GetAllLeases m = (map_to_list (leases s)).*2;
  rd_all_frontiers : MemStore_AllFrontiers m = frontiers s;
  rd_reputation a : MemStore_GetReputation a m = st_reputation s !! a;
  rd_all_reputations : MemStore_GetAllReputations m = st_reputation s;
  rd_delegations {S} (fn : string → string → M S unit) :
    MemStore_IterateDelegations fn m = mfor (λ kv, fn kv.1 kv.2) (map_to_list (delegations s));
  rd_all_keys : MemStore_AllAccountKeys m = st_accountKeys s;
  rd_keyset a : MemStore_GetKeyset a m = st_keysets s !! a;
  rd_key a : MemStore_GetAccountKey a m = default "" (st_accountKeys s !! a) }.

Lemma conflicts_agree (a : string) (mm : gmap string Conflict) (m : gmap (string * string) Conflict) : bar_free a = true →
  keyed conflict_key bar_free2 mm m →
  (map_to_list (filter (λ kv, HasPrefix kv.1 (a +:+ "|")) mm)).*2 ≡ₚ (map_to_list (filter (λ kv, kv.1.1 = a) m)).*2.
Proof.
  intros Ha R. apply (keyed_values conflict_key bar_free2 conflict_key_inj). apply keyed_filter; [|done].
  intros [a' p] v [Ha' Hp]. unfold conflict_key, memConflictKey. cbn [fst snd] in *.
  rewrite Is_true_true, (prefix_join a a' p) by done. done.
Qed.

Lemma votes_agree (a p : string) (mm : gmap string Vote) (m : gmap (string * string * string) Vote) : bar_free2 (a, p) →
  keyed vote_key bar_free3 mm m →
  (map_to_list (filter (λ kv, HasPrefix kv.1 (a +:+ "|" +:+ p +:+ "|")) mm)).*2 ≡ₚ
    (map_to_list (filter (λ kv, kv.1.1 = (a, p)) m)).*2.
Proof.
  intros [Ha Hp] R. apply (keyed_values vote_key bar_free3 vote_key_inj). apply keyed_filter; [|done].
  intros [[a' p'] r] v [Ha' Hp']. unfold vote_key. cbn [fst snd] in *.
  by rewrite Is_true_true, (prefix_join3 a p a' p' r) by done.
Qed.

Lemma mem_rep_reads dest m s : mem_rep dest m s → reads_agree m s.
Proof.
  intros R. pose proof (mr_pending _ _ _ R) as Hp. destruct R. destruct Hp as [locs Hp].
  split; intros; try (unfold MemStore_GetBlock, MemStore_GetAccountChain, MemStore_GetFrontier, 
    MemStore_GetStagedBlock, MemStore_GetBlockStatus, MemStore_GetFinalHeight, MemStore_GetLease,
    MemStore_GetLeasesByState, MemStore_GetLeasesByProvider, MemStore_AllFrontiers, MemStore_GetReputation,
    MemStore_GetAllReputations, MemStore_IterateDelegations, MemStore_AllAccountKeys, leases_where, MemStore_GetKeyset,
    MemStore_GetAccountKey; congruence).
  - by eapply rep_at_get.
  - by eapply pend_rep_by_dest.
  - by eapply pend_rep_all.
  - unfold MemStore_IsEmpty, IsEmpty. by rewrite mr_blocks0.
  - by apply (ky_same _ _ _ _ mr_conflicts0 (a, p)).
  - by apply conflicts_agree.
  - by apply (keyed_values _ _ conflict_key_inj).
  - by apply (ky_same _ _ _ _ mr_votes0 (a, p, r)).
  - by apply votes_agree.
  - by apply (ky_same _ _ _ _ mr_finalVotes0 (a, p)).
  - unfold MemStore_GetAllLeases, leases_where. rewrite mr_leases0. generalize (map_to_list (leases s)).*2 as l. intros l.
    induction l as [|x l IH]; [done|]. by rewrite filter_cons, decide_True, IH.
Qed.

(** *** A run of writes *)

Fixpoint mem_run (ws : list store_write) (m : MemStore) : list (result answer) * MemStore :=
  match ws with
  | [] => ([], m)
  | w :: ws => let '(r, m) := run_mem w m in let '(rs, m) := mem_run ws m in (r :: rs, m)
  end.
Fixpoint spec_run (ws : list store_write) (s : StoreState) : list (result answer) * StoreState :=
  match ws with
  | [] => ([], s)
  | w :: ws => let '(r, s) := run_spec w s in let '(rs, s) := spec_run ws s in (r :: rs, s)
  end.

Lemma run_refines dest ws m s : Forall (write_ok dest) ws → mem_rep dest m s →
  (mem_run ws m).1 = (spec_run ws s).1 ∧ mem_rep dest (mem_run ws m).2 (spec_run ws s).2.
Proof.
  intros Hws. revert m s. induction Hws as [|w ws Hw _ IH]; intros m s R; [done|]. simpl.
  destruct (single_refines _ _ _ _ Hw R) as (m' & -> & R'). destruct (run_spec w s) as [r s']. simpl in *.
  destruct (IH _ _ R') as [E R'']. destruct (mem_run ws m'), (spec_run ws s'). simpl in *. by rewrite E.
Qed.

(** C35: The in-memory store behaves like the maps of the interface.  For any sequence
    of block commits, undos, cascades (with or without a winner), deletions of pending
    sends, and writes of blocks, chains, frontiers, delegations, leases, keysets,
    account keys, reputations, conflicts, staged blocks, statuses, final heights, votes
    and final votes, each write gives the answer of the interface, and so does every
    later read, up to the order of lists.  A pending send must always go where its
    hash says, and the account and previous hash of a joined key must have no bar.
    [PutPendingSend], which nothing outside the stores calls, is not among the writes:
    it shares one pointer between the maps, see [PutPendingSend_shared]. *)
Theorem MemStore_refines dest ws : Forall (write_ok dest) ws →
  (mem_run ws NewMemStore).1 = (spec_run ws emptyStore).1 ∧
  reads_agree (mem_run ws NewMemStore).2 (spec_run ws emptyStore).2.
Proof.
  intros Hws. destruct (run_refines dest ws NewMemStore emptyStore Hws (mem_rep_empty dest)) as [E R].
  split; [done|]. by eapply mem_rep_reads.
Qed.

(** A send to [bb], a renewal that tops it up, two votes of one representative for
    the children of one block, and a second final vote that is not kept. *)
Definition sample_block (h : string) : Block :=
  mkBlock BlockSend "aa" "" 0 0 "XE" "" "bb" 5 "" 0 0 0 0 "" 0 0 0 0 0 0 "" None [] "" "" h 0 [] "" 0 0 0.
Definition sample_commit (h : string) (add : option PendingSend) (top : string) (n : Z) : BlockCommit :=
  mkBlockCommit (sample_block h) "aa" [sample_block h] h add "" None "" "" "" "" false None "" "" LeaseStateEmpty
    None top n 0.
Definition sample_vote (h : string) : Vote := mkVote "cc" h "aa" "h1" 0 false [] 0.
Definition sample_writes : list store_write :=
  [WCommit (sample_commit "h1" (Some (mkPendingSend "h1" "aa" "bb" 5 "XE")) "" 0);
   WCommit (sample_commit "h2" None "h1" 7);
   WVote (sample_vote "h3"); WVote (sample_vote "h4"); WFinalVote "aa" "h1" "h3"; WFinalVote "aa" "h1" "h4"].

Lemma MemStore_refines_witness :
  Forall (write_ok (λ _, "bb")) sample_writes ∧
  (mem_run sample_writes NewMemStore).1 = [Ok no_answer; Ok no_answer; Ok no_answer; Ok no_answer; Ok ("h3", true); Ok ("h3", false)] ∧
  MemStore_GetPendingByDest "bb" (mem_run sample_writes NewMemStore).2 = [mkPendingSend "h1" "aa" "bb" 12 "XE"] ∧
  MemStore_GetVotesByConflict "aa" "h1" (mem_run sample_writes NewMemStore).2 = [sample_vote "h4"] ∧
  reads_agree (mem_run sample_writes NewMemStore).2 (spec_run sample_writes emptyStore).2.
Proof.
  assert (Hok : Forall (write_ok (λ _, "bb")) sample_writes).
  { repeat (constructor; [try done; vm_compute; split; reflexivity|]). constructor. }
  destruct (MemStore_refines (λ _, "bb") sample_writes Hok) as [_ R].
  split; [exact Hok|]. split; [vm_compute; reflexivity|]. split; [vm_compute; reflexivity|].
  split; [vm_compute; reflexivity|]. exact R.
Defined.

(** ** A pending send stored by itself

    [PutPendingSend] keeps one pointer in both maps: a top-up writes through each,
    and counts twice. *)
Lemma PutPendingSend_shared f ps m :
  pm_at (ps_SendHash ps) (pm_adjust f (ps_SendHash ps) (pm_put ps m)) =
    Some (ps_with_amount f (ps_with_amount f ps)).
Proof.
  unfold pm_put, pm_alloc, pm_set, pm_index, pm_adjust, pm_at, pm_write. cbn [pm_heap pm_next pm_pending pm_byDest].
  rewrite lookup_insert_eq. cbn [pm_heap pm_next pm_pending pm_byDest]. rewrite lookup_alter_eq, lookup_insert_eq. simpl.
  rewrite !lookup_insert_eq. simpl. rewrite !lookup_insert_eq. simpl.
  rewrite lookup_insert_eq. simpl. by rewrite !lookup_alter_eq, lookup_insert_eq.
Qed.
