(* ===== verification/Json.v ===== *)
(** * JSON, as [encoding/json] reads and writes it

    What the source uses of the package: [Unmarshal] into structs, strings,
    numbers and maps, a [Decoder] that refuses unknown fields, [Valid], and
    [Marshal] of a struct with raw values.  The scanner is a list of tokens and a
    machine with an explicit stack, so that nothing needs fuel. *)
From S2P Require Import Prelude GoLib.

(** ** Text *)

(** Bytes of the valid UTF-8 sequence at the front, 0 when there is none *)
Definition utf8_size (l : list Z) : nat :=
  match l with
  | [] => 0%nat
  | c :: l =>
      if c <? 128 then 1%nat
      else if in_range 194 223 c then
        match l with c1 :: _ => if cont c1 then 2%nat else 0%nat | _ => 0%nat end
      else if in_range 224 239 c then
        match l with
        | c1 :: c2 :: _ =>
            if in_range (if c =? 224 then 160 else 128) (if c =? 237 then 159 else 191) c1 && cont c2 then 3%nat else 0%nat
        | _ => 0%nat
        end
      else if in_range 240 244 c then
        match l with
        | c1 :: c2 :: c3 :: _ =>
            if in_range (if c =? 240 then 144 else 128) (if c =? 244 then 143 else 191) c1 && cont c2 && cont c3
            then 4%nat else 0%nat
        | _ => 0%nat
        end
      else 0%nat
  end.

(** U+FFFD *)
Definition rune_error : list Z := [239; 191; 189].

(** [utf8.AppendRune] of a code point that is not a surrogate *)
Definition rune_bytes (r : Z) : list Z :=
  if r <? 128 then [r]
  else if r <? 2048 then [192 + r / 64; 128 + r mod 64]
  else if r <? 65536 then [224 + r / 4096; 128 + (r / 64) mod 64; 128 + r mod 64]
  else [240 + r / 262144; 128 + (r / 4096) mod 64; 128 + (r / 64) mod 64; 128 + r mod 64].

(** Four hex digits *)
Definition getu4 (l : list Z) : option Z :=
  match l with
  | a :: b :: c :: d :: _ =>
      match hex_value a, hex_value b, hex_value c, hex_value d with
      | Some a, Some b, Some c, Some d => Some (((a * 16 + b) * 16 + c) * 16 + d)
      | _, _, _, _ => None
      end
  | _ => None
  end.

(** The escape after a backslash: its bytes, and how many of the input it takes *)
Definition unescape (l : list Z) : list Z * nat :=
  match l with
  | [] => ([], 0%nat)
  | c :: l =>
      if c =? 98 then ([8], 1%nat)
      else if c =? 102 then ([12], 1%nat)
      else if c =? 110 then ([10], 1%nat)
      else if c =? 114 then ([13], 1%nat)
      else if c =? 116 then ([9], 1%nat)
      else if c =? 117 then
        match getu4 l with
        | None => ([], 1%nat)
        | Some r =>
            if in_range 55296 57343 r then
              let low := match drop 4 l with
                         | 92 :: 117 :: l => getu4 l
                         | _ => None
                         end in
              match low with
              | Some r2 =>
                  if (r <=? 56319) && in_range 56320 57343 r2
                  then (rune_bytes ((r - 55296) * 1024 + (r2 - 56320) + 65536), 11%nat)
                  else (rune_error, 5%nat)
              | None => (rune_error, 5%nat)
              end
            else (rune_bytes r, 5%nat)
        end
      else ([c], 1%nat)
  end.

(** The text of a string literal; [keep] bytes are copied, then [skip] dropped. *)
Fixpoint unquote (keep skip : nat) (l : list Z) : list Z :=
  match l with
  | [] => []
  | c :: l' =>
      match keep, skip with
      | S keep, _ => c :: unquote keep skip l'
      | O, S skip => unquote 0 skip l'
      | O, O =>
          if c =? 92 then let '(out, n) := unescape l' in out ++ unquote 0 n l'
          else match utf8_size l with
               | O => rune_error ++ unquote 0 0 l'
               | S n => c :: unquote n 0 l'
               end
      end
  end.

(** ** Tokens *)

Inductive token :=
  | TOpen (object : bool) | TClose (object : bool) | TColon | TComma
  | TString (text : string) | TNumber (lit : list Z) | TWord (j : option bool).

Definition is_space (c : Z) : bool := (c =? 32) || (c =? 9) || (c =? 10) || (c =? 13).
Definition drop_digits : list Z → list Z :=
  fix go l := match l with c :: l' => if is_digit c then go l' else l | [] => [] end.

Definition exp_ok (l : list Z) : bool :=
  match l with
  | [] => true
  | c :: l =>
      ((c =? 101) || (c =? 69)) &&
      let l := match l with s :: l' => if (s =? 43) || (s =? 45) then l' else l | [] => [] end in
      match l with d :: l => is_digit d && bool_decide (drop_digits l = []) | [] => false end
  end.
Definition frac_ok (l : list Z) : bool :=
  match l with
  | c :: l' =>
      if c =? 46 then match l' with d :: l => is_digit d && exp_ok (drop_digits l) | [] => false end
      else exp_ok l
  | [] => true
  end.
(** A number literal *)
Definition number_ok (l : list Z) : bool :=
  let l := match l with c :: l' => if c =? 45 then l' else l | [] => [] end in
  match l with
  | c :: l => if c =? 48 then frac_ok l else is_digit c && frac_ok (drop_digits l)
  | [] => false
  end.

(** A run of characters that are neither space nor punctuation *)
Definition word_token (w : list Z) : option token :=
  if bool_decide (w = bytes "null") then Some (TWord None)
  else if bool_decide (w = bytes "true") then Some (TWord (Some true))
  else if bool_decide (w = bytes "false") then Some (TWord (Some false))
  else if number_ok w then Some (TNumber w)
  else None.

Definition punctuation (c : Z) : option token :=
  if c =? 123 then Some (TOpen true) else if c =? 125 then Some (TClose true)
  else if c =? 91 then Some (TOpen false) else if c =? 93 then Some (TClose false)
  else if c =? 58 then Some TColon else if c =? 44 then Some TComma else None.

(** Where the scanner is: in a word, or in a string after a backslash (5) or
    before so many hex digits (1 to 4) *)
Inductive lex_mode :=
  | LNone
  | LWord (acc : list Z)
  | LString (acc : list Z) (esc : nat).

Definition end_word (m : lex_mode) : option (list token) :=
  match m with
  | LNone => Some []
  | LWord acc => t ← word_token (rev acc); Some [t]
  | LString _ _ => None
  end.

Fixpoint lex (m : lex_mode) (l : list Z) : option (list token) :=
  match l with
  | [] => end_word m
  | c :: l =>
      match m with
      | LString acc esc =>
          match esc with
          | O =>
              if c =? 34 then ts ← lex LNone l; Some (TString (str (unquote 0 0 (rev acc))) :: ts)
              else if c =? 92 then lex (LString (c :: acc) 5) l
              else if c <? 32 then None
              else lex (LString (c :: acc) 0) l
          | 5%nat =>
              if c =? 117 then lex (LString (c :: acc) 4) l
              else if bool_decide (c ∈ [98; 102; 110; 114; 116; 92; 47; 34]) then lex (LString (c :: acc) 0) l
              else None
          | S n => match hex_value c with Some _ => lex (LString (c :: acc) n) l | None => None end
          end
      | _ =>
          if is_space c then w ← end_word m; ts ← lex LNone l; Some (w ++ ts)
          else if c =? 34 then w ← end_word m; ts ← lex (LString [] 0) l; Some (w ++ ts)
          else match punctuation c with
               | Some t => w ← end_word m; ts ← lex LNone l; Some (w ++ t :: ts)
               | None => lex (LWord (c :: match m with LWord acc => acc | _ => [] end)) l
               end
      end
  end.

(** ** Values *)

Inductive json :=
  | JNull
  | JBool (b : bool)
  | JNumber (lit : list Z)
  | JString (s : string)
  | JArray (js : list json)
  | JObject (fields : list (string * json)).

(** An open array or object, with what it holds so far, last first *)
Inductive frame :=
  | FArray (js : list json)
  | FObject (fields : list (string * json)) (key : string).

(** What may come next *)
Inductive expect := EValue | EFirst | EKey | EFirstKey | EColon | ENext | EDone (j : json).

Definition complete (j : json) (st : list frame) : list frame * expect :=
  match st with
  | [] => ([], EDone j)
  | FArray js :: st => (FArray (j :: js) :: st, ENext)
  | FObject fs k :: st => (FObject ((k, j) :: fs) "" :: st, ENext)
  end.

(** [maxNestingDepth] *)
Definition open_frame (object : bool) (st : list frame) : option (list frame * expect) :=
  if 10000 <=? zlen st then None
  else Some (if object then (FObject [] "" :: st, EFirstKey) else (FArray [] :: st, EFirst)).

Definition close_frame (object : bool) (st : list frame) : option (list frame * expect) :=
  match st with
  | FArray js :: st => if object then None else Some (complete (JArray (rev js)) st)
  | FObject fs _ :: st => if object then Some (complete (JObject (rev fs)) st) else None
  | [] => None
  end.

Definition value_token (t : token) (st : list frame) : option (list frame * expect) :=
  match t with
  | TOpen object => open_frame object st
  | TString s => Some (complete (JString s) st)
  | TNumber n => Some (complete (JNumber n) st)
  | TWord None => Some (complete JNull st)
  | TWord (Some b) => Some (complete (JBool b) st)
  | _ => None
  end.

Definition key_token (t : token) (st : list frame) : option (list frame * expect) :=
  match t, st with
  | TString k, FObject fs _ :: st => Some (FObject fs k :: st, EColon)
  | _, _ => None
  end.

Definition parse_step (t : token) (s : list frame * expect) : option (list frame * expect) :=
  let '(st, e) := s in
  match e, t with
  | EFirst, TClose object | EFirstKey, TClose object | ENext, TClose object => close_frame object st
  | EValue, _ | EFirst, _ => value_token t st
  | EKey, _ | EFirstKey, _ => key_token t st
  | EColon, TColon => Some (st, EValue)
  | ENext, TComma => match st with
                     | FObject _ _ :: _ => Some (st, EKey)
                     | _ => Some (st, EValue)
                     end
  | _, _ => None
  end.

Fixpoint parse_tokens (ts : list token) (s : list frame * expect) : option json :=
  match ts with
  | [] => match s.2 with EDone j => Some j | _ => None end
  | t :: ts => s ← parse_step t s; parse_tokens ts s
  end.

Definition json_parse (data : list Z) : option json := ts ← lex LNone data; parse_tokens ts ([], EValue).

(** [json.Valid] *)
Definition json_Valid (data : list Z) : bool := bool_decide (is_Some (json_parse data)).

(** ** Decoding

    A decoder changes a value in place; [None] is a type error. *)
Notation decoder A := (json → A → option A).

Definition errJSONSyntax : error := errorf "invalid character in JSON text".
Definition errJSONType : error := errorf "json: cannot unmarshal value".

(** [json.Unmarshal(data, &v)] *)
Definition Unmarshal {A} (d : decoder A) (data : list Z) (v : A) : result A :=
  match json_parse data with
  | None => Err errJSONSyntax
  | Some j => match d j v with Some v => Ok v | None => Err errJSONType end
  end.

Definition dec_string : decoder string := λ j old,
  match j with JNull => Some old | JString s => Some s | _ => None end.
Definition dec_bool : decoder bool := λ j old,
  match j with JNull => Some old | JBool b => Some b | _ => None end.
(** An unsigned field of a width *)
Definition dec_uint (bits : Z) : decoder Z := λ j old,
  match j with
  | JNull => Some old
  | JNumber lit => match ParseUint lit with
                   | Ok n => if n <? 2 ^ bits then Some n else None
                   | Err _ => None
                   end
  | _ => None
  end.
(** [strconv.ParseInt(s, 10, 64)] *)
Definition ParseInt (l : list Z) : result Z :=
  let '(neg, digits) := match l with
                        | c :: l' => if c =? 45 then (true, l') else if c =? 43 then (false, l') else (false, l)
                        | [] => (false, [])
                        end in
  let? n := ParseUint digits in
  let z := if neg : bool then - n else n in
  if (- 2 ^ 63 <=? z) && (z <? 2 ^ 63) then Ok z else Err ErrRange.
Definition dec_int : decoder Z := λ j old,
  match j with
  | JNull => Some old
  | JNumber lit => match ParseInt lit with Ok n => Some n | Err _ => None end
  | _ => None
  end.

(** A slice, with what its array holds past its length *)
Record go_slice A := mkSlice { sl_list : list A; sl_spare : list A }.
Arguments mkSlice {A} _ _. Arguments sl_list {A} _. Arguments sl_spare {A} _.
Definition nil_slice {A} : go_slice A := mkSlice [] [].

Fixpoint dec_elements {A} (d : decoder A) (zero : A) (js : list json) (old : list A) : option (list A * list A) :=
  match js with
  | [] => Some ([], old)
  | j :: js =>
      let '(x, old) := match old with x :: old => (x, old) | [] => (zero, []) end in
      x ← d j x; '(xs, spare) ← dec_elements d zero js old; Some (x :: xs, spare)
  end.
(** An element is decoded over what the array held there. *)
Definition dec_slice {A} (d : decoder A) (zero : A) : decoder (go_slice A) := λ j old,
  match j with
  | JNull | JArray [] => Some nil_slice
  | JArray js => '(xs, spare) ← dec_elements d zero js (sl_list old ++ sl_spare old); Some (mkSlice xs spare)
  | _ => None
  end.

(** A map with string keys: it is added to, and elements start from zero. *)
Definition dec_map {A} (d : decoder A) (zero : A) : decoder (option (gmap string A)) := λ j old,
  match j with
  | JNull => Some None
  | JObject fs =>
      m ← foldl (λ m f, m ← m; x ← d f.2 zero; Some (<[f.1 := x]> m)) (Some (default ∅ old)) fs;
      Some (Some m)
  | _ => None
  end.

(** [foldName]; the names of fields are ASCII, and two other letters fold to
    ASCII ones. *)
Fixpoint fold_name (l : list Z) : list Z :=
  match l with
  | 197 :: 191 :: l => 83 :: fold_name l
  | 226 :: 132 :: 170 :: l => 75 :: fold_name l
  | c :: l => (if in_range 97 122 c then c - 32 else c) :: fold_name l
  | [] => []
  end.

(** The fields of a struct, by the names in its tags *)
Definition find_field {A} (fs : list (string * decoder A)) (key : string) : option (decoder A) :=
  match list_find (λ f, f.1 = key) fs with
  | Some (_, f) => Some f.2
  | None => snd ∘ snd <$> list_find (λ f, fold_name (bytes f.1) = fold_name (bytes key)) fs
  end.

(** [strict] is [DisallowUnknownFields]. *)
Definition dec_struct {A} (strict : bool) (fs : list (string * decoder A)) : decoder A := λ j old,
  match j with
  | JNull => Some old
  | JObject kvs =>
      foldl (λ v kv, v ← v;
        match find_field fs kv.1 with
        | Some d => d kv.2 v
        | None => if strict then None else Some v
        end) (Some old) kvs
  | _ => None
  end.

(** A field, by what changes it *)
Definition field {A B} (name : string) (d : decoder B) (get : A → B) (set : B → A → A) : string * decoder A :=
  (name, λ j a, x ← d j (get a); Some (set x a)).

(** ** Encoding *)

Definition u_escape (c : Z) : list Z := bytes "\u00" ++ [hex_digit (c / 16); hex_digit (c mod 16)].

(** U+2028 and U+2029, the last byte of which is given *)
Definition line_escape (c : Z) : list Z := bytes "\u202" ++ [hex_digit (c mod 16)].
Definition is_line (l : list Z) : option Z :=
  match l with
  | 226 :: 128 :: c :: _ => if (c =? 168) || (c =? 169) then Some c else None
  | _ => None
  end.

(** [<], [>] and [&] *)
Definition html (c : Z) : bool := (c =? 60) || (c =? 62) || (c =? 38).

Definition escape_byte (c : Z) : list Z :=
  if (c =? 92) || (c =? 34) then [92; c]
  else if c =? 8 then [92; 98]
  else if c =? 12 then [92; 102]
  else if c =? 10 then [92; 110]
  else if c =? 13 then [92; 114]
  else if c =? 9 then [92; 116]
  else if (c <? 32) || html c then u_escape c
  else [c].

(** The inside of a string; [keep] bytes are copied, then [skip] dropped. *)
Fixpoint escape_text (keep skip : nat) (l : list Z) : list Z :=
  match l with
  | [] => []
  | c :: l' =>
      match keep, skip with
      | S keep, _ => c :: escape_text keep skip l'
      | O, S skip => escape_text 0 skip l'
      | O, O =>
          if c <? 128 then escape_byte c ++ escape_text 0 0 l'
          else match is_line l, utf8_size l with
               | Some e, _ => line_escape e ++ escape_text 0 2 l'
               | None, O => bytes "\ufffd" ++ escape_text 0 0 l'
               | None, S n => c :: escape_text n 0 l'
               end
      end
  end.
Definition json_string (s : string) : list Z := 34 :: escape_text 0 0 (bytes s) ++ [34].

(** A raw value in the output: without space, escaped for HTML *)
Fixpoint compact_go (instring esc : bool) (skip : nat) (l : list Z) : list Z :=
  match l with
  | [] => []
  | c :: l' =>
      match skip with
      | S skip => compact_go instring false skip l'
      | O =>
          if html c then u_escape c ++ compact_go instring false 0 l'
          else match is_line l with
               | Some e => line_escape e ++ compact_go instring false 2 l'
               | None =>
                   if instring then
                     c :: compact_go (esc || negb (c =? 34)) (negb esc && (c =? 92)) 0 l'
                   else if is_space c then compact_go false false 0 l'
                   else c :: compact_go (c =? 34) false 0 l'
               end
      end
  end.
(** [Marshal] of a [RawMessage] *)
Definition compact (v : list Z) : option (list Z) :=
  if json_Valid v then Some (compact_go false false 0 v) else None.

(** A string that is written and read back *)
Definition json_copy (s : string) : string := str (unquote 0 0 (escape_text 0 0 (bytes s))).
