(* ===== verification/StateKV.v ===== *)
(** * The governance chain's state: [statechain/types.go],
    [statechain/kvstore.go] and [statechain/activations.go]

    Keys and raw JSON values, what may be written to the keys the protocol reads,
    and which changes of them are allowed. *)
From S2P Require Import Prelude GoLib Json Types.

(** ** Data *)

Record Op := mkOp { op_Action : string; op_Key : string; op_Value : list Z }.

(** [Signatures] may be a nil slice, which JSON writes differently. *)
Record SBlock := mkSBlock {
  sb_Index : Z;
  sb_PrevHash : string;
  sb_Ops : list Op;
  sb_Signatures : option (list BlockSignature);
  sb_Hash : string;
  sb_Timestamp : Z }.

Definition ActionSet : string := "set".
Definition ActionDelete : string := "delete".
Definition MaxKeyLength : Z := 128.
Definition MaxValueSize : Z := 65536.
Definition MaxBlockSize : Z := 262144.

(** Keys are a slice that decoding writes into. *)
Record DAOKeyset := mkDAOKeyset { dk_Keys : go_slice string; dk_Threshold : Z }.
Record OracleConfig := mkOracleConfig {
  oc_Keys : go_slice string; oc_Threshold : Z; oc_AllowedPrefix : string }.
Record RepConfig := mkRepConfig { rc_Mode : string; rc_Addresses : go_slice string }.

Record EpochValue := mkEpochValue {
  ev_Epoch : Z; ev_StartNS : Z; ev_EndNS : Z; ev_TWAPMilliUSD : Z; ev_TWAVMilliUSD : Z;
  ev_RVolume : Z; ev_RPriceFloor : Z; ev_RCollusion : Z; ev_REffective : Z; ev_RSource : string;
  ev_Phase : Z; ev_SMilli : Z; ev_VolumeTriggerMet : bool; ev_TWAPTriggerMet : bool; ev_PayoutCap : Z }.

Record TokenomicsConfig := mkTokenomicsConfig {
  tc_RInit : Z; tc_RFloor : Z; tc_VHalf : Z;
  tc_PriceTier1 : Z; tc_PriceTier2 : Z; tc_PriceTier3 : Z; tc_RPriceFloorTier1 : Z; tc_RPriceFloorTier2 : Z;
  tc_RCollusionFactorMilli : Z;
  tc_HermiteFDVMinUSD : Z; tc_HermiteFDVMaxUSD : Z; tc_HermiteCeilingMilli : Z; tc_HermiteFloorMilli : Z }.

Record ActivationRecord := mkActivationRecord { ar_AtIndex : Z; ar_NotBeforeNS : Z }.
#[global] Instance ActivationRecord_eq_dec : EqDecision ActivationRecord.
Proof. solve_decision. Defined.
Notation Activations := (gmap string ActivationRecord).

(** ** Their JSON *)

Definition dec_keys : decoder (go_slice string) := dec_slice dec_string "".

Definition dec_keyset : decoder DAOKeyset := dec_struct false
  [field "keys" dec_keys dk_Keys (λ x a, mkDAOKeyset x (dk_Threshold a));
   field "threshold" dec_int dk_Threshold (λ x a, mkDAOKeyset (dk_Keys a) x)].

Definition dec_oracle : decoder OracleConfig := dec_struct false
  [field "keys" dec_keys oc_Keys (λ x a, mkOracleConfig x (oc_Threshold a) (oc_AllowedPrefix a));
   field "threshold" dec_int oc_Threshold (λ x a, mkOracleConfig (oc_Keys a) x (oc_AllowedPrefix a));
   field "allowed_prefix" dec_string oc_AllowedPrefix (λ x a, mkOracleConfig (oc_Keys a) (oc_Threshold a) x)].

(** The anonymous struct of [sys.minter] *)
Definition dec_minter : decoder (go_slice string) := dec_struct false [field "keys" dec_keys id (λ x _, x)].

Definition dec_representatives : decoder RepConfig := dec_struct false
  [field "mode" dec_string rc_Mode (λ x a, mkRepConfig x (rc_Addresses a));
   field "addresses" dec_keys rc_Addresses (λ x a, mkRepConfig (rc_Mode a) x)].

(** Number fields by position *)
Definition number (name : string) (d : decoder Z) (i : nat) : string * decoder (list Z) :=
  field name d (λ a, nth i a 0) (λ x a, <[i := x]> a).

Definition tokenomics_fields : list (string * decoder (list Z)) :=
  imap (λ i name, number name (dec_uint 64) i)
    ["r_init"; "r_floor"; "v_half"; "price_tier_1"; "price_tier_2"; "price_tier_3"; "r_price_floor_tier_1";
     "r_price_floor_tier_2"; "r_collusion_factor_milli"; "hermite_fdv_min_usd"; "hermite_fdv_max_usd";
     "hermite_ceiling_milli"; "hermite_floor_milli"].
Definition tokenomics_of (v : list Z) : TokenomicsConfig :=
  let n i := nth i v 0 in
  mkTokenomicsConfig (n 0%nat) (n 1%nat) (n 2%nat) (n 3%nat) (n 4%nat) (n 5%nat) (n 6%nat) (n 7%nat) (n 8%nat)
    (n 9%nat) (n 10%nat) (n 11%nat) (n 12%nat).
Definition unmarshal_tokenomics (strict : bool) (raw : list Z) : result TokenomicsConfig :=
  let? v := Unmarshal (dec_struct strict tokenomics_fields) raw (replicate 13 0) in Ok (tokenomics_of v).

Record epoch_json := mkEpochJson { ej_numbers : list Z; ej_source : string; ej_volume : bool; ej_twap : bool }.
Definition epoch_number (name : string) (d : decoder Z) (i : nat) : string * decoder epoch_json :=
  field name d (λ a, nth i (ej_numbers a) 0)
    (λ x a, mkEpochJson (<[i := x]> (ej_numbers a)) (ej_source a) (ej_volume a) (ej_twap a)).
Definition dec_epoch : decoder epoch_json := dec_struct false
  [epoch_number "epoch" (dec_uint 64) 0; epoch_number "start_ns" dec_int 1; epoch_number "end_ns" dec_int 2;
   epoch_number "twap_milli_usd" (dec_uint 64) 3; epoch_number "twav_milli_usd" (dec_uint 64) 4;
   epoch_number "r_volume" (dec_uint 64) 5; epoch_number "r_price_floor" (dec_uint 64) 6;
   epoch_number "r_collusion" (dec_uint 64) 7; epoch_number "r_effective" (dec_uint 64) 8;
   field "r_source" dec_string ej_source (λ x a, mkEpochJson (ej_numbers a) x (ej_volume a) (ej_twap a));
   epoch_number "phase" (dec_uint 8) 9; epoch_number "s_milli" (dec_uint 16) 10;
   field "volume_trigger_met" dec_bool ej_volume (λ x a, mkEpochJson (ej_numbers a) (ej_source a) x (ej_twap a));
   field "twap_trigger_met" dec_bool ej_twap (λ x a, mkEpochJson (ej_numbers a) (ej_source a) (ej_volume a) x);
   epoch_number "payout_cap" (dec_uint 64) 11].
Definition epoch_of (j : epoch_json) : EpochValue :=
  let n i := nth i (ej_numbers j) 0 in
  mkEpochValue (n 0%nat) (n 1%nat) (n 2%nat) (n 3%nat) (n 4%nat) (n 5%nat) (n 6%nat) (n 7%nat) (n 8%nat)
    (ej_source j) (n 9%nat) (n 10%nat) (ej_volume j) (ej_twap j) (n 11%nat).
Definition unmarshal_epoch (raw : list Z) : result EpochValue :=
  let? j := Unmarshal dec_epoch raw (mkEpochJson (replicate 12 0) "" false false) in Ok (epoch_of j).

Definition dec_record : decoder ActivationRecord := dec_struct false
  [field "at_index" (dec_uint 64) ar_AtIndex (λ x a, mkActivationRecord x (ar_NotBeforeNS a));
   field "not_before_ns" dec_int ar_NotBeforeNS (λ x a, mkActivationRecord (ar_AtIndex a) x)].
Definition dec_activations : decoder (option Activations) := dec_struct false
  [field "features" (dec_map dec_record (mkActivationRecord 0 0)) id (λ x _, x)].

(** ** Loops that stop at the first error *)

Fixpoint rall {A} (f : A → result unit) (l : list A) : result unit :=
  match l with [] => Ok () | x :: l => f x ;? rall f l end.

(** The checks of a list of keys: length, and where asked hex and repetition *)
Fixpoint check_keys (what : string) (full : bool) (i : Z) (seen : gset string) (ks : list string) : result unit :=
  match ks with
  | [] => Ok ()
  | k :: ks =>
      let at_ := what +:+ "[" +:+ FormatInt i +:+ "] " in
      rfail_if (negb (slen k =? 64))
        (errorf (at_ +:+ "invalid length: got " +:+ FormatInt (slen k) +:+ ", want 64 hex chars")) ;?
      (if full then
         (let? _ := result_map_err (wrapf (at_ +:+ "invalid hex: ")) (DecodeString k) in
          rfail_if (bool_decide (k ∈ seen)) (errorf (at_ +:+ "is a duplicate")))
       else Ok ()) ;?
      check_keys what full (i + 1) ({[k]} ∪ seen) ks
  end.

(** ** Activations *)

Definition ActivationsKey : string := "sys.activations".
Definition MinProtocolVersionKey : string := "sys.min_protocol_version".
Definition MaxActivationFeatures : Z := 64.
Definition minSaneActivationNS : Z := 1600000000000000000.

Definition lower_letter (c : Z) : bool := in_range 97 122 c.
(** [^[a-z][a-z0-9_]{0,31}$] *)
Definition featureName_ok (s : string) : bool :=
  match bytes s with
  | c :: l => lower_letter c && (zlen l <=? 31) && forallb (λ c, lower_letter c || is_digit c || (c =? 95)) l
  | [] => false
  end.

Definition ActiveAt (r : ActivationRecord) (index ns : Z) : bool := (ar_AtIndex r <=? index) && (ar_NotBeforeNS r <=? ns).

Definition ParseActivations (raw : list Z) : result Activations :=
  if bool_decide (raw = []) then Ok ∅
  else
    let? a := result_map_err (wrapf "invalid activations JSON: ") (Unmarshal dec_activations raw (Some ∅)) in
    Ok (default ∅ a).

Definition Names (a : Activations) : list string := sort_strings (map_to_list a).*1.

Definition Activations_ActiveAt (a : Activations) (feature : string) (index ns : Z) : bool :=
  match a !! feature with None => false | Some r => ActiveAt r index ns end.

(** The order of the map decides which of several errors is reported. *)
Definition validateActivations (value : list Z) : result unit :=
  let? a := ParseActivations value in
  rfail_if (MaxActivationFeatures <? Z.of_nat (size a))
    (errorf ("activations: " +:+ FormatInt (Z.of_nat (size a)) +:+ " features exceeds maximum 64")) ;?
  rall (λ '(name, r),
    rfail_if (negb (featureName_ok name)) (errorf ("activations: feature name " +:+ quote name +:+ " invalid (must match ^[a-z][a-z0-9_]{0,31}$)")) ;?
    rfail_if ((ar_AtIndex r =? 0) && (ar_NotBeforeNS r =? 0))
      (errorf ("activations: feature " +:+ quote name +:+ " must set at_index or not_before_ns (both zero would mean active immediately)")) ;?
    rfail_if (ar_NotBeforeNS r <? 0)
      (errorf ("activations: feature " +:+ quote name +:+ " not_before_ns must not be negative")) ;?
    rfail_if (negb (ar_NotBeforeNS r =? 0) && (ar_NotBeforeNS r <? minSaneActivationNS))
      (errorf ("activations: feature " +:+ quote name +:+ " not_before_ns " +:+ FormatInt (ar_NotBeforeNS r)
               +:+ " is implausibly small — unix NANOSECONDS expected"))) (map_to_list a).

Definition requireFuture (name : string) (r : ActivationRecord) (b : SBlock) : result unit :=
  rfail_if (negb (ar_AtIndex r =? 0) && (ar_AtIndex r <=? sb_Index b))
    (errorf ("activations: feature " +:+ quote name +:+ " at_index " +:+ FormatUint (ar_AtIndex r)
             +:+ " is not in the future (this block is index " +:+ FormatUint (sb_Index b) +:+ ")")) ;?
  rfail_if (negb (ar_NotBeforeNS r =? 0) && (ar_NotBeforeNS r <=? sb_Timestamp b))
    (errorf ("activations: feature " +:+ quote name +:+ " not_before_ns " +:+ FormatInt (ar_NotBeforeNS r)
             +:+ " is not in the future (this block is stamped " +:+ FormatInt (sb_Timestamp b) +:+ ")")).

Notation KVStore := (gmap string (list Z)).

Definition validateActivationsTransition (kv : KVStore) (tip b : SBlock) (value : list Z) : result unit :=
  let? next := ParseActivations value in
  let? prev := match kv !! ActivationsKey with
               | Some raw => result_map_err (wrapf "existing sys.activations unreadable: ") (ParseActivations raw)
               | None => Ok ∅
               end in
  rall (λ '(name, oldRec),
    match next !! name with
    | None => Err (errorf ("activations: feature " +:+ quote name
                           +:+ " cannot be removed (activations are one-directional)"))
    | Some newRec =>
        if ActiveAt oldRec (sb_Index tip) (sb_Timestamp tip) then
          rfail_if (negb (newRec =?s oldRec))
            (errorf ("activations: feature " +:+ quote name +:+ " is already active; its trigger is frozen (at_index "
                     +:+ FormatUint (ar_AtIndex oldRec) +:+ ", not_before_ns " +:+ FormatInt (ar_NotBeforeNS oldRec) +:+ ")"))
        else if newRec =?s oldRec then Ok ()
        else requireFuture name newRec b
    end) (map_to_list prev) ;?
  rall (λ '(name, newRec),
    match prev !! name with
    | Some _ => Ok ()
    | None => requireFuture name newRec b
    end) (map_to_list next).

(** *** Protocol versions *)

(** [strings.Split(s, ".")] *)
Fixpoint split_dots (l : list Z) : list (list Z) :=
  match l with
  | [] => [[]]
  | c :: l =>
      if c =? 46 then [] :: split_dots l
      else match split_dots l with p :: ps => (c :: p) :: ps | [] => [[c]] end
  end.

Definition protocolVersion_ok (s : string) : bool :=
  let parts := split_dots (bytes s) in
  (zlen parts =? 3) && forallb (λ p, (1 <=? zlen p) && (zlen p <=? 4) && forallb is_digit p) parts.

Definition unmarshal_string (raw : list Z) : result string := Unmarshal dec_string raw "".

Definition validateMinProtocolVersion (value : list Z) : result unit :=
  let? v := result_map_err (wrapf "invalid min_protocol_version JSON (expected a string): ") (unmarshal_string value) in
  rfail_if (negb (protocolVersion_ok v)) (errorf ("min_protocol_version " +:+ quote v +:+ " must be MAJOR.MINOR.PATCH")).

(** [strconv.Atoi] of each part *)
Definition parseProtocolVersion (s : string) : option (Z * Z * Z) :=
  match split_dots (bytes s) with
  | [a; b; c] =>
      match ParseInt a, ParseInt b, ParseInt c with
      | Ok a, Ok b, Ok c => if (a <? 0) || (b <? 0) || (c <? 0) then None else Some (a, b, c)
      | _, _, _ => None
      end
  | _ => None
  end.

Definition CompareProtocolVersion (a b : string) : Z :=
  match parseProtocolVersion a, parseProtocolVersion b with
  | None, None => 0
  | None, _ => -1
  | _, None => 1
  | Some (a1, a2, a3), Some (b1, b2, b3) =>
      if negb (a1 =? b1) then (if a1 <? b1 then -1 else 1)
      else if negb (a2 =? b2) then (if a2 <? b2 then -1 else 1)
      else if negb (a3 =? b3) then (if a3 <? b3 then -1 else 1)
      else 0
  end.

Definition validateMinProtocolVersionTransition (kv : KVStore) (value : list Z) : result unit :=
  match kv !! MinProtocolVersionKey with
  | None => Ok ()
  | Some raw =>
      let? oldV := result_map_err (wrapf "existing sys.min_protocol_version unreadable: ") (unmarshal_string raw) in
      let? newV := result_map_err (wrapf "incoming sys.min_protocol_version unreadable: ") (unmarshal_string value) in
      rfail_if (CompareProtocolVersion newV oldV <? 0)
        (errorf ("sys.min_protocol_version " +:+ oldV +:+ " → " +:+ newV +:+ " not permitted (the floor only rises)"))
  end.

(** ** Keys and values *)

(** [^[a-z0-9_.-]+$] *)
Definition validKey_ok (s : string) : bool :=
  let l := bytes s in
  negb (bool_decide (l = [])) &&
  forallb (λ c, lower_letter c || is_digit c || (c =? 95) || (c =? 46) || (c =? 45)) l.

Definition ValidateKey (key : string) : result unit :=
  rfail_if (slen key =? 0) (errorf "key is empty") ;?
  rfail_if (MaxKeyLength <? slen key) (errorf "key exceeds 128 characters") ;?
  rfail_if (negb (validKey_ok key)) (errorf "key contains invalid characters (must be [a-z0-9_.-])").

Definition MinDAOThreshold : Z := 2.
Definition tokenomicsRMin : Z := 1.
Definition tokenomicsRMax : Z := 100000.
Definition OpenMode : string := "open".
Definition AllowlistMode : string := "allowlist".
Definition MaxEligibleRepresentatives : Z := 1000.

(** The decoder reads one value; [ValidateOp] has checked that nothing follows it. *)
Definition validateTokenomicsConfig (value : list Z) : result unit :=
  let? tc := result_map_err (wrapf "invalid tokenomics JSON: ") (unmarshal_tokenomics true value) in
  rfail_if (tc_RFloor tc =? 0) (errorf "tokenomics r_floor must be > 0") ;?
  rfail_if (tc_RInit tc <=? tc_RFloor tc)
    (errorf ("tokenomics r_init (" +:+ FormatUint (tc_RInit tc) +:+ ") must be > r_floor (" +:+ FormatUint (tc_RFloor tc) +:+ ")")) ;?
  rfail_if (tc_VHalf tc =? 0) (errorf "tokenomics v_half must be > 0") ;?
  rfail_if ((tc_PriceTier2 tc <=? tc_PriceTier1 tc) || (tc_PriceTier3 tc <=? tc_PriceTier2 tc))
    (errorf ("tokenomics price tiers must be strictly increasing (got " +:+ FormatUint (tc_PriceTier1 tc) +:+ ", "
             +:+ FormatUint (tc_PriceTier2 tc) +:+ ", " +:+ FormatUint (tc_PriceTier3 tc) +:+ ")")) ;?
  rfail_if (tc_RPriceFloorTier1 tc <? tc_RPriceFloorTier2 tc)
    (errorf ("tokenomics r_price_floor_tier_1 (" +:+ FormatUint (tc_RPriceFloorTier1 tc)
             +:+ ") must be >= r_price_floor_tier_2 (" +:+ FormatUint (tc_RPriceFloorTier2 tc) +:+ ")")) ;?
  rfail_if (tc_RPriceFloorTier2 tc <? tc_RFloor tc)
    (errorf ("tokenomics r_price_floor_tier_2 (" +:+ FormatUint (tc_RPriceFloorTier2 tc)
             +:+ ") must be >= r_floor (" +:+ FormatUint (tc_RFloor tc) +:+ ")")) ;?
  rfail_if ((tc_RCollusionFactorMilli tc =? 0) || (1000 <=? tc_RCollusionFactorMilli tc))
    (errorf ("tokenomics r_collusion_factor_milli (" +:+ FormatUint (tc_RCollusionFactorMilli tc)
             +:+ ") must be in (0, 1000)")) ;?
  rfail_if (tc_HermiteFDVMinUSD tc =? 0) (errorf "tokenomics hermite_fdv_min_usd must be > 0") ;?
  rfail_if (tc_HermiteFDVMaxUSD tc <=? tc_HermiteFDVMinUSD tc)
    (errorf ("tokenomics hermite_fdv_min_usd (" +:+ FormatUint (tc_HermiteFDVMinUSD tc)
             +:+ ") must be < hermite_fdv_max_usd (" +:+ FormatUint (tc_HermiteFDVMaxUSD tc) +:+ ")")) ;?
  rfail_if (tc_HermiteFloorMilli tc =? 0) (errorf "tokenomics hermite_floor_milli must be > 0") ;?
  rfail_if (tc_HermiteCeilingMilli tc <=? tc_HermiteFloorMilli tc)
    (errorf ("tokenomics hermite_ceiling_milli (" +:+ FormatUint (tc_HermiteCeilingMilli tc)
             +:+ ") must be > hermite_floor_milli (" +:+ FormatUint (tc_HermiteFloorMilli tc) +:+ ")")) ;?
  rall (λ '(name, v),
    rfail_if ((v <? tokenomicsRMin) || (tokenomicsRMax <? v))
      (errorf ("tokenomics " +:+ name +:+ " (" +:+ FormatUint v +:+ ") out of sane range [1, 100000]")))
    [("r_init", tc_RInit tc); ("r_floor", tc_RFloor tc); ("r_price_floor_tier_1", tc_RPriceFloorTier1 tc);
     ("r_price_floor_tier_2", tc_RPriceFloorTier2 tc); ("r_collusion_factor_milli", tc_RCollusionFactorMilli tc);
     ("hermite_ceiling_milli", tc_HermiteCeilingMilli tc); ("hermite_floor_milli", tc_HermiteFloorMilli tc)].

Definition nil_keyset : DAOKeyset := mkDAOKeyset nil_slice 0.
Definition keys_of (s : go_slice string) : list string := sl_list s.

Definition validate_dao_keyset (value : list Z) : result unit :=
  let? ks := result_map_err (wrapf "invalid dao_keyset JSON: ") (Unmarshal dec_keyset value nil_keyset) in
  let keys := keys_of (dk_Keys ks) in
  rfail_if (zlen keys =? 0) (errorf "dao_keyset must have at least one key") ;?
  rfail_if (dk_Threshold ks <? MinDAOThreshold)
    (errorf ("dao_keyset threshold " +:+ FormatInt (dk_Threshold ks) +:+ " is below minimum 2")) ;?
  rfail_if (zlen keys <? dk_Threshold ks)
    (errorf ("dao_keyset threshold " +:+ FormatInt (dk_Threshold ks) +:+ " exceeds key count " +:+ FormatInt (zlen keys))) ;?
  check_keys "dao_keyset key" true 0 ∅ keys.

Definition validate_timekeepers (value : list Z) : result unit :=
  let? tk := result_map_err (wrapf "invalid timekeepers JSON: ") (Unmarshal dec_keyset value nil_keyset) in
  let keys := keys_of (dk_Keys tk) in
  rfail_if (zlen keys =? 0) (errorf "timekeepers must have at least one key") ;?
  rfail_if ((dk_Threshold tk <? 1) || (zlen keys <? dk_Threshold tk))
    (errorf ("timekeepers threshold " +:+ FormatInt (dk_Threshold tk) +:+ " invalid for " +:+ FormatInt (zlen keys) +:+ " keys")) ;?
  check_keys "timekeepers key" false 0 ∅ keys.

Definition validate_minter (value : list Z) : result unit :=
  let? mc := result_map_err (wrapf "invalid minter config JSON: ") (Unmarshal dec_minter value nil_slice) in
  rfail_if (zlen (keys_of mc) =? 0) (errorf "minter config must have at least one key") ;?
  check_keys "minter key" true 0 ∅ (keys_of mc).

Definition nil_oracle : OracleConfig := mkOracleConfig nil_slice 0 "".

Definition validate_oracle (value : list Z) : result unit :=
  let? oc := result_map_err (wrapf "invalid oracle config JSON: ") (Unmarshal dec_oracle value nil_oracle) in
  let keys := keys_of (oc_Keys oc) in
  rfail_if (zlen keys =? 0) (errorf "oracle config must have at least one key") ;?
  rfail_if ((oc_Threshold oc <? 1) || (zlen keys <? oc_Threshold oc))
    (errorf ("oracle threshold " +:+ FormatInt (oc_Threshold oc) +:+ " invalid for " +:+ FormatInt (zlen keys) +:+ " keys")) ;?
  rfail_if (slen (oc_AllowedPrefix oc) =? 0) (errorf "oracle allowed_prefix must not be empty") ;?
  check_keys "oracle key" true 0 ∅ keys.

Definition unmarshal_phase (raw : list Z) : result Z := Unmarshal (dec_uint 8) raw 0.

Definition validate_phase (value : list Z) : result unit :=
  let? phase := result_map_err (wrapf "invalid phase JSON: ") (unmarshal_phase value) in
  rfail_if (negb (phase =? 1) && negb (phase =? 2)) (errorf ("phase " +:+ FormatUint phase +:+ " invalid (must be 1 or 2)")).

Definition validate_representatives (value : list Z) : result unit :=
  let? rc := result_map_err (wrapf "invalid representatives config JSON: ")
               (Unmarshal dec_representatives value (mkRepConfig "" nil_slice)) in
  let addresses := keys_of (rc_Addresses rc) in
  if rc_Mode rc =?s OpenMode then
    rfail_if (negb (zlen addresses =? 0)) (errorf ("representatives mode " +:+ quote (rc_Mode rc) +:+ " must not carry addresses"))
  else if rc_Mode rc =?s AllowlistMode then
    rfail_if (zlen addresses =? 0) (errorf "representatives allowlist must have at least one address") ;?
    rfail_if (MaxEligibleRepresentatives <? zlen addresses)
      (errorf ("representatives allowlist has " +:+ FormatInt (zlen addresses) +:+ " addresses, maximum 1000")) ;?
    check_keys "representatives address" true 0 ∅ addresses
  else Err (errorf ("representatives mode " +:+ quote (rc_Mode rc) +:+ " unknown (want " +:+ quote OpenMode
                    +:+ " or " +:+ quote AllowlistMode +:+ ")")).

Definition validateSysKeyValue (key : string) (value : list Z) : result unit :=
  if key =?s "sys.dao_keyset" then validate_dao_keyset value
  else if key =?s "sys.timekeepers" then validate_timekeepers value
  else if key =?s "sys.minter" then validate_minter value
  else if key =?s "sys.oracle" then validate_oracle value
  else if key =?s "sys.phase" then validate_phase value
  else if key =?s "sys.tokenomics" then validateTokenomicsConfig value
  else if key =?s ActivationsKey then validateActivations value
  else if key =?s MinProtocolVersionKey then validateMinProtocolVersion value
  else if key =?s "sys.representatives" then validate_representatives value
  else Ok ().

Definition ValidateOp (op : Op) : result unit :=
  let bad s := errorf ("op key " +:+ quote (op_Key op) +:+ ": " +:+ s) in
  let wrap := wrapf ("op key " +:+ quote (op_Key op) +:+ ": ") in
  result_map_err wrap (ValidateKey (op_Key op)) ;?
  if op_Action op =?s ActionSet then
    rfail_if (zlen (op_Value op) =? 0) (bad "set op must have a value") ;?
    rfail_if (MaxValueSize <? zlen (op_Value op)) (bad "value exceeds 65536 bytes") ;?
    rfail_if (negb (json_Valid (op_Value op))) (bad "value is not valid JSON") ;?
    result_map_err wrap (validateSysKeyValue (op_Key op) (op_Value op))
  else if op_Action op =?s ActionDelete then
    rfail_if (HasPrefix (op_Key op) "sys.") (bad "cannot delete sys.* keys")
  else Err (bad ("unknown action " +:+ quote (op_Action op))).

Definition validateTransition (kv : KVStore) (tip b : SBlock) (op : Op) : result unit :=
  if negb (op_Action op =?s ActionSet) then Ok ()
  else if op_Key op =?s ActivationsKey then validateActivationsTransition kv tip b (op_Value op)
  else if op_Key op =?s MinProtocolVersionKey then validateMinProtocolVersionTransition kv (op_Value op)
  else if op_Key op =?s "sys.phase" then
    match kv !! "sys.phase" with
    | None => Ok ()
    | Some old =>
        let? oldPhase := result_map_err (wrapf "existing sys.phase unreadable: ") (unmarshal_phase old) in
        let? newPhase := result_map_err (wrapf "incoming sys.phase unreadable: ") (unmarshal_phase (op_Value op)) in
        rfail_if (newPhase <? oldPhase)
          (errorf ("sys.phase transition " +:+ FormatUint oldPhase +:+ " → " +:+ FormatUint newPhase
                   +:+ " not permitted (one-directional)"))
    end
  else Ok ().

(** ** Reading the configuration *)

Definition ApplyOp (kv : KVStore) (op : Op) : KVStore :=
  if op_Action op =?s ActionSet then <[op_Key op := op_Value op]> kv
  else if op_Action op =?s ActionDelete then delete (op_Key op) kv
  else kv.
Definition ApplyOps (ops : list Op) (kv : KVStore) : KVStore := foldl ApplyOp kv ops.

Definition KVStore_GetByPrefix (prefix : string) (kv : KVStore) : KVStore := filter (λ kv, HasPrefix kv.1 prefix) kv.

Definition KVStore_NetworkID (kv : KVStore) : string :=
  match kv !! "sys.network_id" with
  | None => ""
  | Some raw => match unmarshal_string raw with Ok id => id | Err _ => "" end
  end.

Definition KVStore_OracleConfig (kv : KVStore) : result (option OracleConfig) :=
  match kv !! "sys.oracle" with
  | None => Ok None
  | Some raw =>
      let? oc := result_map_err (wrapf "sys.oracle: invalid JSON: ") (Unmarshal dec_oracle raw nil_oracle) in
      let keys := keys_of (oc_Keys oc) in
      rfail_if (zlen keys =? 0) (errorf "sys.oracle: no keys") ;?
      rfail_if ((oc_Threshold oc <? 1) || (zlen keys <? oc_Threshold oc))
        (errorf ("sys.oracle: invalid threshold " +:+ FormatInt (oc_Threshold oc) +:+ " for " +:+ FormatInt (zlen keys) +:+ " keys")) ;?
      rfail_if (slen (oc_AllowedPrefix oc) =? 0) (errorf "sys.oracle: no allowed_prefix") ;?
      Ok (Some oc)
  end.

Definition KVStore_Phase (kv : KVStore) : result Z :=
  match kv !! "sys.phase" with
  | None => Ok 1
  | Some raw =>
      let? phase := result_map_err (wrapf "sys.phase: invalid JSON: ") (unmarshal_phase raw) in
      rfail_if (negb (phase =? 1) && negb (phase =? 2)) (errorf ("sys.phase: invalid value " +:+ FormatUint phase)) ;?
      Ok phase
  end.

Definition KVStore_Tokenomics (kv : KVStore) : result (option TokenomicsConfig) :=
  match kv !! "sys.tokenomics" with
  | None => Ok None
  | Some raw =>
      let? tc := result_map_err (wrapf "sys.tokenomics: invalid JSON: ") (unmarshal_tokenomics false raw) in Ok (Some tc)
  end.

Definition KVStore_Representatives (kv : KVStore) : result (option RepConfig) :=
  match kv !! "sys.representatives" with
  | None => Ok None
  | Some raw =>
      let? rc := result_map_err (wrapf "sys.representatives: invalid JSON: ")
                   (Unmarshal dec_representatives raw (mkRepConfig "" nil_slice)) in Ok (Some rc)
  end.

Definition KVStore_DAOKeyset (kv : KVStore) : result DAOKeyset :=
  match kv !! "sys.dao_keyset" with
  | None => Err (errorf "sys.dao_keyset not found in state")
  | Some raw =>
      let? ks := result_map_err (wrapf "sys.dao_keyset: invalid JSON: ") (Unmarshal dec_keyset raw nil_keyset) in
      let keys := keys_of (dk_Keys ks) in
      rfail_if (zlen keys =? 0) (errorf "sys.dao_keyset: no keys") ;?
      rfail_if ((dk_Threshold ks <? MinDAOThreshold) || (zlen keys <? dk_Threshold ks))
        (errorf ("sys.dao_keyset: invalid threshold " +:+ FormatInt (dk_Threshold ks) +:+ " for " +:+ FormatInt (zlen keys)
                 +:+ " keys (min 2)")) ;?
      Ok ks
  end.

(** ** Epochs *)

Definition RCollusionFactorMilliDefault : Z := 950.
Definition SMilliForPhase (phase : Z) : Z := if phase =? 2 then 300 else 0.

Definition expectedRCollusion (twapMilliUSD sMilli factorMilli : Z) : Z :=
  if twapMilliUSD =? 0 then 0
  else if 1000 <=? sMilli then 0
  else
    let factorMilli := if factorMilli =? 0 then RCollusionFactorMilliDefault else factorMilli in
    u64_mul factorMilli (1000 - sMilli) / twapMilliUSD.

(** [kv.Tokenomics()], when it is there and readable *)
Definition tokenomics_or {A} (kv : KVStore) (f : TokenomicsConfig → A) (d : A) : A :=
  match KVStore_Tokenomics kv with Ok (Some tc) => f tc | _ => d end.

Definition check_r_source (ev : EpochValue) (supportive : Z) : result unit :=
  let below x := negb (ev_RCollusion ev =? 0) && (ev_RCollusion ev <? x) in
  let but source x rel y rest : error :=
    errorf ("r_source '" +:+ source +:+ "' but " +:+ fst x +:+ " (" +:+ FormatUint (snd x) +:+ ") " +:+ rel +:+ " "
            +:+ fst y +:+ " (" +:+ FormatUint (snd y) +:+ ")" +:+ rest) in
  let volume := ("r_volume"%string, ev_RVolume ev) in
  let floor := ("r_price_floor"%string, ev_RPriceFloor ev) in
  let collusion := ("r_collusion"%string, ev_RCollusion ev) in
  let should := " — should be 'collusion'"%string in
  if ev_RSource ev =?s "volume" then
    rfail_if (ev_RVolume ev <=? ev_RPriceFloor ev) (but "volume" volume "<=" floor "") ;?
    rfail_if (below (ev_RVolume ev)) (but "volume" collusion "<" volume should)
  else if ev_RSource ev =?s "price_floor" then
    rfail_if (ev_RPriceFloor ev <=? ev_RVolume ev) (but "price_floor" floor "<=" volume "") ;?
    rfail_if (below (ev_RPriceFloor ev)) (but "price_floor" collusion "<" floor should)
  else if ev_RSource ev =?s "tied" then
    rfail_if (negb (ev_RVolume ev =? ev_RPriceFloor ev)) (but "tied" volume "!=" floor "") ;?
    rfail_if (below (ev_RVolume ev)) (but "tied" collusion "<" ("supportive"%string, ev_RVolume ev) should)
  else if ev_RSource ev =?s "collusion" then
    rfail_if (ev_RCollusion ev =? 0) (errorf "r_source 'collusion' but r_collusion is zero") ;?
    rfail_if (supportive <=? ev_RCollusion ev) (but "collusion" collusion ">=" ("supportive max"%string, supportive) "")
  else Err (errorf ("epoch r_source must be 'volume', 'price_floor', 'tied', or 'collusion', got " +:+ quote (ev_RSource ev))).

Definition validateEpochValue (value : list Z) (kv : KVStore) : result unit :=
  let? ev := result_map_err (wrapf "invalid epoch JSON: ") (unmarshal_epoch value) in
  rfail_if (ev_EndNS ev <=? ev_StartNS ev)
    (errorf ("epoch end_ns (" +:+ FormatInt (ev_EndNS ev) +:+ ") must be after start_ns (" +:+ FormatInt (ev_StartNS ev) +:+ ")")) ;?
  rfail_if (negb (ev_Phase ev =? 1) && negb (ev_Phase ev =? 2))
    (errorf ("epoch phase must be 1 or 2, got " +:+ FormatUint (ev_Phase ev))) ;?
  (if negb (ev_PayoutCap ev =? 0) then
     let '(lo, hi) := tokenomics_or kv (λ tc, (tc_HermiteFloorMilli tc, tc_HermiteCeilingMilli tc)) (1000, 2000) in
     rfail_if ((ev_PayoutCap ev <? lo) || (hi <? ev_PayoutCap ev))
       (errorf ("epoch payout_cap (" +:+ FormatUint (ev_PayoutCap ev) +:+ ") out of range ["
                +:+ FormatUint lo +:+ ", " +:+ FormatUint hi +:+ "]"))
   else Ok ()) ;?
  rfail_if (negb (ev_SMilli ev =? SMilliForPhase (ev_Phase ev)))
    (errorf ("epoch s_milli (" +:+ FormatUint (ev_SMilli ev) +:+ ") does not match phase " +:+ FormatUint (ev_Phase ev)
             +:+ " (expected " +:+ FormatUint (SMilliForPhase (ev_Phase ev)) +:+ ")")) ;?
  let factor := tokenomics_or kv tc_RCollusionFactorMilli RCollusionFactorMilliDefault in
  let expectedRCol := expectedRCollusion (ev_TWAPMilliUSD ev) (ev_SMilli ev) factor in
  rfail_if (negb (ev_RCollusion ev =? 0) && negb (ev_RCollusion ev =? expectedRCol))
    (errorf ("epoch r_collusion (" +:+ FormatUint (ev_RCollusion ev) +:+ ") != expected " +:+ FormatUint expectedRCol
             +:+ " (twap=" +:+ FormatUint (ev_TWAPMilliUSD ev) +:+ ", s=" +:+ FormatUint (ev_SMilli ev) +:+ ")")) ;?
  let supportive := if ev_RVolume ev <? ev_RPriceFloor ev then ev_RPriceFloor ev else ev_RVolume ev in
  let expectedR := if negb (ev_RCollusion ev =? 0) && (ev_RCollusion ev <? supportive) then ev_RCollusion ev else supportive in
  rfail_if (negb (ev_REffective ev =? expectedR))
    (errorf ("epoch r_effective (" +:+ FormatUint (ev_REffective ev) +:+ ") != expected " +:+ FormatUint expectedR
             +:+ " (r_vol=" +:+ FormatUint (ev_RVolume ev) +:+ ", r_pf=" +:+ FormatUint (ev_RPriceFloor ev)
             +:+ ", r_col=" +:+ FormatUint (ev_RCollusion ev) +:+ ")")) ;?
  check_r_source ev supportive ;?
  match KVStore_Phase kv with
  | Ok chainPhase =>
      rfail_if (negb (chainPhase =? ev_Phase ev))
        (errorf ("epoch phase (" +:+ FormatUint (ev_Phase ev) +:+ ") does not match chain sys.phase (" +:+ FormatUint chainPhase +:+ ")"))
  | Err _ => Ok ()
  end.
