(* ===== verification/StateChain.v ===== *)
(** * The governance chain: [statechain/chain.go], [statechain/genesis.go],
    [statechain/encoding.go], [statechain/crypto.go]

    A linear chain of signed blocks that write the keys of [StateKV.v], with the
    store of its blocks ([store/mem_store.go]). *)
From S2P Require Import Prelude GoLib Json Types Crypto StateKV.

(** ** Encoding and hashing *)

Definition marshal_op (i : Z) (op : Op) : result (list Z) :=
  let? action := if op_Action op =?s ActionSet then Ok 1
                 else if op_Action op =?s ActionDelete then Ok 2
                 else Err (errorf ("MarshalCanonical: op " +:+ FormatInt i +:+ ": unknown action " +:+ quote (op_Action op))) in
  Ok ([action] ++ PutUint16 (slen (op_Key op)) ++ bytes (op_Key op) ++
      if op_Action op =?s ActionSet then PutUint32 (zlen (op_Value op)) ++ op_Value op else PutUint32 0).

Fixpoint marshal_ops (i : Z) (ops : list Op) : result (list Z) :=
  match ops with
  | [] => Ok []
  | op :: ops => let? x := marshal_op i op in let? xs := marshal_ops (i + 1) ops in Ok (x ++ xs)
  end.

Definition MarshalCanonical (b : SBlock) : result (list Z) :=
  let? prevHash := result_map_err (wrapf "MarshalCanonical: invalid prev_hash hex: ") (DecodeString (sb_PrevHash b)) in
  rfail_if (negb (zlen prevHash =? 32))
    (errorf ("MarshalCanonical: prev_hash must be 32 bytes, got " +:+ FormatInt (zlen prevHash))) ;?
  let? ops := marshal_ops 0 (sb_Ops b) in
  Ok (PutUint64 (sb_Index b) ++ prevHash ++ PutUint32 (zlen (sb_Ops b)) ++ ops ++ PutUint64 (sb_Timestamp b)).

(** *** What JSON makes of a block *)

Definition key_bytes (name : string) : list Z := json_string name ++ [58].
Definition commas (l : list (list Z)) : list Z := match l with [] => [] | x :: l => x ++ (l ≫= λ y, 44 :: y) end.
Definition braces (l : list (list Z)) : list Z := [123] ++ commas l ++ [125].
Definition brackets (l : list (list Z)) : list Z := [91] ++ commas l ++ [93].

Definition json_op (op : Op) : option (list Z) :=
  let fs := [key_bytes "action" ++ json_string (op_Action op); key_bytes "key" ++ json_string (op_Key op)] in
  if bool_decide (op_Value op = []) then Some (braces fs)
  else v ← compact (op_Value op); Some (braces (fs ++ [key_bytes "value" ++ v])).

Definition json_signature (s : BlockSignature) : list Z :=
  braces [key_bytes "public_key" ++ json_string (bs_PublicKey s); key_bytes "signature" ++ json_string (bs_Sig s)].

(** [json.Marshal(b)] *)
Definition json_block (b : SBlock) : option (list Z) :=
  ops ← mapM json_op (sb_Ops b);
  Some (braces [key_bytes "index" ++ bytes (FormatUint (sb_Index b));
                key_bytes "prev_hash" ++ json_string (sb_PrevHash b);
                key_bytes "ops" ++ brackets ops;
                key_bytes "signatures" ++ match sb_Signatures b with
                                          | None => bytes "null"
                                          | Some sigs => brackets (json_signature <$> sigs)
                                          end;
                key_bytes "hash" ++ json_string (sb_Hash b);
                key_bytes "timestamp" ++ bytes (FormatInt (sb_Timestamp b))]).

(** [copyStateBlock]: written as JSON and read back.  Strings keep what of them is
    UTF-8, raw values are compacted; numbers do not change. *)
Definition copy_op (op : Op) : option Op :=
  let op' v := mkOp (json_copy (op_Action op)) (json_copy (op_Key op)) v in
  if bool_decide (op_Value op = []) then Some (op' []) else v ← compact (op_Value op); Some (op' v).
Definition copy_signature (s : BlockSignature) : BlockSignature :=
  mkBlockSignature (json_copy (bs_PublicKey s)) (json_copy (bs_Sig s)).
Definition copyStateBlock (b : SBlock) : SBlock :=
  match mapM (M:=option) copy_op (sb_Ops b) with
  | None => mkSBlock 0 "" [] None "" 0
  | Some ops =>
      mkSBlock (sb_Index b) (json_copy (sb_PrevHash b)) ops
        ((λ sigs : list BlockSignature, copy_signature <$> sigs) <$> sb_Signatures b) (json_copy (sb_Hash b)) (sb_Timestamp b)
  end.

(** ** The store of state blocks *)

Notation StateStore := (gmap Z SBlock).

Definition MemStore_PutStateBlock (b : SBlock) (s : StateStore) : StateStore := <[sb_Index b := copyStateBlock b]> s.
Definition MemStore_GetStateBlock (index : Z) (s : StateStore) : option SBlock := copyStateBlock <$> s !! index.
(** The loop ends at once when [start+count] wraps around. *)
Definition MemStore_GetStateBlockRange (start count : Z) (s : StateStore) : list SBlock :=
  omap (λ i, MemStore_GetStateBlock i s) (seqZ start (u64_add start count - start)).
Definition MemStore_StateBlockCount (s : StateStore) : Z := Z.of_nat (size s).

(** ** The chain *)

Definition ErrGap : error := sentinel "statechain.ErrGap" "statechain gap".

(** [ch_forks] and [ch_announced] are the calls of the two callbacks. *)
Record Chain := mkChain {
  ch_store : StateStore;
  ch_kv : KVStore;
  ch_tip : SBlock;
  ch_genesis : SBlock;
  ch_forks : list (SBlock * SBlock);
  ch_announced : list SBlock }.

(** Calls of the store that may fail *)
Inductive state_call := CPutState (index : Z) | CGetState (index : Z) | CStateCount | CStateRange.

Definition shortKey (s : string) : string := if slen s <=? 12 then s else String.substring 0 12 s.

Definition opsMatchPrefix (ops : list Op) (prefix : string) : bool :=
  if bool_decide (ops = []) then false else forallb (λ op, HasPrefix (op_Key op) prefix) ops.

Section chain.
Context `{C : Crypto}.

Definition StateHashBlock (b : SBlock) : result string :=
  let? data := result_map_err (wrapf "HashBlock: ") (MarshalCanonical b) in
  Ok (EncodeToString (sha256 data)).

Definition VerifyBlockHash (b : SBlock) : result unit :=
  let? expected := result_map_err (wrapf "VerifyBlockHash: ") (StateHashBlock b) in
  rfail_if (negb (sb_Hash b =?s expected)) (errorf ("hash mismatch: got " +:+ sb_Hash b +:+ ", want " +:+ expected)).

Definition StateSignBlock (b : SBlock) (kp : KeyPair) : result BlockSignature :=
  let? hashBytes := result_map_err (wrapf "SignBlock: ") (DecodeHash (sb_Hash b)) in
  Ok (mkBlockSignature (PubKeyHex kp) (EncodeToString (ed25519_Sign (kp_Private kp) hashBytes))).

Definition VerifySignature (hash : string) (sig : BlockSignature) : result unit :=
  let? hashBytes := DecodeHash hash in VerifyHexSignature (bs_PublicKey sig) (bs_Sig sig) hashBytes.

(** The loop both signature checks share; [what] names the keyset in errors. *)
Fixpoint count_signers (what hash : string) (keys : list string) (seen : gset string) (n : Z)
    (sigs : list BlockSignature) : result Z :=
  match sigs with
  | [] => Ok n
  | sig :: sigs =>
      let k := bs_PublicKey sig in
      rfail_if (bool_decide (k ∈ seen)) (errorf ("duplicate signer: " +:+ shortKey k)) ;?
      rfail_if (negb (bool_decide (k ∈ keys))) (errorf ("signer " +:+ shortKey k +:+ " not in " +:+ what)) ;?
      result_map_err (wrapf ("sig from " +:+ shortKey k +:+ ": ")) (VerifySignature hash sig) ;?
      count_signers what hash keys ({[k]} ∪ seen) (n + 1) sigs
  end.

Definition verify_signers (what short hash : string) (keys : list string) (threshold : Z) (sigs : list BlockSignature)
    : result unit :=
  rfail_if (zlen sigs =? 0) (errorf "no signatures") ;?
  let? n := count_signers what hash keys ∅ 0 sigs in
  rfail_if (n <? threshold)
    (errorf ("insufficient " +:+ short +:+ "signatures: got " +:+ FormatInt n +:+ ", need " +:+ FormatInt threshold)).

Definition signatures (b : SBlock) : list BlockSignature := default [] (sb_Signatures b).

Definition verifyMultisig (b : SBlock) (ks : DAOKeyset) : result unit :=
  verify_signers "keyset" "" (sb_Hash b) (keys_of (dk_Keys ks)) (dk_Threshold ks) (signatures b).
Definition verifyOracleMultisig (b : SBlock) (oc : OracleConfig) : result unit :=
  verify_signers "oracle keyset" "oracle " (sb_Hash b) (keys_of (oc_Keys oc)) (oc_Threshold oc) (signatures b).

(** ** Genesis *)

Definition zero_hash : string := EncodeToString (repeat 0 32).

Definition validateGenesisOracleScope (b : SBlock) (kv : KVStore) : result unit :=
  let governed := match KVStore_OracleConfig kv with Ok (Some oracle) => oc_AllowedPrefix oracle | _ => "" end in
  rall (λ op,
    if negb (op_Action op =?s ActionSet) || negb (HasPrefix (op_Key op) "epoch.") then Ok ()
    else if negb (governed =?s "") && HasPrefix (op_Key op) governed then Ok ()
    else Err (errorf ("op " +:+ quote (op_Key op) +:+ " is not governed by any sys.oracle allowed_prefix ("
                      +:+ quote governed +:+ "): the epoch write-once and DAO-prefix guards both sit inside chain.go's oracleConfig branch, so a DAO block could overwrite it — seed a matching sys.oracle alongside, or seed neither"))) (sb_Ops b).

Definition ValidateGenesis (b : SBlock) : result unit :=
  rfail_if (negb (sb_Index b =? 0)) (errorf ("genesis: index must be 0, got " +:+ FormatUint (sb_Index b))) ;?
  rfail_if (negb (sb_PrevHash b =?s zero_hash)) (errorf "genesis: prev_hash must be 64 zero chars") ;?
  rfail_if (zlen (sb_Ops b) =? 0) (errorf "genesis: must have at least one op") ;?
  let? expected := result_map_err (wrapf "genesis: ") (StateHashBlock b) in
  rfail_if (negb (sb_Hash b =?s expected)) (errorf ("genesis: hash mismatch: got " +:+ sb_Hash b +:+ ", want " +:+ expected)) ;?
  let kv := ApplyOps (sb_Ops b) ∅ in
  let? keyset := result_map_err (wrapf "genesis: ") (KVStore_DAOKeyset kv) in
  result_map_err (wrapf "genesis: ") (validateGenesisOracleScope b kv) ;?
  if 0 <? zlen (signatures b) then result_map_err (wrapf "genesis: ") (verifyMultisig b keyset) else Ok ().

Definition NetworkIDFromGenesis (b : SBlock) : string :=
  (fix go ops :=
     match ops with
     | [] => ""
     | op :: ops =>
         if (op_Action op =?s "set") && (op_Key op =?s "sys.network_id") then
           match unmarshal_string (op_Value op) with Ok id => id | Err _ => go ops end
         else go ops
     end) (sb_Ops b).

(** ** Adding blocks *)

Context (fault : state_call → option error).

Definition st_call {A} (c : state_call) (a : A) : result A :=
  match fault c with Some e => Err e | None => Ok a end.

(** [oracleConfig, _ := kv.OracleConfig()]: nil when absent or unreadable *)
Definition oracle_of (kv : KVStore) : option OracleConfig :=
  match KVStore_OracleConfig kv with Ok oc => oc | Err _ => None end.

Definition verifyBlockSignatures (kv : KVStore) (b : SBlock) : result unit :=
  match oracle_of kv with
  | Some oc =>
      if opsMatchPrefix (sb_Ops b) (oc_AllowedPrefix oc) then verifyOracleMultisig b oc
      else let? ks := result_map_err (wrapf "cannot load keyset: ") (KVStore_DAOKeyset kv) in verifyMultisig b ks
  | None => let? ks := result_map_err (wrapf "cannot load keyset: ") (KVStore_DAOKeyset kv) in verifyMultisig b ks
  end.

Definition applyValidated (b : SBlock) (c : Chain) : Chain :=
  mkChain (ch_store c) (ApplyOps (sb_Ops b) (ch_kv c)) b (ch_genesis c) (ch_forks c) (ch_announced c).

(** A block at or below the tip *)
Definition known_block (b : SBlock) : M Chain unit :=
  let! c := mget in
  let! existing := mlift (st_call (CGetState (sb_Index b)) (MemStore_GetStateBlock (sb_Index b) (ch_store c))) in
  let existing := match existing with
                  | None => if sb_Index b =? 0 then Some (ch_genesis c) else None
                  | Some x => Some x
                  end in
  match existing with
  | None => mret_ ()
  | Some x =>
      if sb_Hash x =?s sb_Hash b then mret_ ()
      else
        let signed := match KVStore_DAOKeyset (ch_kv c) with
                      | Ok ks => is_ok (verifyMultisig b ks)
                      | Err _ => false
                      end in
        mmodify (λ c, if signed then mkChain (ch_store c) (ch_kv c) (ch_tip c) (ch_genesis c)
                                       (ch_forks c ++ [(x, b)]) (ch_announced c) else c) ;!
        mfail (errorf ("fork detected at index " +:+ FormatUint (sb_Index b) +:+ ": existing " +:+ sb_Hash x
                       +:+ ", incoming " +:+ sb_Hash b))
  end.

(** The two authorities, and what each may write *)
Definition check_authority (kv : KVStore) (b : SBlock) : result unit :=
  let by_dao :=
    let? ks := result_map_err (wrapf "cannot load keyset: ") (KVStore_DAOKeyset kv) in verifyMultisig b ks in
  match oracle_of kv with
  | Some oc =>
      if opsMatchPrefix (sb_Ops b) (oc_AllowedPrefix oc) then
        rall (λ op,
          (if op_Action op =?s ActionSet
           then result_map_err (wrapf "epoch validation: ") (validateEpochValue (op_Value op) kv) else Ok ()) ;?
          rfail_if (bool_decide (is_Some (kv !! op_Key op)))
            (errorf ("epoch key " +:+ quote (op_Key op) +:+ " already exists (write-once)"))) (sb_Ops b) ;?
        verifyOracleMultisig b oc
      else
        by_dao ;?
        rall (λ op,
          rfail_if (HasPrefix (op_Key op) (oc_AllowedPrefix oc))
            (errorf ("DAO block cannot write to oracle prefix " +:+ quote (oc_AllowedPrefix oc)
                     +:+ " (key: " +:+ op_Key op +:+ ")"))) (sb_Ops b)
  | None => by_dao
  end.

(** The checks of a block that follows the tip *)
Definition check_next (kv : KVStore) (tip b : SBlock) : result unit :=
  rfail_if (negb (sb_Index b =? u64_add (sb_Index tip) 1))
    (mkError ("expected index " +:+ FormatUint (u64_add (sb_Index tip) 1) +:+ ", got " +:+ FormatUint (sb_Index b)
              +:+ ": " +:+ err_msg ErrGap) (err_is ErrGap)) ;?
  rfail_if (negb (sb_PrevHash b =?s sb_Hash tip))
    (errorf ("prev_hash mismatch: expected " +:+ sb_Hash tip +:+ ", got " +:+ sb_PrevHash b)) ;?
  rfail_if (sb_Timestamp b <? sb_Timestamp tip)
    (errorf ("timestamp " +:+ FormatInt (sb_Timestamp b) +:+ " is before previous " +:+ FormatInt (sb_Timestamp tip))) ;?
  rfail_if (zlen (sb_Ops b) =? 0) (errorf "block has no ops") ;?
  let? size := match json_block b with
               | Some j => Ok (zlen j)
               | None => Err (wrapf "cannot marshal block: " errJSONSyntax)
               end in
  rfail_if (MaxBlockSize <? size) (errorf ("block size " +:+ FormatInt size +:+ " exceeds limit 262144")) ;?
  rall (λ op, ValidateOp op ;? validateTransition kv tip b op) (sb_Ops b) ;?
  check_authority kv b.

Definition Chain_AddBlock (b : SBlock) : M Chain unit :=
  mlift (VerifyBlockHash b) ;!
  let! c := mget in
  if sb_Index b <=? sb_Index (ch_tip c) then known_block b
  else
    mlift (check_next (ch_kv c) (ch_tip c) b) ;!
    mwrap (wrapf "store: ") (mlift (st_call (CPutState (sb_Index b)) ())) ;!
    mmodify (λ c, mkChain (MemStore_PutStateBlock b (ch_store c)) (ApplyOps (sb_Ops b) (ch_kv c)) b (ch_genesis c)
                    (ch_forks c) (ch_announced c ++ [b])).

(** ** Starting from the store *)

Fixpoint replay_blocks (expected : Z) (bs : list SBlock) : M Chain Z :=
  match bs with
  | [] => mret_ expected
  | b :: bs =>
      let wrap := wrapf ("block " +:+ FormatUint (sb_Index b) +:+ ": ") in
      mfail_if (negb (sb_Index b =? expected))
        (errorf ("gap: expected block " +:+ FormatUint expected +:+ ", store has " +:+ FormatUint (sb_Index b))) ;!
      mwrap wrap (mlift (VerifyBlockHash b)) ;!
      let! c := mget in
      mfail_if (negb (sb_PrevHash b =?s sb_Hash (ch_tip c)))
        (errorf ("block " +:+ FormatUint (sb_Index b) +:+ ": prev_hash mismatch: expected " +:+ sb_Hash (ch_tip c)
                 +:+ ", got " +:+ sb_PrevHash b)) ;!
      mwrap wrap (mlift (verifyBlockSignatures (ch_kv c) b)) ;!
      mmodify (applyValidated b) ;!
      replay_blocks (u64_add expected 1) bs
  end.

Definition replay : M Chain unit :=
  let! c := mget in
  let! count := mlift (st_call CStateCount (MemStore_StateBlockCount (ch_store c))) in
  if count =? 0 then mret_ ()
  else
    let! bs := mlift (st_call CStateRange (MemStore_GetStateBlockRange 1 count (ch_store c))) in
    let! expected := replay_blocks 1 bs in
    mfail_if (negb (u64_sub expected 1 =? count))
      (errorf ("gap: store reports " +:+ FormatUint count +:+ " blocks but only " +:+ FormatUint (u64_sub expected 1)
               +:+ " were readable")).

Definition NewChain (s : StateStore) (genesis : SBlock) : result Chain :=
  result_map_err (wrapf "NewChain: ") (ValidateGenesis genesis) ;?
  match replay (mkChain s (ApplyOps (sb_Ops genesis) ∅) genesis genesis [] []) with
  | (Err e, _) => Err (wrapf "NewChain: replay: " e)
  | (Ok _, c) =>
      let? _ := result_map_err (wrapf "NewChain: ") (KVStore_DAOKeyset (ch_kv c)) in Ok c
  end.

(** ** Reads *)

Definition Chain_GetBlock (index : Z) (c : Chain) : result (option SBlock) :=
  if index =? 0 then Ok (Some (ch_genesis c))
  else st_call (CGetState index) (MemStore_GetStateBlock index (ch_store c)).

Definition Chain_GetBlocks (start limit : Z) (c : Chain) : result (list SBlock) :=
  if start =? 0 then
    if limit <=? 1 then Ok [ch_genesis c]
    else let? stored := st_call CStateRange (MemStore_GetStateBlockRange 1 (limit - 1) (ch_store c)) in
         Ok (ch_genesis c :: stored)
  else st_call CStateRange (MemStore_GetStateBlockRange start limit (ch_store c)).

Definition Chain_BlockCount (c : Chain) : result Z :=
  let? count := st_call CStateCount (MemStore_StateBlockCount (ch_store c)) in Ok (u64_add count 1).

(** [0] is the zero value [Phase] returns with an error. *)
Definition Chain_Phase (c : Chain) : Z := match KVStore_Phase (ch_kv c) with Ok p => p | Err _ => 0 end.

Definition activationsLocked (c : Chain) : Activations :=
  match ch_kv c !! ActivationsKey with
  | None => ∅
  | Some raw => match ParseActivations raw with Ok a => a | Err _ => ∅ end
  end.

Definition Chain_FeatureActive (feature : string) (c : Chain) : bool :=
  Activations_ActiveAt (activationsLocked c) feature (sb_Index (ch_tip c)) (sb_Timestamp (ch_tip c)).

Record FeatureStatus := mkFeatureStatus {
  fs_Name : string; fs_AtIndex : Z; fs_NotBeforeNS : Z; fs_Active : bool; fs_KnownToBinary : bool }.

Definition FeatureStatuses (known : gset string) (c : Chain) : list FeatureStatus :=
  let a := activationsLocked c in
  (λ name, let r := default (mkActivationRecord 0 0) (a !! name) in
     mkFeatureStatus name (ar_AtIndex r) (ar_NotBeforeNS r)
       (ActiveAt r (sb_Index (ch_tip c)) (sb_Timestamp (ch_tip c))) (bool_decide (name ∈ known))) <$> Names a.

Definition MinProtocolVersion (c : Chain) : string :=
  match ch_kv c !! MinProtocolVersionKey with
  | None => ""
  | Some raw => match unmarshal_string raw with
                | Ok v => if protocolVersion_ok v then v else ""
                | Err _ => ""
                end
  end.
End chain.
