(* ===== verification/StateFacts.v ===== *)
(** * What the governance chain guarantees

    Every accepted block follows its predecessor and is signed by the authority in
    force, the one-way settings only move forward, and a restart rebuilds the
    state, provided that values are stored as they were signed. *)
From S2P Require Import Prelude GoLib Json Types Crypto StateKV StateChain.

(** ** Text that JSON does not change *)

(** Letters, digits and [_ . -] *)
Definition plain (c : Z) : bool := in_range 48 57 c || in_range 65 90 c || in_range 97 122 c || (c =? 95) || (c =? 46) || (c =? 45).

Lemma plain_range c : plain c = true → 45 <= c < 123 ∧ c ≠ 92 ∧ c ≠ 60 ∧ c ≠ 62.
Proof. unfold plain, in_range. rewrite !orb_true_iff, !andb_true_iff. lia. Qed.

Lemma plain_escape c : plain c = true → escape_byte c = [c].
Proof.
  intros H%plain_range. unfold escape_byte, html.
  repeat match goal with |- context [?a =? ?b] => destruct (Z.eqb_spec a b); [lia|] end.
  destruct (Z.ltb_spec c 32); [lia|done].
Qed.

Lemma escape_plain l : forallb plain l = true → escape_text 0 0 l = l.
Proof.
  induction l as [|c l IH]; [done|]. intros [Hc Hl]%andb_true_iff. cbn [escape_text].
  pose proof (plain_range c Hc). destruct (Z.ltb_spec c 128); [|lia]. rewrite plain_escape, IH by done. done.
Qed.

Lemma unquote_plain l : forallb plain l = true → unquote 0 0 l = l.
Proof.
  induction l as [|c l IH]; [done|]. intros [Hc Hl]%andb_true_iff. cbn [unquote].
  pose proof (plain_range c Hc). destruct (Z.eqb_spec c 92); [lia|]. unfold utf8_size.
  destruct (Z.ltb_spec c 128); [|lia]. by rewrite IH.
Qed.

Lemma json_copy_plain s : forallb plain (bytes s) = true → json_copy s = s.
Proof. intros H. unfold json_copy. rewrite escape_plain, unquote_plain by done. apply str_bytes. Qed.

Lemma hex_value_plain c v : hex_value c = Some v → plain c = true.
Proof. unfold hex_value, plain, in_range. intros H. repeat case_match; try done; bool_hyps; lia. Qed.

Lemma hex_decode_plain n l bs : (List.length l <= n)%nat → hex_decode l = Ok bs → forallb plain l = true.
Proof.
  revert l bs. induction n as [|n IH]; intros [|a [|b l]] bs Hn H; try done; cbn in Hn; try lia;
    [cbn in H; by destruct (hex_value a)|]. cbn [hex_decode] in H.
  destruct (hex_value a) eqn:Ea; [|done]. destruct (hex_value b) eqn:Eb; [|done].
  destruct (hex_decode l) as [bs'|] eqn:El; [|done]. cbn [forallb].
  rewrite (hex_value_plain _ _ Ea), (hex_value_plain _ _ Eb), (IH l bs') by (done || lia). done.
Qed.

Lemma json_copy_hex s bs : DecodeString s = Ok bs → json_copy s = s.
Proof. intros H. eapply json_copy_plain, hex_decode_plain; [apply le_n|done]. Qed.

Lemma json_copy_key s : validKey_ok s = true → json_copy s = s.
Proof.
  unfold validKey_ok. intros [_ H]%andb_true_iff. apply json_copy_plain. rewrite forallb_forall in *.
  intros c Hc. specialize (H c Hc). unfold plain, lower_letter, is_digit, in_range in *.
  rewrite !orb_true_iff, !andb_true_iff in *. lia.
Qed.

(** ** Loops *)

Lemma rall_ok {A} (f : A → result unit) l : rall f l = Ok () ↔ ∀ x, x ∈ l → f x = Ok ().
Proof.
  induction l as [|y l IH]; cbn [rall].
  - split; [intros _ x Hx; by apply not_elem_of_nil in Hx|done].
  - setoid_rewrite elem_of_cons. destruct (f y) as [[]|e] eqn:E; cbn [rbind].
    + rewrite IH. split; [intros H x [->|Hx]; auto|auto].
    + split; [done|]. intros H. rewrite H in E by auto. done.
Qed.

Lemma rall_in {A} (f : A → result unit) l x : rall f l = Ok () → x ∈ l → f x = Ok ().
Proof. intros H. by apply rall_ok. Qed.

Lemma map_err_ok {A} f (r : result A) a : result_map_err f r = Ok a → r = Ok a.
Proof. by destruct r. Qed.

Section chain.
Context `{C : Crypto}.
Implicit Types (g b tip : SBlock) (kv : KVStore) (bs : list SBlock) (c : Chain).

(** ** The chains that can be built *)

Inductive grown g : list SBlock → KVStore → SBlock → Prop :=
  | grown_start : grown g [] (ApplyOps (sb_Ops g) ∅) g
  | grown_next bs kv tip b :
      grown g bs kv tip → sb_Index tip < sb_Index b → VerifyBlockHash b = Ok () → check_next kv tip b = Ok () →
      grown g (bs ++ [b]) (ApplyOps (sb_Ops b) kv) b.

(** The store of a chain's blocks *)
Definition stored bs : StateStore := foldl (λ s b, MemStore_PutStateBlock b s) ∅ bs.

Record holds g c bs : Prop := {
  hd_grown : grown g bs (ch_kv c) (ch_tip c);
  hd_genesis : ch_genesis c = g;
  hd_store : ch_store c = stored bs }.

(** The same but for the forks that were reported *)
Definition unchanged c c' : Prop :=
  ch_store c' = ch_store c ∧ ch_kv c' = ch_kv c ∧ ch_tip c' = ch_tip c ∧ ch_genesis c' = ch_genesis c ∧
  ch_announced c' = ch_announced c.

Lemma unchanged_refl c : unchanged c c.
Proof. done. Qed.

Lemma holds_unchanged g c c' bs : unchanged c c' → holds g c bs → holds g c' bs.
Proof. intros (E1 & E2 & E3 & E4 & _) [H1 H2 H3]. split; by rewrite ?E1, ?E2, ?E3, ?E4. Qed.

Lemma known_block_unchanged fault b c : unchanged c (known_block fault b c).2.
Proof.
  unfold known_block, mbind_, mget, mlift, mmodify, mfail, mret_.
  destruct (st_call _ _ _) as [x|e]; [|done]. repeat case_match; done.
Qed.

(** A block is added at the end, with everything that goes with it, or nothing but
    the report of a fork changes. *)
Lemma AddBlock_cases fault b c :
  let '(r, c') := Chain_AddBlock fault b c in
  (unchanged c c' ∧ (r = Ok () → sb_Index b <= sb_Index (ch_tip c))) ∨
  (r = Ok () ∧ sb_Index (ch_tip c) < sb_Index b ∧ VerifyBlockHash b = Ok () ∧
   check_next (ch_kv c) (ch_tip c) b = Ok () ∧
   c' = mkChain (MemStore_PutStateBlock b (ch_store c)) (ApplyOps (sb_Ops b) (ch_kv c)) b (ch_genesis c)
          (ch_forks c) (ch_announced c ++ [b])).
Proof.
  unfold Chain_AddBlock. unfold mbind_ at 1. unfold mlift at 1. destruct (VerifyBlockHash b) as [[]|e] eqn:Eh; [|by left].
  unfold mbind_ at 1. unfold mget. destruct (Z.leb_spec (sb_Index b) (sb_Index (ch_tip c))) as [Hi|Hi].
  - pose proof (known_block_unchanged fault b c). destruct (known_block fault b c). left. done.
  - unfold mbind_, mlift, mwrap, mmodify. destruct (check_next _ _ _) as [[]|e] eqn:Ec; [|by left].
    unfold st_call. destruct (fault _); [by left|]. right. done.
Qed.

Lemma AddBlock_holds fault b c r c' g bs : holds g c bs → Chain_AddBlock fault b c = (r, c') →
  (holds g c' bs ∧ unchanged c c') ∨ (r = Ok () ∧ holds g c' (bs ++ [b])).
Proof.
  intros H E. pose proof (AddBlock_cases fault b c) as Hc. rewrite E in Hc.
  destruct Hc as [[Hu _]|(-> & Hi & Hh & Hn & ->)]; [left; eauto using holds_unchanged|]. right. split; [done|].
  destruct H as [H1 H2 H3]. split; cbn [ch_kv ch_tip ch_genesis ch_store]; [by econstructor|done|].
  unfold stored. rewrite foldl_app. cbn. by rewrite H3.
Qed.

(** Blocks that arrive one after another, each with the failures of the store *)
Definition feed (ins : list ((state_call → option error) * SBlock)) c : Chain :=
  foldl (λ c '(fault, b), (Chain_AddBlock fault b c).2) c ins.

Lemma feed_holds g ins c bs : holds g c bs → ∃ bs', holds g (feed ins c) (bs ++ bs') ∧ bs' `sublist_of` ins.*2.
Proof.
  revert c bs. induction ins as [|[fault b] ins IH]; intros c bs H; [exists []; by rewrite app_nil_r|].
  change (feed ((fault, b) :: ins) c) with (feed ins (Chain_AddBlock fault b c).2).
  destruct (Chain_AddBlock fault b c) as [r c'] eqn:E. cbn [snd].
  destruct (AddBlock_holds _ _ _ _ _ _ _ H E) as [[H' _]|[_ H']].
  - destruct (IH _ _ H') as (bs' & Hb & Hs). exists bs'. split; [done|by apply sublist_cons].
  - destruct (IH _ _ H') as (bs' & Hb & Hs). exists (b :: bs'). rewrite <- (assoc_L (++)) in Hb.
    split; [done|by apply sublist_skip].
Qed.

Lemma NewChain_fresh fault g c : NewChain fault ∅ g = Ok c →
  holds g c [] ∧ ValidateGenesis g = Ok () ∧ ∃ ks, KVStore_DAOKeyset (ch_kv c) = Ok ks.
Proof.
  unfold NewChain. intros H. run. apply map_err_ok in H0.
  unfold replay, mbind_, mget, mlift, st_call in H. destruct (fault CStateCount); [done|].
  cbn [ch_store] in H. change (MemStore_StateBlockCount ∅) with 0 in H. cbn [Z.eqb] in H. unfold mret_ in H. run.
  match goal with H : result_map_err _ (KVStore_DAOKeyset _) = _ |- _ => apply map_err_ok in H end.
  destruct x. split_and!; [|done|eauto]. split; [constructor|done..].
Qed.

(** ** Structure *)

Lemma check_next_facts kv tip b : check_next kv tip b = Ok () →
  sb_Index b = u64_add (sb_Index tip) 1 ∧ sb_PrevHash b = sb_Hash tip ∧ sb_Timestamp tip <= sb_Timestamp b ∧
  sb_Ops b ≠ [] ∧ (∀ op, op ∈ sb_Ops b → ValidateOp op = Ok () ∧ validateTransition kv tip b op = Ok ()) ∧
  check_authority kv b = Ok ().
Proof.
  unfold check_next. intros H. run. bool_hyps. split_and!; try done.
  - intros E. rewrite E in *. done.
  - intros op Hop. match goal with H : rall _ _ = Ok ?u |- _ => destruct u; pose proof (rall_in _ _ _ H Hop) as Ho end.
    cbn beta in Ho. run. match goal with H : ValidateOp _ = Ok ?u |- _ => by destruct u end.
Qed.

Lemma grown_index g bs kv tip : sb_Index g = 0 → grown g bs kv tip → sb_Index tip = zlen bs ∧ 0 <= sb_Index tip < two64.
Proof.
  intros Hg H. induction H as [|bs kv tip b H [IH Hr] Hi _ Hn]; [by rewrite Hg|].
  apply check_next_facts in Hn as (Hn & _). unfold u64_add, u64 in Hn.
  assert (Hlt : sb_Index tip + 1 < two64).
  { destruct (Z_lt_le_dec (sb_Index tip + 1) two64); [done|]. assert (sb_Index tip + 1 = two64) as E by lia.
    rewrite E, Z_mod_same_full in Hn. lia. }
  rewrite Z.mod_small in Hn by lia. unfold zlen in *. rewrite length_app. cbn. lia.
Qed.
(** The state and the tip after some blocks *)
Definition state_after g bs : KVStore := foldl (λ kv b, ApplyOps (sb_Ops b) kv) (ApplyOps (sb_Ops g) ∅) bs.
Definition tip_after g bs : SBlock := default g (last bs).

Lemma grown_state g bs kv tip : grown g bs kv tip → kv = state_after g bs ∧ tip = tip_after g bs.
Proof.
  induction 1 as [|bs kv tip b H [-> ->] _ _ _]; [done|]. unfold state_after, tip_after.
  by rewrite foldl_app, last_snoc.
Qed.

Lemma grown_at g bs kv tip i b : grown g bs kv tip → bs !! i = Some b →
  ∃ kv' tip', grown g (take i bs) kv' tip' ∧ sb_Index tip' < sb_Index b ∧ VerifyBlockHash b = Ok () ∧
    check_next kv' tip' b = Ok ().
Proof.
  induction 1 as [|bs kv tip x H IH Hi Hh Hn]; [done|]. intros [Hb|[Hl Hb]]%lookup_app_Some.
  - rewrite take_app_le by (apply lookup_lt_Some in Hb; lia). auto.
  - apply list_lookup_singleton_Some in Hb as [Hz <-]. assert (i = length bs) as -> by lia.
    rewrite take_app_length. by exists kv, tip.
Qed.

(** ** Writes *)

Lemma ApplyOps_lookup ops kv k :
  ApplyOps ops kv !! k = kv !! k ∨
  (∃ op, op ∈ ops ∧ op_Action op = ActionSet ∧ op_Key op = k ∧ ApplyOps ops kv !! k = Some (op_Value op)) ∨
  (∃ op, op ∈ ops ∧ op_Action op = ActionDelete ∧ op_Key op = k ∧ ApplyOps ops kv !! k = None).
Proof.
  revert kv. induction ops as [|op ops IH]; intros kv; [by left|]. cbn.
  change (foldl ApplyOp (ApplyOp kv op) ops) with (ApplyOps ops (ApplyOp kv op)).
  destruct (IH (ApplyOp kv op)) as [E|[(o & Ho & H)|(o & Ho & H)]];
    [|right; left; exists o; split; [by right|done]|right; right; exists o; split; [by right|done]].
  rewrite E. unfold ApplyOp. case_bool_decide as Ea; [|case_bool_decide as Ed; [|by left]];
    destruct (decide (op_Key op = k)) as [Ek|Ek].
  - right; left. exists op. rewrite Ek, lookup_insert_eq. split_and!; [by left|done..].
  - left. by rewrite lookup_insert_ne.
  - right; right. exists op. rewrite Ek, lookup_delete_eq. split_and!; [by left|done..].
  - left. by rewrite lookup_delete_ne.
Qed.

Lemma sys_not_deleted op : ValidateOp op = Ok () → op_Action op = ActionDelete → HasPrefix (op_Key op) "sys." = false.
Proof.
  unfold ValidateOp. intros H Ha. run. rewrite Ha in *. rewrite bool_decide_false in H by done.
  rewrite bool_decide_true in H by done. run. done.
Qed.

(** A key of the protocol is kept or set to a validated value. *)
Lemma sys_lookup kv tip b k : check_next kv tip b = Ok () → HasPrefix k "sys." = true →
  ApplyOps (sb_Ops b) kv !! k = kv !! k ∨
  ∃ op, op_Action op = ActionSet ∧ op_Key op = k ∧ ApplyOps (sb_Ops b) kv !! k = Some (op_Value op) ∧
    validateSysKeyValue k (op_Value op) = Ok () ∧ validateTransition kv tip b op = Ok ().
Proof.
  intros (_ & _ & _ & _ & Hops & _)%check_next_facts Hk.
  destruct (ApplyOps_lookup (sb_Ops b) kv k) as [E|[(op & Ho & Ha & Hkey & E)|(op & Ho & Ha & Hkey & E)]]; [by left|..];
    destruct (Hops op Ho) as [Hv Ht].
  - right. exists op. split_and!; [done..| |done]. unfold ValidateOp in Hv. run.
    rewrite Ha, bool_decide_true in Hv by done. run. apply map_err_ok in Hv. by rewrite <- Hkey.
  - apply sys_not_deleted in Hv; [|done]. congruence.
Qed.

Lemma validated_keyset kv v : validate_dao_keyset v = Ok () →
  ∃ ks, KVStore_DAOKeyset (<["sys.dao_keyset" := v]> kv) = Ok ks.
Proof.
  unfold validate_dao_keyset, KVStore_DAOKeyset. rewrite lookup_insert_eq. intros H. run.
  match goal with H : result_map_err _ _ = Ok _ |- _ => apply map_err_ok in H; rewrite H end. cbn [result_map_err rbind].
  exists x. repeat match goal with H : ?c = false |- _ => rewrite H; clear H end. done.
Qed.

Lemma keyset_of_lookup kv kv' : kv' !! "sys.dao_keyset" = kv !! "sys.dao_keyset" → KVStore_DAOKeyset kv' = KVStore_DAOKeyset kv.
Proof. intros E. unfold KVStore_DAOKeyset. by rewrite E. Qed.

(** The keyset can always be read. *)
Lemma grown_keyset g bs kv tip ks0 : KVStore_DAOKeyset (ApplyOps (sb_Ops g) ∅) = Ok ks0 → grown g bs kv tip →
  ∃ ks, KVStore_DAOKeyset kv = Ok ks.
Proof.
  intros H0. induction 1 as [|bs kv tip b H [ks IH] _ _ Hn]; [eauto|].
  destruct (sys_lookup _ _ _ "sys.dao_keyset" Hn) as [E|(op & Ha & Hk & E & Hv & _)]; [done|..].
  - exists ks. by rewrite (keyset_of_lookup kv).
  - destruct (validated_keyset kv (op_Value op)) as [ks' Hks].
    { unfold validateSysKeyValue in Hv. by rewrite bool_decide_true in Hv. }
    exists ks'. rewrite <- Hks. apply keyset_of_lookup. by rewrite lookup_insert_eq.
Qed.

Lemma keyset_threshold kv ks : KVStore_DAOKeyset kv = Ok ks → 2 <= dk_Threshold ks <= zlen (keys_of (dk_Keys ks)).
Proof.
  unfold KVStore_DAOKeyset. destruct (kv !! _); [|done]. intros H. run. bool_hyps. unfold MinDAOThreshold in *. lia.
Qed.

(** ** Authority *)

(** So many different members of a keyset signed a hash. *)
Definition signed_by (keys : list string) (threshold : Z) (hash : string) (sigs : list BlockSignature) : Prop :=
  NoDup (bs_PublicKey <$> sigs) ∧ threshold <= zlen sigs ∧ sigs ≠ [] ∧
  Forall (λ s, bs_PublicKey s ∈ keys ∧ VerifySignature hash s = Ok ()) sigs.

Lemma count_signers_ok what hash keys seen n sigs m : count_signers what hash keys seen n sigs = Ok m →
  NoDup (bs_PublicKey <$> sigs) ∧ m = n + zlen sigs ∧
  Forall (λ s, bs_PublicKey s ∉ seen ∧ bs_PublicKey s ∈ keys ∧ VerifySignature hash s = Ok ()) sigs.
Proof.
  revert seen n. induction sigs as [|s sigs IH]; intros seen n; cbn [count_signers].
  { intros [= <-]. split_and!; [constructor|unfold zlen; cbn; lia|constructor]. }
  intros H. run. bool_hyps. apply IH in H as (Hnd & -> & Hf).
  match goal with H : result_map_err _ _ = Ok ?u |- _ => apply map_err_ok in H; destruct u end. split_and!.
  - cbn. constructor; [|done]. intros (s' & Es & Hs')%list_elem_of_fmap. rewrite Forall_forall in Hf.
    destruct (Hf s' Hs') as [Hn _]. set_solver.
  - unfold zlen. cbn [length]. lia.
  - constructor; [done|]. eapply Forall_impl; [done|]. intros s' (Hn & ? & ?). set_solver.
Qed.

Lemma verify_signers_ok what short hash keys t sigs : verify_signers what short hash keys t sigs = Ok () →
  signed_by keys t hash sigs.
Proof.
  unfold verify_signers. intros H. run. bool_hyps.
  match goal with H : count_signers _ _ _ _ _ _ = _ |- _ => apply count_signers_ok in H as (Hnd & -> & Hf) end.
  split_and!; [done|lia|by intros ->|]. eapply Forall_impl; [done|]. naive_solver.
Qed.

(** The DAO, or the oracle for the keys it governs *)
Definition authorised kv b : Prop :=
  (∃ ks, KVStore_DAOKeyset kv = Ok ks ∧ 2 <= dk_Threshold ks ∧
     signed_by (keys_of (dk_Keys ks)) (dk_Threshold ks) (sb_Hash b) (signatures b)) ∨
  (∃ oc, oracle_of kv = Some oc ∧ (∀ op, op ∈ sb_Ops b → HasPrefix (op_Key op) (oc_AllowedPrefix oc) = true) ∧
     signed_by (keys_of (oc_Keys oc)) (oc_Threshold oc) (sb_Hash b) (signatures b)).

Lemma opsMatchPrefix_all ops prefix : opsMatchPrefix ops prefix = true → ∀ op, op ∈ ops → HasPrefix (op_Key op) prefix = true.
Proof.
  unfold opsMatchPrefix. case_bool_decide; [done|]. rewrite forallb_forall. intros H' op Hop.
  apply H'. by apply list_elem_of_In.
Qed.

Lemma verifyBlockSignatures_ok kv b : verifyBlockSignatures kv b = Ok () → authorised kv b.
Proof.
  unfold verifyBlockSignatures. intros H.
  assert (Hdao : (let? ks := result_map_err (wrapf "cannot load keyset: ") (KVStore_DAOKeyset kv) in verifyMultisig b ks) = Ok ()
    → authorised kv b).
  { intros H'. run. match goal with H : result_map_err _ _ = _ |- _ => apply map_err_ok in H end. left. eexists.
    split_and!; [done|by eapply keyset_threshold|]. by eapply verify_signers_ok. }
  destruct (oracle_of kv) as [oc|] eqn:Eo; [|auto]. destruct (opsMatchPrefix _ _) eqn:Em; [|auto].
  right. exists oc. split_and!; [done|by apply opsMatchPrefix_all|]. by eapply verify_signers_ok.
Qed.

Lemma check_authority_signed kv b : check_authority kv b = Ok () → verifyBlockSignatures kv b = Ok ().
Proof.
  unfold check_authority, verifyBlockSignatures. destruct (oracle_of kv) as [oc|]; [|done].
  destruct (opsMatchPrefix _ _); intros H; apply rbind_ok in H as ([] & H1 & H2); done.
Qed.

(** ** Settings that only move forward *)

Definition feature_on kv tip (f : string) : Prop :=
  ∃ raw a r, kv !! ActivationsKey = Some raw ∧ ParseActivations raw = Ok a ∧ a !! f = Some r ∧
    ActiveAt r (sb_Index tip) (sb_Timestamp tip) = true.

Lemma feature_active_on c f : Chain_FeatureActive f c = true ↔ feature_on (ch_kv c) (ch_tip c) f.
Proof.
  unfold Chain_FeatureActive, activationsLocked, Activations_ActiveAt, feature_on. split.
  - intros H. destruct (ch_kv c !! _) as [raw|]; [|by rewrite lookup_empty in H].
    destruct (ParseActivations raw) as [a|] eqn:Ea; [|by rewrite lookup_empty in H].
    destruct (a !! f) as [r|] eqn:Er; [|done]. by exists raw, a, r.
  - intros (raw & a & r & -> & -> & -> & H). done.
Qed.

Lemma ActiveAt_later r i t i' t' : ActiveAt r i t = true → i <= i' → t <= t' → ActiveAt r i' t' = true.
Proof. unfold ActiveAt. rewrite !andb_true_iff, !Z.leb_le. lia. Qed.

Lemma feature_on_step kv tip b f : sb_Index tip < sb_Index b → check_next kv tip b = Ok () →
  feature_on kv tip f → feature_on (ApplyOps (sb_Ops b) kv) b f.
Proof.
  intros Hi Hn (raw & a & r & Hraw & Ha & Hr & Hact). pose proof (check_next_facts _ _ _ Hn) as (_ & _ & Ht & _).
  assert (Hact' : ActiveAt r (sb_Index b) (sb_Timestamp b) = true) by (eapply ActiveAt_later; [done|lia|lia]).
  destruct (sys_lookup _ _ _ ActivationsKey Hn) as [E|(op & Hset & Hk & E & _ & Hv)]; [done|exists raw, a, r; by rewrite E|].
  unfold validateTransition in Hv. rewrite Hset, Hk in Hv. rewrite !bool_decide_true in Hv by done. cbn [negb] in Hv.
  unfold validateActivationsTransition in Hv. rewrite Hraw, Ha in Hv. run.
  match goal with H : result_map_err _ (Ok _) = _ |- _ => apply ok_inj in H; subst end.
  match goal with H : rall _ _ = Ok ?u |- _ => destruct u;
    apply (rall_in _ _ (f, r)) in H as Hf; [|by apply elem_of_map_to_list] end.
  cbn beta iota in Hf. destruct (x !! f) as [newRec|] eqn:Ef; [|done]. rewrite Hact in Hf. run. bool_hyps. subst newRec.
  by exists (op_Value op), x, r.
Qed.

Lemma phase_of_lookup kv kv' : kv' !! "sys.phase" = kv !! "sys.phase" → KVStore_Phase kv' = KVStore_Phase kv.
Proof. intros E. unfold KVStore_Phase. by rewrite E. Qed.

Definition phase_of kv : Z := match KVStore_Phase kv with Ok p => p | Err _ => 0 end.

Lemma phase_step kv tip b : check_next kv tip b = Ok () → phase_of kv <= phase_of (ApplyOps (sb_Ops b) kv).
Proof.
  intros Hn. unfold phase_of.
  destruct (sys_lookup _ _ _ "sys.phase" Hn) as [E|(op & Hset & Hk & E & Hv & Ht)]; [done|by rewrite (phase_of_lookup kv (ApplyOps _ kv))|].
  unfold validateTransition in Ht. rewrite Hset, Hk in Ht. rewrite bool_decide_true, !bool_decide_false, bool_decide_true in Ht by done.
  cbn [negb] in Ht. unfold validateSysKeyValue in Hv. rewrite !bool_decide_false, bool_decide_true in Hv by done.
  unfold validate_phase in Hv. apply rbind_ok in Hv as (p & Hp%map_err_ok & Hv). unfold KVStore_Phase at 2. rewrite E, Hp. cbn [result_map_err rbind].
  apply rfail_if_ok in Hv. rewrite Hv. cbn [rfail_if rbind].
  assert (1 <= p) by (rewrite andb_false_iff, !negb_false_iff, !Z.eqb_eq in Hv; lia).
  unfold KVStore_Phase. destruct (kv !! "sys.phase") as [old|]; [|done]. apply rbind_ok in Ht as (q & Hq%map_err_ok & Ht).
  rewrite Hp in Ht. cbn [result_map_err rbind] in Ht. apply rfail_if_ok in Ht. bool_hyps.
  rewrite Hq. cbn [result_map_err rbind].
  destruct (negb (q =? 1) && negb (q =? 2)); cbn [rfail_if rbind]; lia.
Qed.

(** *** Versions *)

Definition ver_le (a b : option (Z * Z * Z)) : Prop :=
  match a, b with
  | None, _ => True
  | _, None => False
  | Some (a1, a2, a3), Some (b1, b2, b3) => a1 < b1 ∨ (a1 = b1 ∧ (a2 < b2 ∨ (a2 = b2 ∧ a3 <= b3)))
  end.

Lemma compare_le (a b : string) : 0 <= CompareProtocolVersion b a ↔ ver_le (parseProtocolVersion a) (parseProtocolVersion b).
Proof.
  unfold CompareProtocolVersion, ver_le.
  destruct (parseProtocolVersion a) as [[[a1 a2] a3]|], (parseProtocolVersion b) as [[[b1 b2] b3]|]; try lia.
  repeat match goal with |- context [?x =? ?y] => destruct (Z.eqb_spec x y); cbn [negb] end;
    repeat match goal with |- context [?x <? ?y] => destruct (Z.ltb_spec x y) end; lia.
Qed.

Lemma ver_le_trans (a b c : option (Z * Z * Z)) : ver_le a b → ver_le b c → ver_le a c.
Proof. unfold ver_le. destruct a as [[[??]?]|], b as [[[??]?]|], c as [[[??]?]|]; try done. lia. Qed.

Lemma ver_le_refl a : ver_le a a.
Proof. destruct a as [[[??]?]|]; cbn; lia. Qed.

Definition version_of kv : string :=
  match kv !! MinProtocolVersionKey with
  | None => ""
  | Some raw => match unmarshal_string raw with
                | Ok v => if protocolVersion_ok v then v else ""
                | Err _ => ""
                end
  end.

Lemma version_step kv tip b : check_next kv tip b = Ok () →
  ver_le (parseProtocolVersion (version_of kv)) (parseProtocolVersion (version_of (ApplyOps (sb_Ops b) kv))).
Proof.
  intros Hn.
  destruct (sys_lookup _ _ _ MinProtocolVersionKey Hn) as [E|(op & Hset & Hk & E & Hv & Ht)]; [done|..].
  { unfold version_of. rewrite E. apply ver_le_refl. }
  unfold validateTransition in Ht. rewrite Hset, Hk in Ht. rewrite bool_decide_true, !bool_decide_false, bool_decide_true in Ht by done.
  cbn [negb] in Ht. unfold validateSysKeyValue in Hv. rewrite !bool_decide_false, bool_decide_true in Hv by done.
  unfold validateMinProtocolVersion in Hv. apply rbind_ok in Hv as (v & Hp%map_err_ok & Hv). apply rfail_if_ok in Hv. bool_hyps.
  unfold version_of. rewrite E, Hp, Hv. unfold validateMinProtocolVersionTransition in Ht.
  destruct (kv !! MinProtocolVersionKey) as [old|]; [|done]. apply rbind_ok in Ht as (v0 & Hq%map_err_ok & Ht).
  rewrite Hp in Ht. cbn [result_map_err rbind] in Ht. apply rfail_if_ok in Ht. bool_hyps. apply compare_le in Ht.
  rewrite Hq. by destruct (protocolVersion_ok v0).
Qed.

(** *** Keys the oracle governs *)

Lemma write_once_step kv tip b oc k v : check_next kv tip b = Ok () → oracle_of kv = Some oc →
  HasPrefix k (oc_AllowedPrefix oc) = true → kv !! k = Some v → ApplyOps (sb_Ops b) kv !! k = Some v.
Proof.
  intros (_ & _ & _ & _ & _ & Ha)%check_next_facts Ho Hp Hk. unfold check_authority in Ha. rewrite Ho in Ha.
  assert (Hno : ∀ op, op ∈ sb_Ops b → op_Key op ≠ k).
  { intros op Hop <-. destruct (opsMatchPrefix _ _); apply rbind_ok in Ha as ([] & H1 & H2).
    - apply (rall_in _ _ op) in H1; [|done]. cbn beta in H1. apply rbind_ok in H1 as ([] & _ & H1).
      apply rfail_if_ok in H1. bool_hyps. apply H1. eauto.
    - apply (rall_in _ _ op) in H2; [|done]. cbn beta in H2. apply rfail_if_ok in H2. congruence. }
  destruct (ApplyOps_lookup (sb_Ops b) kv k) as [E|[(op & Hop & _ & Hkey & _)|(op & Hop & _ & Hkey & _)]];
    [by rewrite E|by destruct (Hno op)..].
Qed.

(** ** Starting again *)

(** A value that JSON writes as it stands: no space outside strings, nothing that
    HTML would need escaped *)
Definition as_written (op : Op) : Prop := op_Value op = [] ∨ compact (op_Value op) = Some (op_Value op).

Lemma copy_op_id op : ValidateOp op = Ok () → as_written op → copy_op op = Some op.
Proof.
  intros H Hw. unfold ValidateOp in H. run. match goal with H : result_map_err _ (ValidateKey _) = _ |- _ => apply map_err_ok in H end.
  unfold ValidateKey in *. run. bool_hyps. unfold copy_op. rewrite (json_copy_key (op_Key op)) by done.
  assert (Ha : json_copy (op_Action op) = op_Action op).
  { apply json_copy_plain. case_bool_decide as E; [by rewrite E|]. case_bool_decide as E'; [by rewrite E'|done]. }
  rewrite Ha. destruct (decide (op_Value op = [])) as [E|E].
  - rewrite bool_decide_true by done. rewrite <- E. by destruct op.
  - rewrite bool_decide_false by done. destruct Hw as [Hw|Hw]; [done|]. rewrite Hw. by destruct op.
Qed.

Lemma signature_hex hash s : VerifySignature hash s = Ok () → copy_signature s = s ∧ json_copy hash = hash.
Proof.
  unfold VerifySignature, VerifyHexSignature, DecodeHash, DecodePublicKey, DecodeSignature. intros H. run.
  repeat match goal with H : result_map_err _ _ = Ok _ |- _ => apply map_err_ok, json_copy_hex in H end.
  unfold copy_signature. destruct s; cbn in *. split; congruence.
Qed.

Lemma signatures_copied keys t hash sigs : signed_by keys t hash sigs →
  copy_signature <$> sigs = sigs ∧ json_copy hash = hash.
Proof.
  intros (_ & _ & Hne & Hf). split.
  - clear Hne. induction Hf as [|s sigs [_ Hs] _ IH]; [done|]. cbn. rewrite IH. by destruct (signature_hex _ _ Hs) as [-> _].
  - destruct sigs as [|s sigs]; [done|]. apply Forall_cons in Hf as [[_ Hs] _]. by apply signature_hex in Hs as [_ ?].
Qed.

Lemma copy_id kv tip b : VerifyBlockHash b = Ok () → check_next kv tip b = Ok () → Forall as_written (sb_Ops b) →
  copyStateBlock b = b.
Proof.
  intros Hh (_ & _ & _ & _ & Hops & Ha)%check_next_facts Hw. unfold copyStateBlock.
  rewrite (proj2 (mapM_Some copy_op (sb_Ops b) (sb_Ops b))).
  2:{ apply Forall_Forall2_diag. rewrite Forall_forall in *. intros op Hop. apply copy_op_id; [by apply Hops|auto]. }
  assert (Hs : copy_signature <$> signatures b = signatures b ∧ json_copy (sb_Hash b) = sb_Hash b).
  { apply check_authority_signed, verifyBlockSignatures_ok in Ha as [(ks & _ & _ & H)|(oc & _ & _ & H)];
      by apply signatures_copied in H. }
  destruct Hs as [Hs ->]. unfold VerifyBlockHash, StateHashBlock in Hh. run.
  repeat match goal with H : result_map_err _ _ = Ok _ |- _ => apply map_err_ok in H end. run.
  match goal with H : result_map_err _ (MarshalCanonical _) = _ |- _ => apply map_err_ok in H; unfold MarshalCanonical in H end. run.
  match goal with H : result_map_err _ (DecodeString _) = _ |- _ => apply map_err_ok, json_copy_hex in H; rewrite H end.
  destruct b as [idx prev ops [sigs|] hash ts]; cbn in *; [by rewrite Hs|done].
Qed.

Lemma stored_snoc bs b : stored (bs ++ [b]) = <[sb_Index b := copyStateBlock b]> (stored bs).
Proof. unfold stored. by rewrite foldl_app. Qed.

Lemma stored_at g bs kv tip i : sb_Index g = 0 → grown g bs kv tip →
  stored bs !! i = if 1 <=? i then copyStateBlock <$> bs !! Z.to_nat (i - 1) else None.
Proof.
  intros Hg H. induction H as [|bs kv tip b H IH Hi Hh Hn]; [unfold stored; cbn; rewrite lookup_empty; by case_match|].
  destruct (grown_index _ _ _ _ Hg H) as [Ht _]. destruct (grown_index _ _ _ _ Hg (grown_next _ _ _ _ _ H Hi Hh Hn)) as [Hb _].
  unfold zlen in *. rewrite length_app in Hb. cbn in Hb.
  rewrite stored_snoc, lookup_insert.
  case_decide as E; [subst i; rewrite (proj2 (Z.leb_le _ _)) by lia; rewrite lookup_app_r by lia;
    by replace (Z.to_nat (sb_Index b - 1) - length bs)%nat with 0%nat by lia|]. rewrite IH.
  destruct (Z.leb_spec 1 i); [|done]. destruct (decide (i - 1 < Z.of_nat (length bs))).
  - by rewrite lookup_app_l by lia.
  - rewrite (lookup_ge_None_2 bs) by lia. rewrite lookup_ge_None_2; [done|]. rewrite length_app. cbn. lia.
Qed.

Lemma stored_size g bs kv tip : sb_Index g = 0 → grown g bs kv tip → size (stored bs) = length bs.
Proof.
  intros Hg H. induction H as [|bs kv tip b H IH Hi Hh Hn]; [done|]. destruct (grown_index _ _ _ _ Hg H) as [Ht _].
  pose proof (stored_at g bs kv tip (sb_Index b) Hg H) as Hs. unfold zlen in *.
  rewrite stored_snoc, map_size_insert_None, IH, length_app; [cbn; lia|].
  rewrite Hs. case_match; [|done]. by rewrite (lookup_ge_None_2 bs) by lia.
Qed.

Lemma omap_of_fmap {A B D} (f : B → option D) (h : A → B) (l : list A) : omap f (h <$> l) = omap (λ x, f (h x)) l.
Proof. induction l as [|x l IH]; [done|]. cbn. by rewrite IH. Qed.

Lemma omap_lookup_seq {A B} (f : A → B) (l : list A) k :
  omap (λ i, f <$> l !! (i - k)%nat) (seq k (length l)) = f <$> l.
Proof.
  revert k. induction l as [|x l IH]; intros k; [done|]. cbn. rewrite Nat.sub_diag. cbn. f_equal. rewrite <- (IH (S k)).
  apply list_omap_ext, Forall_Forall2_diag, Forall_forall. intros i Hi%elem_of_seq.
  by replace (i - k)%nat with (S (i - S k)) by lia.
Qed.

Lemma stored_range g bs kv tip : sb_Index g = 0 → grown g bs kv tip → zlen bs < two64 - 1 →
  MemStore_GetStateBlockRange 1 (zlen bs) (stored bs) = (copyStateBlock ∘ copyStateBlock) <$> bs.
Proof.
  intros Hg H Hl. unfold MemStore_GetStateBlockRange, u64_add, u64. rewrite Z.mod_small by (unfold zlen in *; lia).
  replace (1 + zlen bs - 1) with (zlen bs) by lia. unfold zlen, seqZ. rewrite Nat2Z.id, omap_of_fmap, <- (omap_lookup_seq _ bs 0).
  apply list_omap_ext, Forall_Forall2_diag, Forall_forall. intros i _. unfold MemStore_GetStateBlock. cbn.
  rewrite (stored_at g bs kv tip) by done. rewrite (proj2 (Z.leb_le _ _)) by lia.
  replace (Z.to_nat (Z.of_nat i + 1 - 1)) with (i - 0)%nat by lia. by rewrite option_fmap_compose.
Qed.

Lemma replay_app e bs1 bs2 c : replay_blocks e (bs1 ++ bs2) c =
  match replay_blocks e bs1 c with (Ok e', c') => replay_blocks e' bs2 c' | (Err x, c') => (Err x, c') end.
Proof.
  revert e c. induction bs1 as [|b bs1 IH]; intros e c; [done|]. cbn [app replay_blocks].
  unfold mbind_, mfail_if, mlift, mwrap, mget, mmodify. destruct (rfail_if _ _) as [[]|]; [|done].
  destruct (VerifyBlockHash b) as [[]|]; [|done]. cbn [result_map_err].
  destruct (rfail_if _ _) as [[]|]; [|done]. destruct (verifyBlockSignatures _ _) as [[]|]; [|done]. apply IH.
Qed.

Lemma replay_one e b c : sb_Index b = e → VerifyBlockHash b = Ok () → sb_PrevHash b = sb_Hash (ch_tip c) →
  verifyBlockSignatures (ch_kv c) b = Ok () → replay_blocks e [b] c = (Ok (u64_add e 1), applyValidated b c).
Proof.
  intros Hi Hh Hp Hs. cbn [replay_blocks]. unfold mbind_, mfail_if, mlift, mwrap, mget, mmodify, mret_.
  rewrite Hi, Z.eqb_refl. cbn [negb rfail_if]. rewrite Hh. cbn [result_map_err]. rewrite bool_decide_true by done.
  cbn [negb rfail_if]. by rewrite Hs.
Qed.

Lemma replay_grown g bs kv tip st : sb_Index g = 0 → grown g bs kv tip → zlen bs < two64 - 1 →
  replay_blocks 1 bs (mkChain st (ApplyOps (sb_Ops g) ∅) g g [] []) = (Ok (1 + zlen bs), mkChain st kv tip g [] []).
Proof.
  intros Hg H. induction H as [|bs kv tip b H IH Hi Hh Hn]; intros Hl; [done|].
  unfold zlen in *. rewrite length_app in *. cbn in Hl. rewrite replay_app, IH by lia.
  pose proof (check_next_facts _ _ _ Hn) as (_ & Hp & _ & _ & _ & Ha).
  destruct (grown_index _ _ _ _ Hg (grown_next _ _ _ _ _ H Hi Hh Hn)) as [Hb _]. unfold zlen in Hb.
  rewrite length_app in Hb. cbn in Hb. rewrite replay_one; [|cbn; lia|done|done|by apply check_authority_signed].
  unfold applyValidated, u64_add, u64. cbn. rewrite Z.mod_small by lia. do 2 f_equal. lia.
Qed.

Definition no_fault : state_call → option error := λ _, None.

Lemma restart_rebuilds g c bs ks0 : ValidateGenesis g = Ok () → sb_Index g = 0 →
  KVStore_DAOKeyset (ApplyOps (sb_Ops g) ∅) = Ok ks0 → holds g c bs →
  Forall (λ b, Forall as_written (sb_Ops b)) bs → zlen bs < two64 - 1 →
  NewChain no_fault (ch_store c) g = Ok (mkChain (ch_store c) (ch_kv c) (ch_tip c) g [] []).
Proof.
  intros Hv Hg Hk [H _ Hs] Hw Hl. unfold NewChain. rewrite Hv, Hs. cbn [result_map_err rbind].
  destruct (grown_keyset _ _ _ _ _ Hk H) as [ks Hks].
  assert (Hc : (copyStateBlock ∘ copyStateBlock) <$> bs = bs).
  { rewrite <- (list_fmap_id bs) at 2. apply list_fmap_ext. intros i b Hb.
    destruct (grown_at _ _ _ _ _ _ H Hb) as (kv' & tip' & _ & _ & Hh & Hn).
    assert (copyStateBlock b = b) as E by (eapply copy_id; [done..|]; rewrite Forall_lookup in Hw; eauto).
    cbn. by rewrite !E. }
  unfold replay, mbind_, mget, mlift, mfail_if, st_call, no_fault. cbn [ch_store]. unfold MemStore_StateBlockCount.
  rewrite (stored_size g bs _ _ Hg H). fold (zlen bs). destruct (Z.eqb_spec (zlen bs) 0) as [E|E].
  - destruct bs; [|done]. destruct (grown_state _ _ _ _ H) as [E1 E2]. unfold state_after, tip_after in *.
    cbn [foldl last default] in *. unfold mret_. cbn [ch_kv]. rewrite E1 in Hks |- *. by rewrite E2, Hks.
  - rewrite (stored_range g bs _ _ Hg H Hl), Hc, (replay_grown g bs _ _ _ Hg H Hl). cbn [mlift].
    unfold u64_sub, u64. rewrite Z.mod_small by (unfold zlen in *; lia).
    replace (1 + zlen bs - 1) with (zlen bs) by lia. unfold mlift. rewrite Z.eqb_refl. cbn [negb rfail_if ch_kv].
    by rewrite Hks.
Qed.
End chain.
