(* ===== verification/StateTheorems.v ===== *)
(** * The governance chain: results

    What holds after any sequence of blocks offered to a new chain, and a run in
    which an accepted block keeps a node from starting again. *)
From S2P Require Import Prelude GoLib Json Types Encoding EncodingFacts Crypto StateKV StateChain StateFacts.

(** ** The hash *)

(** What of an operation is hashed *)
Definition op_view (op : Op) : Op := mkOp (op_Action op) (op_Key op) (if op_Action op =?s ActionSet then op_Value op else []).

Definition op_small (op : Op) : Prop := slen (op_Key op) < 65536 ∧ zlen (op_Value op) < 4294967296.
Definition sblock_small (b : SBlock) : Prop :=
  is_u64 (sb_Index b) ∧ is_i64 (sb_Timestamp b) ∧ zlen (sb_Ops b) < 4294967296 ∧ Forall op_small (sb_Ops b).

Lemma delimited_u16 : delimited PutUint16 (λ z, 0 <= z < 65536).
Proof.
  apply (delimited_fixed _ _ 2); [intros; apply length_be_bytes|].
  intros x y Hx Hy E%(f_equal be_value). unfold PutUint16 in E. rewrite !be_value_bytes in E.
  change (256 ^ Z.of_nat 2) with 65536 in E. by rewrite !Z.mod_small in E.
Qed.

Lemma marshal_op_inj i j op1 op2 x1 x2 r1 r2 : op_small op1 → op_small op2 →
  marshal_op i op1 = Ok x1 → marshal_op j op2 = Ok x2 → x1 ++ r1 = x2 ++ r2 → op_view op1 = op_view op2 ∧ r1 = r2.
Proof.
  intros [Hk1 Hv1] [Hk2 Hv2] H1 H2 E. unfold marshal_op in H1, H2. run. rewrite <- !app_assoc in E.
  apply app_inj_1 in E as [Ea E]; [|done]. assert (x0 = x) as -> by congruence. clear Ea. assert (∀ s, 0 <= slen s) by (intros; unfold slen; lia). assert (∀ l : list Z, 0 <= zlen l) by (intros; unfold zlen; lia).
  apply delimited_u16 in E as [El E]; [|split; auto..].
  apply app_inj_1 in E as [Ek E]; [|rewrite !length_bytes; unfold slen in El; lia]. apply bytes_inj in Ek.
  unfold op_view. rewrite Ek.
  destruct (bool_decide (op_Action op1 = ActionSet)) eqn:E1, (bool_decide (op_Action op2 = ActionSet)) eqn:E2; bool_hyps.
  - rewrite E1, E2. rewrite <- !app_assoc in E. apply delimited_u32 in E as [En E]; [|split; auto..].
    apply app_inj_1 in E as [-> ->]; [done|]. unfold zlen in En. lia.
  - run. subst. by destruct (bool_decide (op_Action op2 = ActionDelete)); run.
  - run. subst. by destruct (bool_decide (op_Action op1 = ActionDelete)); run.
  - apply app_inj_1 in E as [_ ->]; [|done].
    destruct (bool_decide (op_Action op1 = ActionDelete)) eqn:D1; [|done].
    destruct (bool_decide (op_Action op2 = ActionDelete)) eqn:D2; [|done]. bool_hyps. by rewrite D1, D2.
Qed.

Lemma marshal_ops_inj i j ops1 ops2 x1 x2 r1 r2 : Forall op_small ops1 → Forall op_small ops2 → length ops1 = length ops2 →
  marshal_ops i ops1 = Ok x1 → marshal_ops j ops2 = Ok x2 → x1 ++ r1 = x2 ++ r2 →
  op_view <$> ops1 = op_view <$> ops2 ∧ r1 = r2.
Proof.
  revert i j ops2 x1 x2 r1 r2. induction ops1 as [|op1 ops1 IH]; intros i j [|op2 ops2] x1 x2 r1 r2 F1 F2 Hl H1 H2 E; try done.
  { cbn in H1, H2. run. done. }
  apply Forall_cons in F1 as [S1 F1], F2 as [S2 F2]. cbn [marshal_ops] in H1, H2. run. rewrite <- !app_assoc in E.
  eapply (marshal_op_inj _ _ op1 op2) in E as [Ev E]; [|eassumption..].
  eapply (IH _ _ ops2) in E as [Evs ->]; [|done|done|by injection Hl|eassumption..].
  cbn. by rewrite Ev, Evs.
Qed.

(** C40: The bytes a state block's hash covers determine its index, its predecessor,
    its operations and its timestamp; only the value of a deletion is free. *)
Theorem MarshalCanonical_binding b1 b2 m : sblock_small b1 → sblock_small b2 →
  MarshalCanonical b1 = Ok m → MarshalCanonical b2 = Ok m →
  sb_Index b1 = sb_Index b2 ∧ ToLower (sb_PrevHash b1) = ToLower (sb_PrevHash b2) ∧
  op_view <$> sb_Ops b1 = op_view <$> sb_Ops b2 ∧ sb_Timestamp b1 = sb_Timestamp b2.
Proof.
  intros (I1 & T1 & N1 & S1) (I2 & T2 & N2 & S2) H1 H2. unfold MarshalCanonical in H1, H2. run. bool_hyps.
  repeat match goal with H : result_map_err _ _ = Ok _ |- _ => apply map_err_ok in H end.
  match goal with H : _ = _ ++ _ |- _ => rename H into E | H : _ ++ _ = _ |- _ => rename H into E end.
  apply delimited_u64 in E as [Ei E]; [|done..].
  apply app_inj_1 in E as [Ep E]; [|unfold zlen in *; lia].
  assert (∀ l : list Op, 0 <= zlen l) by (intros; unfold zlen; lia).
  apply delimited_u32 in E as [En E]; [|split; auto..].
  eapply (marshal_ops_inj _ _ (sb_Ops b1) (sb_Ops b2)) in E as [Ev E]; [|done|done|unfold zlen in *; lia|eassumption..].
  rewrite <- (app_nil_r (PutUint64 (sb_Timestamp b1))), <- (app_nil_r (PutUint64 (sb_Timestamp b2))) in E.
  apply delimited_i64 in E as [Et _]; [|done..]. split_and!; try done.
  repeat match goal with H : DecodeString _ = Ok _ |- _ => apply EncodeToString_DecodeString in H; rewrite <- H; clear H end.
  by rewrite Ep.
Qed.

Section runs.
Context `{C : Crypto}.

(** C23: Whatever is offered to a new chain, in whatever order and with whatever
    failures of the store, the blocks it holds are numbered from 1, each names the
    hash of the one before and is not older, its own hash is right, and at least
    the threshold of different members of the keyset then in force, two for the
    DAO, signed it; blocks of the oracle stay within its prefix. *)
Theorem statechain_governed fault g c0 ins : NewChain fault ∅ g = Ok c0 →
  ∃ bs, ch_kv (feed ins c0) = state_after g bs ∧ ch_tip (feed ins c0) = tip_after g bs ∧
    bs `sublist_of` ins.*2 ∧
    ∀ i b, bs !! i = Some b →
      let prev := tip_after g (take i bs) in
      sb_Index b = Z.of_nat i + 1 ∧ sb_PrevHash b = sb_Hash prev ∧ sb_Timestamp prev <= sb_Timestamp b ∧
      VerifyBlockHash b = Ok () ∧ authorised (state_after g (take i bs)) b.
Proof.
  intros (H & Hv & _)%NewChain_fresh. destruct (feed_holds _ ins _ _ H) as (bs & [Hb _ _] & Hs). cbn in Hb. exists bs.
  destruct (grown_state _ _ _ _ Hb) as [-> ->]. split_and!; [done..|]. intros i b Hi.
  assert (Hg : sb_Index g = 0) by (unfold ValidateGenesis in Hv; run; bool_hyps; done).
  destruct (grown_at _ _ _ _ _ _ Hb Hi) as (kv & tip & Hgr & Hlt & Hh & Hn).
  destruct (grown_index _ _ _ _ Hg (grown_next _ _ _ _ _ Hgr Hlt Hh Hn)) as [Hidx _].
  destruct (grown_state _ _ _ _ Hgr) as [-> ->].
  pose proof (check_next_facts _ _ _ Hn) as (_ & Hp & Ht & _ & _ & Ha). cbn zeta. split_and!; [|done..|].
  - rewrite Hidx. unfold zlen. rewrite length_app, length_take. apply lookup_lt_Some in Hi. cbn. lia.
  - by apply verifyBlockSignatures_ok, check_authority_signed.
Qed.

(** *** Settings *)

Lemma feed_step (R : Chain → Chain → Prop) ins c : (∀ c, R c c) → (∀ c1 c2 c3, R c1 c2 → R c2 c3 → R c1 c3) →
  (∀ fault b c, R c (Chain_AddBlock fault b c).2) → R c (feed ins c).
Proof.
  intros Hr Ht Hs. revert c. induction ins as [|[fault b] ins IH]; intros c; [apply Hr|].
  change (feed ((fault, b) :: ins) c) with (feed ins (Chain_AddBlock fault b c).2). eauto.
Qed.

(** What one call leaves as it is or moves forward *)
Definition forward (c c' : Chain) : Prop :=
  (∀ f, Chain_FeatureActive f c = true → Chain_FeatureActive f c' = true) ∧
  Chain_Phase c <= Chain_Phase c' ∧
  ver_le (parseProtocolVersion (MinProtocolVersion c)) (parseProtocolVersion (MinProtocolVersion c')).

Lemma forward_step fault b c : forward c (Chain_AddBlock fault b c).2.
Proof.
  pose proof (AddBlock_cases fault b c) as H. destruct (Chain_AddBlock fault b c) as [r c']. cbn [snd].
  destruct H as [[(_ & E2 & E3 & _) _]|(_ & Hi & _ & Hn & ->)].
  - unfold forward. setoid_rewrite feature_active_on. unfold Chain_Phase, MinProtocolVersion. rewrite E2, E3.
    split_and!; [done|lia|apply ver_le_refl].
  - split_and!.
    + intros f. rewrite !feature_active_on. by apply feature_on_step.
    + exact (phase_step _ _ _ Hn).
    + exact (version_step _ _ _ Hn).
Qed.

(** C24: Governance moves one way: from any state on, a feature that is active stays
    active, the phase never goes back, the required protocol version never drops,
    and what stands under the prefix of an oracle is not written again while the
    oracle keeps that prefix. *)
Theorem statechain_one_way ins c :
  let c' := feed ins c in
  (∀ f, Chain_FeatureActive f c = true → Chain_FeatureActive f c' = true) ∧
  Chain_Phase c <= Chain_Phase c' ∧
  0 <= CompareProtocolVersion (MinProtocolVersion c') (MinProtocolVersion c) ∧
  ∀ prefix k v,
    (∀ n, ∃ oc, oracle_of (ch_kv (feed (take n ins) c)) = Some oc ∧ oc_AllowedPrefix oc = prefix) →
    HasPrefix k prefix = true → ch_kv c !! k = Some v → ch_kv c' !! k = Some v.
Proof.
  assert (H : forward c (feed ins c)).
  { apply feed_step; [|unfold forward|apply forward_step].
    - intros c1. split_and!; [done|lia|apply ver_le_refl].
    - intros c1 c2 c3 (? & ? & ?) (? & ? & ?). split_and!; [auto|lia|by eapply ver_le_trans]. }
  destruct H as (H1 & H2 & H3). cbn zeta. split_and!; [done..|by apply compare_le|]. clear H1 H2 H3.
  intros prefix k v. revert c. induction ins as [|[fault b] ins IH]; intros c Ho Hk Hv; [done|].
  change (feed ((fault, b) :: ins) c) with (feed ins (Chain_AddBlock fault b c).2). apply IH; [|done|].
  - intros n. apply (Ho (S n)).
  - destruct (Ho 0%nat) as (oc & Hoc & <-). cbn in Hoc. pose proof (AddBlock_cases fault b c) as H.
    destruct (Chain_AddBlock fault b c) as [r c']. cbn [snd].
    destruct H as [[(_ & E2 & _) _]|(_ & _ & _ & Hn & ->)]; [by rewrite E2|by eapply write_once_step].
Qed.

(** ** Restarts *)

(** C25: A chain restarted from its store comes up in the state it was in, when the
    blocks it was offered carried their values as JSON writes them. *)
Theorem statechain_restart fault g c0 ins : NewChain fault ∅ g = Ok c0 →
  Forall (λ b, Forall as_written (sb_Ops b)) ins.*2 → zlen ins < two64 - 1 →
  let c := feed ins c0 in
  NewChain no_fault (ch_store c) g = Ok (mkChain (ch_store c) (ch_kv c) (ch_tip c) g [] []).
Proof.
  intros (H & Hv & _)%NewChain_fresh Hw Hl. destruct (feed_holds _ ins _ _ H) as (bs & Hb & Hs). cbn in Hb. cbn zeta.
  assert (Hg : sb_Index g = 0 ∧ ∃ ks, KVStore_DAOKeyset (ApplyOps (sb_Ops g) ∅) = Ok ks).
  { unfold ValidateGenesis in Hv. run. bool_hyps. split; [done|].
    match goal with H : result_map_err _ (KVStore_DAOKeyset _) = _ |- _ => apply map_err_ok in H; eauto end. }
  destruct Hg as (Hg & ks & Hk). eapply restart_rebuilds; [done..| |].
  { rewrite Forall_forall in Hw |- *. intros b Hin. apply Hw. by eapply elem_of_sublist. }
  apply sublist_length in Hs. rewrite length_fmap in Hs. unfold zlen in *. lia.
Qed.
End runs.

(** ** A network *)

Definition gov_key (n : Z) : KeyPair := KeyPairFromSeed [n].
Definition gov_keys_json (threshold : string) (ns : list Z) (more : list (list Z)) : list Z :=
  braces ([key_bytes "keys" ++ brackets ((λ n, json_string (PubKeyHex (gov_key n))) <$> ns);
           key_bytes "threshold" ++ bytes threshold] ++ more).
Definition gov_set (k : string) (v : list Z) : Op := mkOp ActionSet k v.

(** A block with its hash, signed by some keys *)
Definition gov_seal (index : Z) (prev : string) (ts : Z) (signers : list Z) (ops : list Op) : SBlock :=
  let hash := match StateHashBlock (mkSBlock index prev ops None "" ts) with Ok h => h | Err _ => "" end in
  let sign n := match StateSignBlock (mkSBlock index prev ops None hash ts) (gov_key n) with
                | Ok s => s | Err _ => mkBlockSignature "" "" end in
  mkSBlock index prev ops (Some (sign <$> signers)) hash ts.

Definition gov_genesis : SBlock := gov_seal 0 zero_hash 5 [1; 2]
  [gov_set "sys.dao_keyset" (gov_keys_json "2" [1; 2; 3] []); gov_set "sys.phase" (bytes "1");
   gov_set "sys.oracle" (gov_keys_json "1" [4] [key_bytes "allowed_prefix" ++ json_string "epoch."])].

(** A feature from block 2 on, and the second phase with a version floor *)
Definition gov_1 : SBlock := gov_seal 1 (sb_Hash gov_genesis) 6 [1; 3]
  [gov_set ActivationsKey (braces [key_bytes "features" ++ braces [key_bytes "fast" ++ braces [key_bytes "at_index" ++ bytes "2"]]])].
Definition gov_2 : SBlock := gov_seal 2 (sb_Hash gov_1) 6 [2; 3]
  [gov_set "sys.phase" (bytes "2"); gov_set MinProtocolVersionKey (json_string "1.2.0")].
(** Only one signature; a removal of the feature; the first phase again *)
Definition gov_unsigned : SBlock := gov_seal 3 (sb_Hash gov_2) 7 [1] [gov_set "app.x" (bytes "1")].
Definition gov_remove : SBlock := gov_seal 3 (sb_Hash gov_2) 7 [1; 2] [gov_set ActivationsKey (bytes "{}")].
Definition gov_back : SBlock := gov_seal 3 (sb_Hash gov_2) 7 [1; 2] [gov_set "sys.phase" (bytes "1")].

Definition gov_start : Chain := match NewChain no_fault ∅ gov_genesis with
  | Ok c => c | Err _ => mkChain ∅ ∅ gov_genesis gov_genesis [] [] end.
Definition gov_ins : list ((state_call → option error) * SBlock) := (no_fault,.) <$> [gov_2; gov_1; gov_2].
Definition gov_bad : list ((state_call → option error) * SBlock) := (no_fault,.) <$> [gov_unsigned; gov_remove; gov_back].

Lemma gov_started : NewChain no_fault ∅ gov_genesis = Ok gov_start.
Proof. vm_compute. reflexivity. Qed.

Lemma MarshalCanonical_binding_witness :
  sblock_small gov_1 ∧ is_ok (MarshalCanonical gov_1) = true ∧
  op_view <$> sb_Ops gov_1 = op_view <$> sb_Ops (gov_seal 1 (sb_Hash gov_genesis) 6 [2] (sb_Ops gov_1)).
Proof.
  assert (Hs : ∀ n, sblock_small (gov_seal 1 (sb_Hash gov_genesis) 6 n (sb_Ops gov_1))).
  { intros n. split; [vm_compute; split; congruence|]. split; [vm_compute; split; congruence|].
    split; [vm_compute; congruence|]. constructor; [vm_compute; split; reflexivity|constructor]. }
  split; [exact (Hs [1; 3])|]. split; [vm_compute; reflexivity|].
  destruct (MarshalCanonical gov_1) as [m|e] eqn:E; [|exfalso; revert E; vm_compute; congruence].
  destruct (MarshalCanonical_binding gov_1 (gov_seal 1 (sb_Hash gov_genesis) 6 [2] (sb_Ops gov_1)) m
    (Hs [1; 3]) (Hs [2]) E E) as (_ & _ & H & _). exact H.
Defined.

Lemma statechain_governed_witness :
  sb_Index (ch_tip (feed gov_ins gov_start)) = 2 ∧
  ∃ bs, ch_tip (feed gov_ins gov_start) = tip_after gov_genesis bs ∧
    ∀ i b, bs !! i = Some b → sb_Index b = Z.of_nat i + 1 ∧ authorised (state_after gov_genesis (take i bs)) b.
Proof.
  split; [vm_compute; reflexivity|].
  destruct (statechain_governed no_fault gov_genesis gov_start gov_ins gov_started) as (bs & _ & Ht & _ & H).
  exists bs. split; [exact Ht|]. intros i b Hi. destruct (H i b Hi) as (H1 & _ & _ & _ & H2). split; [exact H1|exact H2].
Defined.

Lemma statechain_one_way_witness :
  Chain_FeatureActive "fast" (feed gov_ins gov_start) = true ∧ Chain_Phase (feed gov_ins gov_start) = 2 ∧
  Chain_FeatureActive "fast" (feed gov_bad (feed gov_ins gov_start)) = true ∧
  Chain_Phase (feed gov_ins gov_start) <= Chain_Phase (feed gov_bad (feed gov_ins gov_start)).
Proof.
  assert (Hf : Chain_FeatureActive "fast" (feed gov_ins gov_start) = true) by (vm_compute; reflexivity).
  destruct (statechain_one_way gov_bad (feed gov_ins gov_start)) as (H1 & H2 & _).
  split; [exact Hf|]. split; [vm_compute; reflexivity|]. split; [exact (H1 "fast" Hf)|exact H2].
Defined.

Lemma statechain_restart_witness :
  Z.of_nat (size (ch_store (feed gov_ins gov_start))) = 2 ∧
  NewChain no_fault (ch_store (feed gov_ins gov_start)) gov_genesis =
    Ok (mkChain (ch_store (feed gov_ins gov_start)) (ch_kv (feed gov_ins gov_start)) (ch_tip (feed gov_ins gov_start))
          gov_genesis [] []).
Proof.
  split; [vm_compute; reflexivity|].
  apply (statechain_restart no_fault gov_genesis gov_start gov_ins gov_started);
    [repeat constructor; right; vm_compute; reflexivity|vm_compute; reflexivity].
Defined.

(** ** A block that keeps the node from starting

    The value [[1, 2]] has a space in it, which the hash covers and the store
    drops. *)
Definition gov_spaced : SBlock := gov_seal 1 (sb_Hash gov_genesis) 6 [1; 2] [gov_set "app.limits" (bytes "[1, 2]")].

(** A run in which a block with a space in a value is accepted, stored and
    announced, and the chain then refuses to start from its own store: the stored
    value is compacted and no longer has the hash that was signed. *)
Theorem spaced_value_refuses_restart :
  NewChain no_fault ∅ gov_genesis = Ok gov_start ∧
  (Chain_AddBlock no_fault gov_spaced gov_start).1 = Ok () ∧
  let c := (Chain_AddBlock no_fault gov_spaced gov_start).2 in
  ch_announced c = [gov_spaced] ∧
  match NewChain no_fault (ch_store c) gov_genesis with
  | Ok _ => False
  | Err e => HasPrefix (err_msg e) "NewChain: replay: block 1: hash mismatch" = true
  end.
Proof. split; [exact gov_started|]. split; [vm_compute; reflexivity|]. split; vm_compute; reflexivity. Qed.
